(* ===== verification/_CoqProject ===== *)
-Q . S2P
Prelude.v
GoStd.v
Sha256.v
Abi.v
Checkpoint.v
Attestation.v
Fs.v
Json.v
ReplayGuard.v
GuardSystem.v
Logging.v
Asn1.v
Signer.v
Arbiter.v
BridgeServer.v
ServerProps.v
Service.v
AuditTrail.v
Health.v
Privval.v
ConsensusLog.v
ConnKey.v
Config.v
Daemon.v
SignLedger.v
Commands.v
CommandTree.v
Shutdown.v
Calls.v
Runtime.v
