(* ===== verification/Prelude.v ===== *)
(** * bridge-signer: a verification development

    The program is a remote signer for a Tellor-layer validator.  One process
    holds the validator's secp256k1 bridge key behind a gRPC service, and the
    validator's consensus key behind CometBFT privval connections that it
    dials itself:

    - [src/server]: the gRPC service.  It never signs what it is handed: a
      bridge checkpoint or an oracle attestation is recomputed from its
      structured fields and compared, a transaction must carry only
      allow-listed messages, and a replay guard with a persisted high-water
      mark lets each checkpoint timestamp be signed once.
    - [src/signer]: the backends that hold the bridge key (a cosmos keyring
      file, the Fortanix DSM service), DER and Ethereum signature forms,
      passphrases, atomic file creation.
    - [src/consensus]: the privval dial clients, the validation in front of
      CometBFT's signer, the arbiter that elects which node is signed for,
      the last-sign state file and the key files.
    - [src/health]: plain HTTP endpoints on the loopback interface:
      liveness, readiness, the bridge address, metrics.
    - [src/config], [src/metrics], [src/logging], [src/api/tls] and
      [src/cmd/bridge-signer]: configuration, gauges, audit log, transport
      credentials, the command tree, and the daemon that puts the parts
      together.  The gRPC server reads the elected primary from the arbiter
      of the consensus part and refuses the per-block requests of other
      hosts.

    ** How code is modelled

    A Go function is a Rocq function with the source's name.  A call that may
    fail returns [result] (a value, an error or a panic); code with state is
    [ST S A], explicit state passing over the state [S] it shares: the disk
    ([fs]), the guard with its disk ([gfs]), the server's [world], the dial
    clients' [shared].  Strings and byte slices are [list byte]; integers are
    [Z] with wrap-around written out ([u64]).  Errors keep their format
    string and arguments uninterpreted, so that wrapping and [errors.Is] are
    visible.  The lines a handler logs are part of the [world] it leaves;
    [LR] is a check that logs, and worlds that differ only in their log
    are [≡].  Concurrency is a step relation: a mutex makes one operation
    one step, everything else interleaves.  A gRPC call is there a process
    ([proc]), a tree of events, checked against a [Protocol].

    Third-party code is a class of operations, and what a proof needs of it
    a class of laws: [GoEthereum]/[GoEthereumLaws] (Keccak, ABI types),
    [Crypto]/[CryptoLaws]/[CryptoSignLaws] (secp256k1), [Dsm], [KeyringLib],
    [NodeLib] (cosmos decoding, bech32), [CometBFT]/[CometBFTLaws],
    [PrivVal]/[PrivValLaws], [CometKeys]/[CometKeysLaws],
    [FilePVLib]/[FilePVLaws] (the last-sign state), [TlsLib],
    [Cobra]/[CobraLaws] (which command a line resolves to),
    [SdkConfig]/[SdkConfigLaws] (the sealed bech32 configuration); the YAML
    decoder and float rounding of durations are function arguments.  Each
    class of laws a property rests on has a concrete instance next to the
    witnesses, so the laws can hold.  Keccak is never assumed injective: a
    statement that needs it ends in an explicit pair of colliding inputs.

    ** Files

    - [Prelude]: bytes, machine integers, errors, [result], [ST], the
      notations of [go_scope], [go_inv].
    - [GoStd], [Sha256], [Json], [Asn1], [Abi]: the parts of Go's library and
      of the ABI encoding the program calls, with their round trips
      (decimal, hexadecimal, JSON object, DER integer, ABI injectivity).
    - [Checkpoint], [Attestation]: [server/checkpoint.go],
      [server/attestation.go]; canonical order, layouts, what a hash binds.
    - [Fs]: a disk with directory entries that lag behind until they are
      synced, files that may be torn until they are synced, and faults at
      every system call; [writeBytesAtomic] of [server/replay_guard.go],
      [signer/atomicwrite.go] and [consensus/statefile.go] on it.
    - [ReplayGuard]: [server/replay_guard.go].  [GuardSystem]: the guard
      under concurrent handlers, faults, crashes and restarts.
    - [Signer]: the [signer] package.
    - [Logging]: [logging/logging.go]: records, levels, what is written.
    - [Arbiter]: [consensus/primary.go], with histories of calls.
    - [BridgeServer]: [server/server.go], [auth.go], [initial.go]: the
      handlers, the interceptors, [serve]; [ServerProps]: its theorems;
      [AuditTrail]: what the log shows of what was signed.
    - [Service]: [api/gen/signer/v1/signer_grpc.pb.go]: the stubs, the
      handlers of the methods and the descriptor.
    - [Health]: [health/health.go].
    - [Privval]: [consensus/handler.go], [validate.go], [server.go],
      [locked_pv.go], [metrics/metrics.go]: validation, gate, connection
      loop, dial clients.  [ConsensusLog]: the lines the arbiter and the
      connections log, what they and the connection gauge tell an operator.
    - [ConnKey]: [consensus/connkey.go], [consensus/loadpv.go].
    - [Config]: [config/config.go].
    - [Daemon]: [cmd_start.go] up to serving, with the dial clients it starts
      already running beside the rest of it; [api/tls/tls.go].
    - [SignLedger]: the dial clients of [Privval] over the validator
      [Daemon] loads, across kills and restarts, with the ledger of every
      vote and proposal signed.
    - [Commands]: [cmd_export.go], [cmd_init.go].  [CommandTree]:
      [main.go], [cmd_root.go] and what each command runs.
    - [Shutdown]: the rest of [cmd_start.go], with the life of both servers.
    - [Calls]: the handlers and interceptors of [server.go] once more, as
      processes whose accesses to shared state are events.  [Runtime]: the
      daemon while it serves, with calls in progress, dial clients, faults,
      crashes and restarts.

    ** What is shown

    - Authorisation: whatever arrives, only digests the request authorises
      reach the backend (C1), each handler does exactly what its gates say
      (C3, C19, C21, C28), the doors in front of them (C17), what a signed
      checkpoint or snapshot commits to (C12, C32); and the client's stubs
      and the server's descriptor mean the same methods (C33).
    - The running daemon, with any number of calls in progress and over
      every interleaving, fault, crash and restart: one signature per
      checkpoint timestamp, every signature authorised and every reply a
      signature released (C2), as a refinement of the guard's own system
      (C14); vote extensions are signed for the connected primary (C23).
      Undisturbed, a call's process runs as its handler does
      ([call_runs_as_specified]).
    - The guard: its error paths, persistence, restarts and retries (C5, C9,
      C13, C16, C18, C36).
    - Audit: what is signed and what is logged agree, down to the request's
      id, the hash and the outcome on the line (C10).
    - Signature forms: low S, recovery against the pinned key (C11, C22).
    - Consensus signing: over all nodes, interleavings, kills and restarts
      no two signatures conflict (C4); what reaches the validator and what
      is answered (C7, C24, C37), how the primary role moves (C8, C25, C29),
      where the gate goes wrong (C38, C39), and what the connection gauge
      shows (C40).
    - Files, commands and startup: bootstrap and key files are never
      overwritten and an exported key goes only where it was sent (C30,
      C35), the connection key survives a restart (C34), what a command line
      can reach (C20), a started daemon is as configured, resumes from its
      files and writes nothing else itself (C6, C26, C27).
    - The HTTP and gRPC views of the address agree (C31), and a daemon told
      to stop stops, with the value that says why (C15).

    ** Bounds and fuel

    [FormatUint] has twenty digits of fuel, enough for a [uint64]; the JSON
    parser and encoder, the DER check, [strip_all], [parse_terms] and the
    hash loops recurse on the length of their input, which every iteration
    shortens; nothing else needs fuel.  Loops over connections and over
    requests are step relations or recursion over the list of frames read.
    Deadlines are not modelled: an expired request context is an error of the
    backend call, an expired shutdown timeout a step that may happen at any
    time.  A call that waits, for a mutex or a backend, is one whose next
    event is not taken; the theorems on the running daemon hold of such runs
    too, and none says that a call returns.

    ** Not modelled

    Sockets and the HTTP transport (what listening and serving return is an
    argument), how [slog] renders a record and the elapsed times in it,
    Prometheus exposition, protobuf encoding, grpc-go's dispatch and its
    reflection service, the TLS handshake, CometBFT's
    signing state machine behind [PrivVal], flag parsing and help texts.  In
    [Fs] a path names one file system and reading never fails but by an
    injected fault.  How CometBFT writes its state file is the library's:
    [SignLedger] has the file survive a kill of the process, and says
    nothing of a machine that stops. *)

From Stdlib Require Export ZArith Lia.
From Stdlib Require Export Strings.Byte Strings.String.
From stdpp Require Export base tactics list option gmap strings numbers sorting.

#[global] Open Scope Z_scope.

(** ** Bytes and Go strings

    A Go [string] and a Go [[]byte] are both finite sequences of bytes; both
    are [list byte] here. *)

Abbreviation byte := Init.Byte.byte.
Abbreviation bytes := (list byte).

#[export] Instance byte_eq_dec : EqDecision byte := Byte.byte_eq_dec.

#[export] Instance byte_countable : Countable byte.
Proof.
  refine (inj_countable Byte.to_N Byte.of_N _).
  apply Byte.of_to_N.
Defined.

(** A Go string literal. *)
Definition bs (s : string) : bytes := list_byte_of_string s.

Definition byte_to_Z (b : byte) : Z := Z.of_N (Byte.to_N b).

(** Conversion of an integer to [byte]: the low eight bits. *)
Definition byte_of_Z (z : Z) : byte :=
  match Byte.of_N (Z.to_N (z mod 256)) with
  | Some b => b
  | None => x00
  end.

Lemma byte_to_Z_range b : 0 <= byte_to_Z b < 256.
Proof.
  unfold byte_to_Z. pose proof (Byte.to_N_bounded b). lia.
Qed.

Lemma byte_to_of_Z z : byte_to_Z (byte_of_Z z) = z mod 256.
Proof.
  unfold byte_to_Z, byte_of_Z.
  pose proof (Z.mod_pos_bound z 256 ltac:(lia)).
  destruct (Byte.of_N _) as [b|] eqn:E.
  - apply Byte.to_of_N in E. lia.
  - apply Byte.of_N_None_iff in E. lia.
Qed.

Lemma byte_of_to_Z b : byte_of_Z (byte_to_Z b) = b.
Proof.
  unfold byte_of_Z, byte_to_Z.
  pose proof (Byte.to_N_bounded b).
  rewrite Z.mod_small by lia. by rewrite N2Z.id, Byte.of_to_N.
Qed.

#[export] Instance byte_to_Z_inj : Inj (=) (=) byte_to_Z.
Proof. intros b c E. by rewrite <-(byte_of_to_Z b), E, byte_of_to_Z. Qed.

(** ** Machine integers *)

Definition u64_max : Z := 2 ^ 64.
(** Wrap-around of [uint64] arithmetic. *)
Definition u64 (z : Z) : Z := z mod u64_max.
Definition is_u64 (z : Z) : Prop := 0 <= z < u64_max.
#[export] Instance is_u64_dec z : Decision (is_u64 z).
Proof. unfold is_u64. apply _. Defined.

Definition i64_max : Z := 2 ^ 63 - 1.
Definition i64_min : Z := - 2 ^ 63.

(** ** Errors

    Go [error] values.  [fmt.Errorf] keeps its format string and arguments
    uninterpreted: [AWrap] is an argument under [%w] (followed by
    [errors.Is]), [AErr] one under [%v]. *)

Inductive io_err := ENOENT | EEXIST | EISDIR | EIO.
#[export] Instance io_err_eq_dec : EqDecision io_err.
Proof. solve_decision. Defined.

(** gRPC status codes the server answers with. *)
Inductive code :=
| OKCode | InvalidArgument | PermissionDenied | FailedPrecondition
| Internal | Unimplemented.
#[export] Instance code_eq_dec : EqDecision code.
Proof. solve_decision. Defined.

Inductive error :=
| ErrSentinel (name : string)
| ErrIO (e : io_err)
| ErrLib (what : string)
| Errorf (fmt : string) (args : list farg)
| StatusErr (c : code) (fmt : string) (args : list farg)
with farg :=
| AInt (z : Z)
| AStr (s : bytes)
| AErr (e : error)
| AWrap (e : error).

(** [errors.Is] against a sentinel: the value itself or one it wraps. *)
Fixpoint errors_Is (e : error) (name : string) : bool :=
  match e with
  | ErrSentinel n => bool_decide (n = name)
  | Errorf _ args =>
      (fix go (l : list farg) : bool :=
         match l with
         | [] => false
         | AWrap e' :: l' => errors_Is e' name || go l'
         | _ :: l' => go l'
         end) args
  | _ => false
  end.

(** [os.IsNotExist] looks at the error itself, not through [%w]. *)
Definition os_IsNotExist (e : error) : bool :=
  match e with ErrIO ENOENT => true | _ => false end.

(** ** Results and effects

    A Go call returns a value, returns an error or panics. *)

Inductive result (A : Type) :=
| Ok (a : A)
| Err (e : error)
| Panic.
Arguments Ok {_} _.
Arguments Err {_} _.
Arguments Panic {_}.

#[export] Instance Ok_inj {A} : Inj (=) (=) (@Ok A).
Proof. congruence. Qed.

#[export] Instance result_ret : MRet result := @Ok.
#[export] Instance result_bind : MBind result := fun A B f m =>
  match m with
  | Ok a => f a
  | Err e => Err e
  | Panic => Panic
  end.

Definition is_ok {A} (r : result A) : bool :=
  match r with Ok _ => true | _ => false end.

(** Replace the error of a failing call ([fmt.Errorf("...: %w", err)]). *)
Definition map_err {A} (f : error -> error) (r : result A) : result A :=
  match r with
  | Ok a => Ok a
  | Err e => Err (f e)
  | Panic => Panic
  end.

(** [guard b e]: the early return [if b { return ..., e }]. *)
Definition reject (b : bool) (e : error) : result () :=
  if b then Err e else Ok ().

(** State passing with results. *)
Definition ST (S A : Type) : Type := S -> result A * S.

Definition st_ret {S A} (a : A) : ST S A := fun s => (Ok a, s).
Definition st_bind {S A B} (m : ST S A) (f : A -> ST S B) : ST S B := fun s =>
  match m s with
  | (Ok a, s') => f a s'
  | (Err e, s') => (Err e, s')
  | (Panic, s') => (Panic, s')
  end.
Definition st_lift {S A} (r : result A) : ST S A := fun s => (r, s).
Definition st_get {S} : ST S S := fun s => (Ok s, s).
Definition st_modify {S} (f : S -> S) : ST S () := fun s => (Ok (), f s).
(** Run a call and hand its outcome to the continuation without returning. *)
Definition st_try {S A} (m : ST S A) : ST S (result A) := fun s =>
  let '(r, s') := m s in (Ok r, s').
Definition st_map_err {S A} (f : error -> error) (m : ST S A) : ST S A := fun s =>
  let '(r, s') := m s in (map_err f r, s').

Declare Scope go_scope.
Delimit Scope go_scope with go.
Notation "x <- m ;; k" := (st_bind m (fun x => k))
  (at level 100, m at next level, right associativity) : go_scope.
Notation "m ;;; k" := (st_bind m (fun _ => k))
  (at level 100, right associativity) : go_scope.

(** ** Shared list lemmas *)

Lemma app_inj_length {A} (a b c d : list A) :
  length a = length c -> a ++ b = c ++ d -> a = c /\ b = d.
Proof. intros L E. by apply app_inj_1. Qed.

Lemma concat_length_const {A} (n : nat) (l : list (list A)) :
  Forall (fun x => length x = n) l -> length (concat l) = (n * length l)%nat.
Proof.
  induction 1 as [|x l Hx Hl IH]; simpl; [lia|].
  rewrite length_app, IH. lia.
Qed.

Lemma concat_inj_const {A} (n : nat) (l k : list (list A)) :
  Forall (fun x => length x = n) l -> Forall (fun x => length x = n) k ->
  length l = length k -> concat l = concat k -> l = k.
Proof.
  intros Hl. revert k. induction Hl as [|x l Hx Hl IH]; intros [|y k] Hk L E;
    simpl in *; try done.
  inversion Hk; subst. apply app_inj_length in E as [-> E]; [|congruence].
  f_equal. apply IH; [done|lia|done].
Qed.

(** ** Automation *)

(** Split every [match] and [if] of a hypothesis or the goal, keeping the
    equations. *)
Ltac go_step :=
  match goal with
  | H : Ok _ = Ok _ |- _ => injection H as H
  | H : Err _ = Err _ |- _ => injection H as H
  | H : Ok _ = Err _ |- _ => discriminate H
  | H : Err _ = Ok _ |- _ => discriminate H
  | H : Ok _ = Panic |- _ => discriminate H
  | H : Panic = Ok _ |- _ => discriminate H
  | H : (_, _) = (_, _) |- _ => injection H as H
  | H : context [match ?x with _ => _ end] |- _ =>
      let E := fresh "E" in destruct x eqn:E; try discriminate H
  end.
Ltac go_inv := repeat (simplify_eq/=; try go_step).

Create HintDb signer discriminated.
Create Rewrite HintDb signer_len.
