(* ===== verification/GoStd.v ===== *)
(** * The parts of Go's standard library the signer uses

    Executable models of [strings], [bytes], [strconv], [encoding/hex],
    [encoding/binary], [math/big], [path/filepath] and [net.SplitHostPort],
    as far as the repository calls them, with the round-trip and injectivity
    lemmas the components share. *)

From S2P Require Import Prelude.

(** ** [bytes] and [strings] *)

(** [bytes.Equal]; also [==] on strings. *)
Definition beq (a b : bytes) : bool := bool_decide (a = b).

(** [bytes.Compare]: lexicographic on unsigned bytes. *)
Fixpoint bytes_Compare (a b : bytes) : comparison :=
  match a, b with
  | [], [] => Eq
  | [], _ => Lt
  | _, [] => Gt
  | x :: a', y :: b' =>
      match byte_to_Z x ?= byte_to_Z y with
      | Eq => bytes_Compare a' b'
      | c => c
      end
  end.

(** Number of bytes, as Go's [len]. *)
Definition len {A} (l : list A) : Z := Z.of_nat (length l).

(** [s[i:j]] inside the bounds. *)
Definition slice {A} (i j : nat) (l : list A) : list A := take (j - i) (drop i l).

Definition HasPrefix (s p : bytes) : bool := beq (take (length p) s) p.

Fixpoint IndexByte (s : bytes) (c : byte) : option nat :=
  match s with
  | [] => None
  | x :: s' => if decide (x = c) then Some 0%nat else S <$> IndexByte s' c
  end.

Fixpoint LastIndexByte (s : bytes) (c : byte) : option nat :=
  match s with
  | [] => None
  | x :: s' =>
      match LastIndexByte s' c with
      | Some i => Some (S i)
      | None => if decide (x = c) then Some 0%nat else None
      end
  end.

(** [strings.Index]: the first position where [sub] occurs. *)
Fixpoint Index (s sub : bytes) : option nat :=
  if HasPrefix s sub then Some 0%nat
  else match s with
       | [] => None
       | _ :: s' => S <$> Index s' sub
       end.

Definition contains (s : bytes) (c : byte) : bool :=
  match IndexByte s c with Some _ => true | None => false end.

(** [strings.Split] at a one-byte separator. *)
Fixpoint Split (s : bytes) (c : byte) : list bytes :=
  match s with
  | [] => [[]]
  | x :: s' =>
      if decide (x = c) then [] :: Split s' c
      else match Split s' c with
           | [] => [[x]]
           | w :: ws => (x :: w) :: ws
           end
  end.

(** The UTF-8 encodings of the runes [unicode.IsSpace] accepts. *)
Definition space_runes : list bytes :=
  [[x09]; [x0a]; [x0b]; [x0c]; [x0d]; [x20];
   [xc2; x85]; [xc2; xa0]; [xe1; x9a; x80];
   [xe2; x80; x80]; [xe2; x80; x81]; [xe2; x80; x82]; [xe2; x80; x83];
   [xe2; x80; x84]; [xe2; x80; x85]; [xe2; x80; x86]; [xe2; x80; x87];
   [xe2; x80; x88]; [xe2; x80; x89]; [xe2; x80; x8a];
   [xe2; x80; xa8]; [xe2; x80; xa9]; [xe2; x80; xaf];
   [xe2; x81; x9f]; [xe3; x80; x80]].

Definition strip_one (runes : list bytes) (s : bytes) : option bytes :=
  match List.find (HasPrefix s) runes with
  | Some r => Some (drop (length r) s)
  | None => None
  end.

(** Strip leading runes of the set; every strip shortens the string, so its
    length is enough fuel. *)
Fixpoint strip_all (fuel : nat) (runes : list bytes) (s : bytes) : bytes :=
  match fuel with
  | O => s
  | S f => match strip_one runes s with
           | Some s' => strip_all f runes s'
           | None => s
           end
  end.

Definition TrimLeftRunes (runes : list bytes) (s : bytes) : bytes :=
  strip_all (length s) runes s.
Definition TrimRightRunes (runes : list bytes) (s : bytes) : bytes :=
  rev (TrimLeftRunes (map (@rev byte) runes) (rev s)).

(** [strings.TrimSpace]. *)
Definition TrimSpace (s : bytes) : bytes :=
  TrimRightRunes space_runes (TrimLeftRunes space_runes s).

(** [bytes.TrimRight(s, "\r\n")]. *)
Definition TrimRightCRLF (s : bytes) : bytes :=
  TrimRightRunes [[x0d]; [x0a]] s.

(** ** [net.SplitHostPort] *)

Definition addrErr (why : string) : error := Errorf why [].

Definition SplitHostPort (hostport : bytes) : result (bytes * bytes) :=
  match LastIndexByte hostport x3a with
  | None => Err (addrErr "missing port in address")
  | Some i =>
      hjk ← (if bool_decide (head hostport = Some x5b) then
                 match IndexByte hostport x5d with
                 | None => Err (addrErr "missing ']' in address")
                 | Some e =>
                     if decide (S e = length hostport)
                     then Err (addrErr "missing port in address")
                     else if decide (S e = i)
                     then Ok (slice 1 e hostport, 1%nat, S e)
                     else if decide (hostport !! S e = Some x3a)
                     then Err (addrErr "too many colons in address")
                     else Err (addrErr "missing port in address")
                 end
             else
                 let host := take i hostport in
                 if contains host x3a
                 then Err (addrErr "too many colons in address")
                 else Ok (host, 0%nat, 0%nat));
      let '(host, j, k) := hjk in
      if contains (drop j hostport) x5b
      then Err (addrErr "unexpected '[' in address")
      else if contains (drop k hostport) x5d
      then Err (addrErr "unexpected ']' in address")
      else Ok (host, drop (S i) hostport)
  end.

(** ** [path/filepath] (Unix) *)

Definition sep : byte := x2f.

Definition clean_step (rooted : bool) (out : list bytes) (w : bytes) : list bytes :=
  if beq w [] || beq w (bs ".") then out
  else if beq w (bs "..") then
    match out with
    | top :: out' => if beq top (bs "..") then w :: out else out'
    | [] => if rooted then [] else [w]
    end
  else w :: out.

Fixpoint join_sep (ws : list bytes) : bytes :=
  match ws with
  | [] => []
  | [w] => w
  | w :: ws' => w ++ sep :: join_sep ws'
  end.

Definition Clean (p : bytes) : bytes :=
  if beq p [] then bs "."
  else
    let rooted := HasPrefix p [sep] in
    let out := join_sep (rev (foldl (clean_step rooted) [] (Split p sep))) in
    if rooted then sep :: out
    else if beq out [] then bs "." else out.

Definition Dir (p : bytes) : bytes :=
  Clean (match LastIndexByte p sep with
         | Some i => take (S i) p
         | None => []
         end).

(** [filepath.Join] of two elements. *)
Definition Join (a b : bytes) : bytes :=
  match a, b with
  | [], [] => []
  | [], _ => Clean b
  | _, _ => Clean (a ++ sep :: b)
  end.

(** ** Big-endian integers: [encoding/binary], [math/big] *)

(** The [n] low-order bytes of [z], most significant first. *)
Fixpoint be_bytes (n : nat) (z : Z) : bytes :=
  match n with
  | O => []
  | S n' => be_bytes n' (z / 256) ++ [byte_of_Z z]
  end.

(** [big.Int.SetBytes]. *)
Definition be_Z (l : bytes) : Z :=
  foldl (fun acc b => acc * 256 + byte_to_Z b) 0 l.

(** [big.Int.Bytes]: the absolute value without leading zero bytes. *)
Definition big_Bytes (z : Z) : bytes :=
  let a := Z.abs z in
  if a =? 0 then [] else be_bytes (Z.to_nat (Z.log2 a / 8 + 1)) a.

Lemma length_be_bytes n z : length (be_bytes n z) = n.
Proof.
  revert z. induction n as [|n IH]; intros z; simpl; [done|].
  rewrite length_app, IH. simpl. lia.
Qed.

Lemma be_Z_snoc l b : be_Z (l ++ [b]) = be_Z l * 256 + byte_to_Z b.
Proof. unfold be_Z. by rewrite foldl_app. Qed.

Lemma be_Z_be_bytes n z : be_Z (be_bytes n z) = z mod 256 ^ Z.of_nat n.
Proof.
  revert z. induction n as [|n IH]; intros z.
  - simpl. by rewrite Z.mod_1_r.
  - cbn [be_bytes]. rewrite be_Z_snoc, IH, byte_to_of_Z, Nat2Z.inj_succ.
    rewrite Z.pow_succ_r by lia.
    rewrite (Z.rem_mul_r z 256 (256 ^ Z.of_nat n)) by lia. lia.
Qed.

Lemma be_bytes_be_Z l : be_bytes (length l) (be_Z l) = l.
Proof.
  induction l as [|b l IH] using rev_ind; [done|].
  rewrite length_app, Nat.add_comm, be_Z_snoc. cbn [be_bytes Nat.add length].
  pose proof (byte_to_Z_range b).
  rewrite Z.div_add_l, (Z.div_small (byte_to_Z b)), Z.add_0_r, IH by lia.
  f_equal. f_equal. rewrite <-(byte_of_to_Z b) at 2.
  unfold byte_of_Z. by rewrite Z.add_comm, Z_mod_plus_full.
Qed.

Lemma be_Z_range l : 0 <= be_Z l < 256 ^ Z.of_nat (length l).
Proof.
  rewrite <-(be_bytes_be_Z l), be_Z_be_bytes, length_be_bytes.
  apply Z.mod_pos_bound. lia.
Qed.

Lemma be_bytes_inj n a b :
  0 <= a < 256 ^ Z.of_nat n -> 0 <= b < 256 ^ Z.of_nat n ->
  be_bytes n a = be_bytes n b -> a = b.
Proof.
  intros Ha Hb E. apply (f_equal be_Z) in E.
  rewrite !be_Z_be_bytes, !Z.mod_small in E; done.
Qed.

Lemma be_Z_cons_zero l : be_Z (x00 :: l) = be_Z l.
Proof. done. Qed.

Lemma be_Z_zeros n l : be_Z (replicate n x00 ++ l) = be_Z l.
Proof. induction n as [|n IH]; simpl; [done|]. by rewrite be_Z_cons_zero. Qed.

(** [big.Int.Bytes] padded on the left to [n] bytes is the fixed-width
    encoding, whenever the number fits. *)
Lemma length_big_Bytes z n :
  0 <= z < 256 ^ Z.of_nat n -> (length (big_Bytes z) <= n)%nat.
Proof.
  intros Hz. unfold big_Bytes. rewrite Z.abs_eq by lia.
  destruct (Z.eqb_spec z 0); [simpl; lia|]. rewrite length_be_bytes.
  assert (Hl : Z.log2 z < 8 * Z.of_nat n).
  { apply Z.log2_lt_pow2; [lia|]. rewrite Z.pow_mul_r by lia. apply Hz. }
  apply Nat2Z.inj_le. pose proof (Z.log2_nonneg z).
  rewrite Z2Nat.id by (pose proof (Z.div_pos (Z.log2 z) 8); lia).
  pose proof (Z.div_lt_upper_bound (Z.log2 z) 8 (Z.of_nat n)). lia.
Qed.

Lemma be_Z_big_Bytes z : 0 <= z -> be_Z (big_Bytes z) = z.
Proof.
  intros Hz. unfold big_Bytes. rewrite Z.abs_eq by lia.
  destruct (Z.eqb_spec z 0); [by subst|].
  rewrite be_Z_be_bytes. apply Z.mod_small. split; [lia|].
  pose proof (Z.log2_nonneg z).
  rewrite Z2Nat.id by (pose proof (Z.div_pos (Z.log2 z) 8); lia).
  change 256 with (2 ^ 8). pose proof (Z.div_pos (Z.log2 z) 8).
  rewrite <-Z.pow_mul_r by lia. apply Z.log2_lt_pow2; [lia|].
  pose proof (Z.mul_succ_div_gt (Z.log2 z) 8). lia.
Qed.

Lemma pad_big_Bytes z n :
  0 <= z < 256 ^ Z.of_nat n ->
  replicate (n - length (big_Bytes z)) x00 ++ big_Bytes z = be_bytes n z.
Proof.
  intros Hz. pose proof (length_big_Bytes z n Hz) as Hl.
  assert (Hv : be_Z (replicate (n - length (big_Bytes z)) x00 ++ big_Bytes z) = z)
    by (rewrite be_Z_zeros; apply be_Z_big_Bytes; lia).
  rewrite <-(be_bytes_be_Z (_ ++ _)), Hv, length_app, length_replicate.
  f_equal. lia.
Qed.

(** ** [encoding/hex] *)

Definition hex_digit (d : Z) : byte :=
  byte_of_Z (if d <? 10 then 48 + d else 87 + d).

Definition hex_EncodeToString (b : bytes) : bytes :=
  concat (map (fun x => [hex_digit (byte_to_Z x / 16); hex_digit (byte_to_Z x mod 16)]) b).

Definition fromHexChar (c : byte) : option Z :=
  let v := byte_to_Z c in
  if (48 <=? v) && (v <=? 57) then Some (v - 48)
  else if (97 <=? v) && (v <=? 102) then Some (v - 87)
  else if (65 <=? v) && (v <=? 70) then Some (v - 55)
  else None.

Fixpoint hex_DecodeString (s : bytes) : result bytes :=
  match s with
  | [] => Ok []
  | [c] => match fromHexChar c with
           | Some _ => Err (ErrSentinel "encoding/hex: odd length hex string")
           | None => Err (ErrLib "encoding/hex: invalid byte")
           end
  | c :: d :: s' =>
      match fromHexChar c, fromHexChar d with
      | Some hi, Some lo => rest ← hex_DecodeString s'; Ok (byte_of_Z (hi * 16 + lo) :: rest)
      | _, _ => Err (ErrLib "encoding/hex: invalid byte")
      end
  end.

Lemma fromHexChar_digit d : 0 <= d < 16 -> fromHexChar (hex_digit d) = Some d.
Proof.
  intros Hd. unfold fromHexChar, hex_digit. rewrite byte_to_of_Z.
  destruct (Z.ltb_spec d 10); rewrite Z.mod_small by lia;
    repeat (case_match; [f_equal; lia|]); lia.
Qed.

Lemma hex_decode_encode b : hex_DecodeString (hex_EncodeToString b) = Ok b.
Proof.
  induction b as [|x b IH]; [done|]. unfold hex_EncodeToString in *. simpl.
  pose proof (byte_to_Z_range x).
  rewrite !fromHexChar_digit by (split; [apply Z.div_pos||apply Z.mod_pos_bound|
    apply Z.div_lt_upper_bound||apply Z.mod_pos_bound]; lia).
  rewrite IH. simpl. do 2 f_equal.
  replace (byte_to_Z x / 16 * 16 + byte_to_Z x mod 16) with (byte_to_Z x)
    by (pose proof (Z.div_mod (byte_to_Z x) 16); lia).
  apply byte_of_to_Z.
Qed.

Lemma length_hex_encode b : length (hex_EncodeToString b) = (2 * length b)%nat.
Proof.
  unfold hex_EncodeToString. rewrite (concat_length_const 2), length_map; [done|].
  induction b; constructor; done.
Qed.

(** The characters [hex.EncodeToString] produces are printable ASCII without
    quotes or backslashes. *)
Definition is_hex_char (c : byte) : bool :=
  match fromHexChar c with Some _ => true | None => false end.

Lemma hex_encode_chars b : Forall (fun c => is_hex_char c = true) (hex_EncodeToString b).
Proof.
  unfold hex_EncodeToString. induction b as [|x b IH]; simpl; [constructor|].
  pose proof (byte_to_Z_range x).
  assert (0 <= byte_to_Z x / 16 < 16)
    by (split; [apply Z.div_pos|apply Z.div_lt_upper_bound]; lia).
  assert (0 <= byte_to_Z x mod 16 < 16) by (apply Z.mod_pos_bound; lia).
  unfold is_hex_char at 1.
  repeat constructor; [unfold is_hex_char..|apply IH]; by rewrite fromHexChar_digit.
Qed.

(** ** [strconv]: decimal [uint64] *)

Definition dec_digit (d : Z) : byte := byte_of_Z (48 + d).

(** [strconv.AppendUint(_, n, 10)]; twenty digits hold every [uint64]. *)
Fixpoint dec_digits (fuel : nat) (n : Z) : bytes :=
  match fuel with
  | O => []
  | S f => if n <? 10 then [dec_digit n] else dec_digits f (n / 10) ++ [dec_digit (n mod 10)]
  end.
Definition FormatUint (n : Z) : bytes := dec_digits 20 n.

Definition digit_val (c : byte) : option Z :=
  let v := byte_to_Z c in if (48 <=? v) && (v <=? 57) then Some (v - 48) else None.

Definition ErrSyntax : error := ErrLib "strconv.ParseUint: invalid syntax".
Definition ErrRange : error := ErrLib "strconv.ParseUint: value out of range".

Definition parse_step (acc : result Z) (c : byte) : result Z :=
  n ← acc;
  match digit_val c with
  | None => Err ErrSyntax
  | Some d => if u64_max <=? n * 10 + d then Err ErrRange else Ok (n * 10 + d)
  end.

(** [strconv.ParseUint(s, 10, 64)]. *)
Definition ParseUint (s : bytes) : result Z :=
  match s with
  | [] => Err ErrSyntax
  | _ => foldl parse_step (Ok 0) s
  end.

Lemma digit_val_digit d : 0 <= d < 10 -> digit_val (dec_digit d) = Some d.
Proof.
  intros Hd. unfold digit_val, dec_digit. rewrite byte_to_of_Z, Z.mod_small by lia.
  case_match; [f_equal; lia|]. lia.
Qed.

Lemma parse_dec_digits fuel n :
  0 <= n < u64_max -> n < 10 ^ Z.of_nat fuel -> fuel <> O ->
  foldl parse_step (Ok 0) (dec_digits fuel n) = Ok n.
Proof.
  revert n. induction fuel as [|f IH]; intros n Hn Hf ?; [done|]. cbn [dec_digits].
  destruct (Z.ltb_spec n 10).
  - simpl. rewrite digit_val_digit by lia. unfold u64_max in *.
    destruct (Z.leb_spec (2 ^ 64) (0 * 10 + n)); [lia|]. f_equal; lia.
  - rewrite foldl_app, IH.
    + simpl. rewrite digit_val_digit by (apply Z.mod_pos_bound; lia).
      pose proof (Z.div_mod n 10 ltac:(lia)).
      destruct (Z.leb_spec u64_max (n / 10 * 10 + n mod 10)); [lia|]. f_equal; lia.
    + split; [apply Z.div_pos; lia|]. apply Z.div_lt_upper_bound; lia.
    + apply Z.div_lt_upper_bound; [lia|]. rewrite Nat2Z.inj_succ, Z.pow_succ_r in Hf by lia. lia.
    + intros ->. simpl in Hf. lia.
Qed.

Lemma dec_digits_nonempty fuel n : fuel <> O -> dec_digits fuel n <> [].
Proof. destruct fuel; simpl; [done|]. intros _. case_match; [done|]. by intros []%app_nil. Qed.

Lemma ParseUint_FormatUint n : is_u64 n -> ParseUint (FormatUint n) = Ok n.
Proof.
  intros Hn. unfold ParseUint, FormatUint.
  pose proof (dec_digits_nonempty 20 n ltac:(done)).
  destruct (dec_digits 20 n) eqn:E; [done|]. rewrite <-E.
  apply parse_dec_digits; [done| |done]. unfold is_u64, u64_max in Hn. lia.
Qed.

Lemma FormatUint_digits n : 0 <= n ->
  Forall (fun c => is_Some (digit_val c)) (FormatUint n).
Proof.
  unfold FormatUint. generalize 20%nat. intros fuel. revert n.
  induction fuel as [|f IH]; intros n Hn; cbn [dec_digits]; [constructor|].
  destruct (Z.ltb_spec n 10).
  - repeat constructor. rewrite digit_val_digit by lia. eauto.
  - apply Forall_app. split; [apply IH, Z.div_pos; lia|].
    repeat constructor. rewrite digit_val_digit by (apply Z.mod_pos_bound; lia). eauto.
Qed.

(** ** [sort.SliceStable] *)

Section SliceStable.
Context {A : Type} (less : A -> A -> bool).

(** [x] stood before every element of [l]: it stays in front of the
    elements it is not greater than. *)
Fixpoint insert_stable (x : A) (l : list A) : list A :=
  match l with
  | [] => [x]
  | y :: l' => if less y x then y :: insert_stable x l' else x :: l
  end.

Definition SliceStable (l : list A) : list A := foldr insert_stable [] l.

Lemma insert_stable_perm x l : Permutation (insert_stable x l) (x :: l).
Proof.
  induction l as [|y l IH]; simpl; [done|]. destruct (less y x); [|done].
  rewrite IH. apply Permutation_swap.
Qed.

Lemma SliceStable_perm l : Permutation (SliceStable l) l.
Proof. induction l as [|x l IH]; simpl; [done|]. by rewrite insert_stable_perm, IH. Qed.

(** The comparison is a strict order, total up to equality. *)
Hypothesis less_irrefl : forall x, less x x = false.
Hypothesis less_trans : forall x y z, less x y = true -> less y z = true -> less x z = true.
Hypothesis less_total : forall x y, less x y = false -> less y x = false -> x = y.

Definition le_less (x y : A) : Prop := less y x = false.

Lemma le_less_trans x y z : le_less x y -> le_less y z -> le_less x z.
Proof using less_irrefl less_trans less_total.
  unfold le_less. intros Hxy Hyz. destruct (less z x) eqn:E; [|done].
  destruct (less x y) eqn:F.
  - rewrite (less_trans _ _ _ E F) in Hyz. done.
  - rewrite (less_total x y F Hxy) in E. by rewrite E in Hyz.
Qed.

Lemma insert_stable_sorted x l :
  StronglySorted le_less l -> StronglySorted le_less (insert_stable x l).
Proof using less_irrefl less_trans less_total.
  induction 1 as [|y l Hl IH Hy]; simpl; [repeat constructor|].
  destruct (less y x) eqn:E.
  - constructor; [done|]. rewrite insert_stable_perm. constructor; [|done].
    unfold le_less. destruct (less x y) eqn:F; [|done].
    pose proof (less_trans _ _ _ E F) as G. by rewrite less_irrefl in G.
  - constructor; [by constructor|]. constructor; [done|].
    eapply Forall_impl; [exact Hy|]. intros z Hz. by eapply le_less_trans.
Qed.

Lemma SliceStable_sorted l : StronglySorted le_less (SliceStable l).
Proof using less_irrefl less_trans less_total.
  induction l as [|x l IH]; simpl; [constructor|]. by apply insert_stable_sorted.
Qed.

(** Sorting forgets exactly the order of its input. *)
Lemma SliceStable_canonical l k : SliceStable l = SliceStable k <-> Permutation l k.
Proof using less_irrefl less_trans less_total.
  split; intros E.
  - by rewrite <-(SliceStable_perm l), E, SliceStable_perm.
  - eapply (StronglySorted_unique_strong le_less);
      [|apply SliceStable_sorted..|by rewrite !SliceStable_perm].
    intros x y _ _ Hxy Hyx. by apply less_total.
Qed.
End SliceStable.

(** [bytes.Compare] is a total order. *)
Lemma bytes_Compare_refl a : bytes_Compare a a = Eq.
Proof. induction a as [|x a IH]; simpl; [done|]. by rewrite Z.compare_refl. Qed.

Lemma bytes_Compare_eq a b : bytes_Compare a b = Eq -> a = b.
Proof.
  revert b. induction a as [|x a IH]; intros [|y b]; simpl; try done.
  destruct (Z.compare_spec (byte_to_Z x) (byte_to_Z y)) as [E| |]; try done.
  intros H. apply (inj byte_to_Z) in E. f_equal; auto.
Qed.

Lemma bytes_Compare_antisym a b : bytes_Compare b a = CompOpp (bytes_Compare a b).
Proof.
  revert b. induction a as [|x a IH]; intros [|y b]; simpl; try done.
  rewrite Z.compare_antisym. destruct (byte_to_Z x ?= byte_to_Z y); simpl; auto.
Qed.

Lemma bytes_Compare_lt_trans a b c :
  bytes_Compare a b = Lt -> bytes_Compare b c = Lt -> bytes_Compare a c = Lt.
Proof.
  revert b c. induction a as [|x a IH]; intros [|y b] [|z c]; simpl; try done.
  destruct (Z.compare_spec (byte_to_Z x) (byte_to_Z y)) as [E| |],
           (Z.compare_spec (byte_to_Z y) (byte_to_Z z)) as [F| |],
           (Z.compare_spec (byte_to_Z x) (byte_to_Z z)) as [G| |]; try done; try lia.
  intros. eauto.
Qed.
