(* ===== verification/Sha256.v ===== *)
(** * SHA-256 ([crypto/sha256])

    FIPS 180-4 on 32-bit words held in [Z]; [sha256_Sum256] is the function
    the server and the backends apply before every signature.  The two test
    vectors at the end are the published ones. *)

From S2P Require Import Prelude GoStd.

Definition w32 (z : Z) : Z := z mod 2 ^ 32.
Definition rotr (n x : Z) : Z := Z.lor (Z.shiftr x n) (w32 (Z.shiftl x (32 - n))).

Definition Ch (x y z : Z) : Z := Z.lxor (Z.land x y) (Z.land (2 ^ 32 - 1 - x) z).
Definition Maj (x y z : Z) : Z :=
  Z.lxor (Z.lxor (Z.land x y) (Z.land x z)) (Z.land y z).
Definition Sigma0 (x : Z) : Z := Z.lxor (Z.lxor (rotr 2 x) (rotr 13 x)) (rotr 22 x).
Definition Sigma1 (x : Z) : Z := Z.lxor (Z.lxor (rotr 6 x) (rotr 11 x)) (rotr 25 x).
Definition sigma0 (x : Z) : Z := Z.lxor (Z.lxor (rotr 7 x) (rotr 18 x)) (Z.shiftr x 3).
Definition sigma1 (x : Z) : Z := Z.lxor (Z.lxor (rotr 17 x) (rotr 19 x)) (Z.shiftr x 10).

(** The round constants: the first 32 bits of the fractional parts of the cube
    roots of the first 64 primes. *)
Definition is_prime (n : Z) : bool :=
  forallb (fun d => negb (n mod Z.of_nat d =? 0)) (seq 2 (Z.to_nat n - 2)).

Definition cube_root (n : Z) : Z :=
  foldr (fun i r => let r' := r + 2 ^ Z.of_nat i in if r' ^ 3 <=? n then r' else r) 0 (seq 0 36).

Definition K256 : list Z := Eval vm_compute in
  map (fun p => w32 (cube_root (p * 2 ^ 96))) (List.filter is_prime (map Z.of_nat (seq 2 310))).

Record hstate := HS { ha : Z; hb : Z; hc : Z; hd : Z; he : Z; hf : Z; hg : Z; hh : Z }.

Definition H256 : hstate :=
  HS 0x6a09e667 0xbb67ae85 0x3c6ef372 0xa54ff53a 0x510e527f 0x9b05688c 0x1f83d9ab 0x5be0cd19.

(** The message schedule, newest word first. *)
Definition sched_next (w : list Z) : list Z :=
  w32 (sigma1 (nth 1 w 0) + nth 6 w 0 + sigma0 (nth 14 w 0) + nth 15 w 0) :: w.

Definition schedule (block : list Z) : list Z :=
  rev (Nat.iter 48 sched_next (rev block)).

Definition round (s : hstate) (kw : Z * Z) : hstate :=
  let '(k, w) := kw in
  let t1 := hh s + Sigma1 (he s) + Ch (he s) (hf s) (hg s) + k + w in
  let t2 := Sigma0 (ha s) + Maj (ha s) (hb s) (hc s) in
  HS (w32 (t1 + t2)) (ha s) (hb s) (hc s) (w32 (hd s + t1)) (he s) (hf s) (hg s).

Definition compress (h : hstate) (block : list Z) : hstate :=
  let s := foldl round h (zip K256 (schedule block)) in
  HS (w32 (ha h + ha s)) (w32 (hb h + hb s)) (w32 (hc h + hc s)) (w32 (hd h + hd s))
     (w32 (he h + he s)) (w32 (hf h + hf s)) (w32 (hg h + hg s)) (w32 (hh h + hh s)).

Fixpoint words (fuel : nat) (b : bytes) : list Z :=
  match fuel with
  | O => []
  | S f => be_Z (take 4 b) :: words f (drop 4 b)
  end.

Definition sha_pad (m : bytes) : bytes :=
  let l := length m in
  m ++ [x80] ++ replicate ((119 - l mod 64) mod 64) x00 ++ be_bytes 8 (8 * Z.of_nat l).

Fixpoint blocks (fuel : nat) (h : hstate) (b : bytes) : hstate :=
  match fuel with
  | O => h
  | S f => match b with
           | [] => h
           | _ => blocks f (compress h (words 16 (take 64 b))) (drop 64 b)
           end
  end.

(** [sha256.Sum256]. *)
Definition sha256_Sum256 (m : bytes) : bytes :=
  let p := sha_pad m in
  let h := blocks (length p) H256 p in
  concat (map (be_bytes 4) [ha h; hb h; hc h; hd h; he h; hf h; hg h; hh h]).

Lemma length_sha256 m : length (sha256_Sum256 m) = 32%nat.
Proof.
  unfold sha256_Sum256. cbn zeta. rewrite (concat_length_const 4); [done|].
  repeat constructor; apply length_be_bytes.
Qed.
#[export] Hint Rewrite length_sha256 length_be_bytes : signer_len.

(** The padded message is a whole number of 64-byte blocks. *)
Lemma sha_pad_blocks m : (length (sha_pad m) mod 64 = 0)%nat.
Proof.
  unfold sha_pad. rewrite !length_app, length_replicate, length_be_bytes.
  cbn [length].
  pose proof (Nat.mod_upper_bound (length m) 64 ltac:(lia)) as Hm.
  pose proof (Nat.div_mod_eq (length m) 64) as Hd.
  pose proof (Nat.div_mod_eq (119 - length m mod 64) 64) as Hp.
  pose proof (Nat.mod_upper_bound (119 - length m mod 64) 64 ltac:(lia)).
  set (r := (length m mod 64)%nat) in *. set (q := (length m / 64)%nat) in *.
  set (p := ((119 - r) mod 64)%nat) in *. set (t := ((119 - r) / 64)%nat) in *.
  replace (length m + (1 + (p + 8)))%nat with ((q + 2 - t) * 64)%nat by lia.
  apply Nat.Div0.mod_mul.
Qed.

Example sha256_abc :
  hex_EncodeToString (sha256_Sum256 (bs "abc")) =
  bs "ba7816bf8f01cfea414140de5dae2223b00361a396177a9cb410ff61f20015ad".
Proof. vm_compute. reflexivity. Qed.

Example sha256_two_blocks :
  hex_EncodeToString (sha256_Sum256
    (bs "abcdbcdecdefdefgefghfghighijhijkijkljklmklmnlmnomnopnopq")) =
  bs "248d6a61d20638b8e5c026930c3e6039a33ce45964ff2167f6ecedd419db06c1".
Proof. vm_compute. reflexivity. Qed.
