(* ===== verification/Abi.v ===== *)
(** * go-ethereum as the encoders see it

    [accounts/abi], [common.BytesToAddress] and [crypto.Keccak256] are not in
    this repository: they are the class [GoEthereum], and what the encoders
    rely on is [GoEthereumLaws] - [abi.NewType] knows the elementary types,
    [Arguments.Pack] follows the Solidity contract ABI (the head/tail
    encoding [abi_encode] below), a 20-byte slice is its own address, and a
    Keccak-256 digest has 32 bytes.  The laws leave the hash open: every
    binding theorem of the development exhibits a collision instead of
    assuming there is none.

    [reference_eth] is a concrete instance with the ABI written out and
    SHA-256 standing in for Keccak-256; it satisfies the laws. *)

From S2P Require Import Prelude GoStd Sha256.

Inductive abi_type := TAddress | TUint256 | TString | TBytes32 | TBytes.
#[export] Instance abi_type_eq_dec : EqDecision abi_type.
Proof. solve_decision. Defined.

Definition abi_type_name (t : abi_type) : string :=
  match t with
  | TAddress => "address"
  | TUint256 => "uint256"
  | TString => "string"
  | TBytes32 => "bytes32"
  | TBytes => "bytes"
  end.

(** What [Pack] is given: a byte sequence ([common.Address], [[32]byte],
    [string], [[]byte]) or a [*big.Int]. *)
Inductive abi_value := VBytes (b : bytes) | VInt (z : Z).

Abbreviation abi_arg := (abi_type * abi_value)%type.

Definition word_max : Z := 256 ^ 32.

Definition valid_arg (a : abi_arg) : Prop :=
  match a with
  | (TAddress, VBytes b) => length b = 20%nat
  | (TBytes32, VBytes b) => length b = 32%nat
  | (TUint256, VInt z) => 0 <= z < word_max
  | (TString, VBytes b) | (TBytes, VBytes b) => len b < word_max
  | _ => False
  end.

(** ** The Solidity ABI *)

Definition word (z : Z) : bytes := be_bytes 32 z.

(** The payload of a dynamic value: its length, then the data padded with
    zeros to a multiple of 32 bytes. *)
Definition pad_len (n : nat) : nat := ((32 - n mod 32) mod 32)%nat.
Definition dyn_tail (b : bytes) : bytes :=
  word (len b) ++ b ++ replicate (pad_len (length b)) x00.

(** Heads and tails, [off] being the offset of the next tail. *)
Fixpoint abi_go (off : Z) (args : list abi_arg) : bytes * bytes :=
  match args with
  | [] => ([], [])
  | (TAddress, VBytes b) :: l =>
      let '(h, t) := abi_go off l in (replicate 12 x00 ++ b ++ h, t)
  | (TBytes32, VBytes b) :: l =>
      let '(h, t) := abi_go off l in (b ++ h, t)
  | (TUint256, VInt z) :: l =>
      let '(h, t) := abi_go off l in (word z ++ h, t)
  | (TString, VBytes b) :: l | (TBytes, VBytes b) :: l =>
      let '(h, t) := abi_go (off + len (dyn_tail b)) l in
      (word off ++ h, dyn_tail b ++ t)
  | _ :: l => abi_go off l
  end.

Definition abi_encode (args : list abi_arg) : bytes :=
  let '(h, t) := abi_go (32 * len args) args in h ++ t.

Lemma length_word z : length (word z) = 32%nat.
Proof. apply length_be_bytes. Qed.

Lemma word_inj a b : 0 <= a < word_max -> 0 <= b < word_max -> word a = word b -> a = b.
Proof. apply (be_bytes_inj 32). Qed.

Lemma dyn_tail_inj a b r s :
  len a < word_max -> len b < word_max ->
  dyn_tail a ++ r = dyn_tail b ++ s -> a = b /\ r = s.
Proof.
  unfold dyn_tail. intros Ha Hb. rewrite <-!app_assoc. intros E.
  apply app_inj_length in E as [Ew E]; [|by rewrite !length_word].
  apply word_inj in Ew; [|unfold len in *; lia..].
  assert (El : length a = length b) by (unfold len in Ew; lia).
  apply app_inj_length in E as [-> E]; [|done].
  by apply app_inj_length in E as [_ ->].
Qed.

Lemma abi_go_heads off args :
  Forall valid_arg args -> length (fst (abi_go off args)) = (32 * length args)%nat.
Proof.
  intros Hv. revert off. induction Hv as [|[t v] l Ha Hv IH]; intros off; [done|].
  destruct t, v; simpl in Ha; try done; cbn [abi_go];
    match goal with |- context [abi_go ?o l] =>
      specialize (IH o); destruct (abi_go o l) as [h tl] end;
    cbn [fst length] in *; rewrite ?length_app, ?length_word, ?length_replicate; lia.
Qed.

(** Equal encodings of argument lists of the same types have equal
    arguments. *)
Lemma abi_go_inj off args args' :
  Forall valid_arg args -> Forall valid_arg args' ->
  map fst args = map fst args' ->
  fst (abi_go off args) = fst (abi_go off args') ->
  snd (abi_go off args) = snd (abi_go off args') ->
  args = args'.
Proof.
  intros Hv. revert off args'.
  induction Hv as [|[t v] l Ha Hv IH]; intros off [|[t' v'] l'] Hv' Et Eh Es;
    try done.
  inversion Hv' as [|? ? Ha' Hl']; subst. injection Et as <- Et.
  destruct t, v, v'; simpl in Ha, Ha'; try done; cbn [abi_go] in Eh, Es.
  3,5: destruct (abi_go (off + len (dyn_tail b)) l) eqn:E1,
         (abi_go (off + len (dyn_tail b0)) l') eqn:E2; cbn [fst snd] in *;
    (apply dyn_tail_inj in Es as [-> Es]; [|done..]);
    (apply app_inj_length in Eh as [_ Eh]; [|done]);
    f_equal; eapply IH; [done..| |]; by rewrite E1, E2.
  all: specialize (IH off l' Hl' Et);
    destruct (abi_go off l), (abi_go off l'); cbn [fst snd] in *.
  - apply app_inj_length in Eh as [_ Eh]; [|done].
    apply app_inj_length in Eh as [-> Eh]; [|congruence]. f_equal; auto.
  - apply app_inj_length in Eh as [Ez Eh]; [|by rewrite !length_word].
    apply word_inj in Ez; [|done..]. subst. f_equal; auto.
  - apply app_inj_length in Eh as [-> Eh]; [|congruence]. f_equal; auto.
Qed.

Lemma abi_encode_inj args args' :
  Forall valid_arg args -> Forall valid_arg args' ->
  map fst args = map fst args' ->
  abi_encode args = abi_encode args' -> args = args'.
Proof.
  intros Hv Hv' Et E.
  assert (El : length args = length args')
    by (rewrite <-(length_map fst args), Et; apply length_map).
  unfold abi_encode in E. unfold len in E. rewrite El in E.
  set (off := 32 * Z.of_nat (length args')) in E.
  pose proof (abi_go_heads off args Hv) as Hh. pose proof (abi_go_heads off args' Hv') as Hh'.
  destruct (abi_go off args) as [h t] eqn:E1, (abi_go off args') as [h' t'] eqn:E2.
  simpl in *. apply app_inj_length in E as [-> ->]; [|congruence].
  eapply (abi_go_inj off); [done..| |]; by rewrite E1, E2.
Qed.

(** A list of static arguments is the plain concatenation of its words. *)
Lemma abi_encode_static_words args :
  Forall (fun a => match a with
                   | (TAddress, VBytes _) | (TBytes32, VBytes _) | (TUint256, VInt _) => True
                   | _ => False end) args ->
  abi_encode args =
  concat (map (fun a : abi_arg => match a with
                        | (TAddress, VBytes b) => replicate 12 x00 ++ b
                        | (TBytes32, VBytes b) => b
                        | (TUint256, VInt z) => word z
                        | _ => [] end) args).
Proof.
  intros Hs. unfold abi_encode. generalize (32 * len args). intros off.
  induction Hs as [|[t v] l Ha Hs IH]; [done|].
  destruct t, v; try done; cbn [abi_go]; destruct (abi_go off l);
    simpl in *; by rewrite <-?app_assoc, IH.
Qed.

(** ** The interface *)

Class GoEthereum := {
  abi_NewType : string -> result abi_type;
  abi_Pack : list abi_type -> list abi_value -> result bytes;
  BytesToAddress : bytes -> bytes;
  Keccak256 : bytes -> bytes;
}.

Class GoEthereumLaws `{GoEthereum} : Prop := {
  NewType_ok t : abi_NewType (abi_type_name t) = Ok t;
  Pack_ok args : Forall valid_arg args ->
    abi_Pack (map fst args) (map snd args) = Ok (abi_encode args);
  BytesToAddress_20 b : length b = 20%nat -> BytesToAddress b = b;
  length_Keccak256 m : length (Keccak256 m) = 32%nat;
}.

(** These two inputs are a collision of the hash the checkpoint and the
    attestation go through. *)
Definition keccak_collision `{GoEthereum} (x y : bytes) : Prop :=
  x <> y /\ Keccak256 x = Keccak256 y.

(** ** A concrete instance *)

Definition reference_NewType (s : string) : result abi_type :=
  match List.find (fun t => bool_decide (abi_type_name t = s))
          [TAddress; TUint256; TString; TBytes32; TBytes] with
  | Some t => Ok t
  | None => Err (ErrLib "unsupported arg type")
  end.

Definition reference_BytesToAddress (b : bytes) : bytes :=
  let b' := drop (length b - 20) b in replicate (20 - length b') x00 ++ b'.

#[local] Instance reference_eth : GoEthereum := {|
  abi_NewType := reference_NewType;
  abi_Pack ts vs := Ok (abi_encode (zip ts vs));
  BytesToAddress := reference_BytesToAddress;
  Keccak256 := sha256_Sum256;
|}.

#[local] Instance reference_eth_laws : GoEthereumLaws.
Proof.
  split.
  - by intros [].
  - intros args _. simpl. f_equal. f_equal. induction args as [|[t v] l IH]; [done|].
    simpl. by f_equal.
  - intros b Hb. cbn. unfold reference_BytesToAddress. rewrite Hb.
    by rewrite Nat.sub_diag, drop_0, Hb.
  - apply length_sha256.
Qed.
