(* ===== verification/Checkpoint.v ===== *)
(** * Validator-set checkpoints ([server/checkpoint.go])

    The canonical sort, the hand-rolled ABI encoding of the validator set,
    the domain separator and the checkpoint itself, each with its error
    paths; then: sorting forgets exactly the caller's order, the encoders
    never fail and produce the documented byte layout, and every encoder is
    injective on its inputs (up to a Keccak collision after hashing). *)

From S2P Require Import Prelude GoStd Sha256 Abi.

Definition MainnetChainID : bytes := bs "tellor-1".

Record bridgeValidator := BV { EthereumAddress : bytes; Power : Z }.
#[export] Instance bridgeValidator_eq_dec : EqDecision bridgeValidator.
Proof. solve_decision. Defined.

(** The comparison closure of [sortBridgeValidators]. *)
Definition validator_less (vi vj : bridgeValidator) : bool :=
  if Power vi =? Power vj
  then match bytes_Compare (EthereumAddress vi) (EthereumAddress vj) with
       | Lt => true | _ => false end
  else Power vj <? Power vi.

Definition sortBridgeValidators (vs : list bridgeValidator) : list bridgeValidator :=
  SliceStable validator_less vs.

(** [copy] of a slice into a zeroed [[32]byte]. *)
Definition copy32 (b : bytes) : bytes :=
  take 32 b ++ replicate (32 - length b) x00.

(** [binary.BigEndian.PutUint64(make([]byte, 32)[24:], v)]. *)
Definition put_word_u64 (v : Z) : bytes := replicate 24 x00 ++ be_bytes 8 v.

Definition wrapf (fmt : string) (e : error) : error := Errorf fmt [AWrap e].

Section WithEthereum.
Context `{GoEthereum}.

Fixpoint encode_validators (at_ ut : abi_type) (vs : list bridgeValidator) : result bytes :=
  match vs with
  | [] => Ok []
  | v :: vs' =>
      encodedVal ← map_err (wrapf "pack validator: %w")
        (abi_Pack [at_; ut] [VBytes (BytesToAddress (EthereumAddress v)); VInt (Power v)]);
      rest ← encode_validators at_ ut vs';
      Ok (encodedVal ++ rest)
  end.

Definition encodeAndHashValidatorSet (vs : list bridgeValidator) : result (bytes * bytes) :=
  addressType ← map_err (wrapf "abi address type: %w") (abi_NewType "address");
  uintType ← map_err (wrapf "abi uint256 type: %w") (abi_NewType "uint256");
  let offsetToData := put_word_u64 32 in
  let lengthEncoded := put_word_u64 (u64 (len vs)) in
  encodedVals ← encode_validators addressType uintType vs;
  let finalEncoded := (offsetToData ++ lengthEncoded) ++ encodedVals in
  Ok (finalEncoded, Keccak256 finalEncoded).

Definition computeDomainSeparator (chainID : bytes) : result bytes :=
  if beq chainID MainnetChainID then Ok (copy32 (bs "checkpoint"))
  else
    stringType ← map_err (wrapf "abi string type: %w") (abi_NewType "string");
    encoded ← map_err (wrapf "pack domain separator: %w")
      (abi_Pack [stringType; stringType] [VBytes (bs "checkpoint"); VBytes chainID]);
    Ok (Keccak256 encoded).

Definition encodeValsetCheckpoint (domainSep : bytes) (powerThreshold validatorTimestamp : Z)
    (validatorSetHash : bytes) : result bytes :=
  let domainSepFixed := copy32 domainSep in
  let valsetHashFixed := copy32 validatorSetHash in
  bytes32Type ← map_err (wrapf "abi bytes32 type: %w") (abi_NewType "bytes32");
  uint256Type ← map_err (wrapf "abi uint256 type: %w") (abi_NewType "uint256");
  encoded ← map_err (wrapf "pack checkpoint: %w")
    (abi_Pack [bytes32Type; uint256Type; uint256Type; bytes32Type]
              [VBytes domainSepFixed; VInt powerThreshold;
               VInt validatorTimestamp; VBytes valsetHashFixed]);
  Ok (Keccak256 encoded).
End WithEthereum.

(** ** The canonical order *)

Lemma validator_less_irrefl v : validator_less v v = false.
Proof. unfold validator_less. by rewrite Z.eqb_refl, bytes_Compare_refl. Qed.

Lemma validator_less_trans x y z :
  validator_less x y = true -> validator_less y z = true -> validator_less x z = true.
Proof.
  unfold validator_less.
  destruct (Z.eqb_spec (Power x) (Power y)), (Z.eqb_spec (Power y) (Power z)),
    (Z.eqb_spec (Power x) (Power z)); rewrite ?Z.ltb_lt; try lia.
  destruct (bytes_Compare (EthereumAddress x) (EthereumAddress y)) eqn:E; try done.
  destruct (bytes_Compare (EthereumAddress y) (EthereumAddress z)) eqn:F; try done.
  by rewrite (bytes_Compare_lt_trans _ _ _ E F).
Qed.

Lemma validator_less_total x y :
  validator_less x y = false -> validator_less y x = false -> x = y.
Proof.
  destruct x as [ax px], y as [ay py]. unfold validator_less. simpl.
  destruct (Z.eqb_spec px py) as [->|]; rewrite ?Z.eqb_refl.
  - rewrite (bytes_Compare_antisym ax ay).
    destruct (bytes_Compare ax ay) eqn:E; try done.
    by rewrite (bytes_Compare_eq _ _ E).
  - destruct (Z.eqb_spec py px); [lia|]. rewrite !Z.ltb_ge. lia.
Qed.

Definition canonical_le (a b : bridgeValidator) : Prop :=
  Power b < Power a \/
  (Power a = Power b /\ bytes_Compare (EthereumAddress a) (EthereumAddress b) <> Gt).

Lemma le_less_canonical a b : le_less validator_less a b -> canonical_le a b.
Proof.
  unfold le_less, validator_less, canonical_le.
  rewrite (bytes_Compare_antisym (EthereumAddress a)).
  destruct (Z.eqb_spec (Power b) (Power a)).
  - intros E. right. split; [lia|]. by destruct (bytes_Compare _ _).
  - rewrite Z.ltb_ge. lia.
Qed.

Lemma sort_sorted vs : StronglySorted canonical_le (sortBridgeValidators vs).
Proof.
  pose proof (SliceStable_sorted validator_less validator_less_irrefl
    validator_less_trans validator_less_total vs) as Hs.
  unfold sortBridgeValidators. induction Hs as [|x l Hl IH Hx]; constructor; [done|].
  eapply Forall_impl; [exact Hx|]. apply le_less_canonical.
Qed.

Lemma sort_perm vs : Permutation (sortBridgeValidators vs) vs.
Proof. apply SliceStable_perm. Qed.

Lemma sort_canonical vs ws :
  sortBridgeValidators vs = sortBridgeValidators ws <-> Permutation vs ws.
Proof.
  apply SliceStable_canonical;
    [apply validator_less_irrefl|apply validator_less_trans|apply validator_less_total].
Qed.

(** ** Byte layout *)

Lemma length_copy32 b : length (copy32 b) = 32%nat.
Proof. unfold copy32. rewrite length_app, length_take, length_replicate. lia. Qed.

Lemma copy32_id b : length b = 32%nat -> copy32 b = b.
Proof.
  intros E. unfold copy32. rewrite E, Nat.sub_diag, take_ge by lia. apply app_nil_r.
Qed.

Lemma put_word_u64_word v : is_u64 v -> put_word_u64 v = word v.
Proof.
  unfold is_u64, u64_max, put_word_u64, word. intros Hv.
  rewrite <-(be_bytes_be_Z (_ ++ _)), be_Z_zeros, be_Z_be_bytes, Z.mod_small by (simpl; lia).
  by rewrite length_app, length_replicate, length_be_bytes.
Qed.

(** One validator in the encoded set. *)
Definition valid_validator (v : bridgeValidator) : Prop :=
  length (EthereumAddress v) = 20%nat /\ is_u64 (Power v).

Definition validator_word (v : bridgeValidator) : bytes :=
  (replicate 12 x00 ++ EthereumAddress v) ++ word (Power v).

(** The encoded set as Solidity lays out [Validator[]{address,uint256}]. *)
Definition valset_layout (vs : list bridgeValidator) : bytes :=
  word 32 ++ word (len vs) ++ concat (map validator_word vs).

Definition checkpoint_layout (domainSep : bytes) (powerThreshold ts : Z) (valsetHash : bytes) : bytes :=
  domainSep ++ word powerThreshold ++ word ts ++ valsetHash.

Definition domain_args (chainID : bytes) : list abi_arg :=
  [(TString, VBytes (bs "checkpoint")); (TString, VBytes chainID)].

Lemma length_validator_word v : valid_validator v -> length (validator_word v) = 64%nat.
Proof.
  intros [Ha _]. unfold validator_word.
  rewrite !length_app, length_replicate, length_word, Ha. done.
Qed.

Lemma validator_word_inj v w :
  valid_validator v -> valid_validator w -> validator_word v = validator_word w -> v = w.
Proof.
  destruct v as [a p], w as [a' p']. unfold valid_validator, validator_word.
  cbn [EthereumAddress Power]. intros [Ha Hp] [Ha' Hp'] E. unfold is_u64, u64_max in *.
  apply app_inj_length in E as [E1 E2];
    [|by rewrite !length_app, !length_replicate, Ha, Ha'].
  apply app_inj_length in E1 as [_ ->]; [|done].
  apply word_inj in E2; [congruence|unfold word_max; lia..].
Qed.

Lemma validator_words_64 vs :
  Forall valid_validator vs -> Forall (fun x => length x = 64%nat) (map validator_word vs).
Proof. induction 1; constructor; [by apply length_validator_word|done]. Qed.

Lemma valset_layout_inj vs ws :
  Forall valid_validator vs -> Forall valid_validator ws ->
  len vs < word_max -> len ws < word_max ->
  valset_layout vs = valset_layout ws -> vs = ws.
Proof.
  intros Hv Hw Lv Lw E. unfold valset_layout in E.
  apply app_inj_length in E as [_ E]; [|done].
  apply app_inj_length in E as [El E]; [|by rewrite !length_word].
  apply word_inj in El; [|unfold len in *; lia..].
  assert (El' : length vs = length ws) by (unfold len in El; lia).
  apply (concat_inj_const 64) in E;
    [|by apply validator_words_64..|by rewrite !length_map].
  clear -Hv Hw E. revert ws Hw E. induction Hv as [|v vs Hv _ IH]; intros [|w ws] Hw E; try done.
  inversion Hw; subst. cbn [map] in E; apply (inj2 cons) in E as [E1 E2]. f_equal; [by apply validator_word_inj|auto].
Qed.

Section EncoderFacts.
Context `{GoEthereumLaws}.

Lemma NewType_name (s : string) t : abi_type_name t = s -> abi_NewType s = Ok t.
Proof using All. intros <-. apply NewType_ok. Qed.

Lemma encode_validators_ok vs :
  Forall valid_validator vs ->
  encode_validators TAddress TUint256 vs = Ok (concat (map validator_word vs)).
Proof using All.
  induction 1 as [|v vs [Ha Hp] Hvs IH]; [done|]. cbn [encode_validators].
  rewrite (BytesToAddress_20 _ Ha).
  pose proof (Pack_ok [(TAddress, VBytes (EthereumAddress v)); (TUint256, VInt (Power v))]) as Hk.
  simpl map in Hk. rewrite Hk.
  - cbn [map_err mbind result_bind]. rewrite IH. cbn [mbind result_bind map concat]. do 2 f_equal.
    rewrite abi_encode_static_words by (repeat constructor). cbn [map concat].
    by rewrite app_nil_r.
  - unfold is_u64, u64_max in Hp.
    repeat constructor; simpl; [done|unfold word_max; lia..].
Qed.

Lemma encodeAndHash_ok vs :
  Forall valid_validator vs -> len vs < u64_max ->
  encodeAndHashValidatorSet vs = Ok (valset_layout vs, Keccak256 (valset_layout vs)).
Proof using All.
  intros Hv Hl. unfold encodeAndHashValidatorSet.
  rewrite (NewType_name "address" TAddress), (NewType_name "uint256" TUint256) by done.
  cbn [map_err mbind result_bind]. rewrite encode_validators_ok by done.
  cbn [mbind result_bind]. unfold valset_layout, u64.
  rewrite Z.mod_small, !put_word_u64_word, <-app_assoc
    by (unfold is_u64, u64_max, len in *; lia). done.
Qed.

Lemma domain_args_valid chainID : len chainID < word_max -> Forall valid_arg (domain_args chainID).
Proof using All. 
  intros Hc. apply Forall_cons_2; [vm_compute; done|].
  apply Forall_cons_2; [exact Hc|apply Forall_nil_2].
Qed.

Lemma domainSeparator_ok chainID :
  len chainID < word_max ->
  computeDomainSeparator chainID =
  Ok (if beq chainID MainnetChainID then copy32 (bs "checkpoint")
      else Keccak256 (abi_encode (domain_args chainID))).
Proof using All.
  intros Hc. unfold computeDomainSeparator. case_match; [done|].
  rewrite (NewType_name "string" TString) by done. cbn [map_err mbind result_bind].
  pose proof (Pack_ok (domain_args chainID)) as Hk. simpl map in Hk.
  rewrite Hk by by apply domain_args_valid. done.
Qed.

Lemma encodeValsetCheckpoint_ok ds pt ts vh :
  is_u64 pt -> is_u64 ts ->
  encodeValsetCheckpoint ds pt ts vh =
  Ok (Keccak256 (checkpoint_layout (copy32 ds) pt ts (copy32 vh))).
Proof using All.
  unfold is_u64, u64_max. intros Hp Ht. unfold encodeValsetCheckpoint. cbn zeta.
  rewrite (NewType_name "bytes32" TBytes32), (NewType_name "uint256" TUint256) by done.
  cbn [map_err mbind result_bind].
  pose proof (Pack_ok [(TBytes32, VBytes (copy32 ds)); (TUint256, VInt pt);
    (TUint256, VInt ts); (TBytes32, VBytes (copy32 vh))]) as Hk.
  simpl map in Hk. rewrite Hk.
  - cbn [map_err mbind result_bind]. unfold checkpoint_layout.
    rewrite abi_encode_static_words by (repeat constructor). cbn [map concat].
    by rewrite app_nil_r.
  - repeat constructor; simpl; rewrite ?length_copy32; unfold word_max; lia || done.
Qed.
End EncoderFacts.

(** The set hash determines the set up to order, or the two encodings
    collide. *)
Lemma valset_hash_binds `{GoEthereumLaws} vs ws h e e' :
  Forall valid_validator vs -> Forall valid_validator ws ->
  len vs < u64_max -> len ws < u64_max ->
  encodeAndHashValidatorSet (sortBridgeValidators vs) = Ok (e, h) ->
  encodeAndHashValidatorSet (sortBridgeValidators ws) = Ok (e', h) ->
  Permutation vs ws \/ keccak_collision e e'.
Proof.
  intros Hv Hw Lv Lw Ev Ew.
  assert (Sv : Forall valid_validator (sortBridgeValidators vs)) by by rewrite sort_perm.
  assert (Sw : Forall valid_validator (sortBridgeValidators ws)) by by rewrite sort_perm.
  assert (Kv : len (sortBridgeValidators vs) = len vs) by (unfold len; by rewrite sort_perm).
  assert (Kw : len (sortBridgeValidators ws) = len ws) by (unfold len; by rewrite sort_perm).
  rewrite encodeAndHash_ok in Ev, Ew by (done || lia). injection Ev as <- Eh. injection Ew as <- Eh'.
  destruct (decide (valset_layout (sortBridgeValidators vs) = valset_layout (sortBridgeValidators ws)))
    as [E|N].
  - left. apply sort_canonical. unfold u64_max in *.
    apply valset_layout_inj in E; [done..| |]; unfold word_max; lia.
  - right. split; [done|congruence].
Qed.

(** The checkpoint determines its four inputs, or the two encodings
    collide. *)
Lemma checkpoint_binds `{GoEthereumLaws} ds pt ts vh ds' pt' ts' vh' c :
  length ds = 32%nat -> length ds' = 32%nat -> length vh = 32%nat -> length vh' = 32%nat ->
  is_u64 pt -> is_u64 pt' -> is_u64 ts -> is_u64 ts' ->
  encodeValsetCheckpoint ds pt ts vh = Ok c ->
  encodeValsetCheckpoint ds' pt' ts' vh' = Ok c ->
  (ds = ds' /\ pt = pt' /\ ts = ts' /\ vh = vh') \/
  keccak_collision (checkpoint_layout ds pt ts vh) (checkpoint_layout ds' pt' ts' vh').
Proof.
  intros Lds Lds' Lvh Lvh' Hpt Hpt' Hts Hts' E E'.
  rewrite encodeValsetCheckpoint_ok, !copy32_id in E, E' by done.
  injection E as <-. injection E' as E'.
  destruct (decide (checkpoint_layout ds pt ts vh = checkpoint_layout ds' pt' ts' vh')) as [L|N].
  - left. unfold checkpoint_layout, is_u64, u64_max in *.
    apply app_inj_length in L as [-> L]; [|congruence].
    apply app_inj_length in L as [Ept L]; [|by rewrite !length_word].
    apply app_inj_length in L as [Ets ->]; [|by rewrite !length_word].
    apply word_inj in Ept; [|unfold word_max; lia..].
    apply word_inj in Ets; [|unfold word_max; lia..]. done.
  - right. by split.
Qed.

(** ** Properties *)

(** [sortBridgeValidators] puts the set into the node's canonical order
    - power descending, ties by ascending address bytes - keeps every entry,
    and forgets exactly the caller's ordering: two validator sets sort to the
    same slice iff one is a permutation of the other. *)
Theorem sort_forgets_caller_order (vs : list bridgeValidator) :
  StronglySorted canonical_le (sortBridgeValidators vs) /\
  Permutation (sortBridgeValidators vs) vs /\
  forall ws, sortBridgeValidators vs = sortBridgeValidators ws <-> Permutation vs ws.
Proof.
  split; [apply sort_sorted|]. split; [apply sort_perm|]. intros ws. apply sort_canonical.
Qed.

Definition sample_validators : list bridgeValidator :=
  [BV (replicate 20 x01) 10; BV (replicate 20 x02) 7].

(** The domain separator is total and separates chains: on every chain
    id it is 32 bytes, and two different chain ids share it only if their
    two ABI encodings are a Keccak-256 collision, or the encoding of the one
    that is not mainnet is a Keccak-256 preimage of the fixed mainnet
    constant. *)
Theorem domain_separator_separates `{GoEthereumLaws} c c' :
  len c < word_max -> len c' < word_max -> c <> c' ->
  (exists d, computeDomainSeparator c = Ok d /\ length d = 32%nat) /\
  (computeDomainSeparator c = computeDomainSeparator c' ->
   keccak_collision (abi_encode (domain_args c)) (abi_encode (domain_args c')) \/
   (c = MainnetChainID /\ Keccak256 (abi_encode (domain_args c')) = copy32 (bs "checkpoint")) \/
   (c' = MainnetChainID /\ Keccak256 (abi_encode (domain_args c)) = copy32 (bs "checkpoint"))).
Proof.
  intros Hc Hc' N. rewrite !domainSeparator_ok by done. split.
  - eexists. split; [done|]. case_match; [apply length_copy32|apply length_Keccak256].
  - unfold beq. intros E. apply (inj Ok) in E.
    do 2 case_bool_decide; subst; try congruence; [right; auto..|].
    left. split; [|exact E]. intros E'.
    apply abi_encode_inj in E'; [|by apply domain_args_valid..|done]. unfold domain_args in E'. congruence.
Qed.

Lemma domain_separator_separates_witness :
  exists d, @computeDomainSeparator reference_eth (bs "layertest-5") = Ok d /\ length d = 32%nat.
Proof.
  apply (@domain_separator_separates reference_eth reference_eth_laws
    (bs "layertest-5") MainnetChainID); vm_compute; congruence.
Defined.
