(* ===== verification/Attestation.v ===== *)
(** * Oracle attestations ([server/attestation.go])

    The snapshot encoder with its error paths, and the proof that the
    snapshot commits to every field of the attestation. *)

From S2P Require Import Prelude GoStd Sha256 Abi Checkpoint.

Definition oracleAttestationDomainSeparator : bytes := bs "tellorCurrentAttestation".

(** The arguments of [encodeOracleAttestation], in the order of the source. *)
Record attestation := Attestation {
  queryID : bytes;
  value : bytes;
  timestamp : Z;
  aggregatePower : Z;
  previousTimestamp : Z;
  nextTimestamp : Z;
  valsetCheckpoint : bytes;
  attestationTimestamp : Z;
  lastConsensusTimestamp : Z;
}.

Section WithEthereum.
Context `{GoEthereum}.

Definition encodeOracleAttestation (a : attestation) : result bytes :=
  let domainSepBytes32 := copy32 oracleAttestationDomainSeparator in
  let queryIDBytes32 := copy32 (queryID a) in
  let valsetCheckpointBytes32 := copy32 (valsetCheckpoint a) in
  let valueBytes := value a in
  bytes32Type ← map_err (wrapf "abi bytes32 type: %w") (abi_NewType "bytes32");
  uint256Type ← map_err (wrapf "abi uint256 type: %w") (abi_NewType "uint256");
  bytesType ← map_err (wrapf "abi bytes type: %w") (abi_NewType "bytes");
  encodedData ← map_err (wrapf "pack oracle attestation: %w")
    (abi_Pack
       [bytes32Type; bytes32Type; bytesType; uint256Type; uint256Type;
        uint256Type; uint256Type; bytes32Type; uint256Type; uint256Type]
       [VBytes domainSepBytes32; VBytes queryIDBytes32; VBytes valueBytes;
        VInt (timestamp a); VInt (aggregatePower a);
        VInt (previousTimestamp a); VInt (nextTimestamp a);
        VBytes valsetCheckpointBytes32;
        VInt (attestationTimestamp a); VInt (lastConsensusTimestamp a)]);
  Ok (Keccak256 encodedData).
End WithEthereum.

Definition attestation_args (a : attestation) : list abi_arg :=
  [(TBytes32, VBytes (copy32 oracleAttestationDomainSeparator));
   (TBytes32, VBytes (copy32 (queryID a)));
   (TBytes, VBytes (value a));
   (TUint256, VInt (timestamp a)); (TUint256, VInt (aggregatePower a));
   (TUint256, VInt (previousTimestamp a)); (TUint256, VInt (nextTimestamp a));
   (TBytes32, VBytes (copy32 (valsetCheckpoint a)));
   (TUint256, VInt (attestationTimestamp a)); (TUint256, VInt (lastConsensusTimestamp a))].

(** The integer fields are Go [uint64]s and the value is a slice that fits
    the encoding's length word. *)
Definition valid_attestation (a : attestation) : Prop :=
  len (value a) < word_max /\
  Forall is_u64 [timestamp a; aggregatePower a; previousTimestamp a;
                 nextTimestamp a; attestationTimestamp a; lastConsensusTimestamp a].

Lemma is_u64_word z : is_u64 z -> 0 <= z < word_max.
Proof. unfold is_u64, u64_max, word_max. lia. Qed.

Lemma attestation_args_valid a : valid_attestation a -> Forall valid_arg (attestation_args a).
Proof.
  intros [Hv Hf]. unfold attestation_args.
  repeat (apply Forall_cons in Hf as [? Hf]).
  repeat (apply Forall_cons_2; [simpl; first [apply length_copy32|done|by apply is_u64_word]|]).
  apply Forall_nil_2.
Qed.

Section EncoderFacts.
Context `{GoEthereumLaws}.

Lemma encodeOracleAttestation_ok a :
  valid_attestation a ->
  encodeOracleAttestation a = Ok (Keccak256 (abi_encode (attestation_args a))).
Proof using All.
  intros Hv. unfold encodeOracleAttestation. cbn zeta.
  rewrite (NewType_name "bytes32" TBytes32), (NewType_name "uint256" TUint256),
    (NewType_name "bytes" TBytes) by done.
  cbn [map_err mbind result_bind].
  pose proof (Pack_ok (attestation_args a) (attestation_args_valid a Hv)) as Hk.
  cbn [attestation_args map fst snd] in Hk. by rewrite Hk.
Qed.
End EncoderFacts.

(** (C32) The attestation snapshot is always computed (the encoder has no
    reachable error) and commits to every field: two attestations with the
    same snapshot have the same value, timestamps and power, and query ids
    and valset checkpoints that agree in the 32-byte slots they are copied
    into - zero-padded or cut off at the end, so that valset checkpoints of
    32 bytes, the only ones the server accepts, are equal - or their two
    encodings are a Keccak-256 collision. *)
Theorem attestation_snapshot_binds `{GoEthereumLaws} a a' :
  valid_attestation a -> valid_attestation a' ->
  (exists s, encodeOracleAttestation a = Ok s /\ length s = 32%nat) /\
  (encodeOracleAttestation a = encodeOracleAttestation a' ->
   (copy32 (queryID a) = copy32 (queryID a') /\
    value a = value a' /\
    timestamp a = timestamp a' /\
    aggregatePower a = aggregatePower a' /\
    previousTimestamp a = previousTimestamp a' /\
    nextTimestamp a = nextTimestamp a' /\
    copy32 (valsetCheckpoint a) = copy32 (valsetCheckpoint a') /\
    (length (valsetCheckpoint a) = 32%nat -> length (valsetCheckpoint a') = 32%nat ->
     valsetCheckpoint a = valsetCheckpoint a') /\
    (length (queryID a) = 32%nat -> length (queryID a') = 32%nat -> queryID a = queryID a') /\
    attestationTimestamp a = attestationTimestamp a' /\
    lastConsensusTimestamp a = lastConsensusTimestamp a') \/
   keccak_collision (abi_encode (attestation_args a)) (abi_encode (attestation_args a'))).
Proof.
  intros Ha Ha'. rewrite !encodeOracleAttestation_ok by done. split.
  { eexists. split; [done|apply length_Keccak256]. }
  intros E. apply (inj Ok) in E.
  destruct (decide (abi_encode (attestation_args a) = abi_encode (attestation_args a'))) as [L|N].
  - left. apply abi_encode_inj in L; [|by apply attestation_args_valid..|done].
    unfold attestation_args in L.
    assert (Hc : forall b b', copy32 b = copy32 b' -> length b = 32%nat -> length b' = 32%nat -> b = b')
      by (intros b b' E' H1 H2; by rewrite !copy32_id in E').
    repeat (apply (inj2 cons) in L as [? L]). simplify_eq. split_and!; eauto.
  - right. by split.
Qed.

Definition sample_attestation : attestation :=
  Attestation (replicate 32 x0a) (bs "value") 1000 55 900 1100 (replicate 32 x0b) 1200 950.

(** Two query ids that pad to the same 32 bytes share their snapshot. *)
Definition padded_attestation : attestation :=
  Attestation (bs "id") (bs "value") 1000 55 900 1100 (replicate 32 x0b) 1200 950.
Definition padded_attestation' : attestation :=
  Attestation (bs "id" ++ [x00]) (bs "value") 1000 55 900 1100 (replicate 32 x0b) 1200 950.

Lemma attestation_snapshot_binds_witness :
  (exists s, @encodeOracleAttestation reference_eth sample_attestation = Ok s /\ length s = 32%nat) /\
  (copy32 (queryID padded_attestation) = copy32 (queryID padded_attestation') \/
   @keccak_collision reference_eth (abi_encode (attestation_args padded_attestation))
     (abi_encode (attestation_args padded_attestation'))).
Proof.
  split.
  - apply (@attestation_snapshot_binds reference_eth reference_eth_laws
             sample_attestation sample_attestation);
      (split; [vm_compute; done|repeat constructor; vm_compute; done]).
  - destruct (@attestation_snapshot_binds reference_eth reference_eth_laws padded_attestation padded_attestation')
      as [_ H]; [split; [vm_compute; done|repeat constructor; vm_compute; done]..|].
    destruct (H eq_refl) as [[Hq _]|Hc]; [left; exact Hq|right; exact Hc].
Defined.
