(* ===== verification/Fs.v ===== *)
(** * The file system the signer persists its state in

    A POSIX-style disk with what crash safety depends on: a file's data is
    durable only after [fsync] of the file, a directory entry only after
    [fsync] of its directory.  Every system call may fail: the outcome comes
    from a list of [fault]s the calls consume (an exhausted list means
    success), a failing [write] leaving a prefix behind.  Every call records
    the disk it leaves in [fs_trace], so that a property can speak about a
    crash between any two calls.

    Not modelled: durability of directory creation (directories are not lost
    in a crash) and ancestors of the directory given to [os.MkdirAll].

    On top of the calls: [writeBytesAtomic] and [syncDirBestEffort]
    ([server/replay_guard.go]), [WriteNewFileAtomic], [validatePerm] and
    [syncDir] ([signer/atomicwrite.go]), [RequireStateFile] and
    [InitStateFile] ([consensus/statefile.go]). *)

From S2P Require Import Prelude GoStd.

(** ** Disks *)

Record inode := Inode { idata : bytes; imode : Z; isynced : bool }.

(** [entries] keeps, per path, the values its directory entry has had since
    the directory was last synced, newest first: the value seen by readers is
    the first, the value after a crash may be any. *)
Record disk := Disk {
  inodes : gmap nat inode;
  entries : gmap bytes (list (option nat));
  dirs : gset bytes;
  next : nat;
}.

Definition hist (d : disk) (p : bytes) : list (option nat) :=
  match entries d !! p with Some h => h | None => [None] end.

Definition cur (d : disk) (p : bytes) : option nat :=
  match hist d p with Some i :: _ => Some i | _ => None end.

(** What a reader sees at [p]. *)
Definition content (d : disk) (p : bytes) : option bytes :=
  match cur d p with
  | Some i => idata <$> inodes d !! i
  | None => None
  end.

(** What [p] may hold after a crash: the data of a synced file is intact,
    the data of another file is arbitrary. *)
Inductive crash_content (d : disk) (p : bytes) : option bytes -> Prop :=
| crash_absent : None ∈ hist d p -> crash_content d p None
| crash_synced i n : Some i ∈ hist d p -> inodes d !! i = Some n -> isynced n = true ->
    crash_content d p (Some (idata n))
| crash_torn i n b : Some i ∈ hist d p -> inodes d !! i = Some n -> isynced n = false ->
    crash_content d p (Some b).

(** The disk a restarted process finds. *)
Definition crash (d d' : disk) : Prop :=
  dirs d' = dirs d /\
  (forall p, hist d' p <> []) /\
  (forall p i, Some i ∈ hist d' p -> (i < next d')%nat /\ is_Some (inodes d' !! i)) /\
  forall p, exists c, crash_content d p c /\ content d' p = c /\
    forall c', crash_content d' p c' -> c' = c.

Definition set_inode (i : nat) (n : inode) (d : disk) : disk :=
  Disk (<[i := n]> (inodes d)) (entries d) (dirs d) (next d).
Definition push_entry (p : bytes) (v : option nat) (d : disk) : disk :=
  Disk (inodes d) (<[p := v :: hist d p]> (entries d)) (dirs d) (next d).
Definition sync_entries (dir : bytes) (d : disk) : disk :=
  Disk (inodes d)
       (map_imap (fun p h => Some (if decide (Dir p = dir) then take 1 h else h)) (entries d))
       (dirs d) (next d).

Definition empty_disk : disk := Disk ∅ ∅ {[bs "."; bs "/"; bs "/data"]} 0.

(** ** System calls *)

(** [Fault n]: the call fails for a reason of the environment (I/O error,
    no space, permissions); a write gets [n] bytes out first.  [ENOENT],
    [EEXIST] and [EISDIR] are not injected: they come from the disk. *)
Inductive fault := NoFault | Fault (partial : nat).

Record fs := Fs {
  fs_disk : disk;
  fs_faults : list fault;
  fs_names : list bytes;
  fs_trace : list disk;
}.

Definition fresh_fs (d : disk) : fs := Fs d [] [] [].

Definition fs_put (d : disk) (faults : list fault) (s : fs) : fs :=
  Fs d faults (fs_names s) (d :: fs_trace s).

(** One system call: its effect [op], and what a failing call leaves
    ([broken]). *)
Definition syscall {A} (op : disk -> result A * disk) (broken : nat -> disk -> disk) : ST fs A :=
  fun s =>
    match fs_faults s with
    | Fault n :: fl => (Err (ErrIO EIO), fs_put (broken n (fs_disk s)) fl s)
    | NoFault :: fl => let '(r, d) := op (fs_disk s) in (r, fs_put d fl s)
    | [] => let '(r, d) := op (fs_disk s) in (r, fs_put d [] s)
    end.

Definition unchanged (n : nat) (d : disk) : disk := d.
Definition ok_unit (d : disk) : result () * disk := (Ok (), d).
Definition fail_io {A} (e : io_err) (d : disk) : result A * disk := (Err (ErrIO e), d).

Definition os_MkdirAll (p : bytes) : ST fs () :=
  syscall (fun d => ok_unit (Disk (inodes d) (entries d) ({[p]} ∪ dirs d) (next d))) unchanged.

Definition os_ReadFile (p : bytes) : ST fs bytes :=
  syscall (fun d => if decide (p ∈ dirs d) then fail_io EISDIR d
                    else match content d p with
                         | Some b => (Ok b, d)
                         | None => fail_io ENOENT d
                         end) unchanged.

(** [os.Stat]: the [IsDir] bit and the permission bits. *)
Definition os_Stat (p : bytes) : ST fs (bool * Z) :=
  syscall (fun d => if decide (p ∈ dirs d) then (Ok (true, 493), d)
                    else match cur d p with
                         | Some i => (Ok (false, match inodes d !! i with
                                                 | Some n => imode n | None => 0 end), d)
                         | None => fail_io ENOENT d
                         end) unchanged.

(** The name [os.CreateTemp] builds: directory, separator unless the
    directory ends in one, prefix, random part, suffix. *)
Definition tmp_path (dir prefix rnd : bytes) : bytes :=
  (if decide (last dir = Some sep) then dir else dir ++ [sep]) ++
  prefix ++ rnd ++ bs ".tmp".

Definition fs_pop_name : ST fs bytes := fun s =>
  match fs_names s with
  | r :: rs => (Ok r, Fs (fs_disk s) (fs_faults s) rs (fs_trace s))
  | [] => (Ok (bs "0"), s)
  end.

Definition new_file (p : bytes) (mode : Z) (d : disk) : nat * disk :=
  let i := next d in
  (i, push_entry p (Some i)
        (Disk (<[i := Inode [] mode false]> (inodes d)) (entries d) (dirs d) (S i))).

Definition create_op (dir p : bytes) (d : disk) : result (nat * bytes) * disk :=
  if decide (dir ∈ dirs d) then
    match cur d p with
    | Some _ => fail_io EEXIST d
    | None => let '(i, d') := new_file p 384 d in (Ok (i, p), d')
    end
  else fail_io ENOENT d.

(** [os.CreateTemp(dir, prefix + "*.tmp")]: a new empty file of mode 0600
    under a random name. *)
Definition os_CreateTemp (dir prefix : bytes) : ST fs (nat * bytes) := (
  rnd <- fs_pop_name ;;
  syscall (create_op dir (tmp_path dir prefix rnd)) unchanged)%go.

Definition write_op (b : bytes) (i : nat) (d : disk) : disk :=
  match inodes d !! i with
  | Some n => set_inode i (Inode (idata n ++ b) (imode n) false) d
  | None => d
  end.
Definition f_Write (i : nat) (b : bytes) : ST fs () :=
  syscall (fun d => ok_unit (write_op b i d)) (fun n => write_op (take n b) i).

Definition chmod_op (mode : Z) (i : nat) (d : disk) : disk :=
  match inodes d !! i with
  | Some n => set_inode i (Inode (idata n) mode (isynced n)) d
  | None => d
  end.
Definition f_Chmod (i : nat) (mode : Z) : ST fs () :=
  syscall (fun d => ok_unit (chmod_op mode i d)) unchanged.

Definition sync_op (i : nat) (d : disk) : disk :=
  match inodes d !! i with
  | Some n => set_inode i (Inode (idata n) (imode n) true) d
  | None => d
  end.
Definition f_Sync (i : nat) : ST fs () :=
  syscall (fun d => ok_unit (sync_op i d)) unchanged.

Definition f_Close (i : nat) : ST fs () := syscall ok_unit unchanged.

Definition rename_op (old new : bytes) (d : disk) : result () * disk :=
  match cur d old with
  | None => fail_io ENOENT d
  | Some i =>
      if decide (new ∈ dirs d) then fail_io EISDIR d
      else if decide (old = new) then (Ok (), d)
      else (Ok (), push_entry old None (push_entry new (Some i) d))
  end.
Definition os_Rename (old new : bytes) : ST fs () := syscall (rename_op old new) unchanged.

Definition link_op (old new : bytes) (d : disk) : result () * disk :=
  match cur d old with
  | None => fail_io ENOENT d
  | Some i =>
      if decide (new ∈ dirs d) then fail_io EEXIST d
      else match cur d new with
           | Some _ => fail_io EEXIST d
           | None => (Ok (), push_entry new (Some i) d)
           end
  end.
Definition os_Link (old new : bytes) : ST fs () := syscall (link_op old new) unchanged.

Definition remove_op (p : bytes) (d : disk) : result () * disk :=
  match cur d p with
  | None => fail_io ENOENT d
  | Some _ => (Ok (), push_entry p None d)
  end.
Definition os_Remove (p : bytes) : ST fs () := syscall (remove_op p) unchanged.

Definition os_OpenDir (p : bytes) : ST fs () :=
  syscall (fun d => if decide (p ∈ dirs d) then ok_unit d else fail_io ENOENT d) unchanged.
Definition d_Sync (p : bytes) : ST fs () :=
  syscall (fun d => ok_unit (sync_entries p d)) unchanged.
Definition d_Close (p : bytes) : ST fs () := syscall ok_unit unchanged.

(** [os.WriteFile]: open with [O_CREATE|O_TRUNC], write, close. *)
Definition open_trunc (p : bytes) (mode : Z) (d : disk) : result nat * disk :=
  if decide (p ∈ dirs d) then fail_io EISDIR d
  else if decide (Dir p ∈ dirs d) then
    match cur d p with
    | Some i => (Ok i, match inodes d !! i with
                       | Some n => set_inode i (Inode [] (imode n) false) d
                       | None => d end)
    | None => let '(i, d') := new_file p mode d in (Ok i, d')
    end
  else fail_io ENOENT d.

Definition os_WriteFile (p b : bytes) (mode : Z) : ST fs () := (
  i <- syscall (open_trunc p mode) unchanged ;;
  r <- st_try (f_Write i b) ;;
  c <- st_try (f_Close i) ;;
  st_lift (match r with Ok _ => c | _ => r end))%go.

(** [defer func() { _ = cleanup }()]. *)
Definition st_defer {S A} (m : ST S A) (cleanup : ST S ()) : ST S A := fun s =>
  let '(r, s') := m s in (r, snd (cleanup s')).

(** ** [server/replay_guard.go] *)

Definition errw (fmt : string) (e : error) : error := Errorf fmt [AWrap e].
Definition errqw (fmt : string) (p : bytes) (e : error) : error := Errorf fmt [AStr p; AWrap e].

Definition syncDirBestEffort (dir : bytes) : ST fs () := (
  st_map_err (errqw "open dir %q for fsync: %w" dir) (os_OpenDir dir) ;;;
  st_defer (st_map_err (errqw "fsync dir %q: %w" dir) (d_Sync dir))
           (st_try (d_Close dir) ;;; st_ret ()))%go.

(** A step that closes the file before it reports its error. *)
Definition or_close (i : nat) (fmt : string) (m : ST fs ()) : ST fs () := (
  r <- st_try m ;;
  match r with
  | Ok _ => st_ret ()
  | Err e => st_try (f_Close i) ;;; st_lift (Err (errw fmt e))
  | Panic => st_lift Panic
  end)%go.

Definition writeBytesAtomic (path b : bytes) : ST fs () := (
  let dir := Dir path in
  st_map_err (errqw "mkdir %q: %w" dir) (os_MkdirAll dir) ;;;
  f <- st_map_err (errw "create temp file: %w") (os_CreateTemp dir (bs ".ckpt-hw-")) ;;
  let '(i, tmpPath) := f in
  st_defer (
    or_close i "write temp file: %w" (f_Write i b) ;;;
    or_close i "chmod temp file: %w" (f_Chmod i 384) ;;;
    or_close i "fsync temp file: %w" (f_Sync i) ;;;
    st_map_err (errw "close temp file: %w") (f_Close i) ;;;
    st_map_err (errqw "rename temp file to %q: %w" path) (os_Rename tmpPath path) ;;;
    syncDirBestEffort dir)
  (st_try (os_Remove tmpPath) ;;; st_ret ()))%go.

(** ** [signer/atomicwrite.go] *)

Definition validatePerm (perm : Z) : result () :=
  if negb (Z.ldiff perm 511 =? 0) then
    Err (Errorf "perm %#o has bits outside 0o777 (no setuid/setgid/sticky); refusing" [AInt perm])
  else if negb (Z.land perm 63 =? 0) then
    Err (Errorf "perm %#o is accessible by group or others; refusing (use 0o600 for secrets)" [AInt perm])
  else Ok ().

Definition syncDir (dir : bytes) : ST fs () := (
  st_map_err (errqw "open dir %q for fsync: %w" dir) (os_OpenDir dir) ;;;
  st_defer (
    st_map_err (errqw "fsync dir %q: %w" dir) (d_Sync dir) ;;;
    st_map_err (errqw "close dir %q: %w" dir) (d_Close dir))
  (st_try (d_Close dir) ;;; st_ret ()))%go.

(** [errors.Is(err, os.ErrExist)] on the error of [os.Link]. *)
Definition is_exist (e : error) : bool :=
  match e with ErrIO EEXIST => true | _ => false end.

Definition WriteNewFileAtomic (path data : bytes) (perm : Z) : ST fs () := (
  st_lift (validatePerm perm) ;;;
  let dir := Dir path in
  f <- st_map_err (errw "create temp file: %w") (os_CreateTemp dir (bs ".atomic-")) ;;
  let '(i, tmpPath) := f in
  st_defer (st_defer (
    st_map_err (errw "write temp file: %w") (f_Write i data) ;;;
    st_map_err (errw "chmod temp file: %w") (f_Chmod i perm) ;;;
    st_map_err (errw "fsync temp file: %w") (f_Sync i) ;;;
    st_map_err (errw "close temp file: %w") (f_Close i) ;;;
    st_map_err (fun e => if is_exist e then Errorf "refusing to overwrite %q" [AStr path]
                         else errqw "link temp file to %q: %w" path e)
      (os_Link tmpPath path) ;;;
    syncDir dir)
  (st_try (f_Close i) ;;; st_ret ()))
  (st_try (os_Remove tmpPath) ;;; st_ret ()))%go.

(** ** [consensus/statefile.go] *)

(** A string between double quotes, as JSON writes a key. *)
Definition quoted (s : bytes) : bytes := x22 :: s ++ [x22].

(** The zero last-sign state: height as a string, round and step as numbers,
    and a newline. *)
Definition freshStateJSON : bytes :=
  bs "{" ++ quoted (bs "height") ++ bs ":" ++ quoted (bs "0") ++ bs "," ++
  quoted (bs "round") ++ bs ":0," ++ quoted (bs "step") ++ bs ":0}" ++ [x0a].

Definition RequireStateFile (stateFilePath : bytes) : ST fs () := (
  r <- st_try (os_Stat stateFilePath) ;;
  match r with
  | Err e =>
      if os_IsNotExist e then
        st_lift (Err (Errorf "state file %s not found: refusing to start without a last-sign state; bootstrap a new signer once with 'init-state'" [AStr stateFilePath]))
      else st_lift (Err (errqw "stat state file %s: %w" stateFilePath e))
  | Ok (isDir, _) =>
      if isDir then st_lift (Err (Errorf "state file path %s is a directory" [AStr stateFilePath]))
      else st_ret ()
  | Panic => st_lift Panic
  end)%go.

Definition InitStateFile (stateFilePath : bytes) : ST fs () := (
  r <- st_try (os_Stat stateFilePath) ;;
  match r with
  | Ok (isDir, _) =>
      if isDir then st_lift (Err (Errorf "state file path %s is a directory" [AStr stateFilePath]))
      else st_lift (Err (Errorf "state file %s already exists: refusing to overwrite an existing last-sign state" [AStr stateFilePath]))
  | Err e =>
      if negb (os_IsNotExist e) then st_lift (Err (errqw "stat state file %s: %w" stateFilePath e))
      else st_map_err (errqw "create state file %s: %w" stateFilePath)
             (os_WriteFile stateFilePath freshStateJSON 384)
  | Panic => st_lift Panic
  end)%go.

(** ** Reasoning about the calls

    [triple P m Q I]: from a state whose disk satisfies [P], [m] ends with a
    result and a disk in [Q], and every disk it leaves on the way satisfies
    [I]. *)

Definition triple {A} (P : disk -> Prop) (m : ST fs A) (Q : result A -> disk -> Prop)
    (I : disk -> Prop) : Prop :=
  forall s, P (fs_disk s) ->
    let '(r, s') := m s in
    Q r (fs_disk s') /\ exists tr, fs_trace s' = tr ++ fs_trace s /\ Forall I tr.

Lemma triple_ret {A} (a : A) P Q I :
  (forall d, P d -> Q (Ok a) d) -> triple P (st_ret a) Q I.
Proof. intros H s Hs. split; [by apply H|]. by exists []. Qed.

Lemma triple_lift {A} (r : result A) P Q I :
  (forall d, P d -> Q r d) -> triple P (st_lift r) Q I.
Proof. intros H s Hs. split; [by apply H|]. by exists []. Qed.

Lemma triple_bind {A B} (m : ST fs A) (f : A -> ST fs B) P R Q I :
  triple P m R I ->
  (forall a, triple (R (Ok a)) (f a) Q I) ->
  (forall e d, R (Err e) d -> Q (Err e) d) ->
  (forall d, R Panic d -> Q Panic d) ->
  triple P (st_bind m f) Q I.
Proof.
  intros Hm Hf He Hp s Hs. specialize (Hm s Hs). unfold st_bind.
  destruct (m s) as [[a|e|] s1]; destruct Hm as (HR & tr & Et & Ht); [|eauto..].
  specialize (Hf a s1 HR). destruct (f a s1) as [r s2].
  destruct Hf as (HQ & tr2 & Et2 & Ht2). split; [done|].
  exists (tr2 ++ tr). rewrite Et2, Et, app_assoc. split; [done|]. by apply Forall_app.
Qed.

Lemma triple_try {A} (m : ST fs A) P Q I :
  triple P m (fun r d => Q (Ok r) d) I -> triple P (st_try m) Q I.
Proof.
  intros Hm s Hs. specialize (Hm s Hs). unfold st_try. by destruct (m s).
Qed.

Lemma triple_map_err {A} f (m : ST fs A) P Q I :
  triple P m (fun r d => Q (map_err f r) d) I -> triple P (st_map_err f m) Q I.
Proof.
  intros Hm s Hs. specialize (Hm s Hs). unfold st_map_err. by destruct (m s).
Qed.

Lemma triple_defer {A} (m : ST fs A) c P R Q I :
  triple P m R I -> (forall r, triple (R r) c (fun _ d => Q r d) I) ->
  triple P (st_defer m c) Q I.
Proof.
  intros Hm Hc s Hs. specialize (Hm s Hs). unfold st_defer.
  destruct (m s) as [r s1]. destruct Hm as (HR & tr & Et & Ht).
  specialize (Hc r s1 HR). destruct (c s1) as [r2 s2].
  destruct Hc as (HQ & tr2 & Et2 & Ht2). split; [done|].
  exists (tr2 ++ tr). simpl. rewrite Et2, Et, app_assoc. split; [done|]. by apply Forall_app.
Qed.

Lemma triple_conseq {A} (m : ST fs A) (P P' : disk -> Prop) (Q Q' : result A -> disk -> Prop) I :
  triple P' m Q' I -> (forall d, P d -> P' d) -> (forall r d, Q' r d -> Q r d) ->
  triple P m Q I.
Proof.
  intros Hm HP HQ s Hs. specialize (Hm s (HP _ Hs)). destruct (m s).
  destruct Hm as (H1 & H2). eauto.
Qed.

Lemma triple_syscall {A} (op : disk -> result A * disk) broken P Q I :
  (forall d, P d -> Q (fst (op d)) (snd (op d)) /\ I (snd (op d))) ->
  (forall d n, P d -> Q (Err (ErrIO EIO)) (broken n d) /\ I (broken n d)) ->
  triple P (syscall op broken) Q I.
Proof.
  intros Hop Hbr s Hs. unfold syscall.
  destruct (Hop _ Hs) as [H1 H2].
  destruct (fs_faults s) as [|[|n] fl].
  1,2: destruct (op (fs_disk s)) as [r d]; simpl in *; split; [done|];
    exists [d]; by repeat constructor.
  destruct (Hbr _ n Hs) as [H3 H4]. simpl. split; [done|].
  eexists [_]. by repeat constructor.
Qed.

(** A fact of the precondition that does not depend on the disk. *)
Lemma triple_pure {A} (phi : Prop) (m : ST fs A) P Q I :
  (phi -> triple P m Q I) -> triple (fun d => phi /\ P d) m Q I.
Proof. intros H s [Hp Hs]. by apply H. Qed.

(** A call that leaves the disk alone. *)
Lemma triple_skip {A} (m : ST fs A) (P : disk -> Prop) (Q : result A -> disk -> Prop) I :
  (forall s, fs_disk (snd (m s)) = fs_disk s /\ exists k,
     fs_trace (snd (m s)) = replicate k (fs_disk s) ++ fs_trace s) ->
  (forall r d, P d -> Q r d) -> (forall d, P d -> I d) -> triple P m Q I.
Proof.
  intros Hm HQ HI s Hs. destruct (Hm s) as (Hd & k & Ht).
  destruct (m s) as [r s']. simpl in *. rewrite Hd. split; [by apply HQ|].
  eexists. split; [exact Ht|]. apply Forall_replicate. by apply HI.
Qed.

(** ** Facts about disks *)

Definition wf_path (d : disk) (p : bytes) : Prop :=
  hist d p <> [] /\
  forall j, Some j ∈ hist d p -> (j < next d)%nat /\ is_Some (inodes d !! j).

Lemma hist_push_eq p v d : hist (push_entry p v d) p = v :: hist d p.
Proof. unfold hist at 1, push_entry. simpl. by rewrite lookup_insert_eq. Qed.
Lemma hist_push_ne p q v d : p <> q -> hist (push_entry p v d) q = hist d q.
Proof. intros N. unfold hist, push_entry. simpl. by rewrite lookup_insert_ne. Qed.
Lemma hist_set_inode i n d p : hist (set_inode i n d) p = hist d p.
Proof. done. Qed.
Lemma hist_sync_same p d : hist (sync_entries (Dir p) d) p = take 1 (hist d p).
Proof.
  unfold hist, sync_entries. simpl. rewrite map_lookup_imap.
  destruct (entries d !! p); simpl; [|done]. by rewrite decide_True.
Qed.
Lemma cur_hist d p i : cur d p = Some i -> Some i ∈ hist d p.
Proof. unfold cur. destruct (hist d p) as [|[j|] h]; simpl; try done. intros [= ->]. left. Qed.

Lemma crash_content_same d d' p c :
  hist d' p = hist d p ->
  (forall j, Some j ∈ hist d p -> inodes d' !! j = inodes d !! j) ->
  crash_content d' p c -> crash_content d p c.
Proof.
  intros Eh Ei [H|i n H Hn Hs|i n b H Hn Hs]; rewrite Eh in H.
  - by constructor.
  - rewrite Ei in Hn by done. econstructor; eauto.
  - rewrite Ei in Hn by done. econstructor; eauto.
Qed.

(** The name of a temporary file is not the name of a file that does not
    end in [.tmp]. *)
Definition is_temp (p : bytes) : bool := beq (drop (length p - 4) p) (bs ".tmp").

Lemma tmp_path_is_temp dir prefix rnd : is_temp (tmp_path dir prefix rnd) = true.
Proof.
  unfold is_temp, tmp_path, beq. rewrite bool_decide_true; [done|].
  rewrite !app_assoc. set (l := (_ ++ _) ++ rnd). change (bs ".tmp") with [x2e; x74; x6d; x70].
  rewrite length_app. cbn [length]. replace (length l + 4 - 4)%nat with (length l) by lia.
  by rewrite drop_app_length.
Qed.

Lemma tmp_path_ne path dir prefix rnd : is_temp path = false -> tmp_path dir prefix rnd <> path.
Proof. intros E <-. by rewrite tmp_path_is_temp in E. Qed.

(** ** Crash consistency of [writeBytesAtomic] *)

Section AtomicWrite.
Context (d0 : disk) (path b : bytes) (perm : Z).

(** [path] is as it was in [d0]. *)
Definition Same0 (d : disk) : Prop :=
  hist d path = hist d0 path /\
  (forall j, Some j ∈ hist d0 path -> inodes d !! j = inodes d0 !! j) /\
  (next d0 <= next d)%nat.

(** The temporary file exists as inode [i], with [R] of its contents. *)
Definition Mid (i : nat) (tmp : bytes) (R : inode -> Prop) (d : disk) : Prop :=
  Same0 d /\ cur d tmp = Some i /\ (i < next d)%nat /\
  (Some i ∉ hist d0 path) /\ tmp <> path /\ exists n, inodes d !! i = Some n /\ R n.

(** The new file is in place, its directory entry not yet durable. *)
Definition Post (d : disk) : Prop :=
  exists i n, hist d path = Some i :: hist d0 path /\
  inodes d !! i = Some n /\ idata n = b /\ isynced n = true /\ imode n = perm /\
  (i < next d)%nat /\ (next d0 <= next d)%nat /\
  forall j, Some j ∈ hist d0 path -> inodes d !! j = inodes d0 !! j.

(** ... and durable. *)
Definition Done (d : disk) : Prop :=
  exists i n, hist d path = [Some i] /\
  inodes d !! i = Some n /\ idata n = b /\ isynced n = true /\ imode n = perm /\
  (i < next d)%nat.

Definition old_or_new_crash (d : disk) : Prop :=
  forall c, crash_content d path c -> crash_content d0 path c \/ c = Some b.

Lemma Same0_crash_content d : Same0 d -> old_or_new_crash d.
Proof using. intros (Eh & Ei & _) c Hc. left. by eapply crash_content_same. Qed.

Lemma Post_crash_content d : Post d -> old_or_new_crash d.
Proof using.
  intros (i & n & Eh & En & Ed & Es & _ & _ & _ & Ei) c [H|j m H Hm Hs|j m x H Hm Hs];
    rewrite Eh in H; apply elem_of_cons in H as [Ej|H]; simplify_eq; try (right; congruence).
  - left. by constructor.
  - left. rewrite Ei in Hm by done. econstructor; eauto.
  - left. rewrite Ei in Hm by done. econstructor; eauto.
Qed.

Lemma Done_crash d c : Done d -> crash_content d path c -> c = Some b.
Proof using.
  intros (i & n & Eh & En & Ed & Es & _) [H|j m H Hm Hs|j m x H Hm Hs];
    rewrite Eh in H; apply list_elem_of_singleton in H; simplify_eq; congruence.
Qed.

Hypothesis wf0 : wf_path d0 path.

Lemma Same0_wf d : Same0 d -> wf_path d path.
Proof using wf0.
  intros (Eh & Ei & Hn). destruct wf0 as [W1 W2]. split; rewrite Eh; [done|].
  intros j Hj. destruct (W2 j Hj). rewrite Ei by done. split; [lia|done].
Qed.

Lemma Post_wf d : Post d -> wf_path d path.
Proof using wf0.
  intros (i & n & Eh & En & _ & _ & _ & Hi & Hn & Ei). destruct wf0 as [_ W2].
  split; rewrite Eh; [done|]. intros j [E|Hj]%elem_of_cons; [simplify_eq; eauto|].
  destruct (W2 j Hj). rewrite Ei by done. split; [lia|done].
Qed.

Lemma Done_wf d : Done d -> wf_path d path.
Proof using.
  intros (i & n & Eh & En & _ & _ & _ & Hi). split; rewrite Eh; [done|].
  intros j E%list_elem_of_singleton. simplify_eq. eauto.
Qed.

(** At every moment: the path is intact, and a crash leaves what it could
    have held before or the new bytes. *)
Definition old_or_new (d : disk) : Prop := wf_path d path /\ old_or_new_crash d.

Lemma Same0_crash d : Same0 d -> old_or_new d.
Proof using wf0. intros H. split; [by apply Same0_wf|by apply Same0_crash_content]. Qed.
Lemma Post_crash d : Post d -> old_or_new d.
Proof using wf0. intros H. split; [by apply Post_wf|by apply Post_crash_content]. Qed.
Lemma Done_old_or_new d : Done d -> old_or_new d.
Proof using wf0. intros H. split; [by apply Done_wf|]. intros c Hc. right. by eapply Done_crash. Qed.

Lemma new_inode_fresh d : Same0 d -> Some (next d) ∉ hist d0 path.
Proof using wf0.
  intros (_ & _ & Hn) Hi. destruct wf0 as [_ W2]. destruct (W2 _ Hi). lia.
Qed.

(** Changing the temporary inode leaves [path] alone. *)
Lemma Mid_set i tmp R (R' : inode -> Prop) n d :
  Mid i tmp R d -> R' n -> Mid i tmp R' (set_inode i n d).
Proof using wf0.
  intros ((Eh & Ei & Hn) & Ec & Hi & Hf & Ht & _) HR'.
  repeat split; try done.
  - intros j Hj. unfold set_inode; simpl. rewrite lookup_insert_ne; [by apply Ei|].
    intros ->. done.
  - exists n. simpl. by rewrite lookup_insert_eq.
Qed.

Lemma Mid_weaken i tmp (R R' : inode -> Prop) d :
  (forall n, R n -> R' n) -> Mid i tmp R d -> Mid i tmp R' d.
Proof using wf0. intros HR (H1 & H2 & H3 & H4 & H5 & n & H6 & H7). repeat split; eauto; apply H1. Qed.

Lemma Mid_Same0 i tmp R d : Mid i tmp R d -> Same0 d.
Proof using wf0. by intros [? _]. Qed.

Lemma Same0_dirs d D : Same0 d -> Same0 (Disk (inodes d) (entries d) D (next d)).
Proof using wf0. done. Qed.

Lemma Mid_create d dir tmp i :
  Same0 d -> tmp <> path ->
  forall d', create_op dir tmp d = (Ok (i, tmp), d') ->
  Mid i tmp (fun n => idata n = []) d'.
Proof using wf0.
  intros HS Ht d'. pose proof (new_inode_fresh d HS) as Hf. destruct HS as (Eh & Ei & Hn).
  unfold create_op. case_decide; [|done]. destruct (cur d tmp) eqn:Ec; [done|].
  unfold new_file. intros [= <- <-]. repeat split; simpl; try done; try lia.
  - rewrite hist_push_ne by done. done.
  - intros j Hj. rewrite lookup_insert_ne; [by apply Ei|]. intros <-. done.
  - unfold cur. rewrite hist_push_eq. done.
  - eexists. rewrite lookup_insert_eq. done.
Qed.

Lemma Mid_rename i tmp d :
  Mid i tmp (fun n => idata n = b /\ imode n = perm /\ isynced n = true) d ->
  match rename_op tmp path d with
  | (Ok _, d') => Post d'
  | (Err _, d') => Same0 d'
  | (Panic, _) => False
  end.
Proof using wf0.
  intros (HS & Ec & Hi & Hf & Ht & n & En & Ed & Em & Es).
  unfold rename_op. rewrite Ec. case_decide; [done|]. rewrite decide_False by done.
  destruct HS as (Eh & Ei & Hn). exists i, n.
  rewrite hist_push_ne, hist_push_eq, Eh by done. repeat split; done.
Qed.

Lemma Same0_push_tmp d tmp v : tmp <> path -> Same0 d -> Same0 (push_entry tmp v d).
Proof using wf0. intros Ht (Eh & Ei & Hn). split; [by rewrite hist_push_ne|done]. Qed.
Lemma Post_push_tmp d tmp v : tmp <> path -> Post d -> Post (push_entry tmp v d).
Proof using wf0. intros Ht (i & n & Eh & H). exists i, n. rewrite hist_push_ne by done. done. Qed.
Lemma Done_push_tmp d tmp v : tmp <> path -> Done d -> Done (push_entry tmp v d).
Proof using wf0. intros Ht (i & n & Eh & H). exists i, n. rewrite hist_push_ne by done. done. Qed.

Lemma Post_sync d : Post d -> Done (sync_entries (Dir path) d).
Proof using wf0.
  intros (i & n & Eh & En & Ed & Es & Em & Hi & _). exists i, n.
  rewrite hist_sync_same, Eh. done.
Qed.

(** A step ends in [R] when it succeeds and in [E] when it fails; it does
    not panic. *)
Definition outcome {A} (R : A -> disk -> Prop) (E : disk -> Prop) (r : result A) (d : disk) : Prop :=
  match r with Ok a => R a d | Err _ => E d | Panic => False end.

Lemma map_err_outcome {A} f (m : ST fs A) P R E I :
  triple P m (outcome R E) I -> triple P (st_map_err f m) (outcome R E) I.
Proof using wf0.
  intros Hm. apply triple_map_err. eapply triple_conseq; [exact Hm|done|]. by intros [].
Qed.

Lemma bind_outcome {A B} (m : ST fs A) (f : A -> ST fs B) P R R' E E' I :
  triple P m (outcome R E') I -> (forall a, triple (R a) (f a) (outcome R' E) I) ->
  (forall d, E' d -> E d) ->
  triple P (st_bind m f) (outcome R' E) I.
Proof using wf0. intros Hm Hf HE. eapply triple_bind; [exact Hm|exact Hf|intros ?; apply HE|done]. Qed.

Lemma syscall_outcome {A} (op : disk -> result A * disk) broken P R E I :
  (forall d, P d -> outcome R E (fst (op d)) (snd (op d))) ->
  (forall d n, P d -> E (broken n d)) ->
  (forall a d, R a d -> I d) -> (forall d, E d -> I d) ->
  triple P (syscall op broken) (outcome R E) I.
Proof using wf0.
  intros Hop Hbr HR HE. apply triple_syscall.
  - intros d Hd. specialize (Hop d Hd). split; [done|].
    destruct (op d) as [[a|e|] d']; simpl in *; eauto. done.
  - intros d n Hd. split; [by apply Hbr|]. by apply HE, Hbr.
Qed.

Lemma or_close_outcome i fmt m P (R E I : disk -> Prop) :
  triple P m (outcome (fun _ => R) E) I -> (forall d, E d -> I d) ->
  triple P (or_close i fmt m) (outcome (fun _ => R) E) I.
Proof using wf0.
  intros Hm HI. unfold or_close.
  eapply triple_bind with (R := fun r d => match r with Ok r' => outcome (fun _ => R) E r' d | _ => False end);
    [by apply triple_try| |done..].
  intros [a|e|]; [by apply triple_ret| |by apply triple_lift].
  eapply triple_bind with (R := fun r d => match r with Ok _ => E d | _ => False end);
    [|intros; by apply triple_lift|done..].
  apply triple_try, triple_syscall; unfold ok_unit, unchanged; simpl; eauto.
Qed.

Abbreviation IO := old_or_new.
Abbreviation Wrote n := (idata n = b).

Lemma Mid_I i tmp R d : Mid i tmp R d -> IO d.
Proof using wf0. intros H. eapply Same0_crash, Mid_Same0, H. Qed.

Lemma write_triple i tmp :
  triple (Mid i tmp (fun n => idata n = [])) (f_Write i b)
    (outcome (fun _ => Mid i tmp (fun n => Wrote n)) Same0) IO.
Proof using wf0.
  apply syscall_outcome; [| |intros _; apply Mid_I|apply Same0_crash].
  - intros d HM. pose proof HM as (_ & _ & _ & _ & _ & n & En & Ed).
    simpl. unfold write_op. rewrite En, Ed. by eapply Mid_set.
  - intros d k HM. eapply (Mid_Same0 i tmp (fun _ => True)). unfold write_op.
    destruct (inodes d !! i) eqn:En; [eapply Mid_set; [exact HM|done]|].
    eapply Mid_weaken; [|exact HM]. done.
Qed.

Lemma chmod_triple i tmp :
  triple (Mid i tmp (fun n => Wrote n)) (f_Chmod i perm)
    (outcome (fun _ => Mid i tmp (fun n => Wrote n /\ imode n = perm)) Same0) IO.
Proof using wf0.
  apply syscall_outcome; [|intros d k; apply Mid_Same0|intros _; apply Mid_I|apply Same0_crash].
  intros d HM. simpl. unfold chmod_op.
  pose proof HM as (_ & _ & _ & _ & _ & n & En & HR). rewrite En.
  eapply Mid_set; [exact HM|simpl; tauto].
Qed.

Lemma sync_triple i tmp :
  triple (Mid i tmp (fun n => Wrote n /\ imode n = perm)) (f_Sync i)
    (outcome (fun _ => Mid i tmp (fun n => Wrote n /\ imode n = perm /\ isynced n = true)) Same0) IO.
Proof using wf0.
  apply syscall_outcome; [|intros d k; apply Mid_Same0|intros _; apply Mid_I|apply Same0_crash].
  intros d HM. simpl. unfold sync_op.
  pose proof HM as (_ & _ & _ & _ & _ & n & En & HR). rewrite En.
  eapply Mid_set; [exact HM|simpl; tauto].
Qed.

Lemma close_triple i tmp R :
  triple (Mid i tmp R) (f_Close i) (outcome (fun _ => Mid i tmp R) Same0) IO.
Proof using wf0.
  apply syscall_outcome; [done|intros d k; apply Mid_Same0|intros _; apply Mid_I|apply Same0_crash].
Qed.

Lemma rename_triple i tmp :
  triple (Mid i tmp (fun n => Wrote n /\ imode n = perm /\ isynced n = true)) (os_Rename tmp path)
    (outcome (fun _ => Post) Same0) IO.
Proof using wf0.
  apply syscall_outcome; [|intros d k; apply Mid_Same0|intros _; apply Post_crash|apply Same0_crash].
  intros d HM. pose proof (Mid_rename i tmp d HM) as Hr. by destruct (rename_op tmp path d) as [[] ?].
Qed.

Lemma syncDir_triple :
  triple Post (syncDirBestEffort (Dir path)) (outcome (fun _ => Done) Post) IO.
Proof using wf0.
  unfold syncDirBestEffort.
  eapply bind_outcome with (R := fun _ => Post) (E' := Post); [| |done].
  - apply map_err_outcome, syscall_outcome; [|done|intros _; apply Post_crash|apply Post_crash].
    intros d HP. by case_decide.
  - intros _. eapply triple_defer.
    + apply map_err_outcome, syscall_outcome with (R := fun _ => Done) (E := Post);
        [by intros d HP; apply Post_sync|done|intros _; apply Done_old_or_new|apply Post_crash].
    + intros r. eapply triple_bind with (R := fun r' d => match r' with Ok _ => outcome (fun _ => Done) Post r d | _ => False end);
        [|intros; by apply triple_ret|done..].
      assert (HI : forall d, outcome (fun _ => Done) Post r d -> IO d).
      { intros d. destruct r; simpl; [apply Done_old_or_new|apply Post_crash|done]. }
      apply triple_try, triple_syscall; unfold ok_unit, unchanged; simpl; eauto.
Qed.

(** Where the write ends: durable, or with the entry as it was or already
    replaced. *)
Definition Final (r : result ()) (d : disk) : Prop :=
  outcome (fun _ => Done) (fun d => Same0 d \/ Post d) r d.

Lemma Final_I r d : Final r d -> IO d.
Proof using wf0.
  destruct r; simpl; [apply Done_old_or_new| |done].
  intros [?|?]; [by apply Same0_crash|by apply Post_crash].
Qed.

Lemma body_triple i tmp :
  triple (Mid i tmp (fun n => idata n = []))
    (or_close i "write temp file: %w" (f_Write i b) ;;;
     or_close i "chmod temp file: %w" (f_Chmod i perm) ;;;
     or_close i "fsync temp file: %w" (f_Sync i) ;;;
     st_map_err (errw "close temp file: %w") (f_Close i) ;;;
     st_map_err (errqw "rename temp file to %q: %w" path) (os_Rename tmp path) ;;;
     syncDirBestEffort (Dir path))%go
    Final IO.
Proof using wf0.
  assert (HS : forall d, Same0 d -> Same0 d \/ Post d) by auto.
  eapply bind_outcome; [apply or_close_outcome; [apply write_triple|apply Same0_crash]|intros ?|exact HS].
  eapply bind_outcome; [apply or_close_outcome; [apply chmod_triple|apply Same0_crash]|intros ?|exact HS].
  eapply bind_outcome; [apply or_close_outcome; [apply sync_triple|apply Same0_crash]|intros ?|exact HS].
  eapply bind_outcome; [apply map_err_outcome, close_triple|intros ?|exact HS].
  eapply bind_outcome; [apply map_err_outcome, rename_triple|intros ?|exact HS].
  eapply triple_conseq; [apply syncDir_triple|done|]. intros []; simpl; auto.
Qed.

Lemma remove_triple r tmp : tmp <> path ->
  triple (Final r) (st_try (os_Remove tmp) ;;; st_ret ())%go (fun _ d => Final r d) IO.
Proof using wf0.
  intros Ht. eapply triple_bind with (R := fun r' d => match r' with Ok _ => Final r d | _ => False end);
    [|intros; by apply triple_ret|done..].
  apply triple_try, triple_syscall; unfold unchanged; [|eauto using Final_I].
  intros d HF. assert (HF' : Final r (snd (remove_op tmp d))).
  { unfold remove_op. destruct (cur d tmp); [|done]. simpl.
    destruct r; simpl in *; [by apply Done_push_tmp| |done].
    destruct HF; [left; by apply Same0_push_tmp|right; by apply Post_push_tmp]. }
  split; [done|]. by eapply Final_I.
Qed.

Lemma create_triple dir prefix : is_temp path = false ->
  triple Same0 (os_CreateTemp dir prefix)
    (outcome (fun p d => snd p <> path /\ Mid (fst p) (snd p) (fun n => idata n = []) d) Same0) IO.
Proof using wf0.
  intros Hnt. unfold os_CreateTemp.
  eapply triple_bind with (R := fun r d => match r with Ok _ => Same0 d | _ => False end); [| |done..].
  { intros s Hs. unfold fs_pop_name. destruct (fs_names s); (split; [done|by exists []]). }
  intros rnd. apply syscall_outcome; [|done|intros ? ? [_ H]; by eapply Mid_I|apply Same0_crash].
  intros d HS. pose proof (tmp_path_ne path dir prefix rnd Hnt) as Ht.
  set (tmp := tmp_path dir prefix rnd) in *.
  destruct (create_op dir tmp d) as [[[i t]|e|] d'] eqn:E; simpl.
  - assert (t = tmp) as ->.
    { revert E. unfold create_op, fail_io. repeat case_match; congruence. }
    split; [done|]. eapply Mid_create; eauto.
  - revert E. unfold create_op, fail_io. repeat case_match; congruence.
  - revert E. unfold create_op, fail_io. repeat case_match; congruence.
Qed.

Lemma writeBytesAtomic_triple : perm = 384 -> is_temp path = false ->
  triple (fun d => d = d0) (writeBytesAtomic path b) Final IO.
Proof using wf0.
  intros Hm Hnt. unfold writeBytesAtomic. rewrite <-Hm.
  assert (HS : forall d, Same0 d -> Same0 d \/ Post d) by auto.
  eapply bind_outcome with (R := fun _ => Same0) (E' := Same0); [| |exact HS].
  - apply map_err_outcome, syscall_outcome; [intros d -> ; done|intros d ? ->; done
      |intros _; apply Same0_crash|apply Same0_crash].
  - intros _. eapply bind_outcome; [by apply map_err_outcome, create_triple| |exact HS].
    intros [i tmp]. apply triple_pure. intros Ht.
    eapply triple_defer; [apply body_triple|]. intros r. by apply remove_triple.
Qed.

(** [os.Link] puts the file in place only where nothing was. *)
Lemma link_triple i tmp :
  triple (Mid i tmp (fun n => Wrote n /\ imode n = perm /\ isynced n = true)) (os_Link tmp path)
    (outcome (fun _ d => cur d0 path = None /\ Post d) Same0) IO.
Proof using wf0.
  apply syscall_outcome; [|intros d k; apply Mid_Same0|intros _ d [_ ?]; by apply Post_crash|apply Same0_crash].
  intros d ((Eh & Ei & Hn) & Ec & Hi & Hf & Ht & n & En & Ed & Em & Es).
  unfold link_op. rewrite Ec. case_decide; [done|].
  destruct (cur d path) eqn:Ep; [done|]. simpl.
  split; [unfold cur in *; by rewrite <-Eh|]. exists i, n. rewrite hist_push_eq, Eh. done.
Qed.

Lemma syncDir_strict_triple :
  triple Post (syncDir (Dir path)) (outcome (fun _ => Done) (fun d => Post d \/ Done d)) IO.
Proof using wf0.
  assert (HI : forall d, Post d \/ Done d -> IO d)
    by (intros d [?|?]; [by apply Post_crash|by apply Done_old_or_new]).
  unfold syncDir. eapply bind_outcome with (R := fun _ => Post) (E' := Post); [| |by left].
  - apply map_err_outcome, syscall_outcome; [|done|intros _; apply Post_crash|apply Post_crash].
    intros d HP. by case_decide.
  - intros _. eapply triple_defer
      with (R := outcome (fun _ : unit => Done) (fun d => Post d \/ Done d)).
    + eapply bind_outcome with (R := fun _ => Done) (E' := Post); [| |by left].
      * apply map_err_outcome, syscall_outcome with (R := fun _ => Done) (E := Post);
          [by intros d HP; apply Post_sync|done|intros _; apply Done_old_or_new|apply Post_crash].
      * intros _. apply map_err_outcome, syscall_outcome with (R := fun _ => Done);
          [done|by right|intros _; apply Done_old_or_new|exact HI].
    + intros r. eapply triple_bind with (R := fun r' d => match r' with
        Ok _ => outcome (fun _ => Done) (fun d => Post d \/ Done d) r d | _ => False end);
        [|intros; by apply triple_ret|done..].
      assert (HI' : forall d, outcome (fun _ : unit => Done) (fun d => Post d \/ Done d) r d -> IO d).
      { intros d. destruct r; simpl; [apply Done_old_or_new|apply HI|done]. }
      apply triple_try, triple_syscall; unfold ok_unit, unchanged; simpl; eauto.
Qed.

(** Where creating a new file ends: in place and durable, or the path
    untouched, or (the directory sync having failed) in place where nothing
    was. *)
Definition NewFinal (r : result ()) (d : disk) : Prop :=
  outcome (fun _ d => cur d0 path = None /\ Done d)
          (fun d => Same0 d \/ (cur d0 path = None /\ (Post d \/ Done d))) r d.

Lemma NewFinal_I r d : NewFinal r d -> IO d.
Proof using wf0.
  destruct r; simpl; [intros [_ ?]; by apply Done_old_or_new| |done].
  intros [?|[_ [?|?]]]; [by apply Same0_crash|by apply Post_crash|by apply Done_old_or_new].
Qed.

(** A clean-up that only touches the temporary name. *)
Lemma NewFinal_cleanup r (op : disk -> result () * disk) tmp : tmp <> path ->
  (forall d, snd (op d) = d \/ snd (op d) = push_entry tmp None d) ->
  triple (NewFinal r) (st_try (syscall op unchanged) ;;; st_ret ())%go (fun _ d => NewFinal r d) IO.
Proof using wf0.
  intros Ht Hop.
  eapply triple_bind with (R := fun r' d => match r' with Ok _ => NewFinal r d | _ => False end);
    [|intros; by apply triple_ret|done..].
  apply triple_try, triple_syscall; unfold unchanged; [|eauto using NewFinal_I].
  intros d HF. assert (HF' : NewFinal r (snd (op d))).
  { destruct (Hop d) as [-> | ->]; [done|].
    destruct r; simpl in *; [|..|done].
    - destruct HF as [? HD]. split; [done|by apply Done_push_tmp].
    - destruct HF as [?|[? [?|?]]]; [left; by apply Same0_push_tmp|right..];
        (split; [done|]); [left; by apply Post_push_tmp|right; by apply Done_push_tmp]. }
  split; [done|]. by eapply NewFinal_I.
Qed.

Lemma new_body_triple i tmp e :
  triple (Mid i tmp (fun n => idata n = []))
    (st_map_err (errw "write temp file: %w") (f_Write i b) ;;;
     st_map_err (errw "chmod temp file: %w") (f_Chmod i perm) ;;;
     st_map_err (errw "fsync temp file: %w") (f_Sync i) ;;;
     st_map_err (errw "close temp file: %w") (f_Close i) ;;;
     st_map_err e (os_Link tmp path) ;;;
     syncDir (Dir path))%go
    NewFinal IO.
Proof using wf0.
  assert (HS : forall d, Same0 d -> Same0 d \/ cur d0 path = None /\ (Post d \/ Done d)) by auto.
  eapply bind_outcome; [apply map_err_outcome, write_triple|intros ?|exact HS].
  eapply bind_outcome; [apply map_err_outcome, chmod_triple|intros ?|exact HS].
  eapply bind_outcome; [apply map_err_outcome, sync_triple|intros ?|exact HS].
  eapply bind_outcome; [apply map_err_outcome, close_triple|intros ?|exact HS].
  eapply bind_outcome; [apply map_err_outcome, link_triple|intros ?|exact HS].
  apply triple_pure. intros Hc.
  eapply triple_conseq; [apply syncDir_strict_triple|done|]. intros []; simpl; auto.
Qed.

Lemma WriteNewFileAtomic_triple : is_temp path = false ->
  triple (fun d => d = d0) (WriteNewFileAtomic path b perm) NewFinal IO.
Proof using wf0.
  intros Hnt. unfold WriteNewFileAtomic.
  assert (HS : forall d, Same0 d -> Same0 d \/ cur d0 path = None /\ (Post d \/ Done d)) by auto.
  eapply bind_outcome with (R := fun _ => Same0) (E' := Same0); [| |exact HS].
  { apply triple_lift. intros d ->. unfold validatePerm. by repeat case_match. }
  intros _. eapply bind_outcome; [by apply map_err_outcome, create_triple| |exact HS].
  intros [i tmp]. apply triple_pure. intros Ht.
  eapply triple_defer; [eapply triple_defer; [apply new_body_triple|]|]; intros r;
    (eapply (NewFinal_cleanup r _ tmp); [done|]); intros d; [by left|].
  unfold remove_op. destruct (cur d tmp); simpl; auto.
Qed.
End AtomicWrite.

Lemma Done_content d path b perm : Done path b perm d -> content d path = Some b.
Proof.
  intros (i & n & Eh & En & Ed & _). unfold content, cur. rewrite Eh, En. simpl. by rewrite Ed.
Qed.

Lemma Final_wf d0 path b perm r d :
  wf_path d0 path -> Final d0 path b perm r d -> wf_path d path.
Proof.
  intros W. destruct r; simpl; [apply Done_wf| |done].
  intros [?|?]; [by eapply Same0_wf|by eapply Post_wf].
Qed.

(** What a caller of [writeBytesAtomic] may rely on, whatever the faults. *)
Lemma writeBytesAtomic_spec d0 path b faults names trace :
  wf_path d0 path -> is_temp path = false ->
  let '(r, s') := writeBytesAtomic path b (Fs d0 faults names trace) in
  Final d0 path b 384 r (fs_disk s') /\
  exists tr, fs_trace s' = tr ++ trace /\ Forall (old_or_new d0 path b) tr.
Proof.
  intros W Hnt.
  exact (writeBytesAtomic_triple d0 path b 384 W eq_refl Hnt (Fs d0 faults names trace) eq_refl).
Qed.

(** ** Properties *)

(** (C5) Crash safety of [writeBytesAtomic]: whatever system calls fail and
    wherever the machine stops - after any call of the sequence - the file
    holds, after the crash, what it could have held before the call or
    exactly the new bytes, never a torn mix; and when the call reports
    success the new bytes are what readers see and what survives every
    crash. *)
Theorem atomic_write_crash_safe d0 path b faults names :
  wf_path d0 path -> is_temp path = false ->
  let '(r, s') := writeBytesAtomic path b (Fs d0 faults names []) in
  r <> Panic /\
  (forall d c, d ∈ fs_trace s' -> crash_content d path c ->
     crash_content d0 path c \/ c = Some b) /\
  (r = Ok () ->
     content (fs_disk s') path = Some b /\
     forall c, crash_content (fs_disk s') path c -> c = Some b).
Proof.
  intros W Hnt. pose proof (writeBytesAtomic_spec d0 path b faults names [] W Hnt) as H.
  destruct (writeBytesAtomic path b (Fs d0 faults names [])) as [r s'].
  destruct H as (HF & tr & Et & Ht). rewrite app_nil_r in Et. rewrite Et.
  repeat split.
  - by destruct r.
  - intros d c Hd Hc. by eapply (proj1 (Forall_forall _ _) Ht d Hd).
  - subst r. by eapply Done_content.
  - subst r. intros c. by eapply Done_crash.
Qed.

(** The guard file of the default configuration, holding an old value. *)
Definition sample_path : bytes := bs "/data/bridge_checkpoint_state.json".
Definition sample_disk : disk :=
  Disk {[ 0%nat := Inode (bs "100") 384 true ]} {[ sample_path := [Some 0%nat] ]}
       (dirs empty_disk) 1.

Lemma sample_wf : wf_path sample_disk sample_path.
Proof.
  split; [by vm_compute|]. intros j Hj. change (hist sample_disk sample_path) with [Some 0%nat] in Hj.
  apply list_elem_of_singleton in Hj. injection Hj as ->. split; [simpl; lia|]. eexists. reflexivity.
Qed.

Lemma atomic_write_crash_safe_witness :
  exists s', writeBytesAtomic sample_path (bs "200")
               (Fs sample_disk [NoFault; NoFault; Fault 2] [] []) = s' /\
  fst s' <> Panic /\
  forall d c, d ∈ fs_trace (snd s') -> crash_content d sample_path c ->
    crash_content sample_disk sample_path c \/ c = Some (bs "200").
Proof.
  eexists. split; [reflexivity|].
  pose proof (atomic_write_crash_safe sample_disk sample_path (bs "200")
    [NoFault; NoFault; Fault 2] [] sample_wf eq_refl) as H.
  destruct (writeBytesAtomic _ _ _) as [r s']. split; apply H.
Defined.

(** [WriteNewFileAtomic] never replaces a file: it refuses a mode with
    group, other or special bits before touching the disk; when the path is
    taken the call fails and leaves the entry and the file behind it exactly
    as they were, at every crash point; and when it succeeds the path was
    free and now durably holds the data under the requested mode. *)
Theorem new_file_never_overwrites d0 path b perm faults names :
  wf_path d0 path -> is_temp path = false ->
  let '(r, s') := WriteNewFileAtomic path b perm (Fs d0 faults names []) in
  r <> Panic /\
  (validatePerm perm <> Ok () -> fs_disk s' = d0 /\ r <> Ok ()) /\
  (cur d0 path <> None ->
     r <> Ok () /\ hist (fs_disk s') path = hist d0 path /\
     forall j, Some j ∈ hist d0 path -> inodes (fs_disk s') !! j = inodes d0 !! j) /\
  (r = Ok () -> cur d0 path = None /\ Done path b perm (fs_disk s')).
Proof.
  intros W Hnt.
  pose proof (WriteNewFileAtomic_triple d0 path b perm W Hnt (Fs d0 faults names []) eq_refl) as H.
  assert (Hp : validatePerm perm <> Ok () ->
    fs_disk (snd (WriteNewFileAtomic path b perm (Fs d0 faults names []))) = d0 /\
    fst (WriteNewFileAtomic path b perm (Fs d0 faults names [])) <> Ok ()).
  { intros Hv. unfold WriteNewFileAtomic, st_bind, st_lift.
    destruct (validatePerm perm) as [[]| |]; [done|split; done..]. }
  destruct (WriteNewFileAtomic _ _ _ _) as [r s']. destruct H as [HF _].
  split; [by destruct r|]. split; [exact Hp|]. split.
  - intros Hc. destruct r as [u|e|]; simpl in HF; [by destruct HF| |done].
    destruct HF as [(Eh & Ei & _)|[? _]]; [|done]. done.
  - intros ->. exact HF.
Qed.

Lemma new_file_never_overwrites_witness :
  exists s', WriteNewFileAtomic sample_path (bs "key") 384 (Fs sample_disk [] [] []) = s' /\
  fst s' <> Ok () /\ content (fs_disk (snd s')) sample_path = Some (bs "100").
Proof.
  eexists. split; [reflexivity|].
  pose proof (new_file_never_overwrites sample_disk sample_path (bs "key") 384 [] []
    sample_wf eq_refl) as H.
  destruct (WriteNewFileAtomic _ _ _ _) as [r s'].
  destruct H as (_ & _ & H & _).
  destruct (H ltac:(vm_compute; discriminate)) as (H1 & H2 & H3).
  split; [exact H1|]. unfold content, cur. simpl. rewrite H2.
  change (hist sample_disk sample_path) with [Some 0%nat].
  cbn iota. rewrite H3; [reflexivity|left].
Defined.

(** (C30) The one-shot bootstrap cannot reset a last-sign state:
    [InitStateFile] on a path that exists - file or directory - returns an
    error and leaves the disk unchanged, under every fault; on a fresh
    fault-free disk it creates the zero state; and [RequireStateFile]
    accepts exactly when a regular file is there. *)
Theorem init_state_never_resets d path faults names :
  (cur d path <> None \/ path ∈ dirs d ->
   let '(r, s') := InitStateFile path (Fs d faults names []) in
   is_ok r = false /\ fs_disk s' = d) /\
  (cur d path = None -> path ∉ dirs d -> Dir path ∈ dirs d ->
   let '(r, s') := InitStateFile path (Fs d [] names []) in
   r = Ok () /\ content (fs_disk s') path = Some freshStateJSON) /\
  (fst (RequireStateFile path (Fs d [] names [])) = Ok () <->
   cur d path <> None /\ path ∉ dirs d).
Proof.
  split; [|split].
  - intros Hex. unfold InitStateFile, st_bind, st_try, os_Stat, syscall. simpl.
    destruct faults as [|[|k] fl]; simpl; [..|done];
      (case_decide; simpl; [done|]); destruct (cur d path) eqn:E; simpl; try done;
      destruct Hex; done.
  - intros Hc Hd Hp.
    unfold InitStateFile, os_WriteFile, os_Stat, st_map_err, st_bind, st_try, st_lift,
      f_Write, f_Close, syscall. simpl.
    rewrite decide_False, Hc by done. simpl. unfold open_trunc.
    rewrite decide_False, decide_True, Hc by done. simpl.
    unfold content, cur, write_op. simpl. rewrite lookup_insert_eq. simpl.
    rewrite hist_set_inode, hist_push_eq. simpl. by rewrite lookup_insert_eq.
  - unfold RequireStateFile, os_Stat, st_bind, st_try, st_lift, st_ret, syscall. simpl.
    case_decide; simpl; [split; [done|tauto]|].
    destruct (cur d path); simpl; [split; [split; done|done]|]. split; [done|]. by intros [? _].
Qed.

Lemma init_state_never_resets_witness :
  let '(r, s') := InitStateFile sample_path (Fs sample_disk [NoFault; Fault 0] [] []) in
  is_ok r = false /\ fs_disk s' = sample_disk.
Proof.
  apply (init_state_never_resets sample_disk sample_path [NoFault; Fault 0] []).
  left. vm_compute. discriminate.
Defined.
