(* ===== verification/Json.v ===== *)
(** * [encoding/json], as the replay guard uses it

    A parser for RFC 8259 text with the choices of Go's decoder (white space,
    escapes, surrogate pairs, the nesting limit), and the decoding of an
    object into a struct: case-insensitive keys, unknown keys skipped, [null]
    a no-op, the last of duplicate keys wins.  Invalid UTF-8 inside a string
    is kept as it is, where Go substitutes U+FFFD: neither a field name nor a
    hexadecimal value can contain either. *)

From S2P Require Import Prelude GoStd.

Set Warnings "-register-all".

Inductive json :=
| JNull
| JBool (b : bool)
| JNum (lit : bytes)
| JStr (s : bytes)
| JArr (l : list json)
| JObj (l : list (bytes * json)).

Notation "a =b b" := (Byte.eqb a b) (at level 70) : go_scope.
#[local] Open Scope go_scope.

Definition is_ws (c : byte) : bool :=
  (c =b x20) || (c =b x09) || (c =b x0a) || (c =b x0d).

Fixpoint skip_ws (s : bytes) : bytes :=
  match s with
  | c :: s' => if is_ws c then skip_ws s' else s
  | [] => []
  end.

(** ** Strings *)

Definition hex4 (s : bytes) : option (Z * bytes) :=
  match s with
  | a :: b :: c :: d :: r =>
      match fromHexChar a, fromHexChar b, fromHexChar c, fromHexChar d with
      | Some x, Some y, Some z, Some w => Some (((x * 16 + y) * 16 + z) * 16 + w, r)
      | _, _, _, _ => None
      end
  | _ => None
  end.

Definition utf8 (r : Z) : bytes :=
  if r <? 128 then [byte_of_Z r]
  else if r <? 2048 then [byte_of_Z (192 + r / 64); byte_of_Z (128 + r mod 64)]
  else if r <? 65536 then
    [byte_of_Z (224 + r / 4096); byte_of_Z (128 + r / 64 mod 64); byte_of_Z (128 + r mod 64)]
  else [byte_of_Z (240 + r / 262144); byte_of_Z (128 + r / 4096 mod 64);
        byte_of_Z (128 + r / 64 mod 64); byte_of_Z (128 + r mod 64)].

Definition is_surrogate (r : Z) : bool := (55296 <=? r) && (r <? 57344).

(** The rune of [\uXXXX] (after the [u]), joining surrogate pairs. *)
Definition unescape_u (s : bytes) : option (bytes * bytes) :=
  match hex4 s with
  | None => None
  | Some (r, rest) =>
      if is_surrogate r then
        if HasPrefix rest [x5c; x75] then
          match hex4 (drop 2 rest) with
          | Some (r2, rest'') =>
              if (r <? 56320) && (56320 <=? r2) && (r2 <? 57344)
              then Some (utf8 ((r - 55296) * 1024 + (r2 - 56320) + 65536), rest'')
              else Some (utf8 65533, rest)
          | None => None
          end
        else Some (utf8 65533, rest)
      else Some (utf8 r, rest)
  end.

(** The one-character escapes and what they stand for. *)
Definition escapes : list (byte * byte) :=
  [(x22, x22); (x5c, x5c); (x2f, x2f); (x62, x08); (x66, x0c); (x6e, x0a); (x72, x0d); (x74, x09)].

Definition prepend (pre : bytes) (r : option (bytes * bytes)) : option (bytes * bytes) :=
  match r with Some (t, rest) => Some (pre ++ t, rest) | None => None end.

(** The body of a string up to the closing quote. *)
Fixpoint parse_string (fuel : nat) (s : bytes) : option (bytes * bytes) :=
  match fuel, s with
  | O, _ | _, [] => None
  | S f, c :: r =>
      if c =b x22 then Some ([], r)
      else if c =b x5c then
        match r with
        | [] => None
        | e :: r' =>
            if e =b x75 then
              match unescape_u r' with
              | Some (t, r'') => prepend t (parse_string f r'')
              | None => None
              end
            else match List.find (fun p => fst p =b e) escapes with
                 | Some (_, v) => prepend [v] (parse_string f r')
                 | None => None
                 end
        end
      else if byte_to_Z c <? 32 then None
      else prepend [c] (parse_string f r)
  end.

(** ** Numbers *)

Definition is_digit (c : byte) : bool :=
  match digit_val c with Some _ => true | None => false end.

Fixpoint span_digits (s : bytes) : bytes * bytes :=
  match s with
  | c :: s' => if is_digit c then let '(d, r) := span_digits s' in (c :: d, r) else ([], s)
  | [] => ([], [])
  end.

Definition parse_int (s : bytes) : option (bytes * bytes) :=
  match s with
  | c :: r => if c =b x30 then Some ([c], r)
              else if is_digit c then Some (span_digits s) else None
  | [] => None
  end.

Definition digits1 (s : bytes) : option (bytes * bytes) :=
  match span_digits s with
  | ([], _) => None
  | (d, r) => Some (d, r)
  end.

Definition parse_frac (s : bytes) : option (bytes * bytes) :=
  match s with
  | c :: r => if c =b x2e then prepend [c] (digits1 r) else Some ([], s)
  | [] => Some ([], [])
  end.

Definition parse_exp (s : bytes) : option (bytes * bytes) :=
  match s with
  | c :: r =>
      if (c =b x65) || (c =b x45) then
        match r with
        | g :: r1 => if (g =b x2b) || (g =b x2d) then prepend [c; g] (digits1 r1)
                     else prepend [c] (digits1 r)
        | [] => None
        end
      else Some ([], s)
  | [] => Some ([], [])
  end.

Definition parse_unsigned (s : bytes) : option (bytes * bytes) :=
  '(i, s1) ← parse_int s;
  '(f, s2) ← parse_frac s1;
  '(e, s3) ← parse_exp s2;
  Some (i ++ f ++ e, s3).

Definition parse_number (s : bytes) : option (bytes * bytes) :=
  match s with
  | c :: r => if c =b x2d then prepend [c] (parse_unsigned r) else parse_unsigned s
  | [] => None
  end.

(** ** Values *)

(** Go refuses documents nested deeper than this. *)
Definition max_depth : Z := 10000.

Definition starts (s : bytes) (c : byte) : bool :=
  match s with x :: _ => x =b c | [] => false end.

Fixpoint parse_value (fuel : nat) (depth : Z) (s : bytes) {struct fuel} : option (json * bytes) :=
  match fuel with
  | O => None
  | S f =>
      let t := skip_ws s in
      let r := tail t in
      if starts t x7b then
        if max_depth <=? depth then None
        else if starts (skip_ws r) x7d then Some (JObj [], tail (skip_ws r))
        else '(ms, r') ← parse_members f (depth + 1) r; Some (JObj ms, r')
      else if starts t x5b then
        if max_depth <=? depth then None
        else if starts (skip_ws r) x5d then Some (JArr [], tail (skip_ws r))
        else '(vs, r') ← parse_elems f (depth + 1) r; Some (JArr vs, r')
      else if starts t x22 then
        '(str, r') ← parse_string (length t) r; Some (JStr str, r')
      else if HasPrefix t (bs "true") then Some (JBool true, drop 4 t)
      else if HasPrefix t (bs "false") then Some (JBool false, drop 5 t)
      else if HasPrefix t (bs "null") then Some (JNull, drop 4 t)
      else '(n, r') ← parse_number t; Some (JNum n, r')
  end
with parse_members (fuel : nat) (depth : Z) (s : bytes) {struct fuel}
    : option (list (bytes * json) * bytes) :=
  match fuel with
  | O => None
  | S f =>
      let t := skip_ws s in
      if starts t x22 then
        '(k, r) ← parse_string (length t) (tail t);
        if starts (skip_ws r) x3a then
          '(v, r2) ← parse_value f depth (tail (skip_ws r));
          if starts (skip_ws r2) x7d then Some ([(k, v)], tail (skip_ws r2))
          else if starts (skip_ws r2) x2c then
            '(ms, r4) ← parse_members f depth (tail (skip_ws r2)); Some ((k, v) :: ms, r4)
          else None
        else None
      else None
  end
with parse_elems (fuel : nat) (depth : Z) (s : bytes) {struct fuel}
    : option (list json * bytes) :=
  match fuel with
  | O => None
  | S f =>
      '(v, r2) ← parse_value f depth s;
      if starts (skip_ws r2) x5d then Some ([v], tail (skip_ws r2))
      else if starts (skip_ws r2) x2c then
        '(vs, r4) ← parse_elems f depth (tail (skip_ws r2)); Some (v :: vs, r4)
      else None
  end.

(** A whole document.  Every recursive call is made after consuming a byte or
    from [parse_members]/[parse_elems] to a value, so twice the length is
    enough fuel. *)
Definition parse_json (s : bytes) : option json :=
  match parse_value (2 * length s + 2) 0 s with
  | Some (v, r) => match skip_ws r with [] => Some v | _ => None end
  | None => None
  end.

(** ** Decoding struct fields *)

Definition to_upper (c : byte) : byte :=
  let v := byte_to_Z c in
  if (97 <=? v) && (v <=? 122) then byte_of_Z (v - 32) else c.

(** The key folding of the decoder: ASCII case, and the two non-ASCII runes
    that fold to ASCII letters (U+017F and U+212A). *)
Fixpoint fold_key (fuel : nat) (s : bytes) : bytes :=
  match fuel, s with
  | O, _ | _, [] => []
  | S f, c :: r =>
      if HasPrefix s [xc5; xbf] then x53 :: fold_key f (drop 2 s)
      else if HasPrefix s [xe2; x84; xaa] then x4b :: fold_key f (drop 3 s)
      else to_upper c :: fold_key f r
  end.

Definition key_matches (k name : bytes) : bool :=
  beq (fold_key (length k) k) (fold_key (length name) name).

Definition errUnmarshalType : error := ErrLib "json: cannot unmarshal".
Definition errJSONSyntax : error := ErrLib "json: invalid character or unexpected end".

(** Store a JSON value in a [uint64] field. *)
Definition store_uint64 (old : Z) (v : json) : result Z :=
  match v with
  | JNull => Ok old
  | JNum lit => match ParseUint lit with Ok n => Ok n | _ => Err errUnmarshalType end
  | _ => Err errUnmarshalType
  end.

(** Store a JSON value in a [string] field. *)
Definition store_string (old : bytes) (v : json) : result bytes :=
  match v with
  | JNull => Ok old
  | JStr s => Ok s
  | _ => Err errUnmarshalType
  end.

(** ** Printing *)

(** The compact text of a string without characters the encoder escapes. *)
Definition json_string (s : bytes) : bytes := x22 :: s ++ [x22].

Definition plain (c : byte) : bool :=
  negb (c =b x22) && negb (c =b x5c) && (32 <=? byte_to_Z c).

Lemma byte_eqb_spec a b : (a =b b) = true <-> a = b.
Proof. split; [apply Byte.byte_dec_bl|apply Byte.byte_dec_lb]. Qed.

Lemma byte_eqb_ne a b : a <> b -> (a =b b) = false.
Proof. intros N. apply not_true_iff_false. by rewrite byte_eqb_spec. Qed.

Lemma parse_string_plain fuel l r :
  Forall (fun c => plain c = true) l -> (length l < fuel)%nat ->
  parse_string fuel (l ++ x22 :: r) = Some (l, r).
Proof.
  revert fuel. induction l as [|c l IH]; intros [|f] Hp Hf; simpl in Hf; try lia; [done|].
  inversion Hp as [|? ? Hc Hl]; subst. cbn [app parse_string].
  unfold plain in Hc. apply andb_true_iff in Hc as [[H1 H2]%andb_true_iff H3].
  apply negb_true_iff in H1, H2. rewrite H1, H2.
  destruct (Z.ltb_spec (byte_to_Z c) 32); [lia|]. rewrite IH by (done || lia). done.
Qed.

Lemma plain_hex c : is_hex_char c = true -> plain c = true.
Proof. by destruct c. Qed.

Lemma span_digits_app l r :
  Forall (fun c => is_Some (digit_val c)) l ->
  match r with c :: _ => is_digit c = false | [] => True end ->
  span_digits (l ++ r) = (l, r).
Proof.
  induction 1 as [|c l Hc Hl IH]; intros Hr; simpl.
  - destruct r as [|c r]; simpl; [done|]. by rewrite Hr.
  - unfold is_digit. destruct Hc as [d Hd]. rewrite Hd, IH by done. done.
Qed.

(** [strconv] writes no leading zero. *)
Lemma dec_digits_head fuel n :
  10 <= n -> n < 10 ^ Z.of_nat fuel ->
  match dec_digits fuel n with c :: _ => is_digit c = true /\ c <> x30 | [] => False end.
Proof.
  revert n. induction fuel as [|f IH]; intros n Hn Hf; [simpl in Hf; lia|].
  cbn [dec_digits]. destruct (Z.ltb_spec n 10); [lia|].
  rewrite Nat2Z.inj_succ, Z.pow_succ_r in Hf by lia.
  assert (Hq : n / 10 < 10 ^ Z.of_nat f) by (apply Z.div_lt_upper_bound; lia).
  assert (1 <= n / 10) by (apply Z.div_le_lower_bound; lia).
  destruct (decide (n / 10 < 10)) as [Hs|Hb].
  - destruct f as [|f]; [simpl in Hq; lia|]. cbn [dec_digits].
    rewrite (proj2 (Z.ltb_lt _ _) Hs). simpl. unfold is_digit.
    rewrite digit_val_digit by lia. split; [done|].
    intros E. apply (f_equal digit_val) in E. rewrite digit_val_digit in E by lia.
    assert (digit_val x30 = Some 0) as E0 by reflexivity. rewrite E0 in E. injection E. lia.
  - specialize (IH (n / 10) ltac:(lia) Hq). destruct (dec_digits f (n / 10)); [done|exact IH].
Qed.

Definition ends_number (r : bytes) : Prop :=
  match r with
  | c :: _ => is_digit c = false /\ (c =b x2e) = false /\ (c =b x65) = false /\ (c =b x45) = false
  | [] => True
  end.

Lemma parse_int_FormatUint n r :
  is_u64 n -> ends_number r -> parse_int (FormatUint n ++ r) = Some (FormatUint n, r).
Proof.
  intros Hn Hr.
  assert (Hd : match r with c :: _ => is_digit c = false | [] => True end)
    by (destruct r; [done|apply Hr]).
  pose proof (FormatUint_digits n ltac:(destruct Hn; lia)) as HF.
  unfold FormatUint in *. destruct (decide (n < 10)) as [Hs|Hb].
  - assert (E : dec_digits 20 n = [dec_digit n])
      by (cbn [dec_digits]; by rewrite (proj2 (Z.ltb_lt _ _) Hs)).
    rewrite E in *. cbn [app parse_int]. destruct (dec_digit n =b x30) eqn:Ez; [done|].
    unfold is_digit. rewrite digit_val_digit by (destruct Hn; lia).
    f_equal. by apply (span_digits_app [_]).
  - pose proof (dec_digits_head 20 n ltac:(lia)) as Hh.
    destruct (dec_digits 20 n) as [|c l] eqn:E.
    + exfalso. apply Hh. unfold is_u64, u64_max in Hn. lia.
    + destruct Hh as [Hc Hz]; [unfold is_u64, u64_max in Hn; lia|].
      cbn [app parse_int]. rewrite byte_eqb_ne, Hc by done. f_equal. by apply (span_digits_app (c :: l)).
Qed.

Lemma parse_number_FormatUint n r :
  is_u64 n -> ends_number r -> parse_number (FormatUint n ++ r) = Some (FormatUint n, r).
Proof.
  intros Hn Hr. pose proof (FormatUint_digits n ltac:(destruct Hn; lia)) as HF.
  assert (E : parse_unsigned (FormatUint n ++ r) = Some (FormatUint n, r)).
  { unfold parse_unsigned. rewrite parse_int_FormatUint by done. simpl.
    destruct r as [|c r]; simpl; [by rewrite !app_nil_r|].
    destruct Hr as (_ & -> & H1 & H2). simpl. rewrite H1, H2. simpl. by rewrite app_nil_r. }
  unfold parse_number. destruct (FormatUint n ++ r) as [|c l] eqn:El; [done|].
  destruct (FormatUint n) as [|c' l'] eqn:Ef.
  { by apply (dec_digits_nonempty 20 n) in Ef. }
  injection El as -> <-. inversion HF as [|? ? [d Hd] _]; subst.
  rewrite byte_eqb_ne; [exact E|]. intros ->. done.
Qed.
(** ** Encoding a string *)

(** The continuation bytes a lead byte admits first. *)
Definition second_ok (x y : Z) : bool :=
  if x =? 224 then (160 <=? y) && (y <=? 191)
  else if x =? 237 then (128 <=? y) && (y <=? 159)
  else if x =? 240 then (144 <=? y) && (y <=? 191)
  else if x =? 244 then (128 <=? y) && (y <=? 143)
  else (128 <=? y) && (y <=? 191).

Definition is_cont (c : byte) : bool := (128 <=? byte_to_Z c) && (byte_to_Z c <=? 191).

(** [utf8.DecodeRuneInString] on a byte that is not ASCII: the length of a
    well-formed rune, [None] for an encoding error. *)
Definition rune_len (s : bytes) : option nat :=
  match s with
  | a :: b :: r =>
      let x := byte_to_Z a in
      if (194 <=? x) && (x <=? 223) then if is_cont b then Some 2%nat else None
      else if (224 <=? x) && (x <=? 239) then
        match r with
        | c :: _ => if second_ok x (byte_to_Z b) && is_cont c then Some 3%nat else None
        | [] => None
        end
      else if (240 <=? x) && (x <=? 244) then
        match r with
        | c :: d :: _ => if second_ok x (byte_to_Z b) && is_cont c && is_cont d then Some 4%nat else None
        | _ => None
        end
      else None
  | _ => None
  end.

(** The bytes the encoder with HTML escaping copies. *)
Definition html_safe (c : byte) : bool :=
  (32 <=? byte_to_Z c) && (byte_to_Z c <? 128) &&
  negb ((c =b x22) || (c =b x5c) || (c =b x3c) || (c =b x3e) || (c =b x26)).

Definition escape_ascii (c : byte) : bytes :=
  if (c =b x22) || (c =b x5c) then [x5c; c]
  else if c =b x08 then [x5c; x62]
  else if c =b x0c then [x5c; x66]
  else if c =b x0a then [x5c; x6e]
  else if c =b x0d then [x5c; x72]
  else if c =b x09 then [x5c; x74]
  else bs "\u00" ++ [hex_digit (byte_to_Z c / 16); hex_digit (byte_to_Z c mod 16)].

(** U+2028 and U+2029 are escaped too. *)
Definition line_sep (s : bytes) : bool :=
  HasPrefix s [xe2; x80; xa8] || HasPrefix s [xe2; x80; xa9].

(** [appendString] with [escapeHTML], between the quotes. *)
Fixpoint json_escape (fuel : nat) (s : bytes) : bytes :=
  match fuel, s with
  | O, _ | _, [] => []
  | S f, c :: r =>
      if byte_to_Z c <? 128 then (if html_safe c then [c] else escape_ascii c) ++ json_escape f r
      else match rune_len s with
           | None => bs "\ufffd" ++ json_escape f r
           | Some n =>
               (if line_sep s then bs "\u202" ++ [hex_digit (byte_to_Z (nth 2 s x00) mod 16)] else take n s) ++
               json_escape f (drop n s)
           end
  end.

Definition json_encode_string (s : bytes) : bytes :=
  x22 :: json_escape (length s) s ++ [x22].

(** The text such a string carries: U+FFFD for each malformed byte. *)
Fixpoint to_valid (fuel : nat) (s : bytes) : bytes :=
  match fuel, s with
  | O, _ | _, [] => []
  | S f, c :: r =>
      if byte_to_Z c <? 128 then c :: to_valid f r
      else match rune_len s with
           | None => utf8 65533 ++ to_valid f r
           | Some n => take n s ++ to_valid f (drop n s)
           end
  end.
Definition ToValidUTF8 (s : bytes) : bytes := to_valid (length s) s.

Lemma ToValidUTF8_ascii s : Forall (fun c => byte_to_Z c < 128) s -> ToValidUTF8 s = s.
Proof.
  unfold ToValidUTF8. induction 1 as [|c s Hc _ IH]; cbn [length to_valid]; [done|].
  rewrite (proj2 (Z.ltb_lt _ _) Hc). by rewrite IH.
Qed.

Lemma prepend_app a b r : prepend a (prepend b r) = prepend (a ++ b) r.
Proof. destruct r as [[t rest]|]; cbn; [by rewrite app_assoc|done]. Qed.

(** One escaped ASCII byte is read back. *)
Lemma parse_ascii f c r :
  byte_to_Z c <? 128 = true ->
  parse_string (S f) ((if html_safe c then [c] else escape_ascii c) ++ r) = prepend [c] (parse_string f r).
Proof. destruct c; intros H; try discriminate H; reflexivity. Qed.

Lemma parse_high f c r : 128 <= byte_to_Z c -> parse_string (S f) (c :: r) = prepend [c] (parse_string f r).
Proof.
  intros H. cbn [parse_string]. rewrite !byte_eqb_ne by (intros ->; cbn in H; lia).
  by rewrite (proj2 (Z.ltb_ge (byte_to_Z c) 32)) by lia.
Qed.

Lemma parse_high_run f l r :
  Forall (fun c => 128 <= byte_to_Z c) l ->
  parse_string (length l + f) (l ++ r) = prepend l (parse_string f r).
Proof.
  induction 1 as [|c l Hc _ IH]; cbn [length app Nat.add].
  - by destruct (parse_string f r) as [[]|].
  - by rewrite parse_high, IH, prepend_app.
Qed.

(** The bytes of a rune are not ASCII. *)
Lemma rune_len_spec c r n :
  128 <= byte_to_Z c -> rune_len (c :: r) = Some n ->
  (2 <= n <= 4)%nat /\ (n <= length (c :: r))%nat /\ Forall (fun c => 128 <= byte_to_Z c) (take n (c :: r)).
Proof.
  intros Hc. unfold rune_len, second_ok, is_cont.
  assert (Hgo : forall l m, Forall (fun c => 128 <= byte_to_Z c) (take m l) -> (m <= length l)%nat ->
     (2 <= m <= 4)%nat -> Some m = Some n ->
     (2 <= n <= 4)%nat /\ (n <= length l)%nat /\ Forall (fun c => 128 <= byte_to_Z c) (take n l))
    by (intros l m ? ? ? [= <-]; done).
  repeat case_match; try done; subst; apply Hgo; cbn [length]; try lia;
    cbn [take]; repeat constructor; lia.
Qed.

(** The escaped separators are read back as they were. *)
Lemma line_sep_parse f s r :
  line_sep s = true ->
  rune_len s = Some 3%nat /\
  parse_string (S f) ((bs "\u202" ++ [hex_digit (byte_to_Z (nth 2 s x00) mod 16)]) ++ r) =
  prepend (take 3 s) (parse_string f r).
Proof.
  unfold line_sep, HasPrefix, beq. rewrite orb_true_iff, !bool_decide_eq_true.
  intros [H|H]; destruct s as [|a [|b [|c s]]]; try discriminate H; injection H as -> -> ->; done.
Qed.

Lemma parse_escaped n s r fuel :
  (length s <= n)%nat -> (length (json_escape n s) < fuel)%nat ->
  parse_string fuel (json_escape n s ++ x22 :: r) = Some (to_valid n s, r).
Proof.
  revert s fuel. induction n as [|n IH]; intros [|c s] fuel Hn Hf; cbn [length] in Hn; try lia;
    cbn [json_escape to_valid] in *.
  1,2: destruct fuel; [cbn in Hf; lia|done].
  destruct (byte_to_Z c <? 128) eqn:Ec.
  { rewrite <-app_assoc. destruct fuel as [|f]; [lia|]. rewrite parse_ascii by done.
    assert (1 <= length (if html_safe c then [c] else escape_ascii c))%nat
      by (destruct c; vm_compute; lia).
    rewrite length_app in Hf. by rewrite IH by lia. }
  apply Z.ltb_ge in Ec. destruct (rune_len (c :: s)) as [k|] eqn:Er.
  - destruct (rune_len_spec c s k Ec Er) as (Hk & Hl & Hh).
    assert (Hd : (length (drop k (c :: s)) <= n)%nat) by (rewrite length_drop; cbn [length]; lia).
    rewrite length_app in Hf. destruct (line_sep (c :: s)) eqn:El.
    + destruct fuel as [|f]; [lia|]. destruct (line_sep_parse f (c :: s) (json_escape n (drop k (c :: s)) ++ x22 :: r) El)
        as [Hk3 Hp]. rewrite Er in Hk3. injection Hk3 as ->.
      rewrite length_app in Hf. cbn [length] in Hf. rewrite <-app_assoc, Hp. by rewrite IH by lia.
    + rewrite <-app_assoc. assert (Ht : length (take k (c :: s)) = k) by (apply length_take_le; lia).
      rewrite Ht in Hf. replace fuel with (length (take k (c :: s)) + (fuel - k))%nat by lia.
      rewrite parse_high_run, IH by (done || lia). done.
  - destruct fuel as [|f]; [lia|]. rewrite <-app_assoc. rewrite length_app in Hf. cbn [length] in Hf.
    change (parse_string (S f) (bs "\ufffd" ++ json_escape n s ++ x22 :: r))
      with (prepend (utf8 65533) (parse_string f (json_escape n s ++ x22 :: r))).
    rewrite IH by (lia || (change (length (bs "\ufffd")) with 6%nat in Hf; lia)). done.
Qed.

(** An object with one string member, as the encoder writes it. *)
Definition json_encode_field (name value : bytes) : bytes :=
  x7b :: json_encode_string name ++ x3a :: json_encode_string value ++ [x7d].

Lemma parse_encoded_string fuel s r :
  (length (json_encode_string s) <= fuel)%nat ->
  parse_string fuel (tail (json_encode_string s ++ r)) = Some (ToValidUTF8 s, r).
Proof.
  unfold json_encode_string. cbn [app tail length]. rewrite length_app. cbn [length]. intros Hf.
  rewrite <-app_assoc. apply parse_escaped; lia.
Qed.

Lemma parse_value_encoded fuel depth s r :
  parse_value (S fuel) depth (json_encode_string s ++ r) = Some (JStr (ToValidUTF8 s), r).
Proof.
  cbn [parse_value]. change (skip_ws (json_encode_string s ++ r)) with (json_encode_string s ++ r).
  change (starts (json_encode_string s ++ r) x7b) with false.
  change (starts (json_encode_string s ++ r) x5b) with false.
  change (starts (json_encode_string s ++ r) x22) with true. cbn iota.
  rewrite parse_encoded_string by (rewrite length_app; lia). done.
Qed.

(** An encoded object followed by a newline parses to that object. *)
Lemma parse_encoded_field name value :
  parse_json (json_encode_field name value ++ [x0a]) =
  Some (JObj [(ToValidUTF8 name, JStr (ToValidUTF8 value))]).
Proof.
  unfold parse_json. set (doc := json_encode_field name value ++ [x0a]).
  assert (H : parse_value (2 * length doc + 2) 0 doc =
    Some (JObj [(ToValidUTF8 name, JStr (ToValidUTF8 value))], [x0a])); [|by rewrite H].
  replace (2 * length doc + 2)%nat with (S (S (S (2 * length doc - 1))))%nat
    by (unfold doc, json_encode_field; cbn [length app]; lia).
  set (n := (2 * length doc - 1)%nat). unfold doc, json_encode_field. cbn [app].
  rewrite <-app_assoc. cbn [app]. rewrite <-app_assoc. cbn [app].
  set (rest := x3a :: json_encode_string value ++ [x7d; x0a]).
  cbn [parse_value]. change (skip_ws (x7b :: json_encode_string name ++ rest)) with
    (x7b :: json_encode_string name ++ rest).
  cbn [starts tail]. change (x7b =b x7b) with true. cbn iota. change (max_depth <=? 0) with false. cbn iota.
  change (skip_ws (json_encode_string name ++ rest)) with (json_encode_string name ++ rest).
  change (starts (json_encode_string name ++ rest) x7d) with false. cbn iota.
  change (0 + 1) with 1. cbn [parse_members].
  change (skip_ws (json_encode_string name ++ rest)) with (json_encode_string name ++ rest).
  change (starts (json_encode_string name ++ rest) x22) with true. cbn iota.
  rewrite parse_encoded_string by (rewrite length_app; lia). cbn [mbind option_bind].
  change (skip_ws rest) with rest. unfold rest. cbn [starts tail]. change (x3a =b x3a) with true. cbn iota.
  by rewrite parse_value_encoded.
Qed.
