(* ===== verification/ReplayGuard.v ===== *)
(** * The checkpoint replay guard ([server/replay_guard.go])

    The guard's memory, its on-disk state (JSON, and the legacy bare
    integer), and its three operations on the file system of [Fs].  Each
    operation runs under the guard's mutex and is therefore one step of the
    interleavings studied in [GuardSystem].

    A Go [[]byte] that may be [nil] is an [option]. *)

From S2P Require Import Prelude GoStd Fs Json.

Definition ErrReplayGuardRejected : string := "checkpoint replay guard rejected".

Record guard := Guard {
  statePath : bytes;
  highWater : Z;
  loaded : bool;
  signedCheckpoint : option bytes;
  signedSignature : option bytes;
}.

Record guardState := GuardState {
  gsHighWater : Z;
  gsCheckpoint : bytes;
  gsSignature : bytes;
}.

(** ** The on-disk form *)

(** [json.Marshal] of a [guardState]; the two strings are hexadecimal. *)
Definition marshal_guardState (st : guardState) : bytes :=
  bs "{" ++ json_string (bs "high_water") ++ bs ":" ++ FormatUint (gsHighWater st) ++
  (if beq (gsCheckpoint st) [] then []
   else bs "," ++ json_string (bs "checkpoint") ++ bs ":" ++ json_string (gsCheckpoint st)) ++
  (if beq (gsSignature st) [] then []
   else bs "," ++ json_string (bs "signature") ++ bs ":" ++ json_string (gsSignature st)) ++
  bs "}".

Definition store_field (acc : result guardState) (kv : bytes * json) : result guardState :=
  st ← acc;
  let '(k, v) := kv in
  if key_matches k (bs "high_water") then
    n ← store_uint64 (gsHighWater st) v; Ok (GuardState n (gsCheckpoint st) (gsSignature st))
  else if key_matches k (bs "checkpoint") then
    c ← store_string (gsCheckpoint st) v; Ok (GuardState (gsHighWater st) c (gsSignature st))
  else if key_matches k (bs "signature") then
    s ← store_string (gsSignature st) v; Ok (GuardState (gsHighWater st) (gsCheckpoint st) s)
  else Ok st.

(** [json.Unmarshal] into a zero [guardState]. *)
Definition unmarshal_guardState (raw : bytes) : result guardState :=
  match parse_json raw with
  | Some (JObj ms) => foldl store_field (Ok (GuardState 0 [] [])) ms
  | Some JNull => Ok (GuardState 0 [] [])
  | Some _ => Err errUnmarshalType
  | None => Err errJSONSyntax
  end.

Definition decodeOptionalHex (s : bytes) (want : Z) (field : string) (path : bytes)
    : result (option bytes) :=
  if beq s [] then Ok None
  else
    match hex_DecodeString s with
    | Ok b =>
        if negb (len b =? want) then
          Err (Errorf "parse checkpoint replay guard %q: %s must be %d bytes, got %d"
                 [AStr path; AStr (bs field); AInt want; AInt (len b)])
        else Ok (Some b)
    | Err e => Err (Errorf "parse checkpoint replay guard %q: %s: %w"
                      [AStr path; AStr (bs field); AWrap e])
    | Panic => Panic
    end.

Definition parse_err (path : bytes) : error -> error :=
  errqw "parse checkpoint replay guard %q: %w" path.

(** The contents of a guard file, in either format. *)
Definition guard_of_data (path data : bytes) : result guard :=
  let raw := TrimSpace data in
  if HasPrefix raw (bs "{") then
    st ← map_err (parse_err path) (unmarshal_guardState raw);
    ckpt ← decodeOptionalHex (gsCheckpoint st) 32 "checkpoint" path;
    sig ← decodeOptionalHex (gsSignature st) 64 "signature" path;
    Ok (match ckpt, sig with
        | Some _, Some _ => Guard path (gsHighWater st) true ckpt sig
        | _, _ => Guard path (gsHighWater st) true None None
        end)
  else
    v ← map_err (parse_err path) (ParseUint raw);
    Ok (Guard path v true None None).

Definition newCheckpointReplayGuard (path : bytes) : ST fs guard := (
  if beq path [] then st_ret (Guard path 0 true None None)
  else
    r <- st_try (os_ReadFile path) ;;
    match r with
    | Ok data => st_lift (guard_of_data path data)
    | Err e =>
        if os_IsNotExist e then st_ret (Guard path 0 true None None)
        else st_lift (Err (errqw "read checkpoint replay guard %q: %w" path e))
    | Panic => st_lift Panic
    end)%go.

(** ** The operations *)

Abbreviation gfs := (guard * fs)%type.

Definition on_fs {A} (m : ST fs A) : ST gfs A := fun '(g, s) =>
  let '(r, s') := m s in (r, (g, s')).
Definition set_guard (g : guard) : ST gfs () := fun '(_, s) => (Ok (), (g, s)).
Definition the_guard : ST gfs guard := fun gs => (Ok (fst gs), gs).

Definition blob_of (g : guard) : bytes :=
  marshal_guardState
    (match signedCheckpoint g, signedSignature g with
     | Some c, Some s => GuardState (highWater g) (hex_EncodeToString c) (hex_EncodeToString s)
     | _, _ => GuardState (highWater g) [] []
     end).

Definition persistLocked : ST gfs () := (
  g <- the_guard ;;
  on_fs (writeBytesAtomic (statePath g) (blob_of g)))%go.

Definition CachedSignature (g : guard) (ts : Z) (checkpoint : bytes) : option bytes :=
  if negb (loaded g) || negb (ts =? highWater g) then None
  else match signedCheckpoint g, signedSignature g with
       | Some c, Some s => if beq c checkpoint then Some s else None
       | _, _ => None
       end.

(** [append([]byte(nil), b...)]: [nil] when there is nothing to append. *)
Definition clone (b : bytes) : option bytes :=
  match b with [] => None | _ => Some b end.

Definition RecordSignature (ts : Z) (checkpoint sig : bytes) : ST gfs () := (
  g <- the_guard ;;
  if negb (ts =? highWater g) then st_ret ()
  else
    set_guard (Guard (statePath g) (highWater g) (loaded g) (clone checkpoint) (clone sig)) ;;;
    if beq (statePath g) [] then st_ret () else persistLocked)%go.

Definition CheckAndAdvance (ts : Z) : ST gfs () := (
  g <- the_guard ;;
  if loaded g && (ts <=? highWater g) then
    st_lift (Err (Errorf "%w: validator_timestamp %d is not greater than last signed %d"
                    [AWrap (ErrSentinel ErrReplayGuardRejected); AInt ts; AInt (highWater g)]))
  else
    set_guard (Guard (statePath g) ts (loaded g) None None) ;;;
    if beq (statePath g) [] then st_ret ()
    else
      r <- st_try persistLocked ;;
      match r with
      | Ok _ => st_ret ()
      | Err e =>
          set_guard (Guard (statePath g) (highWater g) (loaded g)
                       (signedCheckpoint g) (signedSignature g)) ;;;
          st_lift (Err (errw "persist checkpoint replay guard: %w" e))
      | Panic => st_lift Panic
      end)%go.

(** ** Round trip of the on-disk form *)

(** The memo a guard writes and reads back: both halves, of the right
    lengths, or none. *)
Definition memo_ok (g : guard) : Prop :=
  match signedCheckpoint g, signedSignature g with
  | Some c, Some s => length c = 32%nat /\ length s = 64%nat
  | None, None => True
  | _, _ => False
  end.

Definition guard_ok (g : guard) : Prop :=
  is_u64 (highWater g) /\ loaded g = true /\ memo_ok g.

Lemma skip_ws_cons c r : is_ws c = false -> skip_ws (c :: r) = c :: r.
Proof. intros E. simpl. by rewrite E. Qed.

(** One member [key:value] at the front of an object body. *)
Lemma parse_members_step f d key v vtext rest :
  Forall (fun c => plain c = true) key ->
  parse_value f d (vtext ++ rest) = Some (v, rest) ->
  parse_members (S f) d (json_string key ++ bs ":" ++ vtext ++ rest) =
  (if starts (skip_ws rest) x7d then Some ([(key, v)], tail (skip_ws rest))
   else if starts (skip_ws rest) x2c then
     '(ms, r4) ← parse_members f d (tail (skip_ws rest)); Some ((key, v) :: ms, r4)
   else None).
Proof.
  intros Hk Hv. unfold json_string. cbn [parse_members app].
  rewrite skip_ws_cons by done. cbn [starts tail].
  replace (Byte.eqb x22 x22) with true by done.
  rewrite <-app_assoc. cbn [app].
  rewrite parse_string_plain; [|done|simpl; rewrite !length_app; lia].
  simpl mbind. by rewrite Hv.
Qed.

Lemma HasPrefix_cons_ne c l x p : c <> x -> HasPrefix (c :: l) (x :: p) = false.
Proof. intros N. apply bool_decide_false. simpl. congruence. Qed.

Lemma parse_value_number f d n rest :
  is_u64 n -> ends_number rest ->
  parse_value (S f) d (FormatUint n ++ rest) = Some (JNum (FormatUint n), rest).
Proof.
  intros Hn Hr. cbn [parse_value].
  pose proof (FormatUint_digits n ltac:(destruct Hn; lia)) as HF.
  pose proof (parse_number_FormatUint n rest Hn Hr) as HP.
  destruct (FormatUint n) as [|c l] eqn:Ef; [by apply (dec_digits_nonempty 20 n) in Ef|].
  inversion HF as [|? ? Hc _]; subst.
  assert (Hg : is_ws c = false /\ (Byte.eqb c x7b) = false /\ (Byte.eqb c x5b) = false /\
    (Byte.eqb c x22) = false /\ c <> x74 /\ c <> x66 /\ c <> x6e)
    by (clear -Hc; destruct c; try (by destruct Hc); vm_compute; repeat split; discriminate).
  destruct Hg as (H1 & H2 & H3 & H4 & H5 & H6 & H7).
  cbn [app]. rewrite skip_ws_cons by done. cbn [starts]. rewrite H2, H3, H4.
  change (bs "true") with (x74 :: bs "rue"). change (bs "false") with (x66 :: bs "alse").
  change (bs "null") with (x6e :: bs "ull"). rewrite !HasPrefix_cons_ne by done.
  cbn [app] in HP. by rewrite HP.
Qed.

Lemma parse_value_string f d t rest :
  Forall (fun c => plain c = true) t ->
  parse_value (S f) d (json_string t ++ rest) = Some (JStr t, rest).
Proof.
  intros Ht. unfold json_string. cbn [parse_value app]. rewrite skip_ws_cons by done.
  simpl starts. cbn iota. rewrite <-app_assoc. cbn [app tail].
  rewrite parse_string_plain; [done|done|]. simpl. rewrite length_app. lia.
Qed.

Lemma plain_bs_hw : Forall (fun c => plain c = true) (bs "high_water").
Proof. repeat constructor. Qed.
Lemma plain_bs_ckpt : Forall (fun c => plain c = true) (bs "checkpoint").
Proof. repeat constructor. Qed.
Lemma plain_bs_sig : Forall (fun c => plain c = true) (bs "signature").
Proof. repeat constructor. Qed.

Lemma hex_plain b : Forall (fun c => plain c = true) (hex_EncodeToString b).
Proof. eapply Forall_impl; [apply hex_encode_chars|apply plain_hex]. Qed.

Lemma hex_encode_nonempty b : b <> [] -> beq (hex_EncodeToString b) [] = false.
Proof.
  intros N. apply bool_decide_false. intros E. apply (f_equal length) in E.
  rewrite length_hex_encode in E. destruct b; [done|simpl in E; lia].
Qed.

(** The body of an object, member by member. *)
Inductive members_text (f : nat) (d : Z) : bytes -> list (bytes * json) -> Prop :=
| mt_last key v vtext rest :
    Forall (fun c => plain c = true) key ->
    (forall f', (f <= f')%nat -> parse_value f' d (vtext ++ bs "}" ++ rest) = Some (v, bs "}" ++ rest)) ->
    rest = [] ->
    members_text f d (json_string key ++ bs ":" ++ vtext ++ bs "}" ++ rest) [(key, v)]
| mt_more key v vtext rest ms :
    Forall (fun c => plain c = true) key ->
    (forall f', (f <= f')%nat -> parse_value f' d (vtext ++ bs "," ++ rest) = Some (v, bs "," ++ rest)) ->
    members_text f d rest ms ->
    members_text f d (json_string key ++ bs ":" ++ vtext ++ bs "," ++ rest) ((key, v) :: ms).

Lemma parse_members_text f d t ms :
  members_text f d t ms ->
  parse_members (f + length ms) d t = Some (ms, []).
Proof.
  induction 1 as [key v vtext rest Hk Hv ->|key v vtext rest ms Hk Hv Hm IH].
  - cbn [length]. rewrite Nat.add_1_r. rewrite (parse_members_step f d key v vtext _ Hk (Hv f ltac:(lia))). done.
  - cbn [length]. rewrite Nat.add_succ_r.
    rewrite (parse_members_step _ d key v vtext _ Hk (Hv (f + length ms)%nat ltac:(lia))).
    change (skip_ws (bs "," ++ rest)) with (x2c :: rest). cbn [starts tail].
    change (Byte.eqb x2c x7d) with false. change (Byte.eqb x2c x2c) with true. cbn iota.
    by rewrite IH.
Qed.

Lemma parse_json_object body ms f :
  members_text f 1 body ms -> (1 <= f)%nat -> (f + length ms <= 2 * length body)%nat ->
  starts (skip_ws body) x7d = false ->
  (forall f', (f <= f')%nat -> members_text f' 1 body ms) ->
  parse_json (bs "{" ++ body) = Some (JObj ms).
Proof.
  intros Hm Hf Hl Hs Hmono. unfold parse_json.
  change (bs "{" ++ body) with (x7b :: body).
  replace (2 * length (x7b :: body) + 2)%nat with (S (2 * length body + 3)) by (simpl; lia).
  cbn [parse_value]. rewrite skip_ws_cons by done. cbn [starts tail].
  change (Byte.eqb x7b x7b) with true. cbn iota.
  change (max_depth <=? 0) with false. rewrite Hs. cbn iota.
  assert (E : (2 * length body + 3 = (2 * length body + 3 - length ms) + length ms)%nat) by lia.
  change (0 + 1) with 1. rewrite E, (parse_members_text _ _ _ _ (Hmono (2 * length body + 3 - length ms)%nat ltac:(lia))).
  done.
Qed.

Lemma mt_mono f f' d t ms : (f <= f')%nat -> members_text f d t ms -> members_text f' d t ms.
Proof.
  intros Hf. induction 1; econstructor; eauto; intros; auto with lia.
Qed.

(** The document of a guard with a memo, and of one without. *)
Lemma parse_blob_memo n c s :
  is_u64 n -> c <> [] -> s <> [] ->
  parse_json (marshal_guardState
    (GuardState n (hex_EncodeToString c) (hex_EncodeToString s))) =
  Some (JObj [(bs "high_water", JNum (FormatUint n));
              (bs "checkpoint", JStr (hex_EncodeToString c));
              (bs "signature", JStr (hex_EncodeToString s))]).
Proof.
  intros Hn Hc Hs. unfold marshal_guardState. cbn [gsHighWater gsCheckpoint gsSignature].
  rewrite (hex_encode_nonempty c), (hex_encode_nonempty s) by done.
  match goal with |- parse_json (bs "{" ++ ?b) = Some (JObj ?m) =>
    assert (Hm : members_text 1 1 b m) end.
  { rewrite <-!app_assoc. apply mt_more; [apply plain_bs_hw| |].
    { intros [|f'] Hf; [lia|]. by apply parse_value_number. }
    apply mt_more; [apply plain_bs_ckpt| |].
    { intros [|f'] Hf; [lia|]. apply parse_value_string, hex_plain. }
    change (bs "}") with (bs "}" ++ []). apply mt_last; [apply plain_bs_sig| |done].
    intros [|f'] Hf; [lia|]. apply parse_value_string, hex_plain. }
  eapply parse_json_object; [exact Hm|lia| |done|intros; by eapply mt_mono].
  rewrite !length_app. simpl. lia.
Qed.

Lemma parse_blob_plain n :
  is_u64 n ->
  parse_json (marshal_guardState (GuardState n [] [])) =
  Some (JObj [(bs "high_water", JNum (FormatUint n))]).
Proof.
  intros Hn. unfold marshal_guardState. cbn [gsHighWater gsCheckpoint gsSignature].
  change (beq [] []) with true. cbn iota. rewrite !app_nil_l.
  match goal with |- parse_json (bs "{" ++ ?b) = Some (JObj ?m) =>
    assert (Hm : members_text 1 1 b m) end.
  { change (bs "}") with (bs "}" ++ []). apply mt_last; [apply plain_bs_hw| |done].
    intros [|f'] Hf; [lia|]. by apply parse_value_number. }
  eapply parse_json_object; [exact Hm|lia| |done|intros; by eapply mt_mono].
  rewrite !length_app. simpl. lia.
Qed.

Lemma strip_none runes s n : List.find (HasPrefix s) runes = None -> strip_all n runes s = s.
Proof. intros E. destruct n; simpl; [done|]. unfold strip_one. by rewrite E. Qed.

Lemma TrimSpace_braces t : TrimSpace (bs "{" ++ t ++ bs "}") = bs "{" ++ t ++ bs "}".
Proof.
  unfold TrimSpace, TrimRightRunes, TrimLeftRunes.
  rewrite (strip_none space_runes).
  - assert (E : rev (bs "{" ++ t ++ bs "}") = x7d :: rev (bs "{" ++ t))
      by by rewrite app_assoc, rev_app_distr.
    rewrite strip_none; [apply rev_involutive|]. rewrite E.
    cbn [space_runes map rev app List.find]. by rewrite !HasPrefix_cons_ne by done.
  - change (bs "{" ++ t ++ bs "}") with (x7b :: t ++ bs "}").
    cbn [space_runes List.find]. by rewrite !HasPrefix_cons_ne by done.
Qed.

Lemma TrimSpace_marshal st : TrimSpace (marshal_guardState st) = marshal_guardState st.
Proof.
  unfold marshal_guardState.
  match goal with |- context [bs "{" ++ ?a ++ ?b ++ ?c ++ ?d ++ ?e ++ bs "}"] =>
    replace (a ++ b ++ c ++ d ++ e ++ bs "}") with ((a ++ b ++ c ++ d ++ e) ++ bs "}")
      by by rewrite <-!app_assoc end.
  apply TrimSpace_braces.
Qed.

Lemma unmarshal_memo n c s :
  is_u64 n -> c <> [] -> s <> [] ->
  unmarshal_guardState (marshal_guardState
    (GuardState n (hex_EncodeToString c) (hex_EncodeToString s))) =
  Ok (GuardState n (hex_EncodeToString c) (hex_EncodeToString s)).
Proof.
  intros Hn Hc Hs. unfold unmarshal_guardState. rewrite parse_blob_memo by done.
  cbn [foldl store_field mbind result_bind].
  change (key_matches (bs "high_water") (bs "high_water")) with true.
  change (key_matches (bs "checkpoint") (bs "high_water")) with false.
  change (key_matches (bs "checkpoint") (bs "checkpoint")) with true.
  change (key_matches (bs "signature") (bs "high_water")) with false.
  change (key_matches (bs "signature") (bs "checkpoint")) with false.
  change (key_matches (bs "signature") (bs "signature")) with true.
  cbn [store_uint64 store_string]. by rewrite ParseUint_FormatUint.
Qed.

Lemma unmarshal_plain n :
  is_u64 n ->
  unmarshal_guardState (marshal_guardState (GuardState n [] [])) = Ok (GuardState n [] []).
Proof.
  intros Hn. unfold unmarshal_guardState. rewrite parse_blob_plain by done.
  cbn [foldl store_field mbind result_bind].
  change (key_matches (bs "high_water") (bs "high_water")) with true.
  cbn [store_uint64]. by rewrite ParseUint_FormatUint.
Qed.

Lemma decodeOptionalHex_encode b want field path :
  b <> [] -> len b = want -> decodeOptionalHex (hex_EncodeToString b) want field path = Ok (Some b).
Proof.
  intros Hb Hl. unfold decodeOptionalHex.
  by rewrite hex_encode_nonempty, hex_decode_encode, Hl, Z.eqb_refl by done.
Qed.

(** Reading back what [persistLocked] wrote restores the guard. *)
Lemma guard_of_blob g : guard_ok g -> guard_of_data (statePath g) (blob_of g) = Ok g.
Proof.
  intros (Hn & Hl & Hm). destruct g as [p n l c s].
  unfold guard_of_data, blob_of, memo_ok in *.
  cbn [statePath highWater loaded signedCheckpoint signedSignature] in *. subst l.
  destruct c as [c|], s as [s|]; try done.
  - destruct Hm as [Lc Ls]. rewrite TrimSpace_marshal.
    assert (c <> []) by (intros ->; discriminate Lc).
    assert (s <> []) by (intros ->; discriminate Ls).
    change (HasPrefix (marshal_guardState (GuardState n (hex_EncodeToString c) (hex_EncodeToString s))) (bs "{")) with true.
    rewrite unmarshal_memo by done. cbn [map_err mbind result_bind gsCheckpoint gsSignature].
    rewrite !decodeOptionalHex_encode; [done|done|unfold len; lia|done|unfold len; lia].
  - rewrite TrimSpace_marshal.
    change (HasPrefix (marshal_guardState (GuardState n [] [])) (bs "{")) with true.
    rewrite unmarshal_plain by done. done.
Qed.

(** ** What the operations do *)

Definition content_guard (path : bytes) (c : option bytes) : result guard :=
  match c with
  | None => Ok (Guard path 0 true None None)
  | Some b => guard_of_data path b
  end.

Lemma load_spec path d names trace :
  path <> [] -> path ∉ dirs d ->
  fst (newCheckpointReplayGuard path (Fs d [] names trace)) = content_guard path (content d path).
Proof.
  intros Hp Hd. unfold newCheckpointReplayGuard, os_ReadFile, st_bind, st_try, syscall, beq.
  rewrite bool_decide_false by done. cbn [fs_faults fs_disk].
  rewrite decide_False by done. by destruct (content d path).
Qed.

Lemma load_inv path s g s' :
  path <> [] -> newCheckpointReplayGuard path s = (Ok g, s') ->
  fs_disk s' = fs_disk s /\ content_guard path (content (fs_disk s) path) = Ok g.
Proof.
  intros Hp. unfold newCheckpointReplayGuard, os_ReadFile, st_bind, st_try, syscall, beq.
  rewrite bool_decide_false by done.
  destruct (fs_faults s) as [|[|k] fl]; [..|done];
    (case_decide; [done|]); destruct (content (fs_disk s) path) eqn:E;
    intros E'; injection E' as E1 <-; split; try done; exact (f_equal Ok E1).
Qed.

(** Loading depends on the guard file alone. *)
Lemma load_elsewhere path s g s' d :
  newCheckpointReplayGuard path s = (Ok g, s') ->
  content d path = content (fs_disk s) path -> (path ∈ dirs d <-> path ∈ dirs (fs_disk s)) ->
  fs_disk s' = fs_disk s /\
  exists s2, newCheckpointReplayGuard path (Fs d [] [] []) = (Ok g, s2) /\ fs_disk s2 = d.
Proof.
  intros H Hc Hd. revert H. unfold newCheckpointReplayGuard, os_ReadFile, st_bind, st_try, syscall, beq.
  case_bool_decide; [by intros [= <- <-]; eauto|]. cbn [fs_faults fs_disk]. rewrite Hc.
  destruct (fs_faults s) as [|[|k] fl]; [..|done];
    (case_decide as Hin; [done|]); rewrite decide_False by tauto; destruct (content (fs_disk s) path);
    intros E'; injection E' as E1 <-; split; try done; eexists; (split; [by rewrite <-E1|done]).
Qed.

(** The error of a replayed timestamp. *)
Definition errReplay (ts hw : Z) : error :=
  Errorf "%w: validator_timestamp %d is not greater than last signed %d"
    [AWrap (ErrSentinel ErrReplayGuardRejected); AInt ts; AInt hw].

(** The trace an operation adds stays within the old and the new contents. *)
Definition trace_within (d0 : disk) (path b : bytes) (s s' : fs) : Prop :=
  exists tr, fs_trace s' = tr ++ fs_trace s /\ Forall (old_or_new d0 path b) tr.

Lemma persist_spec g s :
  wf_path (fs_disk s) (statePath g) -> is_temp (statePath g) = false ->
  exists r s', persistLocked (g, s) = (r, (g, s')) /\
    Final (fs_disk s) (statePath g) (blob_of g) 384 r (fs_disk s') /\
    trace_within (fs_disk s) (statePath g) (blob_of g) s s'.
Proof.
  intros W Hnt. destruct s as [d faults names trace].
  pose proof (writeBytesAtomic_spec d (statePath g) (blob_of g) faults names trace W Hnt) as H.
  unfold persistLocked, st_bind, the_guard, on_fs. simpl.
  destruct (writeBytesAtomic _ _ _) as [r s'] eqn:E. exists r, s'. done.
Qed.

Inductive advance_outcome (g : guard) (s : fs) (ts : Z) : result () -> guard -> fs -> Prop :=
| adv_replay : ts <= highWater g ->
    advance_outcome g s ts (Err (errReplay ts (highWater g))) g s
| adv_ok g' s' : highWater g < ts -> g' = Guard (statePath g) ts true None None ->
    Done (statePath g) (blob_of g') 384 (fs_disk s') ->
    trace_within (fs_disk s) (statePath g) (blob_of g') s s' ->
    advance_outcome g s ts (Ok ()) g' s'
| adv_fail e s' : highWater g < ts ->
    Same0 (fs_disk s) (statePath g) (fs_disk s') \/
    Post (fs_disk s) (statePath g) (blob_of (Guard (statePath g) ts true None None)) 384 (fs_disk s') ->
    trace_within (fs_disk s) (statePath g) (blob_of (Guard (statePath g) ts true None None)) s s' ->
    advance_outcome g s ts (Err (errw "persist checkpoint replay guard: %w" e)) g s'.

Lemma CheckAndAdvance_spec g s ts :
  loaded g = true -> statePath g <> [] ->
  wf_path (fs_disk s) (statePath g) -> is_temp (statePath g) = false ->
  exists r g' s', CheckAndAdvance ts (g, s) = (r, (g', s')) /\ advance_outcome g s ts r g' s'.
Proof.
  intros Hl Hp W Hnt. unfold CheckAndAdvance, st_bind, the_guard, st_lift, set_guard, st_try, beq.
  cbn [fst]. rewrite Hl. cbn [andb]. destruct (Z.leb_spec ts (highWater g)).
  { eexists _, _, _. split; [done|]. by constructor. }
  rewrite bool_decide_false by done.
  set (g1 := Guard (statePath g) ts true None None).
  destruct (persist_spec g1 s W Hnt) as (r & s' & -> & HF & HT).
  destruct r as [[]|e|]; simpl in HF; [| |done].
  - eexists _, _, _. split; [done|]. by eapply adv_ok.
  - eexists _, _, _. split; [done|]. destruct g; simpl in *; subst. by apply adv_fail.
Qed.

Inductive record_outcome (g : guard) (s : fs) (ts : Z) (c sig : bytes) : guard -> fs -> Prop :=
| rec_stale : ts <> highWater g -> record_outcome g s ts c sig g s
| rec_done g' s' : ts = highWater g ->
    g' = Guard (statePath g) ts true (clone c) (clone sig) ->
    Done (statePath g) (blob_of g') 384 (fs_disk s') \/
    Same0 (fs_disk s) (statePath g) (fs_disk s') \/
    Post (fs_disk s) (statePath g) (blob_of g') 384 (fs_disk s') ->
    trace_within (fs_disk s) (statePath g) (blob_of g') s s' ->
    record_outcome g s ts c sig g' s'.

Lemma RecordSignature_spec g s ts c sig :
  loaded g = true -> statePath g <> [] ->
  wf_path (fs_disk s) (statePath g) -> is_temp (statePath g) = false ->
  exists r g' s', RecordSignature ts c sig (g, s) = (r, (g', s')) /\
    record_outcome g s ts c sig g' s'.
Proof.
  intros Hl Hp W Hnt. unfold RecordSignature, st_bind, the_guard, set_guard, beq. cbn [fst].
  destruct (Z.eqb_spec ts (highWater g)) as [E|N]; cbn [negb]; cycle 1.
  { eexists _, _, _. split; [done|]. by constructor. }
  rewrite bool_decide_false by done. rewrite Hl, <-E.
  set (g1 := Guard (statePath g) ts true (clone c) (clone sig)).
  destruct (persist_spec g1 s W Hnt) as (r & s' & -> & HF & HT).
  eexists _, _, _. split; [done|]. eapply rec_done; [done|reflexivity| |exact HT].
  destruct r; simpl in HF; tauto.
Qed.

(** ** Properties *)

(** (C13) Restart round trip: for a well-formed guard (a [uint64] mark, the
    memo absent or of 32 and 64 bytes), a successful [persistLocked] - under
    any faults that let it succeed - leaves a file from which
    [newCheckpointReplayGuard] rebuilds exactly that guard, memo included,
    both after a clean restart and after every crash. *)
Theorem guard_restart_roundtrip g s g1 s' d' names :
  guard_ok g -> statePath g <> [] -> is_temp (statePath g) = false ->
  wf_path (fs_disk s) (statePath g) ->
  persistLocked (g, s) = (Ok (), (g1, s')) ->
  d' = fs_disk s' \/ crash (fs_disk s') d' ->
  statePath g ∉ dirs d' ->
  fst (newCheckpointReplayGuard (statePath g) (Fs d' [] names [])) = Ok g.
Proof.
  intros Hg Hp Hnt W E Hd Hdir.
  destruct (persist_spec g s W Hnt) as (r & s1 & E' & HF & _).
  rewrite E in E'. injection E' as <- _ <-. simpl in HF.
  rewrite load_spec by done.
  assert (content d' (statePath g) = Some (blob_of g)) as ->.
  { destruct Hd as [->|(_ & _ & _ & Hc)]; [by eapply Done_content|].
    destruct (Hc (statePath g)) as (c & Hc1 & -> & _). by eapply Done_crash. }
  by apply guard_of_blob.
Qed.

Definition sample_guard : guard :=
  Guard sample_path 1700000000000 true (Some (replicate 32 xaa)) (Some (replicate 64 x11)).

Lemma guard_restart_roundtrip_witness :
  exists g1 s', persistLocked (sample_guard, fresh_fs sample_disk) = (Ok (), (g1, s')) /\
  fst (newCheckpointReplayGuard sample_path (Fs (fs_disk s') [] [] [])) = Ok sample_guard.
Proof.
  assert (E : is_ok (fst (persistLocked (sample_guard, fresh_fs sample_disk))) = true)
    by (vm_compute; reflexivity).
  assert (Hd : sample_path ∉
    dirs (fs_disk (snd (snd (persistLocked (sample_guard, fresh_fs sample_disk))))))
    by (apply (bool_decide_eq_true_1 _); vm_compute; reflexivity).
  destruct (persistLocked (sample_guard, fresh_fs sample_disk)) as [[[]| |] [g1 s']] eqn:Ep;
    try discriminate E.
  exists g1, s'. split; [reflexivity|].
  apply (guard_restart_roundtrip sample_guard (fresh_fs sample_disk) g1 s' (fs_disk s') []).
  - repeat split; vm_compute; congruence.
  - vm_compute. discriminate.
  - reflexivity.
  - apply sample_wf.
  - exact Ep.
  - left. reflexivity.
  - exact Hd.
Defined.



(** The memo answers only the exact repeat: [CachedSignature] returns a
    signature iff the guard is loaded, the timestamp is the current mark,
    both halves of the memo are present and the checkpoint is byte-identical
    to the memoized one - and it returns that memoized signature. *)
Theorem cached_signature_exact g ts c sig :
  CachedSignature g ts c = Some sig <->
  loaded g = true /\ ts = highWater g /\
  signedCheckpoint g = Some c /\ signedSignature g = Some sig.
Proof.
  unfold CachedSignature, beq. split.
  - destruct (loaded g); [|done]. destruct (Z.eqb_spec ts (highWater g)); [|done]. simpl.
    destruct (signedCheckpoint g), (signedSignature g); try done.
    case_bool_decide; [|done]. intros [= <-]. by subst.
  - intros (-> & -> & -> & ->). rewrite Z.eqb_refl. simpl. by rewrite bool_decide_true.
Qed.

(** Legacy and corrupt files: a bare decimal [uint64], with white space
    around it, loads as that mark without a memo; a file whose trimmed
    contents are neither a decimal [uint64] nor start a JSON object is
    refused, so the daemon does not start from a reset mark. *)
Theorem legacy_guard_file path n data :
  (is_u64 n -> TrimSpace data = FormatUint n ->
   guard_of_data path data = Ok (Guard path n true None None)) /\
  (HasPrefix (TrimSpace data) (bs "{") = false ->
   is_ok (ParseUint (TrimSpace data)) = false ->
   is_ok (guard_of_data path data) = false).
Proof.
  unfold guard_of_data. split.
  - intros Hn ->. rewrite ParseUint_FormatUint by done.
    pose proof (FormatUint_digits n ltac:(destruct Hn; lia)) as HF.
    destruct (FormatUint n) as [|c l]; [done|]. inversion HF as [|? ? Hc _]; subst.
    change (bs "{") with [x7b]. rewrite HasPrefix_cons_ne; [done|].
    intros ->. by destruct Hc.
  - intros -> Hu. by destruct (ParseUint (TrimSpace data)).
Qed.

Lemma legacy_guard_file_witness :
  guard_of_data sample_path (bs "  1700000000000 ") = Ok (Guard sample_path 1700000000000 true None None).
Proof.
  apply (legacy_guard_file sample_path 1700000000000 (bs "  1700000000000 "));
    [vm_compute; split; congruence|vm_compute; reflexivity].
Defined.
