(* ===== verification/GuardSystem.v ===== *)
(** * The replay guard under concurrency, faults, crashes and restarts

    The tail of [SignBridgeCheckpoint] ([server/server.go], steps 7 and 8:
    [CheckAndAdvance], the memoized reply after a rejection, [SignRaw],
    [RecordSignature]) runs in one goroutine per request over one guard and
    one guard file.  Each guard
    operation holds the mutex, so a run of the daemon is an interleaving of
    whole guard operations; between them a handler may be anywhere, and the
    process or the machine may stop at any moment - between two operations
    or between two system calls inside one.

    [step] is that transition system, over the guard and the file system of
    [ReplayGuard] and [Fs]; every operation may meet any list of faults. *)

From S2P Require Import Prelude GoStd Fs Json ReplayGuard.

(** A handler past the guard: allowed to sign, or holding its signature. *)
Inductive thread :=
| Granted (ts : Z) (ckpt : bytes)
| Signed (ts : Z) (ckpt sig : bytes).

(** A signature released by the backend for a timestamp and checkpoint. *)
Abbreviation entry := (Z * bytes * bytes)%type.
Definition entry_ts (e : entry) : Z := fst (fst e).

Record sys := Sys {
  sys_guard : guard;
  sys_disk : disk;
  threads : list thread;
  slog : list entry;      (** every signature the backend produced *)
  replies : list entry;   (** every signature returned to a caller *)
}.

(** The two guard operations that touch the file. *)
Inductive guard_op :=
| OpAdvance (ts : Z)
| OpRecord (ts : Z) (ckpt sig : bytes).

Definition run_op (o : guard_op) : ST gfs () :=
  match o with
  | OpAdvance ts => CheckAndAdvance ts
  | OpRecord ts c s => RecordSignature ts c s
  end.

(** An operation some handler may be executing. *)
Definition op_enabled (ths : list thread) (o : guard_op) : Prop :=
  match o with
  | OpAdvance ts => is_u64 ts
  | OpRecord ts c s => Signed ts c s ∈ ths
  end.

(** The disk a restarted process finds: as it was, or after a crash. *)
Definition survives (d d' : disk) : Prop := d' = d \/ crash d d'.

(** Changes to other files: the file at [p] holds what it held and may hold
    nothing new after a crash (a sync of its directory can settle what). *)
Definition elsewhere (p : bytes) (d d' : disk) : Prop :=
  wf_path d' p /\ content d' p = content d p /\ (p ∈ dirs d' <-> p ∈ dirs d) /\
  forall c, crash_content d' p c -> crash_content d p c.

(** Entries are determined by a key that does not repeat. *)
Lemma NoDup_map_key {A B} (f : A -> B) (l : list A) x y :
  NoDup (map f l) -> x ∈ l -> y ∈ l -> f x = f y -> x = y.
Proof.
  intros Hn Hx Hy E. apply list_elem_of_lookup in Hx as [i Hi], Hy as [j Hj].
  assert (i = j) as ->; [|congruence].
  eapply NoDup_lookup; [exact Hn|by rewrite list_lookup_fmap, Hi|]. by rewrite list_lookup_fmap, Hj, E.
Qed.

Section System.
Context (path : bytes).

Inductive step : sys -> sys -> Prop :=
(** step 7, after a rejection, which changes nothing: a repeat of the
    memoized checkpoint is answered.  Other operations may run between the
    two, so the answer may come in any state whose memo matches. *)
| step_cached g d ths lg rp ts ckpt sig :
    CachedSignature g ts ckpt = Some sig ->
    step (Sys g d ths lg rp) (Sys g d ths lg ((ts, ckpt, sig) :: rp))
(** step 7: the guard grants or refuses. *)
| step_advance g d ths lg rp ts ckpt faults names r g' s' :
    is_u64 ts -> length ckpt = 32%nat ->
    CheckAndAdvance ts (g, Fs d faults names []) = (r, (g', s')) ->
    step (Sys g d ths lg rp)
         (Sys g' (fs_disk s') (if is_ok r then Granted ts ckpt :: ths else ths) lg rp)
(** step 8: the backend signs; a signature of the wrong length ends the
    handler. *)
| step_sign g d l1 l2 lg rp ts ckpt sig :
    step (Sys g d (l1 ++ Granted ts ckpt :: l2) lg rp)
         (Sys g d (if len sig =? 64 then l1 ++ Signed ts ckpt sig :: l2 else l1 ++ l2)
              ((ts, ckpt, sig) :: lg) rp)
(** the backend fails, the caller goes away, the handler panics. *)
| step_drop g d l1 l2 lg rp t :
    step (Sys g d (l1 ++ t :: l2) lg rp) (Sys g d (l1 ++ l2) lg rp)
(** step 8, after signing: memoize (an error is only logged) and reply. *)
| step_record g d l1 l2 lg rp ts ckpt sig faults names r g' s' :
    RecordSignature ts ckpt sig (g, Fs d faults names []) = (r, (g', s')) ->
    step (Sys g d (l1 ++ Signed ts ckpt sig :: l2) lg rp)
         (Sys g' (fs_disk s') (l1 ++ l2) lg ((ts, ckpt, sig) :: rp))
(** the process stops between two operations and a new one starts. *)
| step_restart g d ths lg rp d' faults names g' s' :
    survives d d' ->
    newCheckpointReplayGuard path (Fs d' faults names []) = (Ok g', s') ->
    step (Sys g d ths lg rp) (Sys g' (fs_disk s') [] lg rp)
(** the process stops inside an operation, after any of its system calls. *)
| step_restart_mid g d ths lg rp o faults names r g1 s1 dm d' faults' names' g' s' :
    op_enabled ths o ->
    run_op o (g, Fs d faults names []) = (r, (g1, s1)) ->
    dm ∈ fs_trace s1 -> survives dm d' ->
    newCheckpointReplayGuard path (Fs d' faults' names' []) = (Ok g', s') ->
    step (Sys g d ths lg rp) (Sys g' (fs_disk s') [] lg rp)
(** other parts of the program and other programs write their own files. *)
| step_elsewhere g d ths lg rp d' :
    elsewhere path d d' -> step (Sys g d ths lg rp) (Sys g d' ths lg rp).

(** First start: the guard file is absent or holds a bare mark. *)
Inductive boot : sys -> Prop :=
| boot_intro d faults names g s :
    wf_path d path ->
    (forall c, crash_content d path c ->
       exists hw, is_u64 hw /\ content_guard path c = Ok (Guard path hw true None None)) ->
    newCheckpointReplayGuard path (Fs d faults names []) = (Ok g, s) ->
    boot (Sys g (fs_disk s) [] [] []).

Definition reachable (c : sys) : Prop := exists c0, boot c0 /\ rtc step c0 c.

(** ** The invariant *)

Definition pending_ts (t : thread) : option Z :=
  match t with Granted ts _ => Some ts | Signed _ _ _ => None end.

(** Timestamps a signature exists for or may still be made for. *)
Definition used (ths : list thread) (lg : list entry) : list Z :=
  omap pending_ts ths ++ map entry_ts lg.

Definition memo_in (lg : list entry) (g : guard) : Prop :=
  match signedCheckpoint g, signedSignature g with
  | Some c, Some s => (highWater g, c, s) ∈ lg
  | _, _ => True
  end.

Definition safe_guard (us : list Z) (lg : list entry) (g : guard) : Prop :=
  guard_ok g /\ statePath g = path /\ Forall (fun t => t <= highWater g) us /\ memo_in lg g.

Definition safe_disk (us : list Z) (lg : list entry) (d : disk) : Prop :=
  wf_path d path /\
  forall c, crash_content d path c -> exists g, content_guard path c = Ok g /\ safe_guard us lg g.

Definition thread_ok (lg : list entry) (t : thread) : Prop :=
  match t with
  | Granted _ c => length c = 32%nat
  | Signed ts c s => (ts, c, s) ∈ lg /\ length c = 32%nat /\ length s = 64%nat
  end.

Record inv (c : sys) : Prop := Inv {
  inv_guard : safe_guard (used (threads c) (slog c)) (slog c) (sys_guard c);
  inv_disk : safe_disk (used (threads c) (slog c)) (slog c) (sys_disk c);
  inv_nodup : NoDup (used (threads c) (slog c));
  inv_threads : Forall (thread_ok (slog c)) (threads c);
  inv_replies : Forall (fun e => e ∈ slog c) (replies c);
}.

Lemma safe_guard_mono us us' lg lg' g :
  us' ⊆ us -> lg ⊆ lg' -> safe_guard us lg g -> safe_guard us' lg' g.
Proof.
  intros Hu Hl (Ho & Hp & Hm & Hme). repeat split; try done; try apply Ho.
  - rewrite Forall_forall in *. auto.
  - revert Hme. unfold memo_in. repeat case_match; auto.
Qed.

Lemma safe_disk_mono us us' lg lg' d :
  us' ⊆ us -> lg ⊆ lg' -> safe_disk us lg d -> safe_disk us' lg' d.
Proof.
  intros Hu Hl [W H]. split; [done|]. intros c Hc.
  destruct (H c Hc) as (g & E & Hg). eauto using safe_guard_mono.
Qed.

Lemma safe_blob us lg g : safe_guard us lg g -> content_guard path (Some (blob_of g)) = Ok g.
Proof. intros (Ho & <- & _). by apply guard_of_blob. Qed.

Lemma safe_old_or_new us lg d0 g1 d :
  safe_disk us lg d0 -> safe_guard us lg g1 -> old_or_new d0 path (blob_of g1) d ->
  safe_disk us lg d.
Proof.
  intros [_ H0] H1 [W H]. split; [done|]. intros c Hc.
  destruct (H c Hc) as [?| ->]; [by apply H0|]. eauto using safe_blob.
Qed.

Lemma content_crash d : wf_path d path -> crash_content d path (content d path).
Proof.
  intros [W1 W2]. unfold content, cur.
  destruct (hist d path) as [|[i|] h] eqn:E; [done| |apply crash_absent; rewrite E; left].
  destruct (W2 i) as [_ [n En]]; [left|]. rewrite En. simpl.
  destruct (isynced n) eqn:S.
  - eapply crash_synced; [rewrite E; left|done|done].
  - eapply crash_torn; [rewrite E; left|done|done].
Qed.

(** A new process always finds a safe guard. *)
Lemma survives_safe us lg d d' :
  safe_disk us lg d -> survives d d' ->
  safe_disk us lg d' /\ exists g, content_guard path (content d' path) = Ok g /\ safe_guard us lg g.
Proof.
  intros [W H] [->|(_ & W1 & W2 & Hc)].
  - split; [done|]. by apply H, content_crash.
  - destruct (Hc path) as (c & Hc1 & -> & Hc2).
    split; [|by apply H]. split; [split; eauto|]. intros c' Hc'. rewrite (Hc2 c' Hc'). by apply H.
Qed.

Context (path_ne : path <> []) (path_tmp : is_temp path = false).

Lemma load_safe us lg d d' faults names g s :
  safe_disk us lg d -> survives d d' ->
  newCheckpointReplayGuard path (Fs d' faults names []) = (Ok g, s) ->
  safe_guard us lg g /\ safe_disk us lg (fs_disk s).
Proof using path_ne.
  intros Hd Hs Hl. destruct (survives_safe us lg d d' Hd Hs) as (Hd' & g1 & E1 & Hg1).
  destruct (load_inv _ _ _ _ path_ne Hl) as [-> E2]. simpl in *.
  rewrite E1 in E2. by injection E2 as <-.
Qed.

(** A grant raises the mark above everything used before. *)
Lemma advanced_safe us lg g ts :
  safe_guard us lg g -> is_u64 ts -> highWater g < ts ->
  safe_guard (ts :: us) lg (Guard path ts true None None).
Proof.
  intros (_ & _ & Hm & _) Ht Hlt. repeat split; try apply Ht.
  constructor; [simpl; lia|]. eapply Forall_impl; [exact Hm|]. simpl. lia.
Qed.

Lemma recorded_safe us lg g ts c s :
  safe_guard us lg g -> ts = highWater g -> (ts, c, s) ∈ lg ->
  length c = 32%nat -> length s = 64%nat ->
  safe_guard us lg (Guard path ts true (clone c) (clone s)).
Proof.
  intros ((Hu & _) & _ & Hm & _) -> Hin Lc Ls.
  destruct c as [|x c]; [done|]. destruct s as [|y s]; [done|].
  repeat split; try done; apply Hu.
Qed.

(** What one guard operation leaves: a safe guard in memory, a safe file at
    its end and after each of its system calls. *)
Lemma advance_safe us lg g d ts faults names r g' s' :
  safe_guard us lg g -> safe_disk us lg d -> is_u64 ts ->
  CheckAndAdvance ts (g, Fs d faults names []) = (r, (g', s')) ->
  let us' := if is_ok r then ts :: us else us in
  safe_guard us' lg g' /\ safe_disk us' lg (fs_disk s') /\
  (is_ok r = true -> highWater g < ts) /\ Forall (safe_disk us lg) (fs_trace s').
Proof using path_ne path_tmp.
  intros Hg Hd Hu E. pose proof Hg as ((_ & Hl & _) & Hp & _).
  destruct (CheckAndAdvance_spec g (Fs d faults names []) ts Hl) as (r1 & g1 & s1 & E1 & Ho);
    rewrite ?Hp; try done; [apply Hd|]. rewrite E in E1. injection E1 as -> -> ->.
  destruct Ho as [Hle|g2 s2 Hlt -> HD HT|e s2 Hlt HD HT]; cbn [is_ok]; rewrite ?Hp in *.
  - split; [done|]. split; [done|]. split; [done|constructor].
  - assert (Hg2 : safe_guard (ts :: us) lg (Guard path ts true None None))
      by by eapply advanced_safe.
    split; [done|]. split; [split; [by eapply Done_wf|]|split; [done|]].
    + intros c Hc. rewrite (Done_crash _ _ _ _ _ HD Hc). eauto using safe_blob.
    + destruct HT as (tr & -> & Ht). rewrite app_nil_r. eapply Forall_impl; [exact Ht|].
      intros dm. apply safe_old_or_new; [done|]. eapply safe_guard_mono; [..|exact Hg2]; set_solver.
  - assert (Hg2 : safe_guard us lg (Guard path ts true None None)).
    { eapply safe_guard_mono; [..|by eapply advanced_safe]; set_solver. }
    split; [done|]. split; [|split; [done|]].
    + eapply (safe_old_or_new us lg d); [done|exact Hg2|].
      destruct HD; [eapply Same0_crash|eapply Post_crash]; (apply Hd || eassumption).
    + destruct HT as (tr & -> & Ht). rewrite app_nil_r. eapply Forall_impl; [exact Ht|].
      intros dm. by apply safe_old_or_new.
Qed.

Lemma record_safe us lg g d ts c sig faults names r g' s' :
  safe_guard us lg g -> safe_disk us lg d ->
  (ts, c, sig) ∈ lg -> length c = 32%nat -> length sig = 64%nat ->
  RecordSignature ts c sig (g, Fs d faults names []) = (r, (g', s')) ->
  safe_guard us lg g' /\ safe_disk us lg (fs_disk s') /\ Forall (safe_disk us lg) (fs_trace s').
Proof using path_ne path_tmp.
  intros Hg Hd Hin Lc Ls E. pose proof Hg as ((_ & Hl & _) & Hp & _).
  destruct (RecordSignature_spec g (Fs d faults names []) ts c sig Hl) as (r1 & g1 & s1 & E1 & Ho);
    rewrite ?Hp; try done; [apply Hd|]. rewrite E in E1. injection E1 as -> -> ->.
  destruct Ho as [Hne|g2 s2 Heq -> HD HT]; rewrite ?Hp in *; 
    [split; [done|]; split; [done|constructor]|].
  pose proof (recorded_safe us lg g ts c sig Hg Heq Hin Lc Ls) as Hg2.
  destruct HT as (tr & -> & Ht). rewrite app_nil_r.
  split; [done|]. split.
  - eapply (safe_old_or_new us lg d); [done|exact Hg2|].
    destruct HD as [HD|[HD|HD]]; [eapply Done_old_or_new|eapply Same0_crash|eapply Post_crash];
      (apply Hd || eassumption).
  - eapply Forall_impl; [exact Ht|]. intros dm. by apply safe_old_or_new.
Qed.

Lemma used_drop l1 t l2 lg : used (l1 ++ l2) lg ⊆ used (l1 ++ t :: l2) lg.
Proof.
  unfold used. rewrite !omap_app. cbn [omap list_omap]. intros x.
  destruct (pending_ts t); rewrite !elem_of_app, ?elem_of_cons; tauto.
Qed.

Lemma NoDup_drop l1 t l2 lg : NoDup (used (l1 ++ t :: l2) lg) -> NoDup (used (l1 ++ l2) lg).
Proof.
  unfold used. rewrite !omap_app. intros H. eapply sublist_NoDup; [exact H|].
  apply sublist_app; [|done]. apply sublist_app; [done|]. cbn [omap list_omap].
  destruct (pending_ts t); [by constructor|done].
Qed.

Lemma used_sign l1 ts c l2 sig lg :
  used (l1 ++ Granted ts c :: l2) lg ≡ₚ used (l1 ++ l2) ((ts, c, sig) :: lg).
Proof. unfold used. rewrite !omap_app. cbn [omap list_omap pending_ts map entry_ts fst]. solve_Permutation. Qed.

Lemma used_signed l1 ts c sig l2 lg : used (l1 ++ Signed ts c sig :: l2) lg = used (l1 ++ l2) lg.
Proof. unfold used. by rewrite !omap_app. Qed.

Lemma used_restart ths lg : used [] lg ⊆ used ths lg.
Proof. unfold used. simpl. intros x Hx. apply elem_of_app. by right. Qed.

Lemma NoDup_restart ths lg : NoDup (used ths lg) -> NoDup (used [] lg).
Proof. unfold used. simpl. intros H. by apply NoDup_app in H as (_ & _ & ?). Qed.

Lemma Forall_mid (P : thread -> Prop) l1 t l2 : Forall P (l1 ++ t :: l2) -> P t.
Proof. rewrite Forall_app, Forall_cons. tauto. Qed.

Lemma lg_cons (e : entry) lg : lg ⊆ e :: lg.
Proof. intros x Hx. by right. Qed.

Lemma threads_mono lg lg' ths :
  lg ⊆ lg' -> Forall (thread_ok lg) ths -> Forall (thread_ok lg') ths.
Proof.
  intros Hl H. eapply Forall_impl; [exact H|]. intros [ts c|ts c s]; simpl; [done|]. intros (? & ? & ?). auto.
Qed.

Lemma inv_drop g d l1 t l2 lg rp : inv (Sys g d (l1 ++ t :: l2) lg rp) -> inv (Sys g d (l1 ++ l2) lg rp).
Proof.
  intros [Hg Hd Hn Ht Hr]; simpl in *. split; simpl; [..|done].
  - eapply safe_guard_mono; [apply (used_drop l1 t)|done|done].
  - eapply safe_disk_mono; [apply (used_drop l1 t)|done|done].
  - by eapply NoDup_drop.
  - rewrite Forall_app, Forall_cons in Ht. rewrite Forall_app. tauto.
Qed.

(** A new process starts with no handler in flight. *)
Lemma inv_load g d ths lg rp dm d' faults names g' s' :
  inv (Sys g d ths lg rp) -> safe_disk (used ths lg) lg dm -> survives dm d' ->
  newCheckpointReplayGuard path (Fs d' faults names []) = (Ok g', s') ->
  inv (Sys g' (fs_disk s') [] lg rp).
Proof using path_ne.
  intros [Hg Hd Hn Ht Hr] Hdm Hs Hl; simpl in *.
  destruct (load_safe _ _ _ _ _ _ _ _ Hdm Hs Hl) as [Hg' Hd'].
  split; simpl; [..|by constructor|done].
  - eapply safe_guard_mono; [apply used_restart|done|done].
  - eapply safe_disk_mono; [apply used_restart|done|done].
  - by eapply NoDup_restart.
Qed.

Lemma inv_sign g d l1 l2 lg rp ts c sig :
  inv (Sys g d (l1 ++ Granted ts c :: l2) lg rp) ->
  inv (Sys g d (l1 ++ l2) ((ts, c, sig) :: lg) rp).
Proof.
  intros [Hg Hd Hn Ht Hr]; simpl in *.
  pose proof (used_sign l1 ts c l2 sig lg) as Hp.
  split; simpl.
  - eapply safe_guard_mono; [|apply lg_cons|exact Hg]. by rewrite Hp.
  - eapply safe_disk_mono; [|apply lg_cons|exact Hd]. by rewrite Hp.
  - by rewrite <-Hp.
  - rewrite Forall_app, Forall_cons in Ht. eapply threads_mono; [apply lg_cons|].
    rewrite Forall_app. tauto.
  - eapply Forall_impl; [exact Hr|]. intros e He. by right.
Qed.

Lemma inv_add_signed g d l1 l2 lg rp ts c sig :
  (ts, c, sig) ∈ lg -> length c = 32%nat -> length sig = 64%nat ->
  inv (Sys g d (l1 ++ l2) lg rp) -> inv (Sys g d (l1 ++ Signed ts c sig :: l2) lg rp).
Proof.
  intros Hin Lc Ls [Hg Hd Hn Ht Hr]; simpl in *. split; simpl; rewrite ?used_signed; try done.
  rewrite Forall_app in *. rewrite Forall_cons. simpl. tauto.
Qed.

(** Every disk inside a guard operation is safe. *)
Lemma op_safe_trace c o faults names r g1 s1 dm :
  inv c -> op_enabled (threads c) o ->
  run_op o (sys_guard c, Fs (sys_disk c) faults names []) = (r, (g1, s1)) ->
  dm ∈ fs_trace s1 -> safe_disk (used (threads c) (slog c)) (slog c) dm.
Proof using path_ne path_tmp.
  intros [Hg Hd _ Ht _] Ho E Hm.
  assert (HF : Forall (safe_disk (used (threads c) (slog c)) (slog c)) (fs_trace s1)).
  { destruct o as [ts|ts ck sig]; simpl in *.
    - by eapply advance_safe.
    - destruct (proj1 (Forall_forall _ _) Ht _ Ho) as (Hin & Lc & Ls). by eapply record_safe. }
  by eapply (proj1 (Forall_forall _ _) HF).
Qed.

Lemma inv_step c c' : inv c -> step c c' -> inv c'.
Proof using path_ne path_tmp.
  intros HI Hs. destruct Hs as
    [g d ths lg rp ts ckpt sig Hc|g d ths lg rp ts ckpt faults names r g' s' Hu Lc E
    |g d l1 l2 lg rp ts ckpt sig|g d l1 l2 lg rp t|g d l1 l2 lg rp ts ckpt sig faults names r g' s' E
    |g d ths lg rp d' faults names g' s' Hs Hl
    |g d ths lg rp o faults names r g1 s1 dm d' faults' names' g' s' Ho E Hm Hs Hl
    |g d ths lg rp d' (W & _ & _ & Hc)].
  - destruct HI as [Hg Hd Hn Ht Hr]. split; simpl in *; try done. constructor; [|done].
    destruct Hg as (_ & _ & _ & Hmemo).
    revert Hc Hmemo. unfold CachedSignature, memo_in, beq.
    destruct (Z.eqb_spec ts (highWater g)) as [->|]; [|by rewrite orb_true_r].
    destruct (loaded g); [|done]. simpl. repeat case_match; try done. case_bool_decide; [|done].
    intros [= <-]. by subst.
  - destruct HI as [Hg Hd Hn Ht Hr]; simpl in *.
    destruct (advance_safe _ _ _ _ _ _ _ _ _ _ Hg Hd Hu E) as (Hg' & Hd' & Hlt & _).
    destruct (is_ok r); split; simpl in *; try done.
    + constructor; [|done]. destruct Hg as (_ & _ & Hm & _). rewrite Forall_forall in Hm.
      intros Hin. specialize (Hm _ Hin). specialize (Hlt eq_refl). simpl in Hm. lia.
    + by constructor.
  - pose proof (inv_sign _ _ _ _ _ _ _ _ sig HI) as HI'.
    destruct (len sig =? 64) eqn:E; [|done]. apply inv_add_signed; [left| |unfold len in E; lia|done].
    destruct HI as [_ _ _ Ht _]. simpl in Ht. exact (Forall_mid _ _ _ _ Ht).
  - by eapply inv_drop.
  - destruct HI as [Hg Hd Hn Ht Hr]; simpl in *. rewrite used_signed in *.
    assert (Hts : thread_ok lg (Signed ts ckpt sig)) by exact (Forall_mid _ _ _ _ Ht).
    destruct Hts as (Hin & Lc & Ls).
    destruct (record_safe _ _ _ _ _ _ _ _ _ _ _ _ Hg Hd Hin Lc Ls E) as (Hg' & Hd' & _).
    split; simpl; try done; [|by constructor].
    rewrite Forall_app, Forall_cons in Ht. rewrite Forall_app. tauto.
  - eapply inv_load; [exact HI|apply HI|done|done].
  - eapply inv_load; [exact HI| |done|done].
    by eapply (op_safe_trace (Sys g d ths lg rp)).
  - destruct HI as [Hg [_ Hd] Hn Ht Hr]. split; try done. split; [done|]. auto.
Qed.

Lemma inv_boot c : boot c -> inv c.
Proof using path_ne.
  intros [d faults names g s W H Hl].
  assert (Hd : safe_disk (used [] []) [] d).
  { split; [done|]. intros x Hx. destruct (H x Hx) as (hw & Hu & E). exists (Guard path hw true None None).
    split; [done|]. repeat split; try apply Hu. constructor. }
  destruct (load_safe _ _ d d _ _ _ _ Hd ltac:(by left) Hl) as [Hg Hd'].
  split; simpl; try done; constructor.
Qed.

Lemma inv_reachable c : reachable c -> inv c.
Proof using path_ne path_tmp.
  intros (c0 & Hb & Hs). apply inv_boot in Hb.
  induction Hs as [|c0 c1 c2 H1 _ IH]; [done|]. apply IH. by eapply inv_step.
Qed.
End System.

(** ** Properties *)

(** No equivocation: in every state reachable by any interleaving of
    concurrent checkpoint requests, with any system call failing anywhere,
    any process kill or machine crash - also inside a guard operation - and
    any number of restarts, each validator timestamp has been signed at most
    once.  Two signatures for one timestamp are therefore the same signature
    of the same checkpoint. *)
Theorem one_signature_per_timestamp path c :
  path <> [] -> is_temp path = false -> reachable path c ->
  NoDup (map entry_ts (slog c)) /\
  forall ts ck1 sig1 ck2 sig2,
    (ts, ck1, sig1) ∈ slog c -> (ts, ck2, sig2) ∈ slog c -> ck1 = ck2 /\ sig1 = sig2.
Proof.
  intros Hp Ht Hr. pose proof (inv_nodup _ _ (inv_reachable path Hp Ht c Hr)) as Hn.
  apply NoDup_app in Hn as (_ & _ & Hn). split; [done|].
  intros ts ck1 sig1 ck2 sig2 H1 H2.
  assert (E : (ts, ck1, sig1) = (ts, ck2, sig2)); [|by injection E].
  by eapply NoDup_map_key.
Qed.

(** Every reply carries a signature the backend made: whatever is
    returned to a caller, fresh or from the memo - also from a memo read
    back after a crash - is the logged signature for that timestamp and
    checkpoint. *)
Theorem replies_were_signed path c e :
  path <> [] -> is_temp path = false -> reachable path c ->
  e ∈ replies c -> e ∈ slog c.
Proof.
  intros Hp Ht Hr. pose proof (inv_replies _ _ (inv_reachable path Hp Ht c Hr)) as H.
  rewrite Forall_forall in H. auto.
Qed.

(** (C16) The guard never locks itself out: from every reachable state, and
    from the middle of a guard operation after any of its system calls, the
    file left behind by a kill or a crash is one [newCheckpointReplayGuard]
    accepts, and the mark it restores is at or above every timestamp signed
    so far. *)
Theorem restart_always_loads path c o faults names r g1 s1 dm d' :
  path <> [] -> is_temp path = false -> reachable path c ->
  op_enabled (threads c) o ->
  run_op o (sys_guard c, Fs (sys_disk c) faults names []) = (r, (g1, s1)) ->
  dm = sys_disk c \/ dm ∈ fs_trace s1 -> survives dm d' -> path ∉ dirs d' ->
  exists g', fst (newCheckpointReplayGuard path (Fs d' [] [] [])) = Ok g' /\
    Forall (fun e => entry_ts e <= highWater g') (slog c).
Proof.
  intros Hp Ht Hr Ho E Hm Hs Hd.
  pose proof (inv_reachable path Hp Ht c Hr) as HI.
  assert (Hdm : safe_disk path (used (threads c) (slog c)) (slog c) dm).
  { destruct Hm as [->|Hm]; [apply HI|]. eapply op_safe_trace; eauto. }
  destruct (survives_safe path _ _ dm d' Hdm Hs) as (_ & g' & E' & _ & _ & HF & _).
  exists g'. rewrite load_spec by done. split; [done|].
  apply Forall_app in HF as [_ HF]. by rewrite Forall_map in HF.
Qed.

(** ** A run: first start on a legacy file, one request granted and signed *)

Definition sample_ckpt : bytes := replicate 32 xaa.
Definition sample_sig : bytes := replicate 64 x11.
Definition sample_boot_guard : guard := Guard sample_path 100 true None None.

Definition sample_advance : result () * gfs :=
  CheckAndAdvance 200 (sample_boot_guard, Fs sample_disk [] [] []).

Definition sample_sys : sys :=
  Sys (fst (snd sample_advance)) (fs_disk (snd (snd sample_advance)))
      [Signed 200 sample_ckpt sample_sig] [(200, sample_ckpt, sample_sig)] [].

Lemma triple_eta {A B C} (x : A * (B * C)) : x = (fst x, (fst (snd x), snd (snd x))).
Proof. by destruct x as [? []]. Qed.

Lemma sample_content c :
  crash_content sample_disk sample_path c -> content_guard sample_path c = Ok sample_boot_guard.
Proof.
  intros Hc. assert (c = Some (bs "100")) as ->; [|vm_compute; reflexivity].
  destruct Hc as [H|i n H Hn Hs|i n b H Hn Hs];
    change (hist sample_disk sample_path) with [Some 0%nat] in H;
    apply list_elem_of_singleton in H; [done| |]; injection H as ->;
    change (inodes sample_disk !! 0%nat) with (Some (Inode (bs "100") 384 true)) in Hn;
    injection Hn as <-; [reflexivity|discriminate Hs].
Qed.

Lemma sample_boot : boot sample_path (Sys sample_boot_guard sample_disk [] [] []).
Proof.
  apply (boot_intro sample_path sample_disk [] [] sample_boot_guard (Fs sample_disk [] [] [sample_disk])).
  - apply sample_wf.
  - intros c Hc. exists 100. split; [vm_compute; split; congruence|]. by rewrite (sample_content c Hc).
  - vm_compute. reflexivity.
Qed.

Lemma sample_reachable : reachable sample_path sample_sys.
Proof.
  exists (Sys sample_boot_guard sample_disk [] [] []). split; [apply sample_boot|].
  assert (Ho : is_ok (fst sample_advance) = true) by (vm_compute; reflexivity).
  eapply rtc_l; [eapply (step_advance _ _ _ _ _ _ 200 sample_ckpt); [|reflexivity|exact (triple_eta sample_advance)]|].
  { vm_compute. split; congruence. }
  rewrite Ho. apply rtc_once.
  exact (step_sign sample_path _ _ [] [] [] [] 200 sample_ckpt sample_sig).
Qed.

Lemma one_signature_per_timestamp_witness :
  reachable sample_path sample_sys /\ NoDup (map entry_ts (slog sample_sys)).
Proof.
  split; [apply sample_reachable|].
  apply (one_signature_per_timestamp sample_path sample_sys);
    [discriminate|reflexivity|apply sample_reachable].
Defined.

Lemma replies_were_signed_witness :
  exists c, (200, sample_ckpt, sample_sig) ∈ replies c /\ (200, sample_ckpt, sample_sig) ∈ slog c.
Proof.
  set (x := RecordSignature 200 sample_ckpt sample_sig
              (sys_guard sample_sys, Fs (sys_disk sample_sys) [] [] [])).
  exists (Sys (fst (snd x)) (fs_disk (snd (snd x))) []
         [(200, sample_ckpt, sample_sig)] [(200, sample_ckpt, sample_sig)]).
  split; [left|].
  apply (replies_were_signed sample_path); [discriminate|reflexivity| |left].
  destruct sample_reachable as (c0 & Hb & Hs). exists c0. split; [exact Hb|].
  eapply rtc_r; [exact Hs|].
  apply (step_record sample_path _ _ [] [] _ [] 200 sample_ckpt sample_sig [] [] (fst x)).
  exact (triple_eta x).
Defined.

Lemma restart_always_loads_witness :
  exists g', fst (newCheckpointReplayGuard sample_path (Fs (sys_disk sample_sys) [] [] [])) = Ok g' /\
    Forall (fun e => entry_ts e <= highWater g') (slog sample_sys).
Proof.
  set (x := CheckAndAdvance 300 (sys_guard sample_sys, Fs (sys_disk sample_sys) [Fault 0] [] [])).
  apply (restart_always_loads sample_path sample_sys (OpAdvance 300) [Fault 0] []
           (fst x) (fst (snd x)) (snd (snd x)) (sys_disk sample_sys)).
  - discriminate.
  - reflexivity.
  - apply sample_reachable.
  - vm_compute. split; congruence.
  - exact (triple_eta x).
  - left. reflexivity.
  - left. reflexivity.
  - apply (bool_decide_eq_true_1 _). vm_compute. reflexivity.
Defined.
