(* ===== verification/Logging.v ===== *)
(** * The logger ([logging/logging.go])

    The levels and the handler [New] chooses, the records the plain and the
    audit methods emit, and which of them a handler writes.  A record keeps
    its level, message and attributes in the order of the source; how slog
    renders it as JSON or text is not modelled, and an elapsed time is
    [VElapsed]: present, without its value. *)

From S2P Require Import Prelude GoStd Sha256.

Inductive slog_level := LevelDebug | LevelInfo | LevelWarn | LevelError.

#[export] Instance slog_level_eq_dec : EqDecision slog_level.
Proof. solve_decision. Defined.

(** slog's numbers, by which levels are compared. *)
Definition level_Z (l : slog_level) : Z :=
  match l with LevelDebug => -4 | LevelInfo => 0 | LevelWarn => 4 | LevelError => 8 end.

Record HandlerOptions := MkHandlerOptions { opt_Level : slog_level; AddSource : bool }.

(** Both write to standard output. *)
Inductive slog_handler := JSONHandler (opts : HandlerOptions) | TextHandler (opts : HandlerOptions).

Definition handler_options (h : slog_handler) : HandlerOptions :=
  match h with JSONHandler o | TextHandler o => o end.

Definition parseLevel (level : bytes) : result slog_level :=
  if beq level (bs "debug") then Ok LevelDebug
  else if beq level (bs "info") then Ok LevelInfo
  else if beq level (bs "warn") then Ok LevelWarn
  else if beq level (bs "error") then Ok LevelError
  else Err (Errorf "unknown log level %q (debug|info|warn|error)" [AStr level]).

Definition logging_New (level format : bytes) : result slog_handler :=
  slogLevel ← parseLevel level;
  let opts := MkHandlerOptions slogLevel (bool_decide (slogLevel = LevelDebug)) in
  if beq format (bs "json") then Ok (JSONHandler opts)
  else if beq format (bs "text") then Ok (TextHandler opts)
  else Err (Errorf "unknown log format %q (json|text)" [AStr format]).

(** ** Records *)

Inductive avalue := VStr (s : bytes) | VInt (z : Z) | VBool (b : bool) | VErr (e : error) | VElapsed.

Record log_record := LogRecord {
  lr_level : slog_level;
  lr_msg : string;
  lr_attrs : list (string * avalue);
}.

Definition Info (msg : string) (args : list (string * avalue)) : log_record := LogRecord LevelInfo msg args.
Definition Debug (msg : string) (args : list (string * avalue)) : log_record := LogRecord LevelDebug msg args.
Definition Warn (msg : string) (args : list (string * avalue)) : log_record := LogRecord LevelWarn msg args.
Definition Error (msg : string) (args : list (string * avalue)) : log_record := LogRecord LevelError msg args.

Definition AuditSign (requestID msg : bytes) (err : option error) : log_record :=
  let msgHash := sha256_Sum256 msg in
  let msgHashHex := hex_EncodeToString msgHash in
  let attrs := [("event", VStr (bs "sign")); ("request_id", VStr requestID);
                ("msg_hash", VStr msgHashHex); ("msg_len", VInt (len msg)); ("duration_ms", VElapsed)]%string in
  match err with
  | Some e => Error "sign request failed" (attrs ++ [("error", VErr e); ("success", VBool false)]%string)
  | None => Info "sign request completed" (attrs ++ [("success", VBool true)]%string)
  end.

Definition AuditStartup (backend listenAddr : bytes) : log_record :=
  Info "bridge-signer starting"
    [("event", VStr (bs "startup")); ("backend", VStr backend); ("listen_addr", VStr listenAddr)]%string.

Definition AuditGetPublicKey (err : option error) : log_record :=
  match err with
  | Some e => Error "get public key failed"
                [("event", VStr (bs "get_public_key")); ("error", VErr e); ("success", VBool false)]%string
  | None => Info "get public key" [("event", VStr (bs "get_public_key")); ("success", VBool true)]%string
  end.

Definition AuditShutdown : log_record :=
  Info "bridge-signer shutting down" [("event", VStr (bs "shutdown"))]%string.

Definition AuditConnection (remoteAddr : bytes) : log_record :=
  Debug "client connected" [("event", VStr (bs "connection")); ("remote_addr", VStr remoteAddr)]%string.

(** ** What a handler writes *)

Definition level_enabled (h : slog_handler) (r : log_record) : bool :=
  level_Z (opt_Level (handler_options h)) <=? level_Z (lr_level r).

Definition written (h : slog_handler) (rs : list log_record) : list log_record :=
  List.filter (level_enabled h) rs.

Lemma written_app h l k : written h (l ++ k) = written h l ++ written h k.
Proof. apply List.filter_app. Qed.

(** The signing audits of a log. *)
Definition is_sign_audit (r : log_record) : bool :=
  match lr_attrs r with
  | (k, VStr v) :: _ => bool_decide (k = "event"%string) && beq v (bs "sign")
  | _ => false
  end.
Definition sign_audits (rs : list log_record) : list log_record := List.filter is_sign_audit rs.

Lemma sign_audits_app l k : sign_audits (l ++ k) = sign_audits l ++ sign_audits k.
Proof. apply List.filter_app. Qed.

Lemma AuditSign_is_audit rid d e : is_sign_audit (AuditSign rid d e) = true.
Proof. by destruct e. Qed.

(** ** Lines beside a result *)

(** A computation that only logs: its result and the lines it emitted,
    newest first. *)
Definition LR (A : Type) : Type := result A * list log_record.

Definition lr_lift {A} (r : result A) : LR A := (r, []).
Definition lr_bind {A B} (m : LR A) (k : A -> LR B) : LR B :=
  match m with
  | (Ok a, ls) => let '(r, ls') := k a in (r, ls' ++ ls)
  | (Err e, ls) => (Err e, ls)
  | (Panic, ls) => (Panic, ls)
  end.
Notation "x <-- m ;; k" := (lr_bind m (fun x => k))
  (at level 100, m at next level, right associativity) : go_scope.
Notation "' p <-- m ;; k" := (lr_bind m (fun '(p) => k))
  (at level 100, p pattern, m at next level, right associativity) : go_scope.

(** [if b { log(line); return err }]. *)
Definition lr_gate (b : bool) (line : list log_record) (e : error) : LR () :=
  if b then (Err e, line) else (Ok (), []).

Lemma lr_bind_ok {A B} (m : LR A) (k : A -> LR B) x :
  fst (lr_bind m k) = Ok x <-> exists a, fst m = Ok a /\ fst (k a) = Ok x.
Proof.
  destruct m as [[a| |] ls]; cbn; [|split; [done|by intros (? & ? & _)]..].
  destruct (k a) as [r ls'] eqn:E. cbn. split.
  - intros ->. exists a. by rewrite E.
  - intros (? & <-%(inj Ok) & H). by rewrite E in H.
Qed.

Lemma lr_gate_ok {A} b line e (k : LR A) x :
  fst (lr_bind (lr_gate b line e) (fun _ => k)) = Ok x <-> b = false /\ fst k = Ok x.
Proof.
  unfold lr_gate. destruct b; cbn; [split; [done|by intros [? _]]|].
  destruct k. cbn. tauto.
Qed.

(** A computation whose success logs nothing. *)
Definition silent_ok {A} (m : LR A) : Prop := is_ok (fst m) = true -> snd m = [].

Lemma silent_lift {A} (r : result A) : silent_ok (lr_lift r).
Proof. done. Qed.
Lemma silent_gate b line e : silent_ok (lr_gate b line e).
Proof. by destruct b. Qed.
Lemma silent_bind {A B} (m : LR A) (k : A -> LR B) :
  silent_ok m -> (forall a, silent_ok (k a)) -> silent_ok (lr_bind m k).
Proof.
  unfold silent_ok. intros Hm Hk. destruct m as [[a| |] ls]; cbn; [|done..].
  specialize (Hm eq_refl). cbn in Hm. subst ls. specialize (Hk a).
  destruct (k a) as [r ls']. cbn in *. intros Hr. by rewrite (Hk Hr).
Qed.

(** The level decides what the audit trail shows: a failed signature is
    written at every level, a completed one exactly when the configured
    level is debug or info, and a connection only at debug. *)
Theorem audit_visibility level format h rid d e addr :
  logging_New level format = Ok h ->
  level_enabled h (AuditSign rid d (Some e)) = true /\
  (level_enabled h (AuditSign rid d None) = true <-> level = bs "debug" \/ level = bs "info") /\
  (level_enabled h (AuditConnection addr) = true <-> level = bs "debug").
Proof.
  unfold logging_New, parseLevel, beq. intros H.
  repeat case_bool_decide; cbn in H; simplify_eq; cbn; subst;
    (split; [done|]); (split; split); try done; auto; intros; destruct_or?; simplify_eq.
Qed.
