(* ===== verification/Asn1.v ===== *)
(** * DER, as [encoding/asn1] reads it

    The part of [asn1.Unmarshal] that [signer/sig_utils.go] and
    [signer/fortanix_dsm.go] use: tag and length, INTEGER into a [*big.Int],
    OBJECT IDENTIFIER, BIT STRING, [asn1.RawValue] and SEQUENCE into a
    struct.  Bytes after the value, and further elements at the end of a
    SEQUENCE, are accepted, as in the Go package. *)

From S2P Require Import Prelude GoStd.

Definition asn1_err (what : string) {A} : result A := Err (ErrLib what).

(** A byte test by mask. *)
Definition has_bits (b : byte) (mask : Z) : bool := Z.land (byte_to_Z b) mask =? mask.

(** [parseBase128Int], with the number of bytes already read. *)
Fixpoint parseBase128 (shifted : nat) (acc : Z) (l : bytes) : result (Z * bytes) :=
  match l with
  | [] => asn1_err "truncated base 128 integer"
  | b :: l' =>
      if (5 <=? shifted)%nat then asn1_err "base 128 integer too large"
      else if (shifted =? 0)%nat && Byte.eqb b x80 then asn1_err "integer is not minimally encoded"
      else
        let acc := Z.lor (Z.shiftl acc 7) (Z.land (byte_to_Z b) 127) in
        if has_bits b 128 then parseBase128 (S shifted) acc l'
        else if acc >? 2 ^ 31 - 1 then asn1_err "base 128 integer too large"
        else Ok (acc, l')
  end.

Record tagAndLength := TagAndLength { tclass : Z; ttag : Z; tcompound : bool; tlength : Z }.

Fixpoint parse_length_bytes (n : nat) (acc : Z) (l : bytes) : result (Z * bytes) :=
  match n with
  | O => Ok (acc, l)
  | S n' =>
      match l with
      | [] => asn1_err "truncated tag or length"
      | b :: l' =>
          if acc >=? 2 ^ 23 then asn1_err "length too large"
          else
            let acc := Z.lor (Z.shiftl acc 8) (byte_to_Z b) in
            if acc =? 0 then asn1_err "superfluous leading zeros in length"
            else parse_length_bytes n' acc l'
      end
  end.

Definition parse_length (l : bytes) : result (Z * bytes) :=
  match l with
  | [] => asn1_err "truncated tag or length"
  | b :: l' =>
      if negb (has_bits b 128) then Ok (Z.land (byte_to_Z b) 127, l')
      else
        let n := Z.land (byte_to_Z b) 127 in
        if n =? 0 then asn1_err "indefinite length found (not DER)"
        else
          '(len, r) ← parse_length_bytes (Z.to_nat n) 0 l';
          if len <? 128 then asn1_err "non-minimal length" else Ok (len, r)
  end.

Definition parseTagAndLength (l : bytes) : result (tagAndLength * bytes) :=
  match l with
  | [] => asn1_err "internal error in parseTagAndLength"
  | b :: l' =>
      let cls := Z.shiftr (byte_to_Z b) 6 in
      let comp := has_bits b 32 in
      let tag := Z.land (byte_to_Z b) 31 in
      '(tag, l1) ← (if tag =? 31 then
                      '(t, r) ← parseBase128 0 0 l';
                      if t <? 31 then asn1_err "non-minimal tag" else Ok (t, r)
                    else Ok (tag, l'));
      '(n, l2) ← parse_length l1;
      Ok (TagAndLength cls tag comp n, l2)
  end.

(** One element: its header, its contents and what follows. *)
Definition parse_element (l : bytes) : result (tagAndLength * bytes * bytes) :=
  '(t, r) ← parseTagAndLength l;
  if len r <? tlength t then asn1_err "data truncated"
  else Ok (t, take (Z.to_nat (tlength t)) r, drop (Z.to_nat (tlength t)) r).

(** A field of a universal type: [parseField] for a required field. *)
Definition parse_universal (tag : Z) (compound : bool) (l : bytes) : result (bytes * bytes) :=
  match l with
  | [] => asn1_err "sequence truncated"
  | _ =>
      '(t, r) ← parseTagAndLength l;
      if negb ((tclass t =? 0) && (ttag t =? tag) && Bool.eqb (tcompound t) compound)
      then asn1_err "tags don't match"
      else if len r <? tlength t then asn1_err "data truncated"
      else Ok (take (Z.to_nat (tlength t)) r, drop (Z.to_nat (tlength t)) r)
  end.

Definition TagInteger : Z := 2.
Definition TagBitString : Z := 3.
Definition TagOID : Z := 6.
Definition TagSequence : Z := 16.

(** [checkInteger]: minimal two's complement. *)
Definition checkInteger (b : bytes) : result () :=
  match b with
  | [] => asn1_err "empty integer"
  | [_] => Ok ()
  | b0 :: b1 :: _ =>
      if (Byte.eqb b0 x00 && negb (has_bits b1 128)) || (Byte.eqb b0 xff && has_bits b1 128)
      then asn1_err "integer not minimally-encoded" else Ok ()
  end.

Definition parseBigInt (b : bytes) : result Z :=
  _ ← checkInteger b;
  Ok (match b with
      | b0 :: _ => if has_bits b0 128 then be_Z b - 2 ^ (8 * len b) else be_Z b
      | [] => 0
      end).

Definition parse_bigint_field (l : bytes) : result (Z * bytes) :=
  '(c, r) ← parse_universal TagInteger false l;
  z ← parseBigInt c;
  Ok (z, r).

(** [parseObjectIdentifier]: only whether it is well formed matters here. *)
Fixpoint check_base128_list (fuel : nat) (l : bytes) : result () :=
  match l, fuel with
  | [], _ => Ok ()
  | _, O => asn1_err "out of fuel"
  | _, S fuel' => '(_, r) ← parseBase128 0 0 l; check_base128_list fuel' r
  end.
Definition check_oid (b : bytes) : result () :=
  match b with
  | [] => asn1_err "zero length OBJECT IDENTIFIER"
  | _ => check_base128_list (length b) b
  end.

(** [parseBitString]: the bytes after the padding count. *)
Definition parseBitString (b : bytes) : result bytes :=
  match b with
  | [] => asn1_err "zero length BIT STRING"
  | pad :: r =>
      let p := byte_to_Z pad in
      if (p >? 7) || ((len b =? 1) && (p >? 0)) ||
         negb (Z.land (match last b with Some x => byte_to_Z x | None => 0 end)
                      (2 ^ p - 1) =? 0)
      then asn1_err "invalid padding bits in BIT STRING"
      else Ok r
  end.

(** An optional [asn1.RawValue]: any element, or nothing. *)
Definition skip_optional_raw (l : bytes) : result bytes :=
  match l with
  | [] => Ok []
  | _ => '(_, _, r) ← parse_element l; Ok r
  end.

(** ** DER encoding of INTEGER and short elements *)

Definition der_integer (z : Z) : bytes :=
  match big_Bytes z with
  | [] => [x00]
  | b :: l => if has_bits b 128 then x00 :: b :: l else b :: l
  end.

(** Short-form element. *)
Definition der_element (tag : byte) (c : bytes) : bytes := tag :: byte_of_Z (len c) :: c.

Lemma parse_length_short n l :
  0 <= n < 128 -> parse_length (byte_of_Z n :: l) = Ok (n, l).
Proof.
  intros Hn. unfold parse_length, has_bits. rewrite byte_to_of_Z, (Z.mod_small n 256) by lia.
  assert (Hl : Z.land n 127 = n)
    by (change 127 with (Z.ones 7); rewrite Z.land_ones by lia; apply Z.mod_small; lia).
  assert (Hb : Z.land n 128 = 0).
  { apply Z.bits_inj'. intros i Hi. rewrite Z.land_spec, Z.bits_0.
    destruct (Z.eq_dec i 7) as [->|].
    - rewrite (Z.bits_above_log2 n 7); [reflexivity|lia|].
      destruct (Z.eq_dec n 0) as [->|]; [vm_compute; done|]. apply Z.log2_lt_pow2; lia.
    - change 128 with (2 ^ 7). rewrite Z.pow2_bits_false by lia. apply andb_false_r. }
  rewrite Hb, Hl. done.
Qed.

(** An element in short form is read back, whatever follows it. *)
Lemma parse_universal_element tag b comp c rest :
  Z.shiftr (byte_to_Z b) 6 = 0 -> Z.land (byte_to_Z b) 31 = tag -> tag <> 31 ->
  has_bits b 32 = comp -> len c < 128 ->
  parse_universal tag comp (der_element b c ++ rest) = Ok (c, rest).
Proof.
  intros Hc Ht Hn Hcomp Hl. unfold parse_universal, der_element, parseTagAndLength. cbn [app].
  rewrite Hc, Ht, Hcomp. destruct (Z.eqb_spec tag 31) as [|_]; [done|].
  cbn [mbind result_bind]. rewrite parse_length_short by (unfold len in *; lia).
  cbn [mbind result_bind tclass ttag tcompound tlength].
  rewrite Z.eqb_refl, Bool.eqb_reflx. cbn [andb negb]. unfold len.
  rewrite length_app, (proj2 (Z.ltb_ge _ _)) by lia.
  rewrite Nat2Z.id, take_app_length, drop_app_length. by rewrite Z.eqb_refl.
Qed.

Lemma has_bits_128 b : has_bits b 128 = (128 <=? byte_to_Z b).
Proof. by destruct b. Qed.

(** The leading byte of [big.Int.Bytes] is not zero. *)
Lemma big_Bytes_head z b l : 0 <= z -> big_Bytes z = b :: l -> b <> x00.
Proof.
  intros Hz E ->. pose proof (be_Z_big_Bytes z Hz) as Hv.
  assert (Hz' : z <> 0) by (intros ->; discriminate E).
  assert (Hlen : length (big_Bytes z) = Z.to_nat (Z.log2 z / 8 + 1)).
  { unfold big_Bytes. rewrite Z.abs_eq by lia. destruct (Z.eqb_spec z 0); [done|].
    by rewrite length_be_bytes. }
  rewrite E in Hv, Hlen. rewrite be_Z_cons_zero in Hv. cbn [length] in Hlen.
  pose proof (Z.log2_nonneg z) as Hl0. pose proof (Z.div_pos (Z.log2 z) 8 Hl0 ltac:(lia)).
  pose proof (be_Z_range l) as Hr. rewrite Hv in Hr.
  replace (Z.of_nat (length l)) with (Z.log2 z / 8) in Hr by lia.
  change 256 with (2 ^ 8) in Hr. rewrite <-Z.pow_mul_r in Hr by lia.
  destruct Hr as [_ Hr]. apply Z.log2_lt_pow2 in Hr; [|lia].
  pose proof (Z.mul_div_le (Z.log2 z) 8). lia.
Qed.

Lemma parseBigInt_der_integer z : 0 <= z -> parseBigInt (der_integer z) = Ok z.
Proof.
  intros Hz. pose proof (be_Z_big_Bytes z Hz) as Hv. unfold der_integer.
  destruct (big_Bytes z) as [|b l] eqn:E; [by rewrite <-Hv|].
  pose proof (big_Bytes_head z b l Hz E) as Hb.
  destruct (has_bits b 128) eqn:Eb; unfold parseBigInt, checkInteger.
  - rewrite Eb. cbn. by rewrite <-Hv.
  - assert (Hg : Byte.eqb b x00 = false /\ Byte.eqb b xff = false).
    { clear -Hb Eb. destruct b; try done; by vm_compute in Eb. }
    destruct Hg as [-> ->]. destruct l; cbn [andb orb mbind result_bind]; by rewrite Eb, Hv.
Qed.

Lemma length_der_integer z n :
  0 <= z < 256 ^ Z.of_nat n -> (length (der_integer z) <= S n)%nat.
Proof.
  intros Hz. pose proof (length_big_Bytes z n Hz). unfold der_integer.
  destruct (big_Bytes z); [simpl; lia|]. case_match; simpl in *; lia.
Qed.

Lemma parse_bigint_element z rest :
  0 <= z < 2 ^ 256 ->
  parse_bigint_field (der_element x02 (der_integer z) ++ rest) = Ok (z, rest).
Proof.
  intros Hz. unfold parse_bigint_field.
  pose proof (length_der_integer z 32 ltac:(split; [lia|change (256 ^ Z.of_nat 32) with (2 ^ 256); lia])).
  rewrite parse_universal_element; [|done|done|done|done|unfold len; lia].
  cbn [mbind result_bind]. by rewrite parseBigInt_der_integer by lia.
Qed.
