(* ===== verification/Signer.v ===== *)
(** * The signing backends ([signer/])

    The [Signer] interface, the file-keyring backend and the Fortanix DSM
    backend, the translation of a DER signature into Ethereum's layout
    ([sig_utils.go]), the password reader, the account address and the
    backend registry.

    Third-party code is a parameter: [Crypto] holds the go-ethereum and
    cosmos-sdk functions the backends call, [Dsm] the Fortanix client,
    [KeyringLib] the cosmos keyring. *)

From S2P Require Import Prelude GoStd Sha256 Fs Asn1.

(** go-ethereum's secp256k1 and the cosmos address derivation. *)
Class Crypto := {
  curve_N : Z;                                  (** [secp256k1.S256().N] *)
  IsOnCurve : Z -> Z -> bool;
  Ecrecover : bytes -> bytes -> result bytes;
  privkey : Type;
  crypto_Sign : bytes -> privkey -> result bytes;
  ToECDSA : bytes -> result privkey;
  CompressPubkey : privkey -> bytes;
  cosmos_Address : bytes -> bytes;              (** [secp256k1.PubKey.Address] *)
  ConvertAndEncode : bytes -> bytes -> result bytes;
}.

(** The order of secp256k1 is an odd 256-bit number. *)
Class CryptoLaws (C : Crypto) := {
  curve_N_range : 0 < curve_N < 2 ^ 256;
  curve_N_odd : Z.odd curve_N = true;
}.

(** The interface: [B] is what the backend may change (its connection). *)
Class Signer (B : Type) := {
  Sign : bytes -> ST B bytes;
  SignRaw : bytes -> ST B bytes;
  GetPublicKey : ST B bytes;
}.

Section SigUtils.
Context {C : Crypto}.

(** ** [sig_utils.go] *)

Definition secp256k1HalfN : Z := Z.shiftr curve_N 1.

Definition parseDERSignature (der : bytes) : result (Z * Z) :=
  map_err (errw "failed to unmarshal DER signature: %w")
    ('(c, _) ← parse_universal TagSequence true der;
     '(r, c1) ← parse_bigint_field c;
     '(s, _) ← parse_bigint_field c1;
     Ok (r, s)).

(** [copy(dst[off:], src)] where the source fits. *)
Definition overlay (off : nat) (src dst : bytes) : bytes :=
  take off dst ++ src ++ drop (off + length src) dst.

(** [elliptic.MarshalCompressed] for a 256-bit curve: it panics on a point
    off the curve other than the point at infinity. *)
Definition MarshalCompressed (x y : Z) : result bytes :=
  if negb ((x =? 0) && (y =? 0)) && negb (IsOnCurve x y) then Panic
  else Ok (byte_of_Z (Z.lor (Z.land y 1) 2) :: be_bytes 32 x).

(** The compressed form of an uncompressed point. *)
Definition compress (recovered : bytes) : result bytes :=
  MarshalCompressed (be_Z (slice 1 33 recovered)) (be_Z (slice 33 65 recovered)).

Definition candidate (rsSig : bytes) (v : Z) : bytes :=
  <[64%nat := byte_of_Z v]> (overlay 0 (take 65 rsSig) (replicate 65 x00)).

Definition errNeitherV : error := Errorf "neither v=0 nor v=1 recovered the expected public key" [].

(** One iteration of the loop: does this [v] recover the key? *)
Definition tryV (msg rsSig compressedPubKey : bytes) (v : Z) : result bool :=
  match Ecrecover msg (candidate rsSig v) with
  | Ok recovered =>
      if len recovered =? 65 then
        compressed ← compress recovered;
        Ok (beq compressed compressedPubKey)
      else Ok false
  | Err _ => Ok false
  | Panic => Panic
  end.

Fixpoint recoverLoop (msg rsSig compressedPubKey : bytes) (vs : list Z) : result Z :=
  match vs with
  | [] => Err errNeitherV
  | v :: vs' =>
      hit ← tryV msg rsSig compressedPubKey v;
      if hit : bool then Ok v else recoverLoop msg rsSig compressedPubKey vs'
  end.

Definition recoverV (msg rsSig compressedPubKey : bytes) : result Z :=
  recoverLoop msg rsSig compressedPubKey [0; 1].

Definition lowS (s : Z) : Z := if s >? secp256k1HalfN then curve_N - s else s.

Definition rsToEthSig (r s : Z) (msg compressedPubKey : bytes) : result bytes :=
  let s := lowS s in
  let sig := replicate 65 x00 in
  let rBytes := big_Bytes r in
  let sBytes := big_Bytes s in
  if (32 <? length rBytes)%nat then Panic
  else
    let sig := overlay (32 - length rBytes) rBytes sig in
    if (64 <? length sBytes)%nat then Panic
    else
      let sig := overlay (64 - length sBytes) sBytes sig in
      v ← map_err (errw "failed to compute recovery byte: %w")
            (recoverV msg (take 64 sig) compressedPubKey);
      Ok (<[64%nat := byte_of_Z (v + 27)]> sig).

Definition derToEthSig (der msg compressedPubKey : bytes) : result bytes :=
  '(r, s) ← parseDERSignature der;
  rsToEthSig r s msg compressedPubKey.

(** ** [file_signer.go] *)

Record FileSigner := MkFileSigner { fprivateKey : privkey; fcompressedPubKey : bytes }.

Definition err_len (what : string) (msg : bytes) : error :=
  Errorf what [AInt (len msg)].

(** [sig[64] += 27] on a byte, which panics on a shorter slice. *)
Definition add27 (sig : bytes) : result bytes :=
  match sig !! 64%nat with
  | Some b => Ok (<[64%nat := byte_of_Z (byte_to_Z b + 27)]> sig)
  | None => Panic
  end.

(** [sig[:64]]; go-ethereum's slices have no spare capacity. *)
Definition first64 (sig : bytes) : result bytes :=
  if len sig <? 64 then Panic else Ok (take 64 sig).

Definition FileSigner_Sign (s : FileSigner) (msg : bytes) : result bytes :=
  if negb (len msg =? 32) then Err (err_len "Sign: msg must be exactly 32 bytes, got %d" msg)
  else
    sig ← map_err (errw "Sign: secp256k1 signing failed: %w")
            (crypto_Sign (sha256_Sum256 msg) (fprivateKey s));
    add27 sig.

Definition FileSigner_SignRaw (s : FileSigner) (msg : bytes) : result bytes :=
  if negb (len msg =? 32) then Err (err_len "SignRaw: msg must be exactly 32 bytes, got %d" msg)
  else
    sig ← map_err (errw "SignRaw: secp256k1 signing failed: %w")
            (crypto_Sign msg (fprivateKey s));
    first64 sig.

Definition FileSigner_GetPublicKey (s : FileSigner) : result bytes := Ok (fcompressedPubKey s).

#[export] Instance file_signer : Signer FileSigner := {
  Sign msg := fun s => (FileSigner_Sign s msg, s);
  SignRaw msg := fun s => (FileSigner_SignRaw s msg, s);
  GetPublicKey := fun s => (FileSigner_GetPublicKey s, s);
}.
End SigUtils.

(** ** [fortanix_dsm.go] *)

(** The key object the DSM returns. *)
Record sobject := Sobject {
  objIsEC : bool;
  objCurve : option bytes;
  objPubKey : option bytes;
}.

Inductive descriptor := ByKid (kid : bytes) | ByName (name : bytes).

(** The [sdkms] client: a connection [D] whose calls may change it. *)
Class Dsm (D : Type) := {
  dsm_Connect : bytes -> bytes -> D;
  dsm_Sign : bytes -> descriptor -> ST D bytes;
  dsm_GetSobject : descriptor -> ST D sobject;
  curveSecP256K1 : bytes;
}.

Section Fortanix.
Context {C : Crypto} {D : Type} {dsm : Dsm D}.

Record FortanixDSMConfig := DSMConfig {
  APIEndpoint : bytes; APIKey : bytes; KeyID : bytes; KeyName : bytes }.

Record FortanixDSMSigner := MkDSMSigner {
  client : D; keyDescriptor : descriptor; dcompressedPubKey : bytes }.

Definition errNew (what : string) : error := Errorf what [].

Definition parseSpkiToSecp256k1 (der : bytes) : result bytes :=
  raw ← map_err (errw "failed to unmarshal SPKI: %w")
    ('(c, _) ← parse_universal TagSequence true der;
     '(alg, c1) ← parse_universal TagSequence true c;
     '(oid, a1) ← parse_universal TagOID false alg;
     _ ← check_oid oid;
     _ ← skip_optional_raw a1;
     '(bits, _) ← parse_universal TagBitString false c1;
     parseBitString bits);
  if negb (len raw =? 65) || negb (bool_decide (head raw = Some x04)) then
    Err (Errorf "expected 65-byte uncompressed point (0x04 prefix), got %d bytes" [AInt (len raw)])
  else compress raw.

Definition fetchDSMPublicKey (d : descriptor) : ST D bytes := (
  o <- st_map_err (errw "GetSobject failed: %w") (dsm_GetSobject d) ;;
  st_lift (
    if negb (objIsEC o) then Err (errNew "key is not an EC key (type: %s)")
    else if negb (bool_decide (objCurve o = Some curveSecP256K1)) then
      Err (Errorf "key uses curve %s; expected SecP256K1"
             [AStr (match objCurve o with Some c => c | None => bs "unknown" end)])
    else match objPubKey o with
         | None => Err (errNew "key has no public key data")
         | Some raw => map_err (errw "failed to parse DSM public key: %w") (parseSpkiToSecp256k1 raw)
         end))%go.

Definition NewFortanixDSMSigner (cfg : FortanixDSMConfig) : result FortanixDSMSigner :=
  _ ← reject (beq (APIEndpoint cfg) []) (errNew "dsm_api_endpoint is required");
  _ ← reject (beq (APIKey cfg) []) (errNew "dsm_api_key is required");
  _ ← reject (beq (KeyID cfg) [] && beq (KeyName cfg) []) (errNew "dsm_key_id or dsm_key_name is required");
  let d := if beq (KeyID cfg) [] then ByName (KeyName cfg) else ByKid (KeyID cfg) in
  let '(r, conn) := fetchDSMPublicKey d (dsm_Connect (APIEndpoint cfg) (APIKey cfg)) in
  pk ← map_err (errw "failed to fetch FortanixDSM public key: %w") r;
  Ok (MkDSMSigner conn d pk).

(** A call on the connection inside the signer. *)
Definition on_client {A} (m : ST D A) : ST FortanixDSMSigner A := fun s =>
  let '(r, conn) := m (client s) in (r, MkDSMSigner conn (keyDescriptor s) (dcompressedPubKey s)).

Definition DSM_Sign (msg : bytes) : ST FortanixDSMSigner bytes := (
  if negb (len msg =? 32) then
    st_lift (Err (err_len "Sign: msg must be exactly 32 bytes, got %d" msg))
  else
    s <- st_get ;;
    let hash := sha256_Sum256 msg in
    der <- st_map_err (errw "Sign: FortanixDSM Sign call failed: %w")
             (on_client (dsm_Sign hash (keyDescriptor s))) ;;
    st_lift (map_err (errw "Sign: failed to convert DSM signature to Ethereum format: %w")
               (derToEthSig der hash (dcompressedPubKey s))))%go.

Definition DSM_SignRaw (msg : bytes) : ST FortanixDSMSigner bytes := (
  if negb (len msg =? 32) then
    st_lift (Err (err_len "SignRaw: msg must be exactly 32 bytes, got %d" msg))
  else
    s <- st_get ;;
    der <- st_map_err (errw "SignRaw: FortanixDSM Sign call failed: %w")
             (on_client (dsm_Sign msg (keyDescriptor s))) ;;
    sig <- st_lift (map_err (errw "SignRaw: failed to convert DSM signature to Ethereum format: %w")
                      (derToEthSig der msg (dcompressedPubKey s))) ;;
    st_lift (first64 sig))%go.

Definition DSM_GetPublicKey : ST FortanixDSMSigner bytes := fun s => (Ok (dcompressedPubKey s), s).

#[export] Instance dsm_signer : Signer FortanixDSMSigner := {
  Sign := DSM_Sign;
  SignRaw := DSM_SignRaw;
  GetPublicKey := DSM_GetPublicKey;
}.
End Fortanix.

(** ** [address.go] *)

Definition Bech32Address {C : Crypto} {B} {S : Signer B} (prefix : bytes) : ST B bytes := (
  if beq prefix [] then st_lift (Err (errNew "prefix must not be empty"))
  else
    pubKeyBytes <- st_map_err (errw "get public key: %w") GetPublicKey ;;
    if negb (len pubKeyBytes =? 33) then
      st_lift (Err (Errorf "invalid public key length %d, expected 33" [AInt (len pubKeyBytes)]))
    else
      st_lift (map_err (errw "bech32 encode: %w")
                 (ConvertAndEncode prefix (cosmos_Address pubKeyBytes))))%go.

(** ** [keyring.go] *)

(** A reader: the terminal, or the password line over and over. *)
Record repeatingReader := RepeatingReader { rline : bytes; roff : nat }.
Inductive reader := Stdin | Repeating (r : repeatingReader).

(** [Read] into a buffer of [n] bytes. *)
Definition Read (r : repeatingReader) (n : nat) : bytes * repeatingReader :=
  let off := if (length (rline r) <=? roff r)%nat then O else roff r in
  let got := take n (drop off (rline r)) in
  (got, RepeatingReader (rline r) (off + length got)).

Definition buildFilePasswordReader (path : bytes) : ST fs reader := (
  info <- st_map_err (errqw "stat password file %q: %w" path) (os_Stat path) ;;
  let perm := Z.land (snd info) 511 in
  if negb (Z.land perm 63 =? 0) then
    st_lift (Err (Errorf "password file %q has permissions %04o; expected 0600" [AStr path; AInt perm]))
  else
    data <- st_map_err (errqw "read password file %q: %w" path) (os_ReadFile path) ;;
    let password := TrimRightCRLF data in
    if len password =? 0 then st_lift (Err (Errorf "password file %q is empty" [AStr path]))
    else st_ret (Repeating (RepeatingReader (password ++ [x0a]) 0)))%go.

(** [stdin_tty]: [term.IsTerminal] on the standard input. *)
Definition BuildPasswordReader (stdin_tty : bool) (passwordFile : bytes) : ST fs reader :=
  if negb (beq passwordFile []) then buildFilePasswordReader passwordFile
  else if negb stdin_tty then
    st_lift (Err (errNew "stdin is not a terminal; set the password file option"))
  else st_ret Stdin.

(** A private key as the codec unpacks it: the cosmos secp256k1 type, or
    another. *)
Inductive unpacked_key := SecpKey (key : bytes) | OtherKey (typename : bytes).

(** The cosmos keyring: [Any] is a packed key, [KR] an open keyring. *)
Class KeyringLib := {
  Any : Type;
  KR : Type;
  UnpackAny : Any -> result unpacked_key;
  keyring_New : bytes -> reader -> ST fs KR;
  (** [kr.Key]: the record's local item, when it has one. *)
  kr_Key : KR -> bytes -> ST fs (bytes * option Any);
}.

Definition secp256k1KeyLen : Z := 32.

Section Keyring.
Context {C : Crypto} {K : KeyringLib}.

(** [nil] is no record. *)
Definition ExtractSecpPrivKeyBytes (record : option (bytes * option Any)) : result bytes :=
  match record with
  | None => Err (errNew "nil keyring record")
  | Some (name, None) =>
      Err (Errorf "key %q is not a local key (ledger and multisig keys not supported)" [AStr name])
  | Some (name, Some item) =>
      k ← map_err (errqw "unpack private key for %q: %w" name) (UnpackAny item);
      match k with
      | OtherKey t => Err (Errorf "key %q is %T, want *secp256k1.PrivKey" [AStr name; AStr t])
      | SecpKey key =>
          if negb (len key =? secp256k1KeyLen) then
            Err (Errorf "key %q has length %d, want %d" [AStr name; AInt (len key); AInt secp256k1KeyLen])
          else Ok key
      end
  end.

(** [file_signer.go]: opening the keyring and caching the public key. *)
Definition NewFileSigner (stdin_tty : bool) (keyringDir keyName pwFile : bytes) : ST fs FileSigner := (
  if beq keyringDir [] then st_lift (Err (errNew "keyring_dir is required for file signer backend"))
  else if beq keyName [] then st_lift (Err (errNew "key_name is required for file signer backend"))
  else
    passReader <- BuildPasswordReader stdin_tty pwFile ;;
    kr <- st_map_err (errw "open keyring: %w") (keyring_New keyringDir passReader) ;;
    record <- st_map_err
                (fun e => Errorf "get key %q from keyring at %q: %w" [AStr keyName; AStr keyringDir; AWrap e])
                (kr_Key kr keyName) ;;
    keyBytes <- st_lift (map_err (errqw "extract %q from keyring: %w" keyName)
                           (ExtractSecpPrivKeyBytes (Some record))) ;;
    privateKey <- st_lift (map_err (errw "convert to ECDSA: %w") (ToECDSA keyBytes)) ;;
    st_ret (MkFileSigner privateKey (CompressPubkey privateKey)))%go.
End Keyring.

(** ** The registry ([signer.go]) and the two factories *)

(** A value of a [map[string]any]. *)
Inductive any := AnyStr (s : bytes) | AnyOther.
Definition rawConfig := gmap bytes any.

(** [raw[k].(string)]: the value and whether the assertion held. *)
Definition get_string (raw : rawConfig) (k : string) : bytes * bool :=
  match raw !! bs k with
  | Some (AnyStr s) => (s, true)
  | _ => ([], false)
  end.

Section Registry.
Context {C : Crypto} {K : KeyringLib} {D : Type} {dsm : Dsm D} (stdin_tty : bool).

(** The compiled-in backends. *)
Inductive backend :=
| FileBackend (s : FileSigner)
| DSMBackend (s : @FortanixDSMSigner D).

Definition BackendFactory := rawConfig -> ST fs backend.

Definition newFileSignerFromConfig : BackendFactory := fun raw => (
  let '(keyringDir, ok) := get_string raw "keyring_dir" in
  if negb ok || beq keyringDir [] then
    st_lift (Err (errNew "signer.keyring_dir is required when backend is 'file'"))
  else
    let '(keyName, ok) := get_string raw "key_name" in
    if negb ok || beq keyName [] then
      st_lift (Err (errNew "signer.key_name is required when backend is 'file'"))
    else
      let pwFile := fst (get_string raw "password_file") in
      s <- NewFileSigner stdin_tty keyringDir keyName pwFile ;;
      st_ret (FileBackend s))%go.

Definition newFortanixDSMSignerFromConfig : BackendFactory := fun raw => (
  let '(apiEndpoint, ok) := get_string raw "dsm_api_endpoint" in
  if negb ok || beq apiEndpoint [] then
    st_lift (Err (errNew "signer.dsm_api_endpoint is required when backend is 'fortanixdsm'"))
  else
    let '(apiKey, ok) := get_string raw "dsm_api_key" in
    if negb ok || beq apiKey [] then
      st_lift (Err (errNew "signer.dsm_api_key is required when backend is 'fortanixdsm'"))
    else
      let keyID := fst (get_string raw "dsm_key_id") in
      let keyName := fst (get_string raw "dsm_key_name") in
      if beq keyID [] && beq keyName [] then
        st_lift (Err (errNew "signer.dsm_key_id or signer.dsm_key_name is required when backend is 'fortanixdsm'"))
      else
        s <- st_lift (NewFortanixDSMSigner (DSMConfig apiEndpoint apiKey keyID keyName)) ;;
        st_ret (DSMBackend s))%go.

Abbreviation registry := (gmap bytes BackendFactory).

Definition RegisterBackend (name : bytes) (f : BackendFactory) (reg : registry) : result registry :=
  match reg !! name with
  | Some _ => Panic
  | None => Ok (<[name := f]> reg)
  end.

Definition getBackendFactory (reg : registry) (name : bytes) : option BackendFactory := reg !! name.

Definition AvailableBackends (reg : registry) : list bytes := map fst (map_to_list reg).

Definition NewSigner (reg : registry) (name : bytes) (raw : rawConfig) : ST fs backend :=
  match getBackendFactory reg name with
  | None => st_lift (Err (Errorf "unknown signer backend %q (available: %s); if this is a compile-time optional backend, rebuild with the appropriate -tags flag"
                            (AStr name :: map AStr (AvailableBackends reg))))
  | Some factory => factory raw
  end.

(** The registry after the package's [init] functions. *)
Definition init_registry : result registry :=
  reg ← RegisterBackend (bs "file") newFileSignerFromConfig ∅;
  RegisterBackend (bs "fortanixdsm") newFortanixDSMSignerFromConfig reg.
End Registry.

(** ** Lemmas *)

Section Lemmas.
Context {C : Crypto} {L : CryptoLaws C}.

Lemma halfN_double : curve_N = 2 * secp256k1HalfN + 1.
Proof using L.
  unfold secp256k1HalfN. rewrite Z.shiftr_div_pow2 by lia. change (2 ^ 1) with 2.
  pose proof (Z.div_mod curve_N 2). rewrite Zmod_odd, curve_N_odd in H. lia.
Qed.

Lemma lowS_range s : 0 <= s <= curve_N -> 0 <= lowS s <= secp256k1HalfN.
Proof using L.
  intros Hs. pose proof halfN_double. unfold lowS. destruct (Z.gtb_spec s secp256k1HalfN); lia.
Qed.

Lemma lowS_twin s : 0 < s < curve_N -> lowS (curve_N - s) = lowS s.
Proof using L.
  intros Hs. pose proof halfN_double. unfold lowS.
  destruct (Z.gtb_spec s secp256k1HalfN), (Z.gtb_spec (curve_N - s) secp256k1HalfN); lia.
Qed.

Lemma overlay_rs (a b : bytes) :
  (length a <= 32)%nat -> (length b <= 32)%nat ->
  overlay (64 - length b) b (overlay (32 - length a) a (replicate 65 x00)) =
  (replicate (32 - length a) x00 ++ a) ++ (replicate (32 - length b) x00 ++ b) ++ [x00].
Proof using.
  intros Ha Hb. unfold overlay.
  rewrite take_replicate, drop_replicate.
  replace ((32 - length a) `min` 65)%nat with (32 - length a)%nat by lia.
  replace (65 - (32 - length a + length a))%nat with (32 + 1)%nat by lia.
  set (p := replicate (32 - length a) x00). assert (Hp : length (p ++ a) = 32%nat)
    by (unfold p; rewrite length_app, length_replicate; lia).
  rewrite (app_assoc p a (replicate _ _)).
  rewrite take_app_ge, drop_app_ge by lia. rewrite Hp, take_replicate, drop_replicate.
  rewrite <-!app_assoc. f_equal. f_equal.
  replace ((64 - length b - 32) `min` (32 + 1))%nat with (32 - length b)%nat by lia.
  replace (32 + 1 - (64 - length b + length b - 32))%nat with 1%nat by lia. done.
Qed.

(** The 65 bytes before the recovery byte is set. *)
Lemma eth_layout r s :
  0 <= r < 2 ^ 256 -> 0 <= s < 2 ^ 256 ->
  overlay (64 - length (big_Bytes s)) (big_Bytes s)
    (overlay (32 - length (big_Bytes r)) (big_Bytes r) (replicate 65 x00)) =
  be_bytes 32 r ++ be_bytes 32 s ++ [x00].
Proof using.
  intros Hr Hs. change (2 ^ 256) with (256 ^ Z.of_nat 32) in *.
  rewrite overlay_rs by by apply length_big_Bytes. by rewrite !pad_big_Bytes.
Qed.

Lemma rsToEthSig_eq r s msg pk :
  0 <= r < 2 ^ 256 -> 0 <= s <= curve_N ->
  rsToEthSig r s msg pk =
  v ← map_err (errw "failed to compute recovery byte: %w")
        (recoverV msg (be_bytes 32 r ++ be_bytes 32 (lowS s)) pk);
  Ok (be_bytes 32 r ++ be_bytes 32 (lowS s) ++ [byte_of_Z (v + 27)]).
Proof using L.
  intros Hr Hs. pose proof (lowS_range s Hs). pose proof halfN_double. pose proof curve_N_range.
  assert (Hs' : 0 <= lowS s < 2 ^ 256) by lia.
  unfold rsToEthSig. rewrite eth_layout by done.
  change (2 ^ 256) with (256 ^ Z.of_nat 32) in Hr, Hs'.
  pose proof (length_big_Bytes r 32 Hr). pose proof (length_big_Bytes (lowS s) 32 Hs').
  rewrite !(proj2 (Nat.ltb_ge _ _)) by lia.
  set (a := be_bytes 32 r). set (b := be_bytes 32 (lowS s)).
  assert (Hab : length (a ++ b) = 64%nat)
    by (unfold a, b; rewrite length_app, !length_be_bytes; done).
  rewrite (app_assoc a b [x00]), <-Hab, take_app_length, Hab.
  destruct (recoverV msg (a ++ b) pk) as [v| |];
    cbn [map_err mbind result_bind]; [|done..].
  by f_equal.
Qed.

(** Success names a [v] that recovers exactly the expected key. *)
Lemma recoverV_sound msg rs pk v :
  recoverV msg rs pk = Ok v ->
  (v = 0 \/ v = 1) /\ exists full, Ecrecover msg (candidate rs v) = Ok full /\
    len full = 65 /\ compress full = Ok pk.
Proof using.
  assert (Ht : forall w, tryV msg rs pk w = Ok true -> exists full,
    Ecrecover msg (candidate rs w) = Ok full /\ len full = 65 /\ compress full = Ok pk).
  { intros w. unfold tryV. destruct (Ecrecover _ _) as [full| |]; try done.
    destruct (Z.eqb_spec (len full) 65); [|done].
    destruct (compress full) as [c| |] eqn:Ec; try done. cbn [mbind result_bind].
    unfold beq. case_bool_decide; [|done]. subst. eauto. }
  unfold recoverV. cbn [recoverLoop].
  destruct (tryV msg rs pk 0) as [[|]| |] eqn:E0; cbn [mbind result_bind]; try done.
  - intros [= <-]. split; [by left|by apply Ht].
  - destruct (tryV msg rs pk 1) as [[|]| |] eqn:E1; cbn [mbind result_bind]; try done.
    intros [= <-]. split; [by right|by apply Ht].
Qed.

(** DER encoding of a signature. *)
Definition der_signature (r s : Z) : bytes :=
  der_element x30 (der_element x02 (der_integer r) ++ der_element x02 (der_integer s)).

Lemma parseDER_der_signature r s rest :
  0 <= r < 2 ^ 256 -> 0 <= s < 2 ^ 256 ->
  parseDERSignature (der_signature r s ++ rest) = Ok (r, s).
Proof using.
  intros Hr Hs. unfold parseDERSignature, der_signature.
  pose proof (length_der_integer r 32 ltac:(change (256 ^ Z.of_nat 32) with (2 ^ 256); lia)).
  pose proof (length_der_integer s 32 ltac:(change (256 ^ Z.of_nat 32) with (2 ^ 256); lia)).
  rewrite parse_universal_element; [|done|done|done|done|].
  2: { unfold len, der_element. rewrite length_app. cbn [length]. lia. }
  cbn [mbind result_bind]. rewrite parse_bigint_element by done. cbn [mbind result_bind].
  rewrite <-(app_nil_r (der_element x02 (der_integer s))), parse_bigint_element by done. done.
Qed.
End Lemmas.

(** Every signature [rsToEthSig] returns, whatever the integers, has 65
    bytes, and its first 64 recover the expected key. *)
Section AnyRS.
Context {C : Crypto}.

Lemma length_overlay off src dst :
  (off + length src <= length dst)%nat -> length (overlay off src dst) = length dst.
Proof using. intros H. unfold overlay. rewrite !length_app, length_take, length_drop. lia. Qed.

Lemma rsToEthSig_recovers r s msg pk sig :
  rsToEthSig r s msg pk = Ok sig ->
  length sig = 65%nat /\ exists v full, (v = 0 \/ v = 1) /\
    sig !! 64%nat = Some (byte_of_Z (v + 27)) /\
    Ecrecover msg (candidate (take 64 sig) v) = Ok full /\ compress full = Ok pk.
Proof using.
  unfold rsToEthSig. destruct (Nat.ltb_spec 32 (length (big_Bytes r))); [done|].
  destruct (Nat.ltb_spec 64 (length (big_Bytes (lowS s)))); [done|].
  set (o1 := overlay (32 - _) _ _). set (o2 := overlay (64 - _) _ _).
  assert (L2 : length o2 = 65%nat).
  { assert (L1 : length o1 = 65%nat)
      by (unfold o1; rewrite length_overlay; rewrite length_replicate; lia).
    unfold o2. rewrite length_overlay; lia. }
  destruct (recoverV msg (take 64 o2) pk) as [v| |] eqn:E; cbn [map_err mbind result_bind]; try done.
  intros [= <-]. split; [by rewrite length_insert|].
  apply recoverV_sound in E as (Hv & full & E1 & _ & E2). exists v, full.
  rewrite take_insert_ge by lia. rewrite list_lookup_insert_eq by lia. done.
Qed.
End AnyRS.

(** ** What the server may rely on *)

(** A backend signs only 32-byte digests, with 64-byte signatures, and does
    not change the key it reports. *)
Class SignerLaws (B : Type) {S : Signer B} := {
  SignRaw_lengths msg b sig b' : SignRaw msg b = (Ok sig, b') -> len msg = 32 /\ len sig = 64;
  SignRaw_key msg b r b' : SignRaw msg b = (r, b') -> fst (GetPublicKey b') = fst (GetPublicKey b);
}.

(** [crypto.Sign] signs 32-byte digests and returns r, s and a recovery bit. *)
Class CryptoSignLaws (C : Crypto) := {
  crypto_Sign_form h k sig : crypto_Sign h k = Ok sig ->
    length sig = 65%nat /\ (sig !! 64%nat = Some x00 \/ sig !! 64%nat = Some x01);
}.

#[export] Instance file_signer_laws {C : Crypto} {L : CryptoSignLaws C} : SignerLaws FileSigner.
Proof.
  split.
  - intros msg b sig b'. simpl. unfold FileSigner_SignRaw.
    destruct (Z.eqb_spec (len msg) 32); [|done]. cbn [negb].
    destruct (crypto_Sign msg (fprivateKey b)) as [full| |] eqn:E; cbn; try done.
    apply crypto_Sign_form in E as [Hl _]. unfold first64, len. rewrite Hl. cbn. intros [= <- _].
    split; [done|]. rewrite length_take. lia.
  - intros msg b r b' E. by injection E as _ <-.
Qed.

(** [DSM_SignRaw] on success: the connection was asked for exactly this
    digest, and what it sent was checked. *)
Lemma DSM_SignRaw_inv {C : Crypto} {D} {dsm : Dsm D} msg (s s' : FortanixDSMSigner) sig :
  DSM_SignRaw msg s = (Ok sig, s') ->
  len msg = 32 /\ exists der eth, fst (dsm_Sign msg (keyDescriptor s) (client s)) = Ok der /\
    derToEthSig der msg (dcompressedPubKey s) = Ok eth /\ sig = take 64 eth.
Proof.
  unfold DSM_SignRaw. destruct (Z.eqb_spec (len msg) 32); [|done]. cbn [negb].
  unfold st_bind, st_get, st_map_err, on_client, st_lift.
  destruct (dsm_Sign msg (keyDescriptor s) (client s)) as [[der| |] conn]; try done. cbn.
  destruct (derToEthSig der msg (dcompressedPubKey s)) as [eth| |] eqn:E; try done. cbn.
  unfold first64. destruct (len eth <? 64); [done|]. intros [= <- _]. eauto 10.
Qed.

Lemma DSM_SignRaw_key {C : Crypto} {D} {dsm : Dsm D} msg (s s' : FortanixDSMSigner) r :
  DSM_SignRaw msg s = (r, s') -> dcompressedPubKey s' = dcompressedPubKey s.
Proof.
  unfold DSM_SignRaw, st_bind, st_get, st_map_err, on_client, st_lift.
  destruct (negb _); [by intros [= _ <-]|].
  destruct (dsm_Sign msg (keyDescriptor s) (client s)) as [[der| |] conn]; cbn;
    try (by intros [= _ <-]).
  destruct (derToEthSig der msg (dcompressedPubKey s)) as [eth| |]; cbn; by intros [= _ <-].
Qed.

Lemma derToEthSig_recovers {C : Crypto} der msg pk eth :
  derToEthSig der msg pk = Ok eth ->
  length eth = 65%nat /\ exists v full, (v = 0 \/ v = 1) /\
    eth !! 64%nat = Some (byte_of_Z (v + 27)) /\
    Ecrecover msg (candidate (take 64 eth) v) = Ok full /\ compress full = Ok pk.
Proof.
  unfold derToEthSig. destruct (parseDERSignature der) as [[r s]| |]; try done.
  apply rsToEthSig_recovers.
Qed.

#[export] Instance dsm_signer_laws {C : Crypto} {D} {dsm : Dsm D} : SignerLaws FortanixDSMSigner.
Proof.
  split.
  - intros msg b sig b' E. apply DSM_SignRaw_inv in E as (Hm & der & eth & _ & E & ->).
    apply derToEthSig_recovers in E as [Hl _]. split; [done|]. unfold len. rewrite length_take. lia.
  - intros msg b r b' E. cbn. by rewrite (DSM_SignRaw_key _ _ _ _ E).
Qed.

(** ** Properties *)

(** (C22) The DSM backend never releases a signature of another key or
    message: when [SignRaw] returns, the input was a 32-byte digest, the
    device was asked to sign exactly that digest, the result is 64 bytes,
    and [Ecrecover] of that very digest with those bytes and one of the two
    recovery bits gives the public key pinned at start-up, which the call
    leaves unchanged - for every DER the device may answer. *)
Theorem dsm_signature_is_by_pinned_key {C : Crypto} {D} {dsm : Dsm D}
    msg (s s' : FortanixDSMSigner) sig :
  DSM_SignRaw msg s = (Ok sig, s') ->
  len msg = 32 /\ len sig = 64 /\
  is_ok (fst (dsm_Sign msg (keyDescriptor s) (client s))) = true /\
  dcompressedPubKey s' = dcompressedPubKey s /\
  exists v full, (v = 0 \/ v = 1) /\
    Ecrecover msg (candidate sig v) = Ok full /\ compress full = Ok (dcompressedPubKey s).
Proof.
  intros E. pose proof (DSM_SignRaw_key _ _ _ _ E) as Hk.
  apply DSM_SignRaw_inv in E as (Hm & der & eth & Ed & E & ->).
  apply derToEthSig_recovers in E as (Hl & v & full & Hv & _ & E1 & E2).
  split; [done|]. split; [unfold len; rewrite length_take; lia|]. rewrite Ed. eauto 10.
Qed.

(** (C11) Ethereum form and low S: from any r below 2^256 and s up to the
    curve order, [rsToEthSig] - when it returns - gives r and s' in 32-byte
    big-endian slots and a last byte 27 or 28, where s' is s or its twin
    N - s, lies in the lower half (EIP-2), and r, s' with that recovery bit
    recovers the expected key; it never panics for such numbers unless the
    recovery itself does. *)
Theorem eth_signature_low_s {C : Crypto} {L : CryptoLaws C} r s msg pk :
  0 <= r < 2 ^ 256 -> 0 <= s <= curve_N ->
  match rsToEthSig r s msg pk with
  | Ok sig => exists v s', (v = 0 \/ v = 1) /\ (s' = s \/ s' = curve_N - s) /\
      0 <= s' /\ 2 * s' < curve_N /\
      sig = be_bytes 32 r ++ be_bytes 32 s' ++ [byte_of_Z (27 + v)] /\
      exists full, Ecrecover msg (candidate (be_bytes 32 r ++ be_bytes 32 s') v) = Ok full /\
        compress full = Ok pk
  | Err e => recoverV msg (be_bytes 32 r ++ be_bytes 32 (lowS s)) pk <> Panic
  | Panic => recoverV msg (be_bytes 32 r ++ be_bytes 32 (lowS s)) pk = Panic
  end.
Proof.
  intros Hr Hs. rewrite rsToEthSig_eq by done.
  pose proof (lowS_range s Hs). pose proof halfN_double.
  destruct (recoverV _ _ _) as [v| |] eqn:E; cbn [map_err mbind result_bind]; [|done..].
  apply recoverV_sound in E as (Hv & full & E1 & _ & E2).
  exists v, (lowS s). rewrite (Z.add_comm 27 v). split; [done|].
  split; [unfold lowS; case_match; auto|]. split; [lia|]. split; [lia|]. eauto.
Qed.

(** No malleability through the device: a DER signature and the DER of
    its malleated twin (r, N - s), each followed by any trailing bytes, are
    translated to the same result, and that result is [rsToEthSig] of the
    encoded numbers - the DER decoder reads back exactly r and s. *)
Theorem der_twins_agree {C : Crypto} {L : CryptoLaws C} r s msg pk rest rest' :
  0 <= r < 2 ^ 256 -> 0 < s < curve_N ->
  derToEthSig (der_signature r s ++ rest) msg pk = rsToEthSig r s msg pk /\
  derToEthSig (der_signature r (curve_N - s) ++ rest') msg pk =
  derToEthSig (der_signature r s ++ rest) msg pk.
Proof.
  intros Hr Hs. pose proof curve_N_range. unfold derToEthSig.
  rewrite !parseDER_der_signature by lia. cbn [mbind result_bind]. split; [done|].
  rewrite !rsToEthSig_eq by lia. by rewrite lowS_twin.
Qed.

(** The two primitives of the file backend agree: both refuse an input
    that is not 32 bytes without touching the key, and on a 32-byte input
    [Sign x] is [SignRaw (sha256 x)] followed by 27 or 28. *)
Theorem file_sign_is_raw_of_hash {C : Crypto} {L : CryptoSignLaws C} (s : FileSigner) msg :
  (len msg <> 32 -> is_ok (FileSigner_Sign s msg) = false /\ is_ok (FileSigner_SignRaw s msg) = false) /\
  (forall sig, FileSigner_Sign s msg = Ok sig ->
     exists raw v, FileSigner_SignRaw s (sha256_Sum256 msg) = Ok raw /\
       sig = raw ++ [v] /\ len raw = 64 /\ (byte_to_Z v = 27 \/ byte_to_Z v = 28)).
Proof.
  unfold FileSigner_Sign, FileSigner_SignRaw. split.
  - intros N. by rewrite (proj2 (Z.eqb_neq _ _) N).
  - intros sig. destruct (len msg =? 32); [|done]. cbn [negb].
    unfold len at 1. rewrite length_sha256. cbn [Z.of_nat negb Z.eqb Pos.eqb].
    destruct (crypto_Sign (sha256_Sum256 msg) (fprivateKey s)) as [full| |] eqn:E;
      cbn [map_err mbind result_bind]; try done.
    apply crypto_Sign_form in E as [Hl Hv].
    unfold add27, first64, len. rewrite Hl. cbn [Z.of_nat Z.ltb Z.compare].
    destruct Hv as [Hv|Hv]; rewrite Hv; intros [= <-];
      (eexists _, _; split; [reflexivity|]; split; [|split; [rewrite length_take; lia|]]).
    1,3: rewrite insert_take_drop, drop_ge by lia; reflexivity.
    1: by left. by right.
Qed.

(** ** A concrete instance

    The parameters instantiated: the order of secp256k1, and a "device"
    whose answers always recover the curve's generator. *)

Definition gen_x : Z := 0x79be667ef9dcbbac55a06295ce870b07029bfcdb2dce28d959f2815b16f81798.
Definition gen_y : Z := 0x483ada7726a3c4655da4fbfc0e1108a8fd17b448a68554199c47d08ffb10d4b8.
Definition field_P : Z := 2 ^ 256 - 2 ^ 32 - 977.

#[local] Instance reference_crypto : Crypto := {
  curve_N := 0xfffffffffffffffffffffffffffffffebaaedce6af48a03bbfd25e8cd0364141;
  IsOnCurve x y := (y * y - (x * x * x + 7)) mod field_P =? 0;
  Ecrecover msg sig :=
    if (len sig =? 65) && bool_decide (sig !! 64%nat = Some x01)
    then Ok (x04 :: be_bytes 32 gen_x ++ be_bytes 32 gen_y)
    else Err (ErrLib "recovery failed");
  privkey := unit;
  crypto_Sign h _ := if len h =? 32 then Ok (sha256_Sum256 h ++ h ++ [x01]) else Err (ErrLib "hash length");
  ToECDSA _ := Ok ();
  CompressPubkey _ := x02 :: be_bytes 32 gen_x;
  cosmos_Address pk := take 20 (sha256_Sum256 pk);
  ConvertAndEncode prefix b := Ok (prefix ++ bs "1" ++ hex_EncodeToString b);
}.

#[local] Instance reference_crypto_laws : CryptoLaws reference_crypto.
Proof. split; vm_compute; [split; reflexivity|reflexivity]. Qed.

(** A device that answers every request with the signature (5, N - 7). *)
#[local] Instance reference_dsm : Dsm nat := {
  dsm_Connect _ _ := O;
  dsm_Sign _ _ := fun n => (Ok (der_signature 5 (curve_N - 7)), S n);
  dsm_GetSobject _ := fun n => (Err (ErrLib "not found"), n);
  curveSecP256K1 := bs "SecP256K1";
}.

Definition gen_pk : bytes := x02 :: be_bytes 32 gen_x.
Definition sample_msg : bytes := replicate 32 x2a.

Lemma dsm_signature_is_by_pinned_key_witness :
  exists sig s', DSM_SignRaw sample_msg (MkDSMSigner O (ByName (bs "k")) gen_pk) = (Ok sig, s') /\
    len sig = 64.
Proof.
  eexists _, _. split; [vm_compute; reflexivity|].
  apply (dsm_signature_is_by_pinned_key sample_msg (MkDSMSigner O (ByName (bs "k")) gen_pk)
           (MkDSMSigner 1%nat (ByName (bs "k")) gen_pk)).
  vm_compute. reflexivity.
Defined.

Lemma eth_signature_low_s_witness :
  match rsToEthSig 5 (curve_N - 7) sample_msg gen_pk with
  | Ok sig => exists v s', (v = 0 \/ v = 1) /\ (s' = curve_N - 7 \/ s' = curve_N - (curve_N - 7)) /\
      0 <= s' /\ 2 * s' < curve_N /\
      sig = be_bytes 32 5 ++ be_bytes 32 s' ++ [byte_of_Z (27 + v)] /\
      exists full, Ecrecover sample_msg (candidate (be_bytes 32 5 ++ be_bytes 32 s') v) = Ok full /\
        compress full = Ok gen_pk
  | Err e => recoverV sample_msg (be_bytes 32 5 ++ be_bytes 32 (lowS (curve_N - 7))) gen_pk <> Panic
  | Panic => recoverV sample_msg (be_bytes 32 5 ++ be_bytes 32 (lowS (curve_N - 7))) gen_pk = Panic
  end.
Proof.
  apply (eth_signature_low_s 5 (curve_N - 7) sample_msg gen_pk); vm_compute; split; congruence.
Defined.

Lemma der_twins_agree_witness :
  derToEthSig (der_signature 5 (curve_N - 7)) sample_msg gen_pk =
  derToEthSig (der_signature 5 7) sample_msg gen_pk.
Proof.
  pose proof (der_twins_agree 5 7 sample_msg gen_pk [] []) as H. rewrite !app_nil_r in H.
  apply H; vm_compute; split; congruence.
Defined.

#[local] Instance reference_crypto_sign_laws : CryptoSignLaws reference_crypto.
Proof.
  split. intros h k sig. cbn [crypto_Sign reference_crypto].
  destruct (Z.eqb_spec (len h) 32) as [Hl|]; [|done]. intros <-%(inj Ok).
  pose proof (length_sha256 h). unfold len in Hl. split.
  - rewrite !length_app. simpl. lia.
  - right. rewrite !lookup_app_r by lia. by rewrite H, (inj Z.of_nat (length h) 32%nat Hl).
Qed.

Definition sample_file_signer : FileSigner := @MkFileSigner reference_crypto tt gen_pk.

Lemma file_sign_is_raw_of_hash_witness :
  exists sig raw v, FileSigner_Sign sample_file_signer sample_msg = Ok sig /\
    FileSigner_SignRaw sample_file_signer (sha256_Sum256 sample_msg) = Ok raw /\ sig = raw ++ [v].
Proof.
  assert (E : exists sig, FileSigner_Sign sample_file_signer sample_msg = Ok sig)
    by (eexists; vm_compute; reflexivity).
  destruct E as [sig E]. exists sig.
  destruct (file_sign_is_raw_of_hash sample_file_signer sample_msg) as [_ H].
  destruct (H sig E) as (raw & v & H1 & H2 & _). exists raw, v.
  split; [exact E|]. split; [exact H1|exact H2].
Defined.

(** ** The password reader *)

(** Successive reads with buffers of the given sizes. *)
Fixpoint reads (r : repeatingReader) (ns : list nat) : bytes :=
  match ns with
  | [] => []
  | n :: ns' => let '(got, r') := Read r n in got ++ reads r' ns'
  end.

Lemma reads_spec line ns off k :
  (off <= length line)%nat -> (length ns < k)%nat ->
  exists m, reads (RepeatingReader line off) ns =
    take m (drop off line ++ concat (replicate k line)).
Proof.
  revert off k. induction ns as [|n ns IH]; intros off k Ho Hk; [by exists O|].
  cbn [reads]. unfold Read. cbn [rline roff].
  assert (Hgen : forall o rest, (o <= length line)%nat ->
    (exists m, reads (RepeatingReader line (o + length (take n (drop o line)))) ns =
               take m (drop (o + length (take n (drop o line))) line ++ rest)) ->
    exists m, take n (drop o line) ++ reads (RepeatingReader line (o + length (take n (drop o line)))) ns =
              take m (drop o line ++ rest)).
  { intros o rest Hol [m ->]. set (t := take n (drop o line)).
    exists (length t + m)%nat.
    assert (E : drop o line = t ++ drop (o + length t) line).
    { rewrite <-drop_drop. rewrite <-(take_drop n (drop o line)) at 1. fold t. f_equal.
      unfold t. rewrite length_take, !drop_drop, length_drop.
      destruct (Nat.le_gt_cases n (length line - o)); [f_equal; lia|].
      rewrite !drop_ge; [done|lia|lia]. }
    rewrite E at 1. rewrite <-app_assoc, take_app_add. done. }
  destruct (Nat.leb_spec (length line) off) as [Hge|Hlt].
  - destruct k as [|k]; [simpl in Hk; lia|]. rewrite (drop_ge line off) by lia.
    destruct (Hgen O (concat (replicate k line))) as [m Hm]; [lia| |].
    + apply IH; [|simpl in Hk; lia]. rewrite length_take, length_drop. lia.
    + exists m. exact Hm.
  - apply Hgen; [lia|]. apply IH; [|simpl in Hk; lia]. rewrite length_take, length_drop. lia.
Qed.

Lemma map_err_bind_inv {S A B} f (m : ST S A) (k : A -> ST S B) s b s' :
  st_bind (st_map_err f m) k s = (Ok b, s') ->
  exists a s1, m s = (Ok a, s1) /\ k a s1 = (Ok b, s').
Proof.
  unfold st_bind, st_map_err. destruct (m s) as [[a| |] s1]; [|done..]. eauto.
Qed.

Lemma os_Stat_inv p s i s' :
  os_Stat p s = (Ok i, s') ->
  fs_disk s' = fs_disk s /\ fst (os_Stat p (fresh_fs (fs_disk s))) = Ok i.
Proof.
  unfold os_Stat, syscall, fresh_fs, fail_io. cbn [fs_faults fs_disk].
  destruct (fs_faults s) as [|[|k] fl]; [..|done];
    (case_decide; [|destruct (cur (fs_disk s) p)]); by intros [= <- <-].
Qed.

Lemma os_ReadFile_inv p s b s' :
  os_ReadFile p s = (Ok b, s') -> p ∉ dirs (fs_disk s) /\ content (fs_disk s) p = Some b.
Proof.
  unfold os_ReadFile, syscall, fail_io.
  destruct (fs_faults s) as [|[|k] fl]; [..|done];
    (case_decide; [done|]); destruct (content (fs_disk s) p); by intros [= <- _].
Qed.

Lemma os_ReadFile_disk p s r s' : os_ReadFile p s = (r, s') -> fs_disk s' = fs_disk s.
Proof.
  unfold os_ReadFile, syscall, fail_io, unchanged.
  destruct (fs_faults s) as [|[|k] fl]; [..|by intros [= _ <-]];
    (case_decide; [|destruct (content (fs_disk s) p)]); by intros [= _ <-].
Qed.

(** The passphrase source: [buildFilePasswordReader] refuses a file with
    any group or other permission bit and an empty password; otherwise the
    reader's stream, for every sequence of buffer sizes, is a prefix of the
    trimmed first-line password and a newline repeated for ever, and a read
    into a non-empty buffer always makes progress - so each of the keyring's
    prompts reads the same password. *)
Theorem password_reader_repeats path d faults names rd s' :
  buildFilePasswordReader path (Fs d faults names []) = (Ok rd, s') ->
  exists data mode line, content d path = Some data /\
    rd = Repeating (RepeatingReader line 0) /\
    line = TrimRightCRLF data ++ [x0a] /\ TrimRightCRLF data <> [] /\
    fst (os_Stat path (fresh_fs d)) = Ok (false, mode) /\ Z.land mode 63 = 0 /\
    (forall ns, exists m, reads (RepeatingReader line 0) ns =
       take m (concat (replicate (S (S (length ns))) line))) /\
    (forall off n, n <> O -> fst (Read (RepeatingReader line off) n) <> []).
Proof.
  unfold buildFilePasswordReader. intros E.
  apply map_err_bind_inv in E as ([dir mode] & s1 & E1 & E).
  destruct (os_Stat_inv _ _ _ _ E1) as (Ed & Es). simpl in Ed, Es.
  cbn [snd] in E. rewrite <-Z.land_assoc in E. change (Z.land 511 63) with 63 in E.
  destruct (Z.eqb_spec (Z.land mode 63) 0) as [Hm|]; [|done]. cbn [negb] in E.
  apply map_err_bind_inv in E as (data & s2 & E2 & E).
  destruct (os_ReadFile_inv _ _ _ _ E2) as (Hnd & Hc). rewrite Ed in Hnd, Hc. cbn iota zeta in E.
  destruct (Z.eqb_spec (len (TrimRightCRLF data)) 0) as [|Hne]; [done|].
  injection E as <- _.
  assert (dir = false) as ->.
  { revert Es. unfold os_Stat, syscall, fresh_fs, fail_io. cbn [fs_faults fs_disk].
    case_decide; [done|]. destruct (cur d path); cbn [fst]; [by intros [= <- _]|done]. }
  exists data, mode, (TrimRightCRLF data ++ [x0a]).
  split; [done|]. split; [done|]. split; [done|].
  split; [by intros E; rewrite E in Hne|]. split; [done|]. split; [done|]. split.
  - intros ns. destruct (reads_spec (TrimRightCRLF data ++ [x0a]) ns 0 (S (length ns))) as [m ->];
      [lia|lia|]. by exists m.
  - intros off n Hn. unfold Read. cbn [rline roff fst].
    destruct (Nat.leb_spec (length (TrimRightCRLF data ++ [x0a])) off) as [|Hlt].
    + destruct n; [done|]. destruct (TrimRightCRLF data); done.
    + destruct n as [|n]; [done|].
      destruct (drop off _) eqn:Ed'; [|done]. apply (f_equal length) in Ed'.
      rewrite length_drop in Ed'. cbn [length] in Ed'. lia.
Qed.

Definition pw_path : bytes := bs "/data/pw".
Definition pw_disk : disk :=
  Disk {[ 0%nat := Inode (bs "hunter2" ++ [x0d; x0a]) 384 true ]} {[ pw_path := [Some 0%nat] ]}
       (dirs empty_disk) 1.

Lemma password_reader_repeats_witness :
  exists rd s', buildFilePasswordReader pw_path (fresh_fs pw_disk) = (Ok rd, s') /\
  exists data line, content pw_disk pw_path = Some data /\
    rd = Repeating (RepeatingReader line 0) /\ line = TrimRightCRLF data ++ [x0a].
Proof.
  assert (E : is_ok (fst (buildFilePasswordReader pw_path (fresh_fs pw_disk))) = true)
    by (vm_compute; reflexivity).
  destruct (buildFilePasswordReader pw_path (fresh_fs pw_disk)) as [[rd| |] s'] eqn:E';
    try discriminate E.
  exists rd, s'. split; [reflexivity|].
  destruct (password_reader_repeats pw_path pw_disk [] [] rd s' E')
    as (data & mode & line & H1 & H2 & H3 & _).
  exists data, line. split; [exact H1|]. split; [exact H2|exact H3].
Defined.

(** The registry: after the package's initialisers exactly the two
    backends ["file"] and ["fortanixdsm"] exist; registering a taken name
    panics and any other name is added; and [NewSigner] of a name that is
    not registered is an error that does not touch the file system. *)
Theorem backend_registry {C : Crypto} {K : KeyringLib} {D} {dsm : Dsm D} tty :
  exists reg, init_registry tty = Ok reg /\
    reg !! bs "file" = Some (newFileSignerFromConfig tty) /\
    reg !! bs "fortanixdsm" = Some newFortanixDSMSignerFromConfig /\
    (forall name f, name ∈ dom reg -> RegisterBackend name f reg = Panic) /\
    (forall name raw s, name <> bs "file" -> name <> bs "fortanixdsm" ->
       exists e, NewSigner reg name raw s = (Err e, s)).
Proof.
  assert (E0 : (∅ : gmap bytes (@BackendFactory C D)) !! bs "file" = None) by apply (lookup_empty (M := gmap bytes)).
  assert (E1 : (<[bs "file" := newFileSignerFromConfig tty]> (∅ : gmap bytes (@BackendFactory C D))) !! bs "fortanixdsm" = None)
    by by rewrite lookup_insert_ne, lookup_empty.
  unfold init_registry, RegisterBackend. rewrite E0. cbn [mbind result_bind]. rewrite E1.
  eexists. split; [reflexivity|].
  split; [by rewrite lookup_insert_ne, lookup_insert_eq|]. split; [by rewrite lookup_insert_eq|]. split.
  - intros name f Hn. apply elem_of_dom in Hn as [x Hx]. by rewrite Hx.
  - intros name raw s N1 N2. unfold NewSigner, getBackendFactory.
    rewrite !lookup_insert_ne, lookup_empty by congruence. eexists. reflexivity.
Qed.
