(* ===== verification/Arbiter.v ===== *)
(** * The primary arbiter ([consensus/primary.go])

    Active-passive election between the dial targets.  Every operation runs
    under the arbiter's mutex, so a run is a sequence of [Acquire]s and
    [Release]s; the clock reading of each call is an argument. *)

From S2P Require Import Prelude GoStd.

(** [time.Time.Sub]: nanoseconds, saturating at the [int64] range. *)
Definition time_Sub (a b : Z) : Z := Z.max i64_min (Z.min i64_max (a - b)).

(** Nanoseconds since the zero [time.Time]. *)
Definition zero_time : Z := 0.

Record PrimaryArbiter := Arbiter {
  timeout : Z;
  rank : gmap bytes Z;
  primary : bytes;
  lastReq : Z;
  maxHeight : Z;
}.

Fixpoint build_rank (i : Z) (order : list bytes) (rank : gmap bytes Z) : gmap bytes Z :=
  match order with
  | [] => rank
  | id :: order' =>
      build_rank (i + 1) order'
        (match rank !! id with Some _ => rank | None => <[id := i]> rank end)
  end.

Definition NewPreferringPrimaryArbiter (timeout : Z) (preferOrder : list bytes) : PrimaryArbiter :=
  Arbiter timeout (build_rank 0 preferOrder ∅) [] zero_time 0.

Definition NewPrimaryArbiter (timeout : Z) : PrimaryArbiter :=
  NewPreferringPrimaryArbiter timeout [].

Definition outranks (a : PrimaryArbiter) (id : bytes) : bool :=
  if bool_decide (rank a = ∅) then false
  else match rank a !! id with
       | None => false
       | Some mine =>
           match rank a !! primary a with
           | None => true
           | Some theirs => mine <? theirs
           end
       end.

Definition grant (height : Z) (a : PrimaryArbiter) : PrimaryArbiter :=
  if height >? maxHeight a
  then Arbiter (timeout a) (rank a) (primary a) (lastReq a) height
  else a.

(** [a.primary = id; a.lastReq = now; a.grant(height)]. *)
Definition take_role (id : bytes) (now height : Z) (a : PrimaryArbiter) : PrimaryArbiter :=
  grant height (Arbiter (timeout a) (rank a) id now (maxHeight a)).

Definition Acquire (id : bytes) (height now : Z) (a : PrimaryArbiter) : bool * PrimaryArbiter :=
  if beq (primary a) id then (true, take_role id now height a)
  else if beq (primary a) [] then (true, take_role id now height a)
  else if time_Sub now (lastReq a) >? timeout a then (true, take_role id now height a)
  else if outranks a id && (height <? maxHeight a) then (false, a)
  else if outranks a id then (true, take_role id now height a)
  else (false, a).

Definition Release (id : bytes) (a : PrimaryArbiter) : bool * PrimaryArbiter :=
  if negb (beq (primary a) id) then (false, a)
  else (true, Arbiter (timeout a) (rank a) [] zero_time (maxHeight a)).

Definition Primary (a : PrimaryArbiter) : bytes := primary a.

Definition HostOf (addr : bytes) : bytes :=
  if beq addr [] then []
  else
    let addr := match Index addr (bs "://") with
                | Some i => drop (i + 3) addr
                | None => addr
                end in
    match SplitHostPort addr with
    | Ok (host, _) => host
    | _ => addr
    end.

Definition PrimaryHost (a : PrimaryArbiter) : bytes := HostOf (primary a).

(** ** Runs *)

Inductive event :=
| EvAcquire (id : bytes) (height now : Z)
| EvRelease (id : bytes).

Definition apply_event (e : event) (a : PrimaryArbiter) : bool * PrimaryArbiter :=
  match e with
  | EvAcquire id height now => Acquire id height now a
  | EvRelease id => Release id a
  end.

(** A run from a new arbiter, with the outcome of each call, newest first. *)
Inductive run (a0 : PrimaryArbiter) : list (event * bool) -> PrimaryArbiter -> Prop :=
| run_nil : run a0 [] a0
| run_step h a e b a' :
    run a0 h a -> apply_event e a = (b, a') -> run a0 ((e, b) :: h) a'.

(** Heights granted so far. *)
Definition granted_height (eb : event * bool) : option Z :=
  match eb with (EvAcquire _ h _, true) => Some h | _ => None end.
Definition granted_heights (h : list (event * bool)) : list Z := omap granted_height h.

(** The last grant, unless the role was given up since. *)
Fixpoint holder (h : list (event * bool)) : option (bytes * Z) :=
  match h with
  | [] => None
  | (EvAcquire id _ now, true) :: _ => Some (id, now)
  | (EvRelease _, true) :: _ => None
  | _ :: h' => holder h'
  end.

(** ** Lemmas *)

Lemma grant_fields height a :
  timeout (grant height a) = timeout a /\ rank (grant height a) = rank a /\
  primary (grant height a) = primary a /\ lastReq (grant height a) = lastReq a /\
  maxHeight (grant height a) = Z.max height (maxHeight a).
Proof. unfold grant. destruct (Z.gtb_spec height (maxHeight a)); simpl; repeat split; lia. Qed.

(** When and why the role is given. *)
Definition may_take (a : PrimaryArbiter) (id : bytes) (height now : Z) : Prop :=
  primary a = id \/ primary a = [] \/ timeout a < time_Sub now (lastReq a) \/
  (outranks a id = true /\ maxHeight a <= height).

Lemma Acquire_cases id height now a :
  (may_take a id height now /\ Acquire id height now a = (true, take_role id now height a)) \/
  (~ may_take a id height now /\ Acquire id height now a = (false, a)).
Proof.
  unfold Acquire, may_take, beq.
  case_bool_decide; [tauto|]. case_bool_decide; [tauto|].
  destruct (Z.gtb_spec (time_Sub now (lastReq a)) (timeout a)); [left; tauto|].
  destruct (outranks a id); simpl.
  - destruct (Z.ltb_spec height (maxHeight a)); [right|left]; (split; [|done]).
    + intros [?|[?|[?|[_ ?]]]]; done || lia.
    + tauto.
  - right. split; [|done]. intros [?|[?|[?|[? _]]]]; done || lia.
Qed.

Lemma take_role_fields id now height a :
  timeout (take_role id now height a) = timeout a /\ rank (take_role id now height a) = rank a /\
  primary (take_role id now height a) = id /\ lastReq (take_role id now height a) = now /\
  maxHeight (take_role id now height a) = Z.max height (maxHeight a).
Proof. unfold take_role. pose proof (grant_fields height (Arbiter (timeout a) (rank a) id now (maxHeight a))). done. Qed.

(** What a run keeps: the configuration, the role as the history says, and
    the height mark as the maximum of what was granted. *)
Lemma run_inv a0 h a :
  primary a0 = [] -> run a0 h a ->
  timeout a = timeout a0 /\ rank a = rank a0 /\
  match holder h with
  | Some (id, t) => primary a = id /\ lastReq a = t
  | None => primary a = []
  end /\
  maxHeight a = foldr Z.max (maxHeight a0) (granted_heights h).
Proof.
  intros H0. induction 1 as [|h a e b a' _ IH He]; [done|].
  destruct IH as (IHt & IHr & IHh & IHm). destruct e as [id height now|id]; cbn [apply_event] in He.
  - destruct (Acquire_cases id height now a) as [[_ E]|[_ E]]; rewrite E in He;
      injection He as <- <-; [|done].
    destruct (take_role_fields id now height a) as (-> & -> & -> & -> & ->).
    rewrite IHm. by repeat split.
  - revert He. unfold Release, beq. case_bool_decide; cbn [negb]; intros [= <- <-]; done.
Qed.

(** The rank of an id is the position of its first occurrence. *)
Lemma build_rank_lookup order i m id :
  build_rank i order m !! id =
  match m !! id with
  | Some k => Some k
  | None => (fun p => i + Z.of_nat (fst p)) <$> list_find (fun x => x = id) order
  end.
Proof.
  revert i m. induction order as [|x order IH]; intros i m; cbn [build_rank list_find].
  - by destruct (m !! id).
  - rewrite IH. destruct (decide (x = id)) as [->|N].
    + destruct (m !! id) eqn:E; [by rewrite E|]. rewrite lookup_insert_eq. simpl. f_equal. lia.
    + assert (E : (match m !! x with Some _ => m | None => <[x:=i]> m end) !! id = m !! id)
        by (destruct (m !! x); [done|by rewrite lookup_insert_ne]).
      rewrite E. destruct (m !! id); [done|].
      destruct (list_find _ order) as [[k y]|]; simpl; [|done]. f_equal. lia.
Qed.

Lemma outranks_spec a id :
  outranks a id = true <->
  exists r, rank a !! id = Some r /\ (forall r', rank a !! primary a = Some r' -> r < r').
Proof.
  unfold outranks. case_bool_decide as He.
  - split; [done|]. intros (r & Hr & _). by rewrite He, lookup_empty in Hr.
  - destruct (rank a !! id) as [r|]; [|split; [done|by intros (? & ? & _)]].
    destruct (rank a !! primary a) as [r'|].
    + rewrite Z.ltb_lt. split; [intros; exists r; split; [done|by intros ? [= <-]]|].
      intros (? & [= <-] & H). by apply H.
    + split; [intros _; exists r; by split|done].
Qed.



Lemma foldr_max_ge z l m : z <= m -> Forall (fun k => k <= m) l -> foldr Z.max z l <= m.
Proof. intros Hz. induction 1; simpl; lia. Qed.

(** ** Properties *)


Definition nodeA : bytes := bs "tcp://10.0.0.1:26659".
Definition nodeB : bytes := bs "tcp://10.0.0.2:26659".

Lemma run_eval a0 h a e b :
  run a0 h a -> fst (apply_event e a) = b -> run a0 ((e, b) :: h) (snd (apply_event e a)).
Proof. intros Hr <-. eapply run_step; [exact Hr|]. by destruct (apply_event e a). Qed.

(** B signs, A (preferred) is refused while behind, then fails back. *)
Definition sample_history : list (event * bool) :=
  [(EvAcquire nodeA 101 30, true); (EvAcquire nodeA 90 20, false); (EvAcquire nodeB 101 10, true)].

Lemma sample_run : exists a, run (NewPreferringPrimaryArbiter 1000 [nodeA; nodeB]) sample_history a.
Proof.
  eexists. apply run_eval; [apply run_eval; [apply run_eval; [apply run_nil|]|]|];
    vm_compute; reflexivity.
Qed.


(** The decision of [Acquire], on every branch: it grants exactly when
    the caller holds the role, nobody does, the holder has been idle longer
    than the timeout, or the caller outranks the holder and has caught up;
    a grant makes the caller the primary, stamps the clock and raises the
    height mark to the maximum; a refusal changes nothing. *)
Theorem acquire_decision id height now a :
  let '(ok, a') := Acquire id height now a in
  (ok = true <-> may_take a id height now) /\
  (ok = false -> a' = a) /\
  (ok = true -> primary a' = id /\ lastReq a' = now /\ maxHeight a' = Z.max height (maxHeight a) /\
     rank a' = rank a /\ timeout a' = timeout a).
Proof.
  destruct (Acquire_cases id height now a) as [[Hm ->]|[Hm ->]]; [|done].
  destruct (take_role_fields id now height a) as (-> & -> & -> & -> & ->). done.
Qed.

(** (C29) Fail-over and fail-back progress: whoever holds the role, the node
    listed first in the preference order is granted as soon as it asks at a
    height the group has reached; any node is granted at once after the
    holder disconnects; and any node is granted once the holder has been
    idle longer than the timeout. *)
Theorem arbiter_progress tmo order h a id height now :
  run (NewPreferringPrimaryArbiter tmo order) h a ->
  (head order = Some id -> Forall (fun k => k <= height) (granted_heights h) -> 0 <= height ->
     fst (Acquire id height now a) = true) /\
  (fst (Acquire id height now (snd (Release (primary a) a))) = true) /\
  (tmo < time_Sub now (lastReq a) -> fst (Acquire id height now a) = true).
Proof.
  intros Hr. destruct (run_inv (NewPreferringPrimaryArbiter tmo order) _ _ eq_refl Hr) as (Et & Er & _ & Em).
  split; [|split].
  - intros Hh Hg H0. destruct (Acquire_cases id height now a) as [[_ ->]|[Hm _]]; [done|].
    exfalso. apply Hm. destruct (decide (primary a = id)); [by left|]. right; right; right.
    split; [|rewrite Em; apply foldr_max_ge; [exact H0|done]].
    apply outranks_spec. rewrite Er. cbn [rank NewPreferringPrimaryArbiter].
    destruct order as [|x order]; [done|]. injection Hh as ->. exists 0. split.
    + rewrite build_rank_lookup, lookup_empty. cbn [list_find]. by rewrite decide_True.
    + intros r'. rewrite build_rank_lookup, lookup_empty. cbn [list_find].
      rewrite decide_False by congruence. destruct (list_find _ order) as [[k y]|]; [|done].
      simpl. intros [= <-]. lia.
  - unfold Release, beq. rewrite bool_decide_true by done. cbn [negb snd]. unfold Acquire, beq. simpl.
    case_bool_decide; [done|]. done.
  - intros Hi. destruct (Acquire_cases id height now a) as [[_ ->]|[Hm _]]; [done|].
    exfalso. apply Hm. right; right; left. by rewrite Et.
Qed.

Lemma arbiter_progress_witness :
  exists a, run (NewPreferringPrimaryArbiter 1000 [nodeA; nodeB]) sample_history a /\
    fst (Acquire nodeA 101 31 a) = true.
Proof.
  destruct sample_run as [a Ha]. exists a. split; [exact Ha|].
  destruct (arbiter_progress 1000 [nodeA; nodeB] sample_history a nodeA 101 31 Ha) as [H _].
  apply H; [reflexivity|repeat constructor; vm_compute; congruence|lia].
Defined.

(** ** Hosts *)

(** A host name or IPv4 address: none of the characters that delimit one. *)
Definition plain_host (h : bytes) : Prop :=
  Forall (fun c => c <> x3a /\ c <> x5b /\ c <> x5d /\ c <> x2f) h.

Definition plain_port (p : bytes) : Prop :=
  Forall (fun c => c <> x3a /\ c <> x5b /\ c <> x5d) p.

Lemma LastIndexByte_app s t c :
  LastIndexByte t c = None -> LastIndexByte (s ++ c :: t) c = Some (length s).
Proof.
  intros Ht. induction s as [|x s IH]; cbn [app LastIndexByte length].
  - rewrite Ht. by rewrite decide_True.
  - by rewrite IH.
Qed.

Lemma LastIndexByte_None s c : Forall (fun x => x <> c) s -> LastIndexByte s c = None.
Proof. induction 1; simpl; [done|]. rewrite IHForall. by rewrite decide_False. Qed.

Lemma contains_false s c : Forall (fun x => x <> c) s -> contains s c = false.
Proof.
  intros H. unfold contains. assert (IndexByte s c = None) as ->; [|done].
  induction H; simpl; [done|]. rewrite decide_False by done. by rewrite IHForall.
Qed.

Lemma SplitHostPort_plain host port :
  plain_host host -> plain_port port -> SplitHostPort (host ++ bs ":" ++ port) = Ok (host, port).
Proof.
  intros Hh Hp. unfold SplitHostPort. change (bs ":" ++ port) with (x3a :: port).
  assert (Hp3 : Forall (fun x => x <> x3a) port)
    by (eapply Forall_impl; [exact Hp|intros x Hx; apply Hx]).
  assert (Hh3 : Forall (fun x => x <> x3a) host)
    by (eapply Forall_impl; [exact Hh|intros x Hx; apply Hx]).
  rewrite LastIndexByte_app by by apply LastIndexByte_None.
  assert (Hb : forall c, c = x5b \/ c = x5d -> Forall (fun x => x <> c) (host ++ x3a :: port)).
  { intros c Hc. apply Forall_app. split; [|constructor].
    - eapply Forall_impl; [exact Hh|]. intros x (? & ? & ? & ?). by destruct Hc; subst.
    - by destruct Hc; subst.
    - eapply Forall_impl; [exact Hp|]. intros x (? & ? & ?). by destruct Hc; subst. }
  rewrite bool_decide_false.
  2: { pose proof (Hb x5b ltac:(by left)) as Hx. destruct (host ++ x3a :: port); [done|].
       inversion Hx; subst. simpl. congruence. }
  rewrite take_app_length, (contains_false host) by done. cbn [mbind result_bind drop].
  rewrite !contains_false by auto. f_equal. f_equal.
  rewrite <-(Nat.add_1_r (length host)), <-drop_drop, drop_app_length. done.
Qed.

(** No ["://"] in an address without a slash. *)
Lemma Index_no_scheme s : Forall (fun c => c <> x2f) s -> Index s (bs "://") = None.
Proof.
  induction 1 as [|c s Hc Hs IH]; [done|]. cbn [Index].
  rewrite IH. assert (HasPrefix (c :: s) (bs "://") = false) as ->; [|done].
  apply bool_decide_false. change (bs "://") with [x3a; x2f; x2f].
  intros E. destruct s as [|c' s]; [done|]. inversion Hs; subst. simpl in E. congruence.
Qed.

Lemma Index_scheme scheme rest :
  Forall (fun c => c <> x3a) scheme -> Index (scheme ++ bs "://" ++ rest) (bs "://") = Some (length scheme).
Proof.
  induction 1 as [|c s Hc _ IH].
  - assert (E : HasPrefix (bs "://" ++ rest) (bs "://") = true)
      by (apply bool_decide_true; apply take_app_length).
    change (bs "://" ++ rest) with (x3a :: x2f :: x2f :: rest) in *.
    cbn [app Index length]. by rewrite E.
  - cbn [app Index length].
    rewrite IH. assert (HasPrefix (c :: s ++ bs "://" ++ rest) (bs "://") = false) as ->; [|done].
    apply bool_decide_false. change (bs "://") with [x3a; x2f; x2f]. simpl. congruence.
Qed.

(** [HostOf] of a dial target ["scheme://host:port"], of a peer address
    ["host:port"] and of a bare host is that host. *)
Lemma HostOf_forms scheme host port port' :
  Forall (fun c => c <> x3a) scheme ->
  plain_host host -> plain_port port -> Forall (fun c => c <> x2f) port' -> plain_port port' ->
  HostOf (scheme ++ bs "://" ++ host ++ bs ":" ++ port) = host /\
  HostOf (host ++ bs ":" ++ port') = host /\
  HostOf host = host.
Proof.
  intros Hs Hh Hp Hp2 Hp'.
  assert (Hh2 : Forall (fun x => x <> x2f) host)
    by (eapply Forall_impl; [exact Hh|intros x Hx; apply Hx]).
  assert (Hh3 : Forall (fun x => x <> x3a) host)
    by (eapply Forall_impl; [exact Hh|intros x Hx; apply Hx]).
  unfold HostOf, beq. split; [|split].
  - rewrite bool_decide_false by by destruct scheme.
    rewrite Index_scheme by done.
    rewrite <-drop_drop, drop_app_length. change (drop 3 (bs "://" ++ ?x)) with x.
    by rewrite SplitHostPort_plain.
  - rewrite bool_decide_false by by destruct host.
    rewrite Index_no_scheme, SplitHostPort_plain; [done..|].
    apply Forall_app. split; [done|]. by constructor.
  - case_bool_decide; [done|]. rewrite Index_no_scheme by done.
    unfold SplitHostPort. by rewrite LastIndexByte_None.
Qed.
