(* ===== verification/BridgeServer.v ===== *)
(** * The gRPC server ([server/server.go], [server/auth.go], [server/initial.go])

    Every RPC handler over the server's mutable world - the replay guard, the
    file system its state lives in, the signing backend, the lines the
    handlers log - together with a record of every digest handed to the
    backend's [SignRaw], and the chain of interceptors in front of them.

    Third-party code is a parameter: the cosmos transaction decoder, bech32
    and the public-key derivations ([NodeLib]), go-ethereum's ABI and Keccak
    ([GoEthereum]), the cryptography ([Crypto]) and the backend ([Signer]).
    The deadline of the request context is an error of the backend call. *)

From S2P Require Import Prelude GoStd Sha256 Abi Checkpoint Attestation Fs Json ReplayGuard.
From S2P Require Import Logging Asn1 Signer Arbiter.

(** ** Messages ([api/gen/signer/v1]) *)

Record BridgeValidator := PBValidator { pbEthereumAddress : bytes; pbPower : Z }.

Record SignBridgeCheckpointRequest := CheckpointReq {
  DomainSeparator : bytes;
  PowerThreshold : Z;
  ValidatorTimestamp : Z;
  ValidatorSetHash : bytes;
  ValidatorSet : list BridgeValidator;
  BlockHeight : Z;
  CheckpointIndex : Z;
  ChainId : bytes;
  ExpectedCheckpoint : bytes;
  ckRequestId : bytes;
}.

Record SignOracleAttestationRequest := AttestationReq {
  QueryId : bytes;
  Value : bytes;
  Timestamp : Z;
  AggregatePower : Z;
  PreviousTimestamp : Z;
  NextTimestamp : Z;
  ValsetCheckpoint : bytes;
  AttestationTimestamp : Z;
  LastConsensusTimestamp : Z;
  ExpectedSnapshot : bytes;
  atRequestId : bytes;
}.

(** A request, by method. *)
Inductive request :=
| SignRequest (msg : bytes)
| GetPublicKeyRequest
| SignRawRequest (msg : bytes)
| GetAddressRequest (prefix : bytes)
| SignTxRequest (sign_doc request_id : bytes)
| GetChainIDRequest
| CheckpointRequest (r : SignBridgeCheckpointRequest)
| OracleRequest (r : SignOracleAttestationRequest)
| SignInitialRequest (operator_address request_id : bytes).

Inductive response :=
| SignResponse (signature : bytes)
| GetPublicKeyResponse (public_key : bytes)
| SignRawResponse (signature : bytes)
| GetAddressResponse (address : bytes)
| GetChainIDResponse (chain_id : bytes)
| SignTxResponse (signature : bytes)
| CheckpointResponse (signature checkpoint : bytes)
| OracleResponse (signature snapshot : bytes)
| SignInitialResponse (signatureA signatureB : bytes).

Definition service : bytes := bs "/signer.v1.BridgeSigner/".
Definition MethodSign : bytes := service ++ bs "Sign".
Definition MethodGetPublicKey : bytes := service ++ bs "GetPublicKey".
Definition MethodSignRaw : bytes := service ++ bs "SignRaw".
Definition MethodGetAddress : bytes := service ++ bs "GetAddress".
Definition MethodSignTx : bytes := service ++ bs "SignTx".
Definition MethodGetChainID : bytes := service ++ bs "GetChainID".
Definition MethodSignBridgeCheckpoint : bytes := service ++ bs "SignBridgeCheckpoint".
Definition MethodSignOracleAttestation : bytes := service ++ bs "SignOracleAttestation".
Definition MethodSignInitial : bytes := service ++ bs "SignInitial".

Definition FullMethodName (r : request) : bytes :=
  match r with
  | SignRequest _ => MethodSign
  | GetPublicKeyRequest => MethodGetPublicKey
  | SignRawRequest _ => MethodSignRaw
  | GetAddressRequest _ => MethodGetAddress
  | SignTxRequest _ _ => MethodSignTx
  | GetChainIDRequest => MethodGetChainID
  | CheckpointRequest _ => MethodSignBridgeCheckpoint
  | OracleRequest _ => MethodSignOracleAttestation
  | SignInitialRequest _ _ => MethodSignInitial
  end.

(** ** [auth.go] *)

Definition shortRPCNameToFullMethod : list (bytes * bytes) :=
  [(bs "sign_raw", MethodSignRaw);
   (bs "sign_tx", MethodSignTx);
   (bs "sign_bridge_checkpoint", MethodSignBridgeCheckpoint);
   (bs "sign_oracle_attestation", MethodSignOracleAttestation);
   (bs "sign_initial", MethodSignInitial);
   (bs "sign", MethodSign);
   (bs "get_public_key", MethodGetPublicKey);
   (bs "get_address", MethodGetAddress);
   (bs "get_chain_id", MethodGetChainID)].

Definition full_of_short (name : bytes) : option bytes :=
  snd <$> (snd <$> list_find (fun p => fst p = name) shortRPCNameToFullMethod).

(** The loop over the config map; [nil] and empty give the same lookups. *)
Definition EnabledRPCsFromConfig (cfg : gmap bytes bool) : gmap bytes bool :=
  map_fold (fun name enabled out =>
              match full_of_short name with
              | Some full => <[full := enabled]> out
              | None => out
              end) ∅ cfg.

Definition KnownShortRPCNames : gset bytes := list_to_set (map fst shortRPCNameToFullMethod).

(** ** [initial.go] *)

Definition initialRegistrationMessages (operatorAddress : bytes) : bytes * bytes :=
  (bs "TellorLayer: Initial bridge signature A for operator " ++ operatorAddress,
   bs "TellorLayer: Initial bridge signature B for operator " ++ operatorAddress).

Definition initialSigningDigest (message : bytes) : bytes :=
  sha256_Sum256 (sha256_Sum256 message).

(** ** The server *)

(** cosmos-sdk's transaction and address code, go-ethereum's key code. *)
Class NodeLib := {
  SignDoc_Unmarshal : bytes -> result bytes;           (** [body_bytes] *)
  TxBody_Unmarshal : bytes -> result (list bytes);     (** [type_url]s *)
  DecodeAndConvert : bytes -> result (bytes * bytes);
  pubkey : Type;
  DecompressPubkey : bytes -> result pubkey;
  PubkeyToAddress : pubkey -> bytes;
  Address_Hex : bytes -> bytes;                        (** [common.Address.Hex] *)
}.

(** [Credentials] belong to the transport; [PrimaryHost] is read at every call
    and is an argument of [serve]. *)
Record Config := ServerConfig {
  ListenAddr : bytes;
  RequestTimeout : Z;
  MaxRecvMsgSize : Z;
  AllowedMsgTypes : list bytes;
  cfgChainID : bytes;
  CheckpointGuardStatePath : bytes;
  EnabledRPCs : gmap bytes bool;
  EnableReflection : bool;
}.

(** The signer, the logger and the gRPC server object are not fields here: the
    backend, the guard and the lines logged are part of [world]. *)
Record Server := MkServer {
  requestTimeout : Z;
  listenAddr : bytes;
  allowedMsgTypes : gset bytes;
  chainID : bytes;
  selfEVMAddr : bytes;
  selfCosmosAddr : bytes;
  enabledRPCs : gmap bytes bool;
}.

(** What the handlers share and change; [w_log] is the digests handed to the
    backend and [w_lines] the lines logged, both newest first. *)
Record world (B : Type) := World {
  w_guard : guard;
  w_fs : fs;
  w_backend : B;
  w_log : list bytes;
  w_lines : list log_record;
}.
Arguments World {_} _ _ _ _ _.
Arguments w_guard {_} _.
Arguments w_fs {_} _.
Arguments w_backend {_} _.
Arguments w_log {_} _.
Arguments w_lines {_} _.

Definition add_lines {B} (ls : list log_record) (w : world B) : world B :=
  World (w_guard w) (w_fs w) (w_backend w) (w_log w) (ls ++ w_lines w).

(** Worlds that differ at most in the lines logged. *)
#[export] Instance world_equiv {B} : Equiv (world B) := fun w w' =>
  w_guard w = w_guard w' /\ w_fs w = w_fs w' /\ w_backend w = w_backend w' /\ w_log w = w_log w'.

#[export] Instance world_equivalence {B} : Equivalence (≡@{world B}).
Proof.
  split.
  - done.
  - intros w w' (? & ? & ? & ?). done.
  - intros w1 w2 w3 (? & ? & ? & ?) (? & ? & ? & ?). unfold equiv, world_equiv. split; [congruence|].
    split; [congruence|]. split; congruence.
Qed.
#[export] Instance w_guard_proper {B} : Proper ((≡) ==> (=)) (@w_guard B).
Proof. by intros w w' (? & _). Qed.
#[export] Instance w_fs_proper {B} : Proper ((≡) ==> (=)) (@w_fs B).
Proof. by intros w w' (_ & ? & _). Qed.
#[export] Instance w_backend_proper {B} : Proper ((≡) ==> (=)) (@w_backend B).
Proof. by intros w w' (_ & _ & ? & _). Qed.
#[export] Instance w_log_proper {B} : Proper ((≡) ==> (=)) (@w_log B).
Proof. by intros w w' (_ & _ & _ & ?). Qed.

Lemma add_lines_equiv {B} ls (w : world B) : add_lines ls w ≡ w.
Proof. done. Qed.
Lemma add_lines_nil {B} (w : world B) : add_lines [] w = w.
Proof. by destruct w. Qed.
Lemma add_lines_app {B} l k (w : world B) : add_lines l (add_lines k w) = add_lines (l ++ k) w.
Proof. unfold add_lines. cbn. by rewrite app_assoc. Qed.

Definition status {A} (c : code) (fmt : string) (args : list farg) : result A :=
  Err (StatusErr c fmt args).

(** [status.Errorf(code, "...: %v", err)]. *)
Definition status_of (c : code) (fmt : string) (e : error) : error := StatusErr c fmt [AErr e].

Definition blindSigningDisabledMsg : string :=
  "blind signing is disabled; use SignTx / SignBridgeCheckpoint / SignOracleAttestation".

Section Server.
Context {C : Crypto} {E : GoEthereum} {L : NodeLib} {B : Type} {S : Signer B}.
Abbreviation W := (world B).

(** The handlers' calls into their collaborators. *)
Definition call_signer {A} (m : ST B A) : ST W A := fun w =>
  let '(r, b) := m (w_backend w) in (r, World (w_guard w) (w_fs w) b (w_log w) (w_lines w)).

Definition call_SignRaw (digest : bytes) : ST W bytes := fun w =>
  let '(r, b) := Signer.SignRaw digest (w_backend w) in
  (r, World (w_guard w) (w_fs w) b (digest :: w_log w) (w_lines w)).

Definition call_guard {A} (m : ST gfs A) : ST W A := fun w =>
  let '(r, (g, s)) := m (w_guard w, w_fs w) in (r, World g s (w_backend w) (w_log w) (w_lines w)).

Definition log (line : log_record) : ST W () := fun w => (Ok (), add_lines [line] w).

(** A computation that only logs. *)
Definition logged {A} (m : LR A) : ST W A := fun w => (fst m, add_lines (snd m) w).

(** The error of an outcome, [nil] when there is none. *)
Definition err_of {A} (r : result A) : option error :=
  match r with Err e => Some e | _ => None end.

(** A panic passes; any other outcome is logged by [line] and returned. *)
Definition log_outcome {A} (line : option error -> log_record) (m : ST W A) : ST W A := fun w =>
  match m w with
  | (Panic, w') => (Panic, w')
  | (r, w') => (r, add_lines [line (err_of r)] w')
  end.

(** [New]: the server and the guard it starts with. *)
Definition New (cfg : Config) (b : B) : ST fs (Server * guard * B) := (
  let '(rk, b') := Signer.GetPublicKey b in
  pubKey <- st_lift (map_err (errw "get public key for self EVM address: %w") rk) ;;
  ecdsaPub <- st_lift (map_err (errw "decompress public key for self EVM address: %w")
                         (DecompressPubkey pubKey)) ;;
  guard <- st_map_err (errw "init checkpoint replay guard: %w")
             (newCheckpointReplayGuard (CheckpointGuardStatePath cfg)) ;;
  st_ret (MkServer (RequestTimeout cfg) (ListenAddr cfg) (list_to_set (AllowedMsgTypes cfg)) (cfgChainID cfg)
            (PubkeyToAddress ecdsaPub) (cosmos_Address pubKey) (EnabledRPCs cfg), guard, b'))%go.

Definition Sign (srv : Server) (msg : bytes) : ST W response :=
  st_lift (status Unimplemented blindSigningDisabledMsg []).
Definition SignRaw (srv : Server) (msg : bytes) : ST W response :=
  st_lift (status Unimplemented blindSigningDisabledMsg []).

Definition GetPublicKey (srv : Server) : ST W response := (
  pubKey <- st_map_err (status_of Internal "failed to get public key: %v")
              (log_outcome AuditGetPublicKey (call_signer Signer.GetPublicKey)) ;;
  if negb (len pubKey =? 33) then
    st_lift (status Internal "invalid public key length %d, expected 33" [AInt (len pubKey)])
  else st_ret (GetPublicKeyResponse pubKey))%go.

Definition GetAddress (srv : Server) (prefix : bytes) : ST W response := (
  addr <- st_map_err (status_of InvalidArgument "derive address: %v")
            (call_signer (Bech32Address prefix)) ;;
  st_ret (GetAddressResponse addr))%go.

Definition GetChainID (srv : Server) : ST W response :=
  if beq (chainID srv) [] then
    st_lift (status FailedPrecondition "chain ID is not configured on the signer" [])
  else st_ret (GetChainIDResponse (chainID srv)).

(** The length check that follows [SignRaw]. *)
Definition check64 (sig : bytes) (badlen : string) : ST W bytes :=
  if negb (len sig =? 64) then st_lift (status Internal badlen [AInt (len sig)]) else st_ret sig.

Definition sign64 (digest : bytes) (failed badlen : string) : ST W bytes := (
  sig <- st_map_err (status_of Internal failed) (call_SignRaw digest) ;;
  check64 sig badlen)%go.

(** [SignRaw] with its audit line. *)
Definition audited_sign64 (requestID digest : bytes) : ST W bytes := (
  sig <- st_map_err (status_of Internal "signing failed: %v")
           (log_outcome (AuditSign requestID digest) (call_SignRaw digest)) ;;
  check64 sig "invalid signature length %d, expected 64")%go.

Definition SignInitial (srv : Server) (operatorAddress requestId : bytes) : ST W response := (
  if beq operatorAddress [] then
    st_lift (status InvalidArgument "operator_address must not be empty" [])
  else
    hrp_addr <- st_lift (map_err (status_of InvalidArgument "invalid operator_address: %v")
                           (DecodeAndConvert operatorAddress)) ;;
    if negb (beq (snd hrp_addr) (selfCosmosAddr srv)) then
      log (Error "SignInitial rejected: operator_address does not match signer key"
             [("request_id", VStr requestId); ("operator_address", VStr operatorAddress)]%string) ;;;
      st_lift (status PermissionDenied "operator_address does not derive from the signer key" [])
    else
      let '(msgA, msgB) := initialRegistrationMessages operatorAddress in
      sigA <- sign64 (initialSigningDigest msgA) "signing A failed: %v"
                "invalid signature A length %d, expected 64" ;;
      sigB <- sign64 (initialSigningDigest msgB) "signing B failed: %v"
                "invalid signature B length %d, expected 64" ;;
      log (Info "SignInitial completed"
             [("event", VStr (bs "sign_initial")); ("request_id", VStr requestId);
              ("operator_address", VStr operatorAddress); ("success", VBool true)]%string) ;;;
      st_ret (SignInitialResponse sigA sigB))%go.

(** The allowlist loop. *)
Fixpoint check_types (requestId : bytes) (allowed : gset bytes) (urls : list bytes) : LR () :=
  match urls with
  | [] => lr_lift (Ok ())
  | u :: urls' =>
      if bool_decide (u ∈ allowed) then check_types requestId allowed urls'
      else (status PermissionDenied "message type %q is not allowed" [AStr u],
            [Error "SignTx rejected: message type not on allowlist"
               [("type_url", VStr u); ("request_id", VStr requestId)]%string])
  end.

Definition SignTx (srv : Server) (signDoc requestId : bytes) : ST W response := (
  if len signDoc =? 0 then st_lift (status InvalidArgument "sign_doc must not be empty" [])
  else
    bodyBytes <- st_lift (map_err (status_of InvalidArgument "failed to decode sign_doc: %v")
                            (SignDoc_Unmarshal signDoc)) ;;
    messages <- st_lift (map_err (status_of InvalidArgument "failed to decode tx body: %v")
                           (TxBody_Unmarshal bodyBytes)) ;;
    if len messages =? 0 then
      st_lift (status PermissionDenied "sign_doc carries no messages" [])
    else
      logged (check_types requestId (allowedMsgTypes srv) messages) ;;;
      let hash := sha256_Sum256 signDoc in
      sig <- st_map_err (status_of Internal "signing failed: %v") (call_SignRaw hash) ;;
      log (AuditSign requestId hash None) ;;;
      st_ret (SignTxResponse sig))%go.

(** *** [SignBridgeCheckpoint] *)

(** Step 1: the validators, checked and copied. *)
Fixpoint copy_validators (i : Z) (l : list BridgeValidator) : result (list bridgeValidator) :=
  match l with
  | [] => Ok []
  | v :: l' =>
      if negb (len (pbEthereumAddress v) =? 20) then
        status InvalidArgument "validator_set[%d].ethereum_address must be 20 bytes, got %d"
          [AInt i; AInt (len (pbEthereumAddress v))]
      else if pbPower v =? 0 then
        status InvalidArgument "validator_set[%d].power must be > 0" [AInt i]
      else
        vs ← copy_validators (i + 1) l';
        Ok (BV (pbEthereumAddress v) (pbPower v) :: vs)
  end.

(** Step 3: [uint64] arithmetic. *)
Definition total_power (vs : list bridgeValidator) : Z :=
  foldl (fun acc v => u64 (acc + Power v)) 0 vs.
Definition want_threshold (vs : list bridgeValidator) : Z := u64 (total_power vs * 2) / 3.

Definition is_member (srv : Server) (vs : list bridgeValidator) : bool :=
  existsb (fun v => beq (BytesToAddress (EthereumAddress v)) (selfEVMAddr srv)) vs.

(** Steps 1 to 6: the recomputed checkpoint, or the reason to refuse. *)
Definition recompute_checkpoint (srv : Server) (req : SignBridgeCheckpointRequest) : LR bytes := (
  _ <-- lr_gate (negb (len (DomainSeparator req) =? 32)) []
          (StatusErr InvalidArgument "domain_separator must be 32 bytes, got %d" [AInt (len (DomainSeparator req))]) ;;
  _ <-- lr_gate (negb (len (ValidatorSetHash req) =? 32)) []
          (StatusErr InvalidArgument "validator_set_hash must be 32 bytes, got %d" [AInt (len (ValidatorSetHash req))]) ;;
  _ <-- lr_gate (negb (len (ExpectedCheckpoint req) =? 32)) []
          (StatusErr InvalidArgument "expected_checkpoint must be 32 bytes, got %d" [AInt (len (ExpectedCheckpoint req))]) ;;
  _ <-- lr_gate (len (ValidatorSet req) =? 0) []
          (StatusErr InvalidArgument "validator_set must not be empty" []) ;;
  _ <-- lr_gate (beq (ChainId req) []) []
          (StatusErr InvalidArgument "chain_id must not be empty" []) ;;
  vs0 <-- lr_lift (copy_validators 0 (ValidatorSet req)) ;;
  let vs := sortBridgeValidators vs0 in
  enc_hash <-- lr_lift (map_err (status_of Internal "encode validator set: %v") (encodeAndHashValidatorSet vs)) ;;
  let valsetHash := snd enc_hash in
  _ <-- lr_gate (negb (beq valsetHash (ValidatorSetHash req)))
          [Error "SignBridgeCheckpoint rejected: validator_set_hash mismatch"
             [("request_id", VStr (ckRequestId req)); ("computed", VStr (hex_EncodeToString valsetHash));
              ("claimed", VStr (hex_EncodeToString (ValidatorSetHash req)))]%string]
          (StatusErr InvalidArgument "validator_set_hash mismatch" []) ;;
  let wantThreshold := want_threshold vs in
  _ <-- lr_gate (negb (wantThreshold =? PowerThreshold req)) []
          (StatusErr InvalidArgument "power_threshold mismatch: computed %d, claimed %d"
             [AInt wantThreshold; AInt (PowerThreshold req)]) ;;
  domainSep <-- lr_lift (map_err (status_of Internal "compute domain separator: %v")
                  (computeDomainSeparator (ChainId req))) ;;
  _ <-- lr_gate (negb (beq domainSep (DomainSeparator req))) []
          (StatusErr InvalidArgument "domain_separator mismatch for chain_id %q" [AStr (ChainId req)]) ;;
  _ <-- lr_gate (negb (is_member srv vs))
          [Error "SignBridgeCheckpoint rejected: signer not a member of validator_set"
             [("request_id", VStr (ckRequestId req)); ("self_evm_addr", VStr (Address_Hex (selfEVMAddr srv)))]%string]
          (StatusErr PermissionDenied "signer is not a member of the validator set" []) ;;
  checkpoint <-- lr_lift (map_err (status_of Internal "encode checkpoint: %v")
                   (encodeValsetCheckpoint domainSep (PowerThreshold req) (ValidatorTimestamp req) valsetHash)) ;;
  _ <-- lr_gate (negb (beq checkpoint (ExpectedCheckpoint req)))
          [Error "SignBridgeCheckpoint rejected: checkpoint mismatch"
             [("request_id", VStr (ckRequestId req)); ("computed", VStr (hex_EncodeToString checkpoint));
              ("expected", VStr (hex_EncodeToString (ExpectedCheckpoint req)))]%string]
          (StatusErr InvalidArgument "checkpoint mismatch" []) ;;
  lr_lift (Ok checkpoint))%go.

(** What a handler sees of its context: the peer's address, when it has one. *)
Definition context := option bytes.

Definition peerAddr (ctx : context) : bytes :=
  match ctx with Some a => a | None => bs "unknown" end.

(** The attributes most lines of a checkpoint request share. *)
Definition ck_attrs (req : SignBridgeCheckpointRequest) : list (string * avalue) :=
  [("request_id", VStr (ckRequestId req)); ("validator_timestamp", VInt (ValidatorTimestamp req))]%string.

Definition checkpoint_completed (ctx : context) (req : SignBridgeCheckpointRequest) (checkpoint : bytes)
    : log_record :=
  Info "SignBridgeCheckpoint completed"
    [("event", VStr (bs "sign_bridge_checkpoint")); ("request_id", VStr (ckRequestId req));
     ("remote_addr", VStr (peerAddr ctx)); ("chain_id", VStr (ChainId req));
     ("block_height", VInt (BlockHeight req)); ("checkpoint_index", VInt (CheckpointIndex req));
     ("validator_timestamp", VInt (ValidatorTimestamp req));
     ("checkpoint", VStr (hex_EncodeToString checkpoint)); ("success", VBool true)]%string.

Definition SignBridgeCheckpoint (srv : Server) (ctx : context) (req : SignBridgeCheckpointRequest)
    : ST W response := (
  checkpoint <- logged (recompute_checkpoint srv req) ;;
  adv <- st_try (call_guard (CheckAndAdvance (ValidatorTimestamp req))) ;;
  match adv with
  | Err err =>
      w <- st_get ;;
      match (if errors_Is err ErrReplayGuardRejected
             then CachedSignature (w_guard w) (ValidatorTimestamp req) checkpoint else None) with
      | Some sig =>
          log (Debug "SignBridgeCheckpoint replay guard: repeat checkpoint, returning memoized signature"
                 (ck_attrs req)) ;;;
          st_ret (CheckpointResponse sig checkpoint)
      | None =>
          log (if errors_Is err ErrReplayGuardRejected
               then Debug "SignBridgeCheckpoint replay guard: repeat checkpoint, not re-signing (expected until the valset changes)"
                      (ck_attrs req)
               else Error "SignBridgeCheckpoint replay guard failure"
                      (ck_attrs req ++ [("error"%string, VErr err)])) ;;;
          st_lift (status FailedPrecondition "replay guard: %v" [AErr err])
      end
  | Panic => st_lift Panic
  | Ok _ =>
      sig <- audited_sign64 (ckRequestId req) (sha256_Sum256 checkpoint) ;;
      recorded <- st_try (call_guard (RecordSignature (ValidatorTimestamp req) checkpoint sig)) ;;
      match recorded with
      | Panic => st_lift Panic
      | Err err =>
          log (Error "SignBridgeCheckpoint: failed to memoize signature; a repeat of this checkpoint will be rejected"
                 (ck_attrs req ++ [("error"%string, VErr err)]))
      | Ok _ => st_ret ()
      end ;;;
      log (checkpoint_completed ctx req checkpoint) ;;;
      st_ret (CheckpointResponse sig checkpoint)
  end)%go.

(** *** [SignOracleAttestation] *)

Definition attestation_of (req : SignOracleAttestationRequest) : attestation :=
  Attestation (QueryId req) (Value req) (Timestamp req) (AggregatePower req)
    (PreviousTimestamp req) (NextTimestamp req) (ValsetCheckpoint req)
    (AttestationTimestamp req) (LastConsensusTimestamp req).

Definition recompute_snapshot (req : SignOracleAttestationRequest) : LR bytes := (
  _ <-- lr_gate ((len (QueryId req) =? 0) || (len (QueryId req) >? 32)) []
          (StatusErr InvalidArgument "query_id must be 1..32 bytes, got %d" [AInt (len (QueryId req))]) ;;
  _ <-- lr_gate (negb (len (ValsetCheckpoint req) =? 32)) []
          (StatusErr InvalidArgument "valset_checkpoint must be 32 bytes, got %d" [AInt (len (ValsetCheckpoint req))]) ;;
  _ <-- lr_gate (negb (len (ExpectedSnapshot req) =? 32)) []
          (StatusErr InvalidArgument "expected_snapshot must be 32 bytes, got %d" [AInt (len (ExpectedSnapshot req))]) ;;
  snapshot <-- lr_lift (map_err (status_of Internal "encode oracle attestation: %v")
                 (encodeOracleAttestation (attestation_of req))) ;;
  _ <-- lr_gate (negb (beq snapshot (ExpectedSnapshot req)))
          [Error "SignOracleAttestation rejected: snapshot mismatch"
             [("request_id", VStr (atRequestId req)); ("computed", VStr (hex_EncodeToString snapshot));
              ("expected", VStr (hex_EncodeToString (ExpectedSnapshot req)))]%string]
          (StatusErr InvalidArgument "snapshot mismatch" []) ;;
  lr_lift (Ok snapshot))%go.

Definition SignOracleAttestation (srv : Server) (ctx : context) (req : SignOracleAttestationRequest)
    : ST W response := (
  snapshot <- logged (recompute_snapshot req) ;;
  sig <- audited_sign64 (atRequestId req) (sha256_Sum256 snapshot) ;;
  log (Info "SignOracleAttestation completed"
         [("event", VStr (bs "sign_oracle_attestation")); ("request_id", VStr (atRequestId req));
          ("remote_addr", VStr (peerAddr ctx)); ("timestamp", VInt (Timestamp req));
          ("aggregate_power", VInt (AggregatePower req));
          ("snapshot", VStr (hex_EncodeToString snapshot)); ("success", VBool true)]%string) ;;;
  st_ret (OracleResponse sig snapshot))%go.

(** The generated service descriptor: one handler per method. *)
Definition handle (srv : Server) (ctx : context) (req : request) : ST W response :=
  match req with
  | SignRequest m => Sign srv m
  | GetPublicKeyRequest => GetPublicKey srv
  | SignRawRequest m => SignRaw srv m
  | GetAddressRequest p => GetAddress srv p
  | SignTxRequest d rid => SignTx srv d rid
  | GetChainIDRequest => GetChainID srv
  | CheckpointRequest r => SignBridgeCheckpoint srv ctx r
  | OracleRequest r => SignOracleAttestation srv ctx r
  | SignInitialRequest a rid => SignInitial srv a rid
  end.

(** ** Interceptors *)

(** What an interceptor sees of a call: the method, and the peer's address
    when the context carries one. *)
Record call_info := CallInfo { FullMethod : bytes; peer : option bytes }.

Definition handler := ST W response.
Definition interceptor := call_info -> handler -> handler.

Definition connection_lines (from : option bytes) : list log_record :=
  match from with Some a => [AuditConnection a] | None => [] end.

Definition panic_line (method : bytes) : log_record :=
  Error "panic recovered in gRPC handler" [("method", VStr method)]%string.

(** The connection audit and panic recovery; the deadline reaches the backend
    through the context.  The panic's value is not kept in its line. *)
Definition newUnaryInterceptor : interceptor := fun ci h w =>
  match h (add_lines (connection_lines (peer ci)) w) with
  | (Panic, w') => (status Internal "internal server error" [], add_lines [panic_line (FullMethod ci)] w')
  | rw => rw
  end.

Definition newEnabledRPCInterceptor (enabled : gmap bytes bool) : interceptor := fun ci h =>
  match enabled !! FullMethod ci with
  | Some false => st_lift (status Unimplemented "method %s is disabled" [AStr (FullMethod ci)])
  | _ => h
  end.

Definition primaryGatedRPCs : list bytes :=
  [bs "/signer.v1.BridgeSigner/SignBridgeCheckpoint";
   bs "/signer.v1.BridgeSigner/SignOracleAttestation"].

Definition refused_line (method got want : bytes) : log_record :=
  Debug "refusing vote-extension sign request from non-primary node"
    [("method", VStr method); ("from", VStr got); ("primary", VStr want)]%string.

(** [primaryHost]: [None] is a nil function, [Some h] its answer now. *)
Definition newPrimaryGateInterceptor (primaryHost : option bytes) : interceptor := fun ci h =>
  match primaryHost with
  | None => h
  | Some want =>
      if negb (bool_decide (FullMethod ci ∈ primaryGatedRPCs)) then h
      else if beq want [] then h
      else match peer ci with
           | None => h
           | Some addr =>
               if beq (HostOf addr) want then h
               else
                 (log (refused_line (FullMethod ci) (HostOf addr) want) ;;;
                  st_lift (status FailedPrecondition "not the primary signer" []))%go
           end
  end.

(** The first interceptor runs outermost. *)
Fixpoint chainUnaryInterceptors (l : list interceptor) : interceptor := fun ci h =>
  match l with
  | [] => h
  | ic :: l' => ic ci (chainUnaryInterceptors l' ci h)
  end.

Definition server_chain (srv : Server) (primaryHost : option bytes) : interceptor :=
  chainUnaryInterceptors
    [newUnaryInterceptor; newEnabledRPCInterceptor (enabledRPCs srv); newPrimaryGateInterceptor primaryHost].

(** A call as it arrives. *)
Definition serve (srv : Server) (primaryHost : option bytes) (from : option bytes) (req : request)
    : ST W response :=
  server_chain srv primaryHost (CallInfo (FullMethodName req) from) (handle srv from req).
End Server.

Lemma New_inv `{C : Crypto} `{L : NodeLib} {B} {S : Signer B} cfg (b b' : B) s srv g s' :
  New cfg b s = (Ok (srv, g, b'), s') ->
  exists pk pub, Signer.GetPublicKey b = (Ok pk, b') /\ DecompressPubkey pk = Ok pub /\
    newCheckpointReplayGuard (CheckpointGuardStatePath cfg) s = (Ok g, s') /\
    srv = MkServer (RequestTimeout cfg) (ListenAddr cfg) (list_to_set (AllowedMsgTypes cfg)) (cfgChainID cfg)
            (PubkeyToAddress pub) (cosmos_Address pk) (EnabledRPCs cfg).
Proof.
  unfold New. destruct (Signer.GetPublicKey b) as [[pk| |] b1] eqn:Ek; [|done..].
  unfold st_bind, st_lift, st_map_err, st_ret. cbn [map_err].
  destruct (DecompressPubkey pk) as [pub| |] eqn:Ep; cbn [map_err]; [|done..].
  destruct (newCheckpointReplayGuard _ _) as [[g1| |] s1] eqn:Eg; cbn [map_err]; try done.
  intros Heq. injection Heq as <- <- <- <-. by exists pk, pub.
Qed.

(** ** Reasoning about the signing log *)

Section Signs.
Context {B : Type}.

(** Every digest [m] hands to the backend satisfies [P]. *)
Definition signs {A} (P : bytes -> Prop) (m : ST (world B) A) : Prop :=
  forall w r w', m w = (r, w') -> exists ds, w_log w' = ds ++ w_log w /\ Forall P ds.

Lemma signs_ret {A} P (a : A) : signs P (st_ret a).
Proof. intros w r w' [= <- <-]. by exists []. Qed.
Lemma signs_lift {A} P (x : result A) : signs P (st_lift x).
Proof. intros w r w' [= <- <-]. by exists []. Qed.
Lemma signs_get P : signs P (@st_get (world B)).
Proof. intros w r w' [= <- <-]. by exists []. Qed.

Lemma signs_bind {A A'} P (m : ST (world B) A) (k : A -> ST (world B) A') :
  signs P m -> (forall a, signs P (k a)) -> signs P (st_bind m k).
Proof.
  intros Hm Hk w r w'. unfold st_bind. destruct (m w) as [[a| |] w1] eqn:E1.
  - intros E2. destruct (Hm _ _ _ E1) as (d1 & L1 & F1), (Hk _ _ _ _ E2) as (d2 & L2 & F2).
    exists (d2 ++ d1). rewrite L2, L1, app_assoc. split; [done|]. by apply Forall_app.
  - intros [= <- <-]. by eapply Hm.
  - intros [= <- <-]. by eapply Hm.
Qed.

(** What a gate checked is known to what runs behind it. *)
Lemma signs_bind_lift {A A'} P (x : result A) (k : A -> ST (world B) A') :
  (forall a, x = Ok a -> signs P (k a)) -> signs P (st_bind (st_lift x) k).
Proof.
  intros Hk w r w'. unfold st_bind, st_lift. destruct x as [a| |]; [by apply Hk|..];
    (intros [= <- <-]; by exists []).
Qed.

Lemma signs_map_err {A} P f (m : ST (world B) A) : signs P m -> signs P (st_map_err f m).
Proof.
  intros Hm w r w'. unfold st_map_err. destruct (m w) as [r1 w1] eqn:E. intros [= _ <-].
  by eapply Hm.
Qed.
Lemma signs_try {A} P (m : ST (world B) A) : signs P m -> signs P (st_try m).
Proof.
  intros Hm w r w'. unfold st_try. destruct (m w) as [r1 w1] eqn:E. intros [= _ <-].
  by eapply Hm.
Qed.
Lemma signs_call_guard {A} P (m : ST gfs A) : signs P (@call_guard B A m).
Proof.
  intros w r w'. unfold call_guard. destruct (m _) as [r1 [g s]]. intros [= _ <-]. by exists [].
Qed.
Lemma signs_call_signer {A} P (m : ST B A) : signs P (call_signer m).
Proof.
  intros w r w'. unfold call_signer. destruct (m _) as [r1 b]. intros [= _ <-]. by exists [].
Qed.
Lemma signs_log P line : signs P (@log B line).
Proof. intros w r w' [= _ <-]. by exists []. Qed.
Lemma signs_logged {A} P (m : LR A) : signs P (@logged B A m).
Proof. intros w r w' [= _ <-]. by exists []. Qed.
Lemma signs_log_outcome {A} P line (m : ST (world B) A) : signs P m -> signs P (log_outcome line m).
Proof.
  intros Hm w r w'. unfold log_outcome. destruct (m w) as [[a| |] w1] eqn:E;
    intros [= _ <-]; exact (Hm _ _ _ E).
Qed.
Lemma signs_bind_logged {A A'} P (x : LR A) (k : A -> ST (world B) A') :
  (forall a, fst x = Ok a -> signs P (k a)) -> signs P (st_bind (logged x) k).
Proof.
  intros Hk w r w'. unfold st_bind, logged. destruct x as [[a| |] ls]; cbn [fst snd];
    [|intros [= <- <-]; by exists []..].
  intros E. by apply (Hk a eq_refl _ _ _ E).
Qed.
Lemma signs_check64 P sig f : signs P (@check64 B sig f).
Proof. unfold check64. destruct (negb (len sig =? 64)); [apply signs_lift|apply signs_ret]. Qed.
Lemma signs_SignRaw {S : Signer B} (P : bytes -> Prop) d : P d -> signs P (call_SignRaw d).
Proof.
  intros Hd w r w'. unfold call_SignRaw. destruct (Signer.SignRaw _ _) as [r1 b]. intros [= _ <-].
  exists [d]. split; [done|by constructor].
Qed.
Lemma signs_sign64 {S : Signer B} (P : bytes -> Prop) d f1 f2 : P d -> signs P (sign64 d f1 f2).
Proof.
  intros Hd. apply signs_bind; [by apply signs_map_err, signs_SignRaw|]. intros. apply signs_check64.
Qed.
Lemma signs_audited {S : Signer B} (P : bytes -> Prop) rid d : P d -> signs P (audited_sign64 rid d).
Proof.
  intros Hd. apply signs_bind; [by apply signs_map_err, signs_log_outcome, signs_SignRaw|].
  intros. apply signs_check64.
Qed.
Lemma signs_weaken {A} (P Q : bytes -> Prop) (m : ST (world B) A) :
  (forall d, P d -> Q d) -> signs P m -> signs Q m.
Proof.
  intros HPQ Hm w r w' E. destruct (Hm _ _ _ E) as (ds & L & F). exists ds. split; [done|].
  by eapply Forall_impl.
Qed.
End Signs.

#[export] Hint Resolve signs_ret signs_lift signs_get signs_call_guard signs_call_signer : signer.
#[export] Hint Resolve signs_map_err signs_try signs_SignRaw signs_sign64 signs_audited : signer.
#[export] Hint Resolve signs_log signs_logged signs_log_outcome : signer.

(** ** What the gates check *)

Definition copied (v : BridgeValidator) : bridgeValidator := BV (pbEthereumAddress v) (pbPower v).

Definition checked_validator (v : BridgeValidator) : Prop :=
  len (pbEthereumAddress v) = 20 /\ pbPower v <> 0.

Lemma copy_validators_spec i l vs :
  copy_validators i l = Ok vs <-> Forall checked_validator l /\ vs = map copied l.
Proof.
  revert i vs. induction l as [|v l IH]; intros i vs; cbn [copy_validators map].
  - split; [intros [= <-]; by split|by intros [_ ->]].
  - rewrite Forall_cons. unfold checked_validator at 1.
    destruct (Z.eqb_spec (len (pbEthereumAddress v)) 20); cbn [negb]; [|split; [done|tauto]].
    destruct (Z.eqb_spec (pbPower v) 0); [split; [done|tauto]|].
    destruct (copy_validators (i + 1) l) as [vs'| |] eqn:E; cbn [mbind result_bind].
    + apply IH in E as [Hl ->]. split; [intros <-%(inj Ok); by split|].
      intros [_ ->]. done.
    + split; [done|]. intros [[_ Hl] _]. by rewrite (proj2 (IH (i + 1) (map copied l))) in E.
    + split; [done|]. intros [[_ Hl] _]. by rewrite (proj2 (IH (i + 1) (map copied l))) in E.
Qed.

(** The sum modulo 2^64 does not depend on the order. *)
Definition sum_power (vs : list bridgeValidator) : Z := foldr (fun v acc => Power v + acc) 0 vs.

Lemma total_power_sum vs : total_power vs = u64 (sum_power vs).
Proof.
  unfold total_power. assert (H : forall acc, foldl (fun a v => u64 (a + Power v)) (u64 acc) vs =
    u64 (acc + sum_power vs)).
  { induction vs as [|v vs IH]; intros acc; cbn [foldl sum_power foldr]; [by rewrite Z.add_0_r|].
    assert (u64 (u64 acc + Power v) = u64 (acc + Power v)) as ->
      by (unfold u64; by rewrite Z.add_mod_idemp_l).
    rewrite IH. f_equal. unfold sum_power. lia. }
  apply (H 0).
Qed.

Lemma sum_power_perm vs ws : Permutation vs ws -> sum_power vs = sum_power ws.
Proof. induction 1; simpl; lia. Qed.

Lemma want_threshold_sort vs : want_threshold (sortBridgeValidators vs) = want_threshold vs.
Proof.
  unfold want_threshold. rewrite !total_power_sum. by rewrite (sum_power_perm _ _ (sort_perm vs)).
Qed.

Lemma map_err_ok {A} f (m : result A) x : map_err f m = Ok x <-> m = Ok x.
Proof. by destruct m. Qed.

Lemma lr_lift_ok {A A'} f (m : result A) (k : A -> LR A') x :
  fst (lr_bind (lr_lift (map_err f m)) k) = Ok x <-> exists a, m = Ok a /\ fst (k a) = Ok x.
Proof.
  rewrite lr_bind_ok. cbn. destruct m; cbn; [done|..]; (split; [by intros (? & ? & _)|by intros (? & ? & _)]).
Qed.

(** The pieces of a recomputation log nothing when they succeed. *)
Ltac silence :=
  repeat first [apply silent_bind; [|intros ?] | apply silent_gate | apply silent_lift].

Section Gates.
Context {C : Crypto} {E : GoEthereum} {L : NodeLib} {B : Type} {S : Signer B}.

(** What must hold of a request for its checkpoint to be signed. *)
Record checkpoint_facts (srv : Server) (req : SignBridgeCheckpointRequest) (ckpt : bytes) : Prop := {
  cf_domain_len : len (DomainSeparator req) = 32;
  cf_hash_len : len (ValidatorSetHash req) = 32;
  cf_ckpt_len : len ckpt = 32;
  cf_nonempty : ValidatorSet req <> [];
  cf_chain : ChainId req <> [];
  cf_validators : Forall checked_validator (ValidatorSet req);
  cf_hash : exists enc,
    encodeAndHashValidatorSet (sortBridgeValidators (map copied (ValidatorSet req))) =
    Ok (enc, ValidatorSetHash req);
  cf_threshold : want_threshold (map copied (ValidatorSet req)) = PowerThreshold req;
  cf_domain : computeDomainSeparator (ChainId req) = Ok (DomainSeparator req);
  cf_member : Exists (fun v => BytesToAddress (pbEthereumAddress v) = selfEVMAddr srv) (ValidatorSet req);
  cf_encode : encodeValsetCheckpoint (DomainSeparator req) (PowerThreshold req)
                (ValidatorTimestamp req) (ValidatorSetHash req) = Ok ckpt;
  cf_expected : ckpt = ExpectedCheckpoint req;
}.

Lemma is_member_sort srv l :
  is_member srv (sortBridgeValidators (map copied l)) = true <->
  Exists (fun v => BytesToAddress (pbEthereumAddress v) = selfEVMAddr srv) l.
Proof using.
  unfold is_member. rewrite existsb_exists, Exists_exists. split.
  - intros (v & Hv%list_elem_of_In & Hb). rewrite (sort_perm _) in Hv.
    apply list_elem_of_fmap in Hv as (x & -> & Hx). exists x. split; [done|].
    by apply bool_decide_eq_true in Hb.
  - intros (x & Hx & Hb). exists (copied x). split; [|by apply bool_decide_eq_true].
    apply list_elem_of_In. rewrite (sort_perm _). apply list_elem_of_fmap. eauto.
Qed.

Lemma len_zero {A} (l : list A) : (len l =? 0) = false <-> l <> [].
Proof using. unfold len. rewrite Z.eqb_neq. destruct l; simpl; split; (done || lia). Qed.

Lemma recompute_checkpoint_spec srv req ckpt :
  fst (recompute_checkpoint srv req) = Ok ckpt <-> checkpoint_facts srv req ckpt.
Proof using.
  unfold recompute_checkpoint. rewrite !lr_gate_ok, !negb_false_iff, !Z.eqb_eq, len_zero.
  rewrite lr_bind_ok. cbn [lr_lift fst]. split.
  - intros (H1 & H2 & H3 & H4 & H5 & vs & Hc & H). apply copy_validators_spec in Hc as [Hv ->].
    apply lr_lift_ok in H as ([enc vh] & He & H). cbn [snd] in H.
    apply lr_gate_ok in H as (Hh & H). apply lr_gate_ok in H as (Ht & H).
    apply lr_lift_ok in H as (ds & Hd & H).
    apply lr_gate_ok in H as (Hds & H). apply lr_gate_ok in H as (Hm & H).
    apply lr_lift_ok in H as (ck & Hk & H).
    apply lr_gate_ok in H as (Hx & H). cbn in H. apply (inj Ok) in H as ->.
    unfold beq in *. apply negb_false_iff, bool_decide_eq_true in Hh, Hds, Hx.
    apply negb_false_iff in Ht, Hm. apply Z.eqb_eq in Ht. apply is_member_sort in Hm.
    rewrite want_threshold_sort in Ht. apply bool_decide_eq_false in H5. subst.
    split; eauto.
  - intros [H1 H2 H3 H4 H5 Hv [enc He] Ht Hd Hm Hk ->].
    split; [done|]. split; [done|]. split; [done|]. split; [done|].
    split; [by apply bool_decide_eq_false|].
    exists (map copied (ValidatorSet req)). split; [by apply copy_validators_spec|].
    apply lr_lift_ok. eexists. split; [exact He|]. cbn [snd].
    unfold beq. rewrite !lr_gate_ok, !negb_false_iff, bool_decide_eq_true, want_threshold_sort, Z.eqb_eq.
    split; [done|]. split; [done|]. apply lr_lift_ok. eexists. split; [exact Hd|].
    rewrite !lr_gate_ok, !negb_false_iff, bool_decide_eq_true, is_member_sort.
    split; [done|]. split; [done|]. apply lr_lift_ok. eexists. split; [exact Hk|].
    rewrite lr_gate_ok, negb_false_iff, bool_decide_eq_true. done.
Qed.

(** A checkpoint that passes is recomputed without a line logged. *)
Lemma recompute_checkpoint_silent srv req : silent_ok (recompute_checkpoint srv req).
Proof using. unfold recompute_checkpoint. cbv zeta. silence. Qed.

Lemma recompute_snapshot_silent req : silent_ok (recompute_snapshot req).
Proof using. unfold recompute_snapshot. silence. Qed.

Record snapshot_facts (req : SignOracleAttestationRequest) (snap : bytes) : Prop := {
  sf_query : 1 <= len (QueryId req) <= 32;
  sf_valset : len (ValsetCheckpoint req) = 32;
  sf_snap_len : len snap = 32;
  sf_encode : encodeOracleAttestation (attestation_of req) = Ok snap;
  sf_expected : snap = ExpectedSnapshot req;
}.

Lemma recompute_snapshot_spec req snap :
  fst (recompute_snapshot req) = Ok snap <-> snapshot_facts req snap.
Proof using.
  unfold recompute_snapshot. rewrite !lr_gate_ok, !negb_false_iff, !Z.eqb_eq, orb_false_iff.
  assert (0 <= len (QueryId req)) by (unfold len; lia).
  rewrite Z.eqb_neq, Z.gtb_ltb, Z.ltb_ge, lr_lift_ok. split.
  - intros (H1 & H2 & H3 & sn & Hs & H').
    apply lr_gate_ok in H' as (Hx & H'). cbn in H'. apply (inj Ok) in H' as ->.
    apply negb_false_iff, bool_decide_eq_true in Hx. subst. split; [lia|done..].
  - intros [H1 H2 H3 He ->]. split; [lia|]. split; [done|]. split; [done|].
    eexists. split; [exact He|]. rewrite lr_gate_ok, negb_false_iff. unfold beq.
    by rewrite bool_decide_eq_true.
Qed.

Lemma check_types_spec rid allowed urls :
  fst (check_types rid allowed urls) = Ok () <-> Forall (fun u => u ∈ allowed) urls.
Proof using.
  induction urls as [|u urls IH]; cbn [check_types]; [by rewrite Forall_nil|].
  rewrite Forall_cons. case_bool_decide; [rewrite IH; tauto|]. split; [done|tauto].
Qed.

Lemma check_types_silent rid allowed urls : silent_ok (check_types rid allowed urls).
Proof using. induction urls as [|u urls IH]; cbn [check_types]; [done|]. by case_bool_decide. Qed.

(** The digests a request may have signed. *)
Inductive authorised (srv : Server) : request -> bytes -> Prop :=
| auth_tx doc rid body urls :
    SignDoc_Unmarshal doc = Ok body -> TxBody_Unmarshal body = Ok urls ->
    urls <> [] -> Forall (fun u => u ∈ allowedMsgTypes srv) urls ->
    authorised srv (SignTxRequest doc rid) (sha256_Sum256 doc)
| auth_checkpoint req ckpt :
    checkpoint_facts srv req ckpt ->
    authorised srv (CheckpointRequest req) (sha256_Sum256 ckpt)
| auth_oracle req snap :
    snapshot_facts req snap ->
    authorised srv (OracleRequest req) (sha256_Sum256 snap)
| auth_initial op rid hrp msg :
    DecodeAndConvert op = Ok (hrp, selfCosmosAddr srv) ->
    msg = fst (initialRegistrationMessages op) \/ msg = snd (initialRegistrationMessages op) ->
    authorised srv (SignInitialRequest op rid) (sha256_Sum256 (sha256_Sum256 msg)).

Lemma SignTx_signs srv doc rid : signs (authorised srv (SignTxRequest doc rid)) (SignTx srv doc rid).
Proof using.
  unfold SignTx. destruct (len doc =? 0); [auto with signer|].
  apply signs_bind_lift. intros body Hb%map_err_ok. apply signs_bind_lift. intros urls Hu%map_err_ok.
  destruct (len urls =? 0) eqn:E0; [auto with signer|]. apply len_zero in E0.
  apply signs_bind_logged. intros [] Hc%check_types_spec. cbv zeta.
  apply signs_bind; [|intros; apply signs_bind; auto with signer].
  apply signs_map_err, signs_SignRaw. by econstructor.
Qed.

Lemma SignInitial_signs srv op rid :
  signs (authorised srv (SignInitialRequest op rid)) (SignInitial srv op rid).
Proof using.
  unfold SignInitial. destruct (beq op []); [auto with signer|].
  apply signs_bind_lift. intros [hrp addr] Hd%map_err_ok. cbn [snd].
  destruct (negb _) eqn:Ea; [apply signs_bind; auto with signer|].
  apply negb_false_iff, bool_decide_eq_true in Ea. subst addr.
  cbn [initialRegistrationMessages].
  apply signs_bind; [apply signs_sign64; eapply auth_initial; eauto|]. intros sigA.
  apply signs_bind; [apply signs_sign64; eapply auth_initial; eauto|]. intros sigB.
  apply signs_bind; auto with signer.
Qed.

Lemma SignOracle_signs srv ctx req :
  signs (authorised srv (OracleRequest req)) (SignOracleAttestation srv ctx req).
Proof using.
  apply signs_bind_logged. intros snap Hs%recompute_snapshot_spec.
  apply signs_bind; [apply signs_audited; by constructor|]. intros sig. apply signs_bind; auto with signer.
Qed.

Lemma SignCheckpoint_signs srv ctx req :
  signs (authorised srv (CheckpointRequest req)) (SignBridgeCheckpoint srv ctx req).
Proof using.
  apply signs_bind_logged. intros ckpt Hc%recompute_checkpoint_spec.
  apply signs_bind; [auto with signer|]. intros [[]|err|]; [|..|auto with signer].
  - apply signs_bind; [apply signs_audited; by constructor|]. intros sig.
    apply signs_bind; [auto with signer|]. intros rec.
    apply signs_bind; [destruct rec; auto with signer|]. intros _. apply signs_bind; auto with signer.
  - apply signs_bind; [auto with signer|]. intros w. case_match; apply signs_bind; auto with signer.
Qed.

Lemma handle_signs srv ctx req : signs (authorised srv req) (handle srv ctx req).
Proof using.
  destruct req; cbn [handle].
  - apply signs_lift.
  - apply signs_bind; [auto with signer|]. intros pk. destruct (negb _); auto with signer.
  - apply signs_lift.
  - apply signs_bind; [apply signs_map_err, signs_call_signer|]. auto with signer.
  - apply SignTx_signs.
  - unfold GetChainID. destruct (beq _ _); auto with signer.
  - apply SignCheckpoint_signs.
  - apply SignOracle_signs.
  - apply SignInitial_signs.
Qed.
End Gates.

(** ** The guard inside the handler *)

Lemma persistLocked_guard g s : fst (snd (persistLocked (g, s))) = g.
Proof.
  unfold persistLocked, st_bind, the_guard, on_fs. cbn [fst].
  by destruct (writeBytesAtomic _ _ _).
Qed.

Lemma CheckAndAdvance_Ok ts g s u g' s' :
  CheckAndAdvance ts (g, s) = (Ok u, (g', s')) ->
  g' = Guard (statePath g) ts (loaded g) None None /\ (loaded g = true -> highWater g < ts).
Proof.
  unfold CheckAndAdvance, st_bind, the_guard, st_lift, set_guard, st_try, st_ret. cbn [fst].
  destruct (loaded g && (ts <=? highWater g)) eqn:El; [done|].
  assert (Hlt : loaded g = true -> highWater g < ts).
  { intros Hl. rewrite Hl in El. simpl in El. lia. }
  set (g1 := Guard (statePath g) ts (loaded g) None None).
  destruct (beq (statePath g) []); [by intros [= _ <- _]|].
  pose proof (persistLocked_guard g1 s) as Hp.
  destruct (persistLocked (g1, s)) as [[[]|e|] [g2 s2]]; simpl in Hp; subst g2; try done.
  by intros [= _ <- _].
Qed.

Lemma CheckAndAdvance_Err ts g s e g' s' :
  loaded g = true -> CheckAndAdvance ts (g, s) = (Err e, (g', s')) ->
  g' = g /\ (ts <= highWater g -> s' = s /\ e = errReplay ts (highWater g)).
Proof.
  intros Hl. unfold CheckAndAdvance, st_bind, the_guard, st_lift, set_guard, st_try, st_ret.
  cbn [fst]. rewrite Hl. cbn [andb]. destruct (Z.leb_spec ts (highWater g)); [by intros [= <- <- <-]|].
  destruct (beq (statePath g) []); [done|].
  destruct (persistLocked _) as [[[]|e'|] [g2 s2]]; [done| |done].
  intros [= _ <- <-]. split; [|lia]. destruct g; simpl in *; by subst.
Qed.

Lemma CheckAndAdvance_replay ts g s :
  loaded g = true -> ts <= highWater g ->
  CheckAndAdvance ts (g, s) = (Err (errReplay ts (highWater g)), (g, s)).
Proof.
  intros Hl Hle. unfold CheckAndAdvance, st_bind, the_guard. cbn [fst]. rewrite Hl.
  by rewrite (proj2 (Z.leb_le _ _) Hle).
Qed.

Lemma RecordSignature_guard ts c sig g s r g' s' :
  RecordSignature ts c sig (g, s) = (r, (g', s')) -> ts = highWater g ->
  g' = Guard (statePath g) ts (loaded g) (clone c) (clone sig).
Proof.
  intros E ->. revert E. unfold RecordSignature, st_bind, the_guard, set_guard, st_ret. cbn [fst].
  rewrite Z.eqb_refl. cbn [negb]. destruct (beq (statePath g) []); [by intros [= _ <- _]|].
  set (g1 := Guard _ _ _ _ _). intros E. pose proof (persistLocked_guard g1 s) as Hp.
  rewrite E in Hp. done.
Qed.

#[local] Opaque sha256_Sum256.

Section CheckpointHandler.
Context {C : Crypto} {E : GoEthereum} {L : NodeLib} {B : Type} {S : Signer B}.

(** How a checkpoint request can end well: from the memo, or freshly
    signed. *)
Inductive checkpoint_reply (srv : Server) (req : SignBridgeCheckpointRequest)
    (w w' : world B) (sig ckpt : bytes) : Prop :=
| reply_cached :
    ValidatorTimestamp req <= highWater (w_guard w) ->
    CachedSignature (w_guard w) (ValidatorTimestamp req) ckpt = Some sig -> w' ≡ w ->
    checkpoint_reply srv req w w' sig ckpt
| reply_signed :
    highWater (w_guard w) < ValidatorTimestamp req ->
    fst (Signer.SignRaw (sha256_Sum256 ckpt) (w_backend w)) = Ok sig -> len sig = 64 ->
    w_log w' = sha256_Sum256 ckpt :: w_log w ->
    w_guard w' = Guard (statePath (w_guard w)) (ValidatorTimestamp req) true (Some ckpt) (Some sig) ->
    checkpoint_reply srv req w w' sig ckpt.

Lemma clone_nonempty b : b <> [] -> clone b = Some b.
Proof using. by destruct b. Qed.

(** [audited_sign64], exactly. *)
Lemma audited_sign64_eq rid d (w : world B) :
  audited_sign64 rid d w =
  let '(rs, b') := Signer.SignRaw d (w_backend w) in
  let w' := World (w_guard w) (w_fs w) b' (d :: w_log w) (w_lines w) in
  match rs with
  | Ok sig => (if len sig =? 64 then Ok sig
               else status Internal "invalid signature length %d, expected 64" [AInt (len sig)],
               add_lines [AuditSign rid d None] w')
  | Err e => (Err (status_of Internal "signing failed: %v" e), add_lines [AuditSign rid d (Some e)] w')
  | Panic => (Panic, w')
  end.
Proof using.
  unfold audited_sign64, st_bind, st_map_err, log_outcome, call_SignRaw, check64, st_ret, st_lift.
  destruct (Signer.SignRaw d (w_backend w)) as [[sig|e|] b']; cbn [map_err err_of]; try done.
  by destruct (len sig =? 64).
Qed.

(** The handler after its gates, by the answer of the guard. *)
Inductive guard_answer (g : guard) (s : fs) (ts : Z) : result () * (guard * fs) -> Prop :=
| ga_granted s' : highWater g < ts ->
    guard_answer g s ts (Ok (), (Guard (statePath g) ts true None None, s'))
| ga_replayed : ts <= highWater g ->
    guard_answer g s ts (Err (errReplay ts (highWater g)), (g, s))
| ga_failed e s' : highWater g < ts -> guard_answer g s ts (Err e, (g, s'))
| ga_panic g' s' : guard_answer g s ts (Panic, (g', s')).

Lemma CheckAndAdvance_answer ts g s :
  loaded g = true -> guard_answer g s ts (CheckAndAdvance ts (g, s)).
Proof using.
  intros Hl. destruct (CheckAndAdvance ts (g, s)) as [[[]|e|] [g1 s1]] eqn:Ea.
  - apply CheckAndAdvance_Ok in Ea as [-> Hlt]. rewrite Hl. by constructor; apply Hlt.
  - destruct (CheckAndAdvance_Err _ _ _ _ _ _ Hl Ea) as [-> Hr].
    destruct (Z.le_gt_cases ts (highWater g)) as [Hle|Hgt]; [|by constructor].
    destruct (Hr Hle) as [-> ->]. by constructor.
  - constructor.
Qed.

(** Without a grant nothing is memoized for a later timestamp. *)
Lemma no_memo_ahead g ts ckpt :
  loaded g = true -> highWater g < ts -> CachedSignature g ts ckpt = None.
Proof using.
  intros Hl Hlt. unfold CachedSignature. by rewrite Hl, (proj2 (Z.eqb_neq _ _)) by lia.
Qed.

Lemma SignBridgeCheckpoint_reply srv ctx req w w' resp :
  loaded (w_guard w) = true ->
  SignBridgeCheckpoint srv ctx req w = (Ok resp, w') ->
  exists sig ckpt, resp = CheckpointResponse sig ckpt /\ checkpoint_facts srv req ckpt /\
    checkpoint_reply srv req w w' sig ckpt.
Proof using.
  intros Hl. unfold SignBridgeCheckpoint, st_bind at 1, logged at 1.
  destruct (fst (recompute_checkpoint srv req)) as [ckpt| |] eqn:Hf; try done.
  apply recompute_checkpoint_spec in Hf.
  unfold st_bind at 1, st_try at 1, call_guard at 1. cbn [add_lines w_guard w_fs w_backend w_log].
  destruct (CheckAndAdvance_answer (ValidatorTimestamp req) (w_guard w) (w_fs w) Hl) as [s1 Hlt|Hle|e s1 Hlt|]; [..|done].
  - unfold st_bind at 1. rewrite audited_sign64_eq. cbn [w_guard w_fs w_backend w_log].
    destruct (Signer.SignRaw (sha256_Sum256 ckpt) (w_backend w)) as [[sig| |] b'] eqn:Es; try done.
    destruct (Z.eqb_spec (len sig) 64) as [H64|]; [|done].
    assert (Hck : ckpt <> []) by (intros ->; destruct Hf; discriminate).
    assert (Hsg : sig <> []) by (intros ->; discriminate H64).
    unfold st_bind, st_try, call_guard. cbn [add_lines w_guard w_fs].
    destruct (RecordSignature _ _ _ _) as [r2 [g2 s2]] eqn:Er.
    apply RecordSignature_guard in Er; [|done]. cbn [statePath loaded] in Er.
    rewrite !clone_nonempty in Er by done.
    destruct r2; [| |done]; intros Heq; injection Heq as <- <-; exists sig, ckpt;
      (split; [done|]); (split; [done|]); apply reply_signed; cbn; by rewrite ?Es.
  - unfold st_bind, st_get, st_ret, st_lift. cbn [w_guard].
    change (errors_Is (errReplay _ _) ErrReplayGuardRejected) with true. cbn iota.
    destruct (CachedSignature _ _ ckpt) as [sig|] eqn:Ec; [|done].
    intros Heq. injection Heq as <- <-. exists sig, ckpt. split; [done|]. split; [done|].
    by apply reply_cached.
  - unfold st_bind, st_get, st_ret, st_lift. cbn [w_guard]. rewrite (no_memo_ahead _ _ _ Hl Hlt).
    by destruct (errors_Is e ErrReplayGuardRejected).
Qed.

(** The digests signed, on every outcome. *)
Lemma SignBridgeCheckpoint_log srv ctx req w r w' :
  loaded (w_guard w) = true ->
  SignBridgeCheckpoint srv ctx req w = (r, w') ->
  w_log w' = w_log w \/
  exists ckpt, checkpoint_facts srv req ckpt /\ highWater (w_guard w) < ValidatorTimestamp req /\
    w_log w' = sha256_Sum256 ckpt :: w_log w.
Proof using.
  intros Hl. unfold SignBridgeCheckpoint, st_bind at 1, logged at 1.
  destruct (fst (recompute_checkpoint srv req)) as [ckpt| |] eqn:Hf; [|by intros [= _ <-]; left..].
  apply recompute_checkpoint_spec in Hf.
  unfold st_bind at 1, st_try at 1, call_guard at 1. cbn [add_lines w_guard w_fs w_backend w_log].
  destruct (CheckAndAdvance_answer (ValidatorTimestamp req) (w_guard w) (w_fs w) Hl) as [s1 Hlt|Hle|e s1 Hlt|].
  2-3: unfold st_bind, st_get; case_match; intros [= _ <-]; by left.
  2: by intros [= _ <-]; left.
  intros Es. right. exists ckpt. split; [done|]. split; [done|]. revert Es.
  unfold st_bind at 1. rewrite audited_sign64_eq. cbn [w_guard w_fs w_backend w_log].
  destruct (Signer.SignRaw (sha256_Sum256 ckpt) (w_backend w)) as [[sig| |] b'];
    [|by intros [= _ <-]..].
  destruct (len sig =? 64); [|by intros [= _ <-]].
  unfold st_bind, st_try, call_guard. cbn [add_lines w_guard w_fs].
  destruct (RecordSignature _ _ _ _) as [[[]| |] [g2 s2]]; by intros [= _ <-].
Qed.
End CheckpointHandler.

Lemma chain_eq {B} `{C : Crypto, E : GoEthereum, L : NodeLib, S : Signer B} srv ph from req (w : world B) :
  serve srv ph from req w =
  newUnaryInterceptor (CallInfo (FullMethodName req) from)
    (newEnabledRPCInterceptor (enabledRPCs srv) (CallInfo (FullMethodName req) from)
       (newPrimaryGateInterceptor ph (CallInfo (FullMethodName req) from) (handle srv from req))) w.
Proof. reflexivity. Qed.

(** The guard refuses a call at the door. *)
Definition disabled (srv : Server) (req : request) : Prop :=
  enabledRPCs srv !! FullMethodName req = Some false.
Definition refused (ph from : option bytes) (req : request) : Prop :=
  exists want addr, ph = Some want /\ want <> [] /\ from = Some addr /\ HostOf addr <> want /\
    FullMethodName req ∈ primaryGatedRPCs.

Lemma gate_refused {B} ph from req (h : handler (B := B)) :
  refused ph from req ->
  exists line, lr_level line = LevelDebug /\ forall w,
    newPrimaryGateInterceptor ph (CallInfo (FullMethodName req) from) h w =
    (status FailedPrecondition "not the primary signer" [], add_lines [line] w).
Proof.
  intros (want & addr & -> & Hw & -> & Hh & Hg). unfold newPrimaryGateInterceptor, beq.
  cbn [FullMethod peer]. rewrite bool_decide_true by done. cbn [negb].
  rewrite !bool_decide_false by done. eexists. by split; [|reflexivity].
Qed.

Lemma gate_passes {B} ph from req (h : handler (B := B)) :
  ~ refused ph from req ->
  newPrimaryGateInterceptor ph (CallInfo (FullMethodName req) from) h = h.
Proof.
  intros Hn. unfold newPrimaryGateInterceptor, beq. cbn [FullMethod peer].
  destruct ph as [want|]; [|done]. case_bool_decide as Hg; cbn [negb]; [|done].
  case_bool_decide as Hw; [done|]. destruct from as [addr|]; [|done].
  case_bool_decide as Hh; [done|]. exfalso. apply Hn. repeat eexists; eauto.
Qed.
