(* ===== verification/ServerProps.v ===== *)
(** * What the gRPC server guarantees

    The properties of [BridgeServer]: what may be signed at all, each
    handler's exact behaviour, the retry and failure behaviour of the
    checkpoint handler, what a signed checkpoint commits to, the
    interceptors and the configuration of the enabled methods; each with a
    run of the server on concrete inputs. *)

From S2P Require Import Prelude GoStd Sha256 Abi Checkpoint Attestation Fs Json ReplayGuard.
From S2P Require Import Logging Asn1 Signer Arbiter BridgeServer.

#[local] Opaque sha256_Sum256.

(** ** Properties *)

Section Properties.
Context {C : Crypto} {E : GoEthereum} {L : NodeLib} {B : Type} {S : Signer B}.

(** (C1) The server signs only what it has recomputed or allow-listed.  For
    every configuration, peer, request and state - whatever the backend,
    the file system and the libraries answer - a call through the whole
    interceptor chain returns (a panic becomes an error), and every digest
    it hands to the backend is authorised by that very request: the hash
    of a transaction all of whose messages are on the allowlist, of a
    checkpoint or snapshot that passed every recompute-and-compare gate,
    or of a registration message for the signer's own address.  [Sign],
    [SignRaw] and the read-only methods authorise nothing. *)
Theorem server_signs_only_authorised srv ph from req (w : world B) :
  let '(r, w') := serve srv ph from req w in
  r <> Panic /\
  exists ds, w_log w' = ds ++ w_log w /\ Forall (authorised srv req) ds /\
    match req with
    | SignRequest _ | SignRawRequest _ | GetPublicKeyRequest | GetAddressRequest _
    | GetChainIDRequest => ds = []
    | _ => True
    end.
Proof using.
  assert (Hs : signs (authorised srv req) (newEnabledRPCInterceptor (enabledRPCs srv)
    (CallInfo (FullMethodName req) from)
    (newPrimaryGateInterceptor ph (CallInfo (FullMethodName req) from) (handle srv from req)))).
  { unfold newEnabledRPCInterceptor, newPrimaryGateInterceptor. cbn [FullMethod peer].
    repeat case_match; auto using handle_signs, signs_bind with signer. }
  rewrite chain_eq. unfold newUnaryInterceptor at 1.
  destruct (newEnabledRPCInterceptor _ _ _ _) as [r w'] eqn:Ew.
  destruct (Hs _ _ _ Ew) as (ds & Hl & Hf).
  assert (Hd : match req with
    | SignRequest _ | SignRawRequest _ | GetPublicKeyRequest | GetAddressRequest _
    | GetChainIDRequest => ds = [] | _ => True end).
  { destruct Hf as [|d ds Hd Hf]; destruct req; try done; inversion Hd. }
  destruct r; (split; [done|]); exists ds; by repeat split.
Qed.


(** A request whose timestamp is not above the mark, by the memo. *)
Lemma SignBridgeCheckpoint_repeat srv ctx req ckpt (w : world B) :
  loaded (w_guard w) = true -> checkpoint_facts srv req ckpt ->
  ValidatorTimestamp req <= highWater (w_guard w) ->
  exists line, lr_level line = LevelDebug /\
  SignBridgeCheckpoint srv ctx req w =
  (match CachedSignature (w_guard w) (ValidatorTimestamp req) ckpt with
   | Some sig => Ok (CheckpointResponse sig ckpt)
   | None => status FailedPrecondition "replay guard: %v"
               [AErr (errReplay (ValidatorTimestamp req) (highWater (w_guard w)))]
   end, add_lines [line] w).
Proof using.
  intros Hl Hf Hle. apply recompute_checkpoint_spec in Hf.
  pose proof (recompute_checkpoint_silent srv req) as Hs. unfold silent_ok in Hs. rewrite Hf in Hs.
  unfold SignBridgeCheckpoint, st_bind, logged, st_try, call_guard, st_get.
  rewrite Hf, (Hs eq_refl), add_lines_nil, CheckAndAdvance_replay by done. cbn [w_guard].
  change (errors_Is (errReplay _ _) ErrReplayGuardRejected) with true. cbn iota.
  destruct (CachedSignature _ _ _); by eexists; split; [|reflexivity].
Qed.

(** (C18) Retries are safe and idempotent: after a checkpoint request
    succeeded, the same request sent again - from the same or another peer,
    as often as it is repeated - is answered with the very same signature
    and checkpoint, signs nothing and changes nothing but for one debug
    line. *)
Theorem checkpoint_retry_idempotent srv ctx ctx' req (w w' : world B) resp :
  loaded (w_guard w) = true ->
  SignBridgeCheckpoint srv ctx req w = (Ok resp, w') ->
  forall w1, w1 ≡ w' -> exists line, lr_level line = LevelDebug /\
    SignBridgeCheckpoint srv ctx' req w1 = (Ok resp, add_lines [line] w1) /\ add_lines [line] w1 ≡ w'.
Proof using.
  intros Hl Ew w1 Hw1.
  destruct (SignBridgeCheckpoint_reply _ _ _ _ _ _ Hl Ew) as (sig & ckpt & -> & Hf & Hr).
  assert (Hm : loaded (w_guard w1) = true /\ ValidatorTimestamp req <= highWater (w_guard w1) /\
    CachedSignature (w_guard w1) (ValidatorTimestamp req) ckpt = Some sig).
  { rewrite Hw1. destruct Hr as [Hle Hc Hw|_ _ _ _ ->]; [by rewrite Hw|]. unfold CachedSignature. cbn.
    rewrite Z.eqb_refl. cbn. unfold beq. rewrite bool_decide_true by done. split; [done|]. by split; [lia|]. }
  destruct Hm as (Hl' & Hle & Hc).
  destruct (SignBridgeCheckpoint_repeat srv ctx' req ckpt w1 Hl' Hf Hle) as (line & Hlv & Eq).
  exists line. split; [done|]. split; [by rewrite Eq, Hc|]. by rewrite add_lines_equiv.
Qed.

(** (C36) A backend failure strands the checkpoint: when the guard granted a
    timestamp and the backend then failed (or returned a signature of the
    wrong length), the caller gets an error, and from then on the same
    request is refused with FailedPrecondition without signing - the
    timestamp is used up although no signature exists. *)
Theorem failed_signing_strands_checkpoint srv ctx req ckpt (w : world B) g1 s1 :
  loaded (w_guard w) = true ->
  checkpoint_facts srv req ckpt ->
  CheckAndAdvance (ValidatorTimestamp req) (w_guard w, w_fs w) = (Ok (), (g1, s1)) ->
  (forall sig, fst (Signer.SignRaw (sha256_Sum256 ckpt) (w_backend w)) = Ok sig -> len sig <> 64) ->
  let '(r, w1) := SignBridgeCheckpoint srv ctx req w in
  is_ok r = false /\
  forall ctx' w2, w2 ≡ w1 -> exists e w3,
    SignBridgeCheckpoint srv ctx' req w2 =
      (status FailedPrecondition "replay guard: %v" [AErr e], w3) /\ w3 ≡ w1.
Proof using.
  intros Hl Hf Ha Hb. pose proof (CheckAndAdvance_Ok _ _ _ _ _ _ Ha) as [Eg _].
  pose proof (proj2 (recompute_checkpoint_spec srv req ckpt) Hf) as Hc.
  assert (H1 : exists r w1, is_ok r = false /\ w_guard w1 = g1 /\
    SignBridgeCheckpoint srv ctx req w = (r, w1)).
  { unfold SignBridgeCheckpoint, st_bind at 1, logged. rewrite Hc.
    unfold st_bind at 1, st_try at 1, call_guard at 1. cbn [add_lines w_guard w_fs w_backend w_log]. rewrite Ha.
    unfold st_bind at 1. rewrite audited_sign64_eq. cbn [w_guard w_fs w_backend w_log].
    destruct (Signer.SignRaw (sha256_Sum256 ckpt) (w_backend w)) as [[sig| |] b'].
    - specialize (Hb sig eq_refl). rewrite (proj2 (Z.eqb_neq _ _) Hb).
      eexists _, _. split; [|split; [|reflexivity]]; done.
    - eexists _, _. split; [|split; [|reflexivity]]; done.
    - eexists _, _. split; [|split; [|reflexivity]]; done. }
  destruct H1 as (r & w1 & Hr & Hg & ->). split; [done|]. intros ctx' w2 Hw2.
  assert (Hg2 : w_guard w2 = Guard (statePath (w_guard w)) (ValidatorTimestamp req) true None None)
    by (rewrite Hw2, Hg, Eg; by rewrite Hl).
  destruct (SignBridgeCheckpoint_repeat srv ctx' req ckpt w2) as (line & _ & Eq);
    [by rewrite Hg2|done|by rewrite Hg2|].
  revert Eq. unfold CachedSignature. rewrite Hg2. cbn. rewrite Z.eqb_refl. cbn. intros ->.
  eexists _, _. split; [reflexivity|]. by rewrite add_lines_equiv.
Qed.

(** (C12) What a signed checkpoint commits to: two requests that pass the
    gates with the same checkpoint - on this server or on another one with
    the same key - carry the same domain separator, power threshold and
    timestamp, and validator sets that are permutations of each other;
    otherwise their own encodings are a Keccak-256 collision. *)
Theorem checkpoint_commits {HL : GoEthereumLaws} srv srv' req req' ckpt :
  checkpoint_facts srv req ckpt -> checkpoint_facts srv' req' ckpt ->
  Forall (fun v => is_u64 (pbPower v)) (ValidatorSet req ++ ValidatorSet req') ->
  len (ValidatorSet req) < u64_max -> len (ValidatorSet req') < u64_max ->
  Forall is_u64 [PowerThreshold req; PowerThreshold req'; ValidatorTimestamp req; ValidatorTimestamp req'] ->
  (DomainSeparator req = DomainSeparator req' /\ PowerThreshold req = PowerThreshold req' /\
   ValidatorTimestamp req = ValidatorTimestamp req' /\
   Permutation (map copied (ValidatorSet req)) (map copied (ValidatorSet req'))) \/
  (exists x y, keccak_collision x y /\
     ((x = checkpoint_layout (DomainSeparator req) (PowerThreshold req) (ValidatorTimestamp req) (ValidatorSetHash req) /\
       y = checkpoint_layout (DomainSeparator req') (PowerThreshold req') (ValidatorTimestamp req') (ValidatorSetHash req')) \/
      (Ok (x, ValidatorSetHash req) = encodeAndHashValidatorSet (sortBridgeValidators (map copied (ValidatorSet req))) /\
       Ok (y, ValidatorSetHash req') = encodeAndHashValidatorSet (sortBridgeValidators (map copied (ValidatorSet req')))))).
Proof using.
  intros F F' Hp Hn Hn' Hu. apply Forall_app in Hp as [Hp1 Hp2].
  apply Forall_cons in Hu as [U1 Hu]. apply Forall_cons in Hu as [U2 Hu].
  apply Forall_cons in Hu as [U3 Hu]. apply Forall_cons in Hu as [U4 _].
  destruct F as [D1 D2 _ _ _ V1 [e1 K1] _ _ _ Ec _], F' as [D1' D2' _ _ _ V1' [e1' K1'] _ _ _ Ec' _].
  unfold len in D1, D2, D1', D2'.
  assert (Hb : forall b : bytes, Z.of_nat (length b) = 32 -> length b = 32%nat) by (intros; lia).
  destruct (checkpoint_binds _ _ _ _ _ _ _ _ ckpt (Hb _ D1) (Hb _ D1') (Hb _ D2) (Hb _ D2')
    U1 U2 U3 U4 Ec Ec')
    as [(Ed & Ep & Et & Eh)|Hcol]; [|right; eexists _, _; split; [exact Hcol|by left]].
  assert (Hval : forall l, Forall checked_validator l -> Forall (fun v => is_u64 (pbPower v)) l ->
    Forall valid_validator (map copied l)).
  { intros l Hc Hz. rewrite Forall_map. rewrite Forall_forall in *. intros v Hv.
    destruct (Hc v Hv) as [Ha _]. split; [unfold len in Ha; cbn; lia|by apply Hz]. }
  pose proof K1 as K. rewrite Eh in K.
  destruct (valset_hash_binds _ _ _ _ _ (Hval _ V1 Hp1) (Hval _ V1' Hp2)
    ltac:(unfold len in *; rewrite length_map; done) ltac:(unfold len in *; rewrite length_map; done) K K1')
    as [?|Hcol]; [left; by repeat split|]. right. exists e1, e1'. split; [done|]. right. by split.
Qed.

(** The power threshold: the server's [uint64] computation is two
    thirds of the total power, rounded down, whenever twice the total
    fits 64 bits, and never exceeds 2^64 / 3 otherwise; it does not depend
    on the order of the validators. *)
Theorem power_threshold_two_thirds vs ws :
  Forall (fun v => is_u64 (Power v)) vs -> Permutation vs ws ->
  want_threshold ws = want_threshold vs /\
  (2 * sum_power vs < u64_max ->
     3 * want_threshold vs <= 2 * sum_power vs < 3 * (want_threshold vs + 1)) /\
  3 * want_threshold vs < u64_max.
Proof using.
  intros Hv Hp. unfold want_threshold. rewrite !total_power_sum, <-(sum_power_perm vs ws Hp).
  split; [done|]. assert (H0 : 0 <= sum_power vs).
  { clear Hp. induction Hv as [|v l [Hv _] _ IH]; cbn [sum_power foldr]; [lia|]. unfold sum_power in IH. lia. }
  pose proof (Z.mod_pos_bound (u64 (sum_power vs) * 2) u64_max ltac:(unfold u64_max; lia)).
  split.
  - intros Hs. unfold u64. rewrite !(Z.mod_small (sum_power vs)) by lia.
    rewrite Z.mod_small by lia. pose proof (Z.div_mod (sum_power vs * 2) 3).
    pose proof (Z.mod_pos_bound (sum_power vs * 2) 3). lia.
  - unfold u64 at 1. pose proof (Z.mul_div_le ((u64 (sum_power vs) * 2) mod u64_max) 3). lia.
Qed.
End Properties.

(** ** A concrete server *)

#[local] Existing Instance reference_eth.
#[local] Existing Instance reference_eth_laws.
#[local] Existing Instance reference_crypto.
#[local] Existing Instance reference_crypto_sign_laws.

(** Documents are ["doc:" ++ comma-separated type urls]. *)
#[local] Instance reference_node : NodeLib := {
  SignDoc_Unmarshal d := if HasPrefix d (bs "doc:") then Ok (drop 4 d) else Err (ErrLib "bad document");
  TxBody_Unmarshal b := Ok (if beq b [] then [] else Split b x2c);
  DecodeAndConvert a := if HasPrefix a (bs "tellorvaloper1") then Ok (bs "tellorvaloper", drop 14 a)
                        else Err (ErrLib "bad address");
  pubkey := bytes;
  DecompressPubkey k := if len k =? 33 then Ok k else Err (ErrLib "invalid public key");
  PubkeyToAddress k := take 20 k;
  Address_Hex a := bs "0x" ++ hex_EncodeToString a;
}.

Definition or_nil (r : result bytes) : bytes := match r with Ok b => b | _ => [] end.

Definition sample_set : list BridgeValidator :=
  [PBValidator (replicate 20 x01) 10; PBValidator (replicate 20 x02) 25].
Definition sample_set_hash : bytes :=
  match encodeAndHashValidatorSet (sortBridgeValidators (map copied sample_set)) with
  | Ok (_, h) => h | _ => [] end.
Definition sample_domain : bytes := or_nil (computeDomainSeparator (bs "layertest-5")).
Definition sample_checkpoint : bytes :=
  or_nil (encodeValsetCheckpoint sample_domain 23 1700000000001 sample_set_hash).

Definition sample_req : SignBridgeCheckpointRequest :=
  CheckpointReq sample_domain 23 1700000000001 sample_set_hash sample_set 100 7
    (bs "layertest-5") sample_checkpoint (bs "req-1").

Definition sample_srv : Server :=
  MkServer 2000000000 (bs "0.0.0.0:9191") {[ bs "/layer.oracle.MsgSubmitValue" ]} (bs "layertest-5") (replicate 20 x02)
    (bs "self") ∅.

(** An in-memory guard. *)
Definition sample_world : world FileSigner :=
  World (Guard [] 1700000000000 true None None) (fresh_fs empty_disk) sample_file_signer [] [].

Lemma sample_facts : checkpoint_facts sample_srv sample_req sample_checkpoint.
Proof. apply recompute_checkpoint_spec. vm_compute. reflexivity. Qed.

Lemma sample_sign_ok :
  exists resp w', SignBridgeCheckpoint sample_srv (Some (bs "10.0.0.1:40000")) sample_req sample_world = (Ok resp, w').
Proof.
  assert (H : is_ok (fst (SignBridgeCheckpoint sample_srv (Some (bs "10.0.0.1:40000")) sample_req sample_world)) = true)
    by (vm_compute; reflexivity).
  destruct (SignBridgeCheckpoint _ _ sample_req sample_world) as [[resp| |] w'];
    try discriminate H. eauto.
Qed.


Lemma checkpoint_retry_idempotent_witness :
  exists resp w' line,
    SignBridgeCheckpoint sample_srv (Some (bs "10.0.0.1:40000")) sample_req sample_world = (Ok resp, w') /\
    SignBridgeCheckpoint sample_srv None sample_req w' = (Ok resp, add_lines [line] w').
Proof.
  destruct sample_sign_ok as (resp & w' & H).
  destruct (checkpoint_retry_idempotent sample_srv (Some (bs "10.0.0.1:40000")) None sample_req sample_world w' resp
    eq_refl H w' (reflexivity w')) as (line & _ & H1 & _).
  exists resp, w', line. split; [exact H|exact H1].
Defined.

(** A backend that never signs. *)
#[local] Instance broken_signer : Signer unit := {
  Sign _ := fun b => (Err (ErrLib "device offline"), b);
  SignRaw _ := fun b => (Err (ErrLib "device offline"), b);
  GetPublicKey := fun b => (Ok gen_pk, b);
}.

Definition broken_world : world unit :=
  World (Guard [] 1700000000000 true None None) (fresh_fs empty_disk) tt [] [].

Lemma failed_signing_strands_checkpoint_witness :
  let '(r, w1) := SignBridgeCheckpoint sample_srv None sample_req broken_world in
  is_ok r = false /\
  exists e w3, SignBridgeCheckpoint sample_srv None sample_req w1 =
    (status FailedPrecondition "replay guard: %v" [AErr e], w3) /\ w3 ≡ w1.
Proof.
  pose proof (failed_signing_strands_checkpoint sample_srv None sample_req sample_checkpoint broken_world
           (Guard [] 1700000000001 true None None) (fresh_fs empty_disk) eq_refl sample_facts eq_refl) as H.
  destruct (SignBridgeCheckpoint sample_srv None sample_req broken_world) as [r w1].
  destruct H as [H1 H2]; [intros sig; discriminate|].
  split; [exact H1|]. exact (H2 None w1 (reflexivity w1)).
Defined.

(** The same set listed in the other order. *)
Definition sample_req_rev : SignBridgeCheckpointRequest :=
  CheckpointReq sample_domain 23 1700000000001 sample_set_hash (rev sample_set) 101 7
    (bs "layertest-5") sample_checkpoint (bs "req-2").

Lemma checkpoint_commits_witness :
  checkpoint_facts sample_srv sample_req_rev sample_checkpoint /\
  ((sample_domain = sample_domain /\ 23 = 23 /\ 1700000000001 = 1700000000001 /\
    Permutation (map copied sample_set) (map copied (rev sample_set))) \/
   exists x y, keccak_collision x y).
Proof.
  assert (F : checkpoint_facts sample_srv sample_req_rev sample_checkpoint)
    by (apply recompute_checkpoint_spec; vm_compute; reflexivity).
  split; [exact F|].
  destruct (checkpoint_commits sample_srv sample_srv sample_req sample_req_rev sample_checkpoint
    sample_facts F) as [H|(x & y & H & _)].
  - repeat constructor; vm_compute; congruence.
  - vm_compute. reflexivity.
  - vm_compute. reflexivity.
  - repeat constructor; vm_compute; congruence.
  - left. exact H.
  - right. exists x, y. exact H.
Defined.

Lemma power_threshold_two_thirds_witness :
  3 * want_threshold sample_validators <= 2 * sum_power sample_validators <
  3 * (want_threshold sample_validators + 1).
Proof.
  apply (power_threshold_two_thirds sample_validators sample_validators);
    [repeat constructor; vm_compute; congruence|reflexivity|vm_compute; reflexivity].
Defined.

Section Handlers.
Context {C : Crypto} {E : GoEthereum} {L : NodeLib} {B : Type} {S : Signer B}.

(** The state after one backend call on a digest. *)
Definition after_sign (d : bytes) (w : world B) : world B :=
  World (w_guard w) (w_fs w) (snd (Signer.SignRaw d (w_backend w))) (d :: w_log w) (w_lines w).

(** A transaction that may be signed. *)
Definition allowed_doc (srv : Server) (doc : bytes) : Prop :=
  doc <> [] /\ exists body urls,
    SignDoc_Unmarshal doc = Ok body /\ TxBody_Unmarshal body = Ok urls /\
    urls <> [] /\ Forall (fun u => u ∈ allowedMsgTypes srv) urls.

Lemma SignTx_allowed srv doc rid (w : world B) :
  allowed_doc srv doc ->
  let h := sha256_Sum256 doc in
  SignTx srv doc rid w =
  match fst (Signer.SignRaw h (w_backend w)) with
  | Ok sig => (Ok (SignTxResponse sig), add_lines [AuditSign rid h None] (after_sign h w))
  | Err e => (Err (status_of Internal "signing failed: %v" e), after_sign h w)
  | Panic => (Panic, after_sign h w)
  end.
Proof using.
  intros (Hne & body & urls & E1 & E2 & Hu & Hf).
  apply len_zero in Hne, Hu. apply (check_types_spec rid) in Hf.
  pose proof (check_types_silent rid (allowedMsgTypes srv) urls) as Hs. unfold silent_ok in Hs. rewrite Hf in Hs.
  unfold SignTx, st_bind, st_lift, st_map_err, st_ret, call_SignRaw, logged, log, after_sign.
  rewrite Hne, E1. cbn [map_err]. rewrite E2. cbn [map_err]. rewrite Hu, Hf, (Hs eq_refl), add_lines_nil.
  by destruct (Signer.SignRaw _ _) as [[]].
Qed.

(** A refusal changes nothing and audits no signature. *)
Definition refusal {A} (m : result A * world B) (w : world B) : Prop :=
  is_ok (fst m) = false /\ exists ls, snd m = add_lines ls w /\ sign_audits ls = [].

Lemma refusal_same {A} (r : result A) (w : world B) : is_ok r = false -> refusal (r, w) w.
Proof using. intros H. split; [done|]. exists []. by rewrite add_lines_nil. Qed.

Lemma refusal_lines {A} (r : result A) ls (w : world B) :
  is_ok r = false -> sign_audits ls = [] -> refusal (r, add_lines ls w) w.
Proof using. intros H1 H2. split; [done|]. by exists ls. Qed.

Lemma check_types_refusal rid allowed urls :
  sign_audits (snd (check_types rid allowed urls)) = [].
Proof using. induction urls as [|u urls IH]; cbn [check_types]; [done|]. by case_bool_decide. Qed.

Lemma SignTx_cases srv doc rid (w : world B) :
  allowed_doc srv doc \/ (~ allowed_doc srv doc /\ refusal (SignTx srv doc rid w) w).
Proof using.
  unfold SignTx, st_bind, st_lift, allowed_doc.
  destruct (len doc =? 0) eqn:E0.
  { right. split; [|by apply refusal_same]. intros [Hd _]. apply len_zero in Hd. congruence. }
  destruct (SignDoc_Unmarshal doc) as [body| |] eqn:E1; cbn [map_err];
    [|right; split; [by intros (_ & ? & ? & ? & _)|by apply refusal_same]..].
  destruct (TxBody_Unmarshal body) as [urls| |] eqn:E2; cbn [map_err];
    [|right; split; [intros (_ & ? & ? & [= <-] & ? & _); congruence|by apply refusal_same]..].
  destruct (len urls =? 0) eqn:E3.
  { right. split; [|by apply refusal_same]. intros (_ & ? & ? & [= <-] & H & Hn & _).
    rewrite E2 in H. injection H as <-. apply len_zero in Hn. congruence. }
  unfold logged. pose proof (check_types_refusal rid (allowedMsgTypes srv) urls) as Hq.
  destruct (fst (check_types rid (allowedMsgTypes srv) urls)) as [[]| |] eqn:E4;
    [left; apply len_zero in E0, E3; apply check_types_spec in E4; split; eauto 10|..];
    (right; split; [|by apply refusal_lines]; intros (_ & ? & ? & [= <-] & H & _ & Hf);
     rewrite E2 in H; injection H as <-; apply (check_types_spec rid) in Hf; congruence).
Qed.

(** (C21) [SignTx], exactly: it succeeds if and only if the document is not
    empty and decodes, its body decodes, it carries at least one message,
    every message type is on the allowlist and the backend signs
    sha256(sign_doc) - and then returns that signature; when any check
    before the backend fails it returns an error with the state unchanged
    but for log lines; and with an empty allowlist no document passes. *)
Theorem sign_tx_exact srv doc rid (w : world B) :
  let '(r, w') := SignTx srv doc rid w in
  (forall sig, r = Ok (SignTxResponse sig) <->
     allowed_doc srv doc /\ fst (Signer.SignRaw (sha256_Sum256 doc) (w_backend w)) = Ok sig) /\
  (w' ≡ w /\ is_ok r = false \/
   allowed_doc srv doc /\ w' ≡ after_sign (sha256_Sum256 doc) w) /\
  (allowedMsgTypes srv = ∅ -> is_ok r = false /\ w' ≡ w).
Proof using.
  destruct (SignTx_cases srv doc rid w) as [Ha|(Hn & Hr & ls & Hw & _)].
  - pose proof (SignTx_allowed srv doc rid w Ha) as He. cbv zeta in He. rewrite He.
    destruct (fst (Signer.SignRaw _ _)) as [sig0|e|] eqn:Es; (split; [|split; [by right|]]).
    1,3,5: intros sig; split; [|intros [_ Hs]]; simplify_eq; try done; intros Hs; by injection Hs as <-.
    all: intros H0; destruct Ha as (_ & ? & urls & _ & _ & Hu & Hf); rewrite H0 in Hf;
      destruct urls as [|u urls]; [done|]; inversion Hf; set_solver.
  - destruct (SignTx srv doc rid w) as [r w']. cbn in Hw, Hr. subst w'.
    assert (Hq : add_lines ls w ≡ w) by apply add_lines_equiv.
    split; [|split; [by left|done]]. intros sig. split; [by intros ->|]. by intros [? _].
Qed.

(** (C19) [SignOracleAttestation], exactly: it succeeds if and only if the
    query id has 1 to 32 bytes, the valset checkpoint 32, the snapshot
    recomputed from the fields equals the expected one, and the backend
    returns 64 bytes for sha256(snapshot); otherwise it is an error, and
    unless the gates passed nothing is signed and nothing changes but for
    log lines. *)
Theorem oracle_attestation_exact srv ctx req (w : world B) :
  let '(r, w') := SignOracleAttestation srv ctx req w in
  (forall sig snap, r = Ok (OracleResponse sig snap) <->
     snapshot_facts req snap /\ len sig = 64 /\
     fst (Signer.SignRaw (sha256_Sum256 snap) (w_backend w)) = Ok sig) /\
  (w' ≡ w /\ is_ok r = false \/
   exists snap, snapshot_facts req snap /\ w' ≡ after_sign (sha256_Sum256 snap) w).
Proof using.
  unfold SignOracleAttestation, st_bind at 1, logged.
  destruct (fst (recompute_snapshot req)) as [snap|e|] eqn:Ef.
  2-3: split; [|by left]; intros sig snap; split; [done|];
    intros [Hf _]; apply recompute_snapshot_spec in Hf; congruence.
  pose proof (proj1 (recompute_snapshot_spec req snap) Ef) as Hf.
  unfold st_bind at 1. rewrite audited_sign64_eq. unfold after_sign, add_lines at 1.
  cbn [w_guard w_fs w_backend w_log].
  destruct (Signer.SignRaw (sha256_Sum256 snap) (w_backend w)) as [rs b'] eqn:Es.
  assert (Hs : forall sig snap', snapshot_facts req snap' /\ len sig = 64 /\
      fst (Signer.SignRaw (sha256_Sum256 snap') (w_backend w)) = Ok sig <->
      snap' = snap /\ len sig = 64 /\ rs = Ok sig).
  { intros sig snap'. split.
    - intros (Hf' & H64 & Hr). apply recompute_snapshot_spec in Hf'.
      assert (snap' = snap) as -> by congruence. rewrite Es in Hr. done.
    - intros (-> & H64 & ->). by rewrite Es. }
  destruct rs as [sig0| |];
    [destruct (Z.eqb_spec (len sig0) 64); unfold st_bind, log, st_ret|..]; (split; [intros sig snap'; rewrite Hs|]).
  all: try (right; exists snap; split; [done|]; rewrite Es; done).
  - split; [by intros [= <- <-]|]. by intros (-> & _ & [= <-]).
  - split; [done|]. intros (_ & ? & [= <-]). done.
  - split; [done|]. by intros (_ & _ & ?).
  - split; [done|]. by intros (_ & _ & ?).
Qed.
End Handlers.

Section Doors.
Context {C : Crypto} {E : GoEthereum} {L : NodeLib} {B : Type} {S : Signer B}.

(** (C17) The doors in front of the handlers: a method switched off answers
    Unimplemented, a vote-extension request from a host other than the
    elected primary's answers FailedPrecondition - both without running
    the handler, so but for the connection's and the refusal's debug lines
    the state is untouched - and every other call runs the handler, a panic
    turned into Internal and logged. *)
Theorem door_policy srv ph from req (w : world B) :
  (disabled srv req ->
     serve srv ph from req w =
     (status Unimplemented "method %s is disabled" [AStr (FullMethodName req)],
      add_lines (connection_lines from) w)) /\
  (~ disabled srv req -> refused ph from req -> exists line, lr_level line = LevelDebug /\
     serve srv ph from req w =
     (status FailedPrecondition "not the primary signer" [], add_lines (line :: connection_lines from) w)) /\
  (~ disabled srv req -> ~ refused ph from req ->
     serve srv ph from req w =
     match handle srv from req (add_lines (connection_lines from) w) with
     | (Panic, w') => (status Internal "internal server error" [],
                       add_lines [panic_line (FullMethodName req)] w')
     | rw => rw
     end).
Proof using.
  rewrite chain_eq. unfold disabled, newUnaryInterceptor, newEnabledRPCInterceptor. cbn [FullMethod peer].
  split; [|split].
  - by intros ->.
  - intros Hd Hr. destruct (gate_refused ph from req (handle srv from req) Hr) as (line & Hl & Hg).
    exists line. split; [done|]. destruct (enabledRPCs srv !! _) as [[]|]; [|done|]; rewrite Hg; by rewrite add_lines_app.
  - intros Hd Hr. rewrite (gate_passes ph from req _ Hr). by destruct (enabledRPCs srv !! _) as [[]|].
Qed.

(** [op] is this signer's own operator address. *)
Definition own_operator (srv : Server) (op : bytes) : Prop :=
  op <> [] /\ exists hrp, DecodeAndConvert op = Ok (hrp, selfCosmosAddr srv).

Lemma SignInitial_foreign srv op rid (w : world B) :
  ~ own_operator srv op -> is_ok (fst (SignInitial srv op rid w)) = false /\ snd (SignInitial srv op rid w) ≡ w.
Proof using.
  intros Hn. unfold SignInitial, beq. case_bool_decide as He; [done|].
  unfold st_bind, st_lift. destruct (DecodeAndConvert op) as [[hrp addr]| |] eqn:Ed; cbn [map_err]; [|done..].
  cbn [snd]. case_bool_decide as Ea; [|done]. exfalso. apply Hn. split; [done|]. exists hrp. by rewrite <-Ea.
Qed.

#[export] Instance own_operator_dec srv op : Decision (own_operator srv op).
Proof.
  unfold own_operator. apply and_dec; [apply _|].
  destruct (DecodeAndConvert op) as [[hrp addr]| |]; [|right; by intros [? ?]..].
  destruct (decide (addr = selfCosmosAddr srv)) as [->|Hn]; [left; by eexists|right].
  intros [h [= _ ?]]. done.
Defined.

Lemma SignInitial_own srv op rid (w : world B) :
  own_operator srv op ->
  SignInitial srv op rid w = (
    sigA <- sign64 (initialSigningDigest (fst (initialRegistrationMessages op))) "signing A failed: %v"
              "invalid signature A length %d, expected 64" ;;
    sigB <- sign64 (initialSigningDigest (snd (initialRegistrationMessages op))) "signing B failed: %v"
              "invalid signature B length %d, expected 64" ;;
    log (Info "SignInitial completed"
           [("event", VStr (bs "sign_initial")); ("request_id", VStr rid);
            ("operator_address", VStr op); ("success", VBool true)]%string) ;;;
    st_ret (SignInitialResponse sigA sigB))%go w.
Proof using.
  intros [Hne [hrp Hd]]. unfold SignInitial, beq. rewrite bool_decide_false by done.
  unfold st_bind at 1, st_lift at 1. rewrite Hd. cbn [map_err snd]. by rewrite bool_decide_true.
Qed.

(** (C28) [SignInitial] signs its operator's registration and nothing else.  It
    answers with the signatures A and B exactly when the address decodes to
    the signer's own account, the backend signed the double SHA-256 of
    registration message A and then, in the state that left, of message B,
    each with 64 bytes.  For any other address nothing is signed.  What goes
    to the backend is the digest of A, or those of A and B in this order -
    A's signature is lost when B fails -, and guard and files are never
    touched; the two messages differ and name the operator. *)
Theorem sign_initial_exact srv op rid (w : world B) :
  let msg l := bs "TellorLayer: Initial bridge signature " ++ l ++ bs " for operator " ++ op in
  let dA := sha256_Sum256 (sha256_Sum256 (msg (bs "A"))) in
  let dB := sha256_Sum256 (sha256_Sum256 (msg (bs "B"))) in
  let '(r, w') := SignInitial srv op rid w in
  msg (bs "A") <> msg (bs "B") /\
  (forall resp, r = Ok resp <-> own_operator srv op /\ exists sigA sigB,
     resp = SignInitialResponse sigA sigB /\ len sigA = 64 /\ len sigB = 64 /\
     fst (Signer.SignRaw dA (w_backend w)) = Ok sigA /\
     fst (Signer.SignRaw dB (snd (Signer.SignRaw dA (w_backend w)))) = Ok sigB) /\
  (~ own_operator srv op -> w' ≡ w) /\
  (own_operator srv op -> w' ≡ after_sign dA w /\ is_ok r = false \/ w' ≡ after_sign dB (after_sign dA w)).
Proof using.
  intros msg dA dB. destruct (SignInitial srv op rid w) as [r w'] eqn:Ew. split; [discriminate|].
  destruct (own_operator_dec srv op) as [Ho|Hno]; cycle 1.
  { destruct (SignInitial_foreign srv op rid w Hno) as [H1 H2]. rewrite Ew in H1, H2. cbn in H1, H2.
    split; [|done]. intros resp. split; [by intros ->|by intros [? _]]. }
  revert Ew. rewrite (SignInitial_own _ _ _ _ Ho). unfold sign64, check64, st_bind, st_map_err, call_SignRaw, st_ret, st_lift.
  change (initialSigningDigest (fst (initialRegistrationMessages op))) with dA.
  change (initialSigningDigest (snd (initialRegistrationMessages op))) with dB. unfold after_sign.
  destruct (Signer.SignRaw dA (w_backend w)) as [[sigA|e|] b1]; cbn [map_err];
    [|intros [= <- <-]; split; [|split; [done|by left]]; naive_solver..].
  destruct (Z.eqb_spec (len sigA) 64); cbn [negb w_guard w_fs w_backend w_log snd];
    [|intros [= <- <-]; split; [|split; [done|by left]]; naive_solver].
  destruct (Signer.SignRaw dB b1) as [[sigB|e'|] b2]; cbn [map_err];
    [|intros [= <- <-]; split; [|split; [done|by right]]; naive_solver..].
  destruct (Z.eqb_spec (len sigB) 64); cbn [negb w_guard w_fs w_backend w_log snd];
    intros Heq; injection Heq as <- <-; (split; [|split; [done|by right]]); naive_solver.
Qed.

(** The server starts closed: [New] succeeds only if the backend's key
    was read and decompressed and the guard file - when one is configured
    and present - parsed; it then starts with the mark and memo of that
    file, and its own addresses derived from that key. *)
Theorem new_server_fails_closed cfg (b b' : B) d faults names srv g s' :
  CheckpointGuardStatePath cfg <> [] ->
  New cfg b (Fs d faults names []) = (Ok (srv, g, b'), s') ->
  content_guard (CheckpointGuardStatePath cfg) (content d (CheckpointGuardStatePath cfg)) = Ok g /\
  exists pk ecdsaPub, fst (Signer.GetPublicKey b) = Ok pk /\ DecompressPubkey pk = Ok ecdsaPub /\
    selfEVMAddr srv = PubkeyToAddress ecdsaPub /\ selfCosmosAddr srv = cosmos_Address pk /\
    enabledRPCs srv = EnabledRPCs cfg /\
    forall u, u ∈ allowedMsgTypes srv <-> u ∈ AllowedMsgTypes cfg.
Proof using.
  intros Hp (pk & pub & Ek & Ep & [_ Eg]%load_inv & ->)%New_inv; [|done].
  split; [exact Eg|]. exists pk, pub. rewrite Ek. do 5 (split; [done|]). intros u. apply elem_of_list_to_set.
Qed.
End Doors.

(** ** The primary gate and the arbiter *)

(** The two gated methods. *)
Definition gated (req : request) : Prop :=
  match req with CheckpointRequest _ | OracleRequest _ => True | _ => False end.

Lemma gated_methods req : FullMethodName req ∈ primaryGatedRPCs <-> gated req.
Proof.
  destruct req; cbn [gated FullMethodName];
    (split; [intros H|]; try done); try (by intros []);
    try (exfalso; revert H; apply (bool_decide_eq_false_1 _); vm_compute; reflexivity).
  all: intros _; apply (bool_decide_eq_true_1 _); vm_compute; reflexivity.
Qed.

(** Vote-extension signing follows the elected primary: when the primary
    is the dial target [scheme://host:port] and the peer is [host':port'],
    the two gated methods are refused exactly when [host'] differs from
    [host]; no other method is ever refused, and while no primary is elected
    nothing is. *)
Theorem vote_extensions_follow_primary a scheme host port host' port' req :
  Forall (fun c => c <> x3a) scheme ->
  plain_host host -> host <> [] -> plain_port port ->
  plain_host host' -> plain_port port' -> Forall (fun c => c <> x2f) port' ->
  (primary a = scheme ++ bs "://" ++ host ++ bs ":" ++ port ->
   refused (Some (PrimaryHost a)) (Some (host' ++ bs ":" ++ port')) req <->
   host' <> host /\ gated req) /\
  (primary a = [] -> forall from, ~ refused (Some (PrimaryHost a)) from req).
Proof.
  intros Hs Hh Hne Hp Hh' Hp' Hp2. rewrite <-gated_methods. unfold refused, PrimaryHost.
  destruct (HostOf_forms scheme host port port' Hs Hh Hp Hp2 Hp') as (E1 & _ & _).
  destruct (HostOf_forms scheme host' port' port' Hs Hh' Hp' Hp2 Hp') as (_ & E2 & _).
  split.
  - intros ->. rewrite E1. split.
    + intros (want & addr & <-%(inj Some) & _ & <-%(inj Some) & Hn & Hg). by rewrite E2 in Hn.
    + intros [Hn Hg]. eexists _, _. split; [done|]. split; [done|]. split; [done|]. by rewrite E2.
  - intros -> from (want & addr & <-%(inj Some) & Hw & _). done.
Qed.

Definition arbiter_at (id : bytes) : PrimaryArbiter := Arbiter 1000 ∅ id 10 100.

Lemma vote_extensions_follow_primary_witness :
  refused (Some (PrimaryHost (arbiter_at nodeA))) (Some (bs "10.0.0.2:41234")) (CheckpointRequest sample_req) <->
  bs "10.0.0.2" <> bs "10.0.0.1" /\ gated (CheckpointRequest sample_req).
Proof.
  destruct (vote_extensions_follow_primary (arbiter_at nodeA) (bs "tcp") (bs "10.0.0.1") (bs "26659")
    (bs "10.0.0.2") (bs "41234") (CheckpointRequest sample_req)) as [H _].
  3: discriminate.
  1-6: vm_compute; repeat constructor; discriminate.
  exact (H eq_refl).
Defined.

(** A primary dialled by name is refused its own vote extensions: with
    the role held by the target ["tcp://layer:26659"], a request from that
    very node arrives from its IP address and is refused, whichever IPv4
    address that is. *)
Theorem named_primary_is_refused ip port r :
  plain_host ip -> plain_port port -> Forall (fun c => c <> x2f) port -> ip <> bs "layer" ->
  refused (Some (PrimaryHost (arbiter_at (bs "tcp://layer:26659"))))
          (Some (ip ++ bs ":" ++ port)) (CheckpointRequest r).
Proof.
  intros Hi Hp Hp2 Hn. unfold refused.
  destruct (HostOf_forms [] ip port port ltac:(constructor) Hi Hp Hp2 Hp) as (_ & E & _).
  eexists _, _. split; [reflexivity|]. split; [discriminate|]. split; [reflexivity|].
  rewrite E. split; [exact Hn|]. by apply gated_methods.
Qed.

Lemma named_primary_is_refused_witness :
  refused (Some (PrimaryHost (arbiter_at (bs "tcp://layer:26659"))))
          (Some (bs "172.18.0.3:40000")) (CheckpointRequest sample_req).
Proof.
  apply (named_primary_is_refused (bs "172.18.0.3") (bs "40000") sample_req).
  4: discriminate.
  all: vm_compute; repeat constructor; discriminate.
Defined.

(** ** The enabled methods *)

(** The config name of each method. *)
Definition short_name (req : request) : bytes :=
  match req with
  | SignRequest _ => bs "sign"
  | GetPublicKeyRequest => bs "get_public_key"
  | SignRawRequest _ => bs "sign_raw"
  | GetAddressRequest _ => bs "get_address"
  | SignTxRequest _ _ => bs "sign_tx"
  | GetChainIDRequest => bs "get_chain_id"
  | CheckpointRequest _ => bs "sign_bridge_checkpoint"
  | OracleRequest _ => bs "sign_oracle_attestation"
  | SignInitialRequest _ _ => bs "sign_initial"
  end.

Lemma full_of_short_inj n1 n2 full :
  full_of_short n1 = Some full -> full_of_short n2 = Some full -> n1 = n2.
Proof.
  assert (H : forall n, full_of_short n = Some full -> (n, full) ∈ shortRPCNameToFullMethod).
  { intros n. unfold full_of_short.
    destruct (list_find _ _) as [[i [x y]]|] eqn:E; [|done]. cbn. intros [= <-].
    apply list_find_Some in E as (Hl & Hx & _). cbn in Hx. subst. by eapply list_elem_of_lookup_2. }
  assert (Hn : NoDup (map snd shortRPCNameToFullMethod))
    by (apply (bool_decide_eq_true_1 _); vm_compute; reflexivity).
  intros H1%H H2%H. apply list_elem_of_lookup in H1 as [i Hi], H2 as [j Hj].
  assert (i = j) as ->; [|congruence].
  eapply (NoDup_lookup _ i j full Hn); rewrite list_lookup_fmap.
  - by rewrite Hi.
  - by rewrite Hj.
Qed.

(** Switching methods off by their short names works and does nothing
    else: for every short name of the table the full method's switch is
    exactly the configured one, methods no short name stands for have no
    switch, unknown names change nothing; and every RPC of the service has
    a short name. *)
Theorem enabled_rpcs_config cfg :
  (forall name full, full_of_short name = Some full ->
     EnabledRPCsFromConfig cfg !! full = cfg !! name) /\
  (forall full, (forall name, full_of_short name <> Some full) ->
     EnabledRPCsFromConfig cfg !! full = None) /\
  (forall req, exists name, full_of_short name = Some (FullMethodName req) /\ name ∈ KnownShortRPCNames).
Proof.
  assert (H : (forall name full, full_of_short name = Some full ->
       EnabledRPCsFromConfig cfg !! full = cfg !! name) /\
     (forall full, (forall name, full_of_short name <> Some full) ->
       EnabledRPCsFromConfig cfg !! full = None)).
  { unfold EnabledRPCsFromConfig.
    apply (map_fold_weak_ind (fun out cfg =>
      (forall name full, full_of_short name = Some full -> out !! full = cfg !! name) /\
      (forall full, (forall name, full_of_short name <> Some full) -> out !! full = None))).
    - split; intros; by rewrite !lookup_empty.
    - intros n e m out Hm [IH1 IH2]. destruct (full_of_short n) as [fn|] eqn:En.
      + split; intros name.
        * intros full Hf. destruct (decide (name = n)) as [->|N].
          -- rewrite En in Hf. injection Hf as <-. by rewrite !lookup_insert_eq.
          -- rewrite !lookup_insert_ne; [by apply IH1|done|]. intros <-. apply N.
             by eapply full_of_short_inj.
        * intros Hf. rewrite lookup_insert_ne; [by apply IH2|]. intros <-. by apply (Hf n).
      + split; [|done]. intros name full Hf. rewrite lookup_insert_ne; [by apply IH1|congruence]. }
  split; [apply H|]. split; [apply H|].
  intros req. exists (short_name req). split.
  - destruct req; vm_compute; reflexivity.
  - apply elem_of_list_to_set. destruct req; apply (bool_decide_eq_true_1 _); vm_compute; reflexivity.
Qed.

Definition sample_cfg : Config :=
  ServerConfig (bs "0.0.0.0:9191") 2000000000 1048576 [bs "/layer.oracle.MsgSubmitValue"] (bs "layertest-5") sample_path
    (EnabledRPCsFromConfig {[ bs "sign_tx" := false ]}) false.

Lemma new_server_fails_closed_witness :
  exists srv g b' s', New sample_cfg sample_file_signer (Fs sample_disk [] [] []) = (Ok (srv, g, b'), s') /\
    content_guard sample_path (content sample_disk sample_path) = Ok g.
Proof.
  assert (H : is_ok (fst (New sample_cfg sample_file_signer (Fs sample_disk [] [] []))) = true)
    by (vm_compute; reflexivity).
  destruct (New sample_cfg sample_file_signer (Fs sample_disk [] [] [])) as [[[[srv g] b']| |] s'] eqn:En;
    try discriminate H.
  exists srv, g, b', s'. split; [reflexivity|].
  apply (new_server_fails_closed sample_cfg sample_file_signer b' sample_disk [] [] srv g s');
    [discriminate|exact En].
Defined.
