(* ===== verification/Service.v ===== *)
(** * The generated gRPC service ([api/gen/signer/v1/signer_grpc.pb.go])

    The client's stubs, the handler of each method and the service
    descriptor, between a caller that has a message and the server of
    [BridgeServer], which has one again.  What grpc-go does in between - the
    dispatch of a path to the descriptor's entry, the encoding - is not
    modelled: a connection is any function of a path and a message, and a
    handler is given the function that decodes its request. *)

From S2P Require Import Prelude GoStd Sha256 Abi Checkpoint Attestation Fs Json ReplayGuard.
From S2P Require Import Logging Asn1 Signer Arbiter BridgeServer ServerProps.

(** ** Methods *)

Inductive rpc :=
| RSign | RGetPublicKey | RSignRaw | RGetAddress | RSignTx | RGetChainID
| RSignBridgeCheckpoint | RSignOracleAttestation | RSignInitial.

#[export] Instance rpc_eq_dec : EqDecision rpc.
Proof. solve_decision. Defined.

(** The method a message belongs to. *)
Definition rpc_of (r : request) : rpc :=
  match r with
  | SignRequest _ => RSign
  | GetPublicKeyRequest => RGetPublicKey
  | SignRawRequest _ => RSignRaw
  | GetAddressRequest _ => RGetAddress
  | SignTxRequest _ _ => RSignTx
  | GetChainIDRequest => RGetChainID
  | CheckpointRequest _ => RSignBridgeCheckpoint
  | OracleRequest _ => RSignOracleAttestation
  | SignInitialRequest _ _ => RSignInitial
  end.

Definition reply_rpc (r : response) : rpc :=
  match r with
  | SignResponse _ => RSign
  | GetPublicKeyResponse _ => RGetPublicKey
  | SignRawResponse _ => RSignRaw
  | GetAddressResponse _ => RGetAddress
  | SignTxResponse _ => RSignTx
  | GetChainIDResponse _ => RGetChainID
  | CheckpointResponse _ _ => RSignBridgeCheckpoint
  | OracleResponse _ _ => RSignOracleAttestation
  | SignInitialResponse _ _ => RSignInitial
  end.

(** The constants of the generated file. *)
Definition rpc_FullMethodName (m : rpc) : bytes :=
  match m with
  | RSign => MethodSign
  | RGetPublicKey => MethodGetPublicKey
  | RSignRaw => MethodSignRaw
  | RGetAddress => MethodGetAddress
  | RSignTx => MethodSignTx
  | RGetChainID => MethodGetChainID
  | RSignBridgeCheckpoint => MethodSignBridgeCheckpoint
  | RSignOracleAttestation => MethodSignOracleAttestation
  | RSignInitial => MethodSignInitial
  end.

(** ** The service *)

Section Service.
Context {C : Crypto} {E : GoEthereum} {L : NodeLib} {B : Type} {S : Signer B}.
Abbreviation W := (world B).

(** [_BridgeSigner_<m>_Handler]: [dec] decodes what was received into the
    method's request type. *)
Definition method_handler (m : rpc) (srv : Server) (ctx : context) (dec : rpc -> result request)
    (ic : option (@interceptor B)) : ST W response := (
  req <- st_lift (dec m) ;;
  match ic with
  | None => handle srv ctx req
  | Some ic => ic (CallInfo (rpc_FullMethodName m) ctx) (handle srv ctx req)
  end)%go.

Definition MethodDesc : Type :=
  bytes * (Server -> context -> (rpc -> result request) -> option (@interceptor B) -> ST W response).

Definition ServiceName : bytes := bs "signer.v1.BridgeSigner".

(** [BridgeSigner_ServiceDesc]. *)
Definition Methods : list MethodDesc :=
  [(bs "Sign", method_handler RSign);
   (bs "GetPublicKey", method_handler RGetPublicKey);
   (bs "SignRaw", method_handler RSignRaw);
   (bs "GetAddress", method_handler RGetAddress);
   (bs "SignTx", method_handler RSignTx);
   (bs "GetChainID", method_handler RGetChainID);
   (bs "SignBridgeCheckpoint", method_handler RSignBridgeCheckpoint);
   (bs "SignOracleAttestation", method_handler RSignOracleAttestation);
   (bs "SignInitial", method_handler RSignInitial)].

(** A client connection: what its [Invoke] does for a path and a message. *)
Definition ClientConn : Type := bytes -> request -> ST W response.

(** The stubs: each passes its own method's name and message, and returns
    the response or the error. *)
Definition client_stub (cc : ClientConn) (r : request) : ST W response := (
  out <- cc (rpc_FullMethodName (rpc_of r)) r ;;
  st_ret out)%go.

(** ** Replies have their method's type *)

(** Whatever [m] returns satisfies [Q]. *)
Definition yields {A} (Q : A -> Prop) (m : ST W A) : Prop := forall w a w', m w = (Ok a, w') -> Q a.

Lemma yields_ret {A} (Q : A -> Prop) a : Q a -> yields Q (st_ret a).
Proof using. by intros H w a' w' [= <- _]. Qed.

Lemma yields_bind {A A'} (Q : A' -> Prop) (m : ST W A) (k : A -> ST W A') :
  (forall a, yields Q (k a)) -> yields Q (st_bind m k).
Proof using. intros Hk w a w'. unfold st_bind. destruct (m w) as [[x| |] w1]; [apply Hk|done..]. Qed.

Lemma yields_err {A} (Q : A -> Prop) e : yields Q (st_lift (Err e)).
Proof using. by intros w a w'. Qed.

Lemma yields_panic {A} (Q : A -> Prop) : yields Q (st_lift Panic).
Proof using. by intros w a w'. Qed.

Ltac yields_step :=
  match goal with
  | |- yields _ (st_bind _ _) => apply yields_bind; intros ?
  | |- yields _ (st_ret _) => apply yields_ret; reflexivity
  | |- yields _ (st_lift (Err _)) => apply yields_err
  | |- yields _ (st_lift (status _ _ _)) => apply yields_err
  | |- yields _ (st_lift Panic) => apply yields_panic
  | |- yields _ (let '(_, _) := ?x in _) => destruct x
  | |- yields _ (if ?b then _ else _) => destruct b
  | |- yields _ (match ?x with _ => _ end) => destruct x
  end.

Lemma handle_yields srv ctx req : yields (fun r => reply_rpc r = rpc_of req) (handle srv ctx req).
Proof using.
  destruct req; cbn [handle rpc_of].
  all: unfold BridgeServer.Sign, GetPublicKey, BridgeServer.SignRaw, GetAddress, SignTx, GetChainID,
    SignBridgeCheckpoint, SignOracleAttestation, SignInitial.
  all: repeat yields_step.
Qed.

Lemma serve_yields srv ph from req : yields (fun r => reply_rpc r = rpc_of req) (serve srv ph from req).
Proof using.
  unfold serve, server_chain. cbn [chainUnaryInterceptors].
  assert (Hin : yields (fun r => reply_rpc r = rpc_of req)
    (newEnabledRPCInterceptor (enabledRPCs srv) (CallInfo (FullMethodName req) from)
       (newPrimaryGateInterceptor ph (CallInfo (FullMethodName req) from) (handle srv from req)))).
  { pose proof (handle_yields srv from req). unfold newEnabledRPCInterceptor, newPrimaryGateInterceptor.
    repeat (done || yields_step). }
  intros w r w'. unfold newUnaryInterceptor. cbn [peer FullMethod].
  match type of Hin with yields _ ?m => destruct (m (add_lines (connection_lines from) w)) as [[a|e|] w1] eqn:Ew end; [|done..].
  intros [= <- _]. by eapply Hin.
Qed.

(** ** Dispatch *)

Lemma FullMethodName_rpc req : FullMethodName req = rpc_FullMethodName (rpc_of req).
Proof using. by destruct req. Qed.

(** The path of an entry of the descriptor. *)
Definition path_of (name : bytes) : bytes := x2f :: ServiceName ++ x2f :: name.

Lemma Methods_NoDup : NoDup (Methods.*1).
Proof using. apply (bool_decide_unpack _). by vm_compute. Qed.

(** The descriptor lists each method under its own name, once. *)
Lemma Methods_entry name h : (name, h) ∈ Methods -> exists m, h = method_handler m /\ rpc_FullMethodName m = path_of name.
Proof using.
  unfold Methods. rewrite !elem_of_cons, elem_of_nil. intros H.
  repeat (destruct H as [H|H]; [injection H as -> ->; eexists; split; reflexivity|]). done.
Qed.

Lemma Methods_lists m : exists name, (name, method_handler m) ∈ Methods /\ rpc_FullMethodName m = path_of name.
Proof using.
  destruct m; (eexists; split; [|reflexivity]); unfold Methods; rewrite !elem_of_cons; tauto.
Qed.

Lemma rpc_FullMethodName_inj m m' : rpc_FullMethodName m = rpc_FullMethodName m' -> m = m'.
Proof using. by destruct m, m'. Qed.

(** (C33) The client's stubs and the server's descriptor mean the same
    methods.  The descriptor's names are distinct, and each is the last part
    of one method's full name.  For every request message there is exactly
    one entry whose path is the one the message's stub invokes its
    connection with - and the stub returns what the connection returned.
    That entry's handler, given the message by its decoder, is the service's
    method for that message: called directly without an interceptor, and
    under any interceptor with the path the stub used as the full method; with
    the chain of [New] it is [serve], whose answer has the response type of
    the request's method.  When the message does not decode, nothing else is
    done and the decoder's error is returned. *)
Theorem stubs_and_descriptor_agree srv ph from (cc : ClientConn) r w :
  NoDup (Methods.*1) /\
  (forall name h, (name, h) ∈ Methods -> exists m, rpc_FullMethodName m = path_of name) /\
  exists name h, (name, h) ∈ Methods /\
    (forall name' h', (name', h') ∈ Methods -> path_of name' = rpc_FullMethodName (rpc_of r) -> name' = name /\ h' = h) /\
    client_stub cc r w = cc (x2f :: bs "signer.v1.BridgeSigner" ++ x2f :: name) r w /\
    (forall dec ic, dec (rpc_of r) = Ok r ->
       h srv from dec None w = handle srv from r w /\
       h srv from dec (Some ic) w = ic (CallInfo (path_of name) from) (handle srv from r) w /\
       h srv from dec (Some (server_chain srv ph)) w = serve srv ph from r w) /\
    (forall dec e ic, dec (rpc_of r) = Err e -> h srv from dec ic w = (Err e, w)) /\
    (forall res w', serve srv ph from r w = (Ok res, w') -> reply_rpc res = rpc_of r).
Proof using.
  split; [apply Methods_NoDup|]. split.
  { intros name h H. apply Methods_entry in H as (m & _ & H). by exists m. }
  destruct (Methods_lists (rpc_of r)) as (name & Hin & Hm).
  exists name, (method_handler (rpc_of r)). split; [done|]. split; [|split; [|split; [|split]]].
  - intros name' h' H Hp. apply Methods_entry in H as (m & -> & Hm').
    rewrite <-Hm' in Hp. apply rpc_FullMethodName_inj in Hp as ->. rewrite Hm in Hm'. by injection Hm' as ->.
  - unfold client_stub. rewrite Hm. unfold st_bind, st_ret, path_of, ServiceName. by destruct (cc _ r w) as [[]].
  - intros dec ic Hd. unfold method_handler, st_bind, st_lift. rewrite Hd, Hm.
    split; [done|]. split; [done|]. unfold serve. by rewrite FullMethodName_rpc, Hm.
  - intros dec e ic Hd. unfold method_handler, st_bind, st_lift. by rewrite Hd.
  - apply serve_yields.
Qed.
End Service.

(** ** A concrete connection *)

#[local] Existing Instance reference_eth.
#[local] Existing Instance reference_crypto.
#[local] Existing Instance reference_node.

(** A connection that serves the entry its path names, without encoding. *)
Definition local_conn (srv : Server) : ClientConn (B := FileSigner) := fun path r w =>
  match list_find (fun d => path_of (fst d) = path) Methods with
  | Some (_, d) => snd d srv None (fun _ => Ok r) (Some (server_chain srv None)) w
  | None => (Err (ErrLib "unknown method"), w)
  end.

(** [GetChainID]'s stub finds [GetChainID]'s entry, which answers with the
    chain's id. *)
Lemma stubs_and_descriptor_agree_witness :
  (exists name h, (name, h) ∈ Methods (B := FileSigner) /\
     h sample_srv None (fun _ => Ok GetChainIDRequest) (Some (server_chain sample_srv None)) sample_world =
       serve sample_srv None None GetChainIDRequest sample_world) /\
  fst (client_stub (local_conn sample_srv) GetChainIDRequest sample_world) = Ok (GetChainIDResponse (chainID sample_srv)).
Proof.
  destruct (stubs_and_descriptor_agree sample_srv None None (local_conn sample_srv) GetChainIDRequest sample_world)
    as (_ & _ & name & h & Hin & _ & _ & Hd & _).
  split; [|reflexivity]. exists name, h. split; [exact Hin|].
  apply (Hd (fun _ => Ok GetChainIDRequest) (server_chain sample_srv None) eq_refl).
Defined.
