(* ===== verification/AuditTrail.v ===== *)
(** * The audit trail

    What the lines the server logs say about what it signed: which digests
    handed to the backend have a signing audit ([AuditSign]), with which
    outcome, and which do not. *)

From S2P Require Import Prelude GoStd Sha256 Abi Fs ReplayGuard Logging Asn1 Signer Arbiter.
From S2P Require Import BridgeServer ServerProps.

#[local] Opaque sha256_Sum256.

(** The value a line carries under a key. *)
Definition attr_of (k : string) (l : log_record) : option avalue :=
  (fun p => snd (snd p)) <$> list_find (fun p => fst p = k) (lr_attrs l).

(** What a signing audit has to tell: that it is one, for which request, the
    hash of what was handed to the backend, and how that ended. *)
Record tells (rid d : bytes) (err : option error) (l : log_record) : Prop := {
  tl_level : lr_level l = match err with None => LevelInfo | Some _ => LevelError end;
  tl_event : attr_of "event" l = Some (VStr (bs "sign"));
  tl_request : attr_of "request_id" l = Some (VStr rid);
  tl_hash : attr_of "msg_hash" l = Some (VStr (hex_EncodeToString (sha256_Sum256 d)));
  tl_success : attr_of "success" l = Some (VBool (match err with None => true | Some _ => false end));
  tl_error : attr_of "error" l = VErr <$> err;
}.

Lemma AuditSign_tells rid d err : tells rid d err (AuditSign rid d err).
Proof. by destruct err. Qed.

(** The audit of one backend call, by its outcome; a panic unwinds past it. *)
Definition audit_of (rid d : bytes) (rs : result bytes) (au : list log_record) : Prop :=
  match rs with
  | Ok _ => exists l, au = [l] /\ tells rid d None l
  | Err e => exists l, au = [l] /\ tells rid d (Some e) l
  | Panic => au = []
  end.

Section Trail.
Context {C : Crypto} {E : GoEthereum} {L : NodeLib} {B : Type} {S : Signer B}.

(** What a call signs and audits, given the backend it starts with. *)
Definition trail := B -> list bytes -> list log_record -> Prop.

Definition nothing : trail := fun _ ds au => ds = [] /\ au = [].

(** At most one digest, audited by [au_of] on the backend's answer. *)
Definition at_most_once (au_of : bytes -> result bytes -> list log_record -> Prop) : trail := fun b ds au =>
  nothing b ds au \/ exists d, ds = [d] /\ au_of d (fst (Signer.SignRaw d b)) au.

Definition unaudited : trail := fun _ _ au => au = [].

Definition leaves {A} (T : trail) (m : ST (world B) A) : Prop := forall w r w', m w = (r, w') ->
  exists ds ls, w_log w' = ds ++ w_log w /\ w_lines w' = ls ++ w_lines w /\
    T (w_backend w) ds (sign_audits ls).

(** A call that neither signs nor audits nor touches the backend. *)
Definition mute {A} (m : ST (world B) A) : Prop := forall w r w', m w = (r, w') ->
  w_backend w' = w_backend w /\ w_log w' = w_log w /\
  exists ls, w_lines w' = ls ++ w_lines w /\ sign_audits ls = [].

(** ** Rules *)

Lemma mute_lift {A} (r : result A) : mute (st_lift r).
Proof using. intros w ? ? [= _ <-]. split; [done|]. split; [done|]. by exists []. Qed.
Lemma mute_ret {A} (a : A) : mute (st_ret a).
Proof using. apply (mute_lift (Ok a)). Qed.
Lemma mute_get : mute st_get.
Proof using. intros w ? ? [= _ <-]. split; [done|]. split; [done|]. by exists []. Qed.
Lemma mute_log line : is_sign_audit line = false -> mute (log line).
Proof using.
  intros H w ? ? [= _ <-]. split; [done|]. split; [done|]. exists [line]. split; [done|].
  unfold sign_audits. cbn. by rewrite H.
Qed.
Lemma mute_logged {A} (m : LR A) : sign_audits (snd m) = [] -> mute (logged m).
Proof using. intros H w ? ? [= _ <-]. split; [done|]. split; [done|]. by exists (snd m). Qed.
Lemma mute_guard {A} (m : ST gfs A) : mute (call_guard m).
Proof using.
  intros w r w'. unfold call_guard. destruct (m _) as [r1 [g s]]. intros [= _ <-].
  split; [done|]. split; [done|]. by exists [].
Qed.
Lemma mute_try {A} (m : ST (world B) A) : mute m -> mute (st_try m).
Proof using.
  intros H w r w'. unfold st_try. destruct (m w) as [r1 w1] eqn:Em. intros [= _ <-]. exact (H _ _ _ Em).
Qed.
Lemma mute_bind {A A'} (m : ST (world B) A) (k : A -> ST (world B) A') :
  mute m -> (forall a, mute (k a)) -> mute (st_bind m k).
Proof using.
  intros Hm Hk w r w'. unfold st_bind. destruct (m w) as [[a| |] w1] eqn:Em.
  2-3: intros [= _ <-]; exact (Hm _ _ _ Em).
  intros E2. destruct (Hm _ _ _ Em) as (B1 & D1 & l1 & L1 & A1), (Hk a _ _ _ E2) as (B2 & D2 & l2 & L2 & A2).
  split; [congruence|]. split; [congruence|]. exists (l2 ++ l1). rewrite L2, L1, sign_audits_app, A1, A2.
  by rewrite app_assoc.
Qed.

Lemma mute_leaves {A} (T : trail) (m : ST (world B) A) :
  (forall b, T b [] []) -> mute m -> leaves T m.
Proof using.
  intros HT Hm w r w' Em. destruct (Hm _ _ _ Em) as (_ & HD & ls & HL & HA).
  exists [], ls. rewrite HA. auto.
Qed.

Lemma leaves_before {A A'} (T : trail) (m : ST (world B) A) (k : A -> ST (world B) A') :
  (forall b, T b [] []) -> mute m -> (forall a, leaves T (k a)) -> leaves T (st_bind m k).
Proof using.
  intros HT Hm Hk w r w'. unfold st_bind. destruct (m w) as [[a| |] w1] eqn:Em.
  2-3: intros [= _ <-]; exact (mute_leaves _ _ HT Hm _ _ _ Em).
  intros E2. destruct (Hm _ _ _ Em) as (B1 & D1 & l1 & L1 & A1), (Hk a _ _ _ E2) as (ds & l2 & D2 & L2 & HT2).
  exists ds, (l2 ++ l1). rewrite D2, D1, L2, L1, sign_audits_app, A1, app_nil_r, <-B1.
  by rewrite app_assoc.
Qed.

Lemma leaves_after {A A'} (T : trail) (m : ST (world B) A) (k : A -> ST (world B) A') :
  leaves T m -> (forall a, mute (k a)) -> leaves T (st_bind m k).
Proof using.
  intros Hm Hk w r w'. unfold st_bind. destruct (m w) as [[a| |] w1] eqn:Em.
  2-3: intros [= _ <-]; exact (Hm _ _ _ Em).
  intros E2. destruct (Hm _ _ _ Em) as (ds & l1 & D1 & L1 & HT), (Hk a _ _ _ E2) as (_ & D2 & l2 & L2 & A2).
  exists ds, (l2 ++ l1). rewrite D2, D1, L2, L1, sign_audits_app, A2. by rewrite app_assoc.
Qed.

Lemma leaves_unaudited_bind {A A'} (m : ST (world B) A) (k : A -> ST (world B) A') :
  leaves unaudited m -> (forall a, leaves unaudited (k a)) -> leaves unaudited (st_bind m k).
Proof using.
  intros Hm Hk w r w'. unfold st_bind. destruct (m w) as [[a| |] w1] eqn:Em.
  2-3: intros [= _ <-]; exact (Hm _ _ _ Em).
  intros E2. destruct (Hm _ _ _ Em) as (d1 & l1 & D1 & L1 & A1), (Hk a _ _ _ E2) as (d2 & l2 & D2 & L2 & A2).
  unfold unaudited in *. exists (d2 ++ d1), (l2 ++ l1).
  rewrite D2, D1, L2, L1, sign_audits_app, A1, A2. by rewrite !app_assoc.
Qed.

Lemma leaves_audited rid d : leaves (at_most_once (audit_of rid)) (audited_sign64 rid d).
Proof using.
  intros w r w'. rewrite audited_sign64_eq. destruct (Signer.SignRaw d (w_backend w)) as [rs b'] eqn:Es.
  assert (Hd : forall au, audit_of rid d rs au -> at_most_once (audit_of rid) (w_backend w) [d] au).
  { intros au Ha. right. exists d. by rewrite Es. }
  destruct rs as [sig|e|]; intros [= _ <-]; cbn.
  - exists [d], [AuditSign rid d None]. split; [done|]. split; [done|]. apply Hd. by eexists; split; [|apply AuditSign_tells].
  - exists [d], [AuditSign rid d (Some e)]. split; [done|]. split; [done|]. apply Hd. by eexists; split; [|apply AuditSign_tells].
  - exists [d], []. by split; [|split; [|apply Hd]].
Qed.

Lemma at_most_once_nil f b : at_most_once f b [] [].
Proof using. by left. Qed.
End Trail.

Create HintDb audit discriminated.
#[export] Hint Resolve mute_lift mute_ret mute_get mute_guard mute_try mute_bind at_most_once_nil : audit.
#[export] Hint Extern 1 (mute (log _)) => apply mute_log; reflexivity : audit.
#[export] Hint Extern 1 (is_sign_audit _ = false) => reflexivity : audit.

(** ** The gates audit nothing *)

Definition quiet {A} (m : LR A) : Prop := sign_audits (snd m) = [].

Lemma quiet_lift {A} (r : result A) : quiet (lr_lift r).
Proof. done. Qed.
Lemma quiet_gate b line e : sign_audits line = [] -> quiet (lr_gate b line e).
Proof. by destruct b. Qed.
Lemma quiet_bind {A A'} (m : LR A) (k : A -> LR A') :
  quiet m -> (forall a, quiet (k a)) -> quiet (lr_bind m k).
Proof.
  unfold quiet. intros Hm Hk. destruct m as [[a| |] ls]; cbn [lr_bind fst snd] in *; try done.
  specialize (Hk a). destruct (k a) as [r ls']. cbn [snd] in *. by rewrite sign_audits_app, Hm, Hk.
Qed.

Ltac hush :=
  repeat first [apply quiet_bind; [|intros ?] | apply quiet_gate; reflexivity | apply quiet_lift].

Section Handlers.
Context {C : Crypto} {E : GoEthereum} {L : NodeLib} {B : Type} {S : Signer B}.

Lemma recompute_checkpoint_quiet srv req : quiet (recompute_checkpoint srv req).
Proof using. unfold recompute_checkpoint. cbv zeta. hush. Qed.
Lemma recompute_snapshot_quiet req : quiet (recompute_snapshot req).
Proof using. unfold recompute_snapshot. hush. Qed.

Lemma checkpoint_trail srv ctx req :
  leaves (B := B) (at_most_once (audit_of (ckRequestId req))) (SignBridgeCheckpoint srv ctx req).
Proof using.
  apply leaves_before; [apply at_most_once_nil|apply mute_logged, recompute_checkpoint_quiet|]. intros ckpt.
  apply leaves_before; [apply at_most_once_nil|apply mute_try, mute_guard|]. intros [[]|err|].
  - apply leaves_after; [apply leaves_audited|]. intros sig.
    apply mute_bind; [apply mute_try, mute_guard|]. intros [| |];
      apply mute_bind; intros; try apply mute_bind; auto with audit.
  - apply mute_leaves; [apply at_most_once_nil|]. apply mute_bind; [apply mute_get|]. intros w.
    case_match; (apply mute_bind; [|auto with audit]); [auto with audit|].
    case_match; auto with audit.
  - apply mute_leaves; auto with audit.
Qed.

Lemma oracle_trail srv ctx req :
  leaves (B := B) (at_most_once (audit_of (atRequestId req))) (SignOracleAttestation srv ctx req).
Proof using.
  apply leaves_before; [apply at_most_once_nil|apply mute_logged, recompute_snapshot_quiet|]. intros snap.
  apply leaves_after; [apply leaves_audited|]. intros sig. apply mute_bind; auto with audit.
Qed.

(** Only a success is audited. *)
Definition audit_success (rid d : bytes) (rs : result bytes) (au : list log_record) : Prop :=
  match rs with Ok _ => exists l, au = [l] /\ tells rid d None l | _ => au = [] end.

Lemma tx_trail srv doc rid : leaves (B := B) (at_most_once (audit_success rid)) (SignTx srv doc rid).
Proof using.
  intros w r w' Ew. destruct (SignTx_cases srv doc rid w) as [Ha|(_ & _ & ls & Hw & Hq)].
  - pose proof (SignTx_allowed srv doc rid w Ha) as He. cbv zeta in He. rewrite Ew in He.
    assert (Hd : forall au, audit_success rid (sha256_Sum256 doc) (fst (Signer.SignRaw (sha256_Sum256 doc) (w_backend w))) au ->
      at_most_once (audit_success rid) (w_backend w) [sha256_Sum256 doc] au) by (intros au Hu; right; by eexists).
    destruct (fst (Signer.SignRaw _ _)); injection He as _ ->;
      (exists [sha256_Sum256 doc]); [exists [AuditSign rid (sha256_Sum256 doc) None]|exists []..];
      (split; [done|]); (split; [done|]); apply Hd; [|done..]. by eexists; split; [|apply AuditSign_tells].
  - rewrite Ew in Hw. cbn in Hw. subst w'. exists [], ls. rewrite Hq. split; [done|]. split; [done|].
    apply at_most_once_nil.
Qed.

Lemma sign64_unaudited d f1 f2 : leaves (B := B) unaudited (sign64 d f1 f2).
Proof using.
  intros w r w'. unfold sign64, check64, st_bind, st_map_err, call_SignRaw, st_lift, st_ret.
  destruct (Signer.SignRaw d (w_backend w)) as [[sig| |] b']; cbn [map_err];
    [case_match|..]; intros [= _ <-]; by exists [d], [].
Qed.

Lemma mute_unaudited {A} (m : ST (world B) A) : mute m -> leaves unaudited m.
Proof using. by apply mute_leaves. Qed.

Lemma initial_trail srv op rid : leaves (B := B) unaudited (SignInitial srv op rid).
Proof using.
  unfold SignInitial. case_match; [apply mute_unaudited; auto with audit|].
  apply leaves_unaudited_bind; [apply mute_unaudited; auto with audit|]. intros [hrp addr].
  case_match; [apply mute_unaudited, mute_bind; auto with audit|].
  cbn [initialRegistrationMessages].
  apply leaves_unaudited_bind; [apply sign64_unaudited|]. intros sigA.
  apply leaves_unaudited_bind; [apply sign64_unaudited|]. intros sigB.
  apply mute_unaudited, mute_bind; auto with audit.
Qed.

Lemma call_signer_nothing {A} (m : ST B A) line :
  (forall e, is_sign_audit (line e) = false) -> leaves nothing (log_outcome line (call_signer m)).
Proof using.
  intros Hl w r w'. unfold log_outcome, call_signer. destruct (m (w_backend w)) as [[a|e|] b'];
    intros [= _ <-]; [exists [], [line None]|exists [], [line (Some e)]|exists [], []];
    (split; [done|]); (split; [done|]); unfold nothing, sign_audits; cbn; by rewrite ?Hl.
Qed.

Lemma leaves_map_err {A} T f (m : ST (world B) A) : leaves T m -> leaves T (st_map_err f m).
Proof using.
  intros H w r w'. unfold st_map_err. destruct (m w) as [r1 w1] eqn:Em. intros [= _ <-]. exact (H _ _ _ Em).
Qed.

(** What each request leaves. *)
Definition trail_of (req : request) : @trail B :=
  match req with
  | CheckpointRequest r => at_most_once (audit_of (ckRequestId r))
  | OracleRequest r => at_most_once (audit_of (atRequestId r))
  | SignTxRequest _ rid => at_most_once (audit_success rid)
  | SignInitialRequest _ _ => unaudited
  | _ => nothing
  end.

Lemma trail_of_nil req b : trail_of req b [] [].
Proof using. destruct req; cbn; done || apply at_most_once_nil. Qed.

Lemma handle_trail srv ctx req : leaves (trail_of req) (handle srv ctx req).
Proof using.
  assert (H0 : forall b : B, nothing b [] []) by done.
  destruct req; cbn [handle trail_of].
  - apply mute_leaves; [done|apply mute_lift].
  - apply leaves_after; [|intros pk; case_match; auto with audit].
    apply leaves_map_err, call_signer_nothing. by intros [].
  - apply mute_leaves; [done|apply mute_lift].
  - apply leaves_after; [|intros; auto with audit]. apply leaves_map_err. intros w r w'.
    unfold call_signer. destruct (Bech32Address _ _) as [r1 b1]. intros [= _ <-]. by exists [], [].
  - apply tx_trail.
  - unfold GetChainID. apply mute_leaves; [done|]. case_match; auto with audit.
  - apply checkpoint_trail.
  - apply oracle_trail.
  - apply initial_trail.
Qed.

(** (C10) The audit trail: whatever the configuration, the peer and the
    answers of the backend, a checkpoint or attestation request signs at
    most one digest, and the lines it leaves contain exactly one signing
    audit for it - none when nothing was signed (or the backend panicked).
    That line carries the request's id, the hash of that digest and the
    outcome the backend reported: at level info with success true, or at
    level error with success false and the error.  A transaction is audited only when the backend
    signed it: a failed signature leaves no audit.  The registration
    signatures have none, and the read-only and blind methods neither sign
    nor audit. *)
Theorem audit_trail srv ph from req (w : world B) :
  let '(r, w') := serve srv ph from req w in
  exists ds ls, w_log w' = ds ++ w_log w /\ w_lines w' = ls ++ w_lines w /\
    trail_of req (w_backend w) ds (sign_audits ls).
Proof using.
  assert (Hg : leaves (trail_of req) (newEnabledRPCInterceptor (enabledRPCs srv)
    (CallInfo (FullMethodName req) from)
    (newPrimaryGateInterceptor ph (CallInfo (FullMethodName req) from) (handle srv from req)))).
  { pose proof (trail_of_nil req). unfold newEnabledRPCInterceptor, newPrimaryGateInterceptor. cbn [FullMethod peer].
    repeat case_match; auto using handle_trail, mute_leaves with audit. }
  rewrite chain_eq. unfold newUnaryInterceptor at 1. cbn [peer FullMethod].
  destruct (newEnabledRPCInterceptor _ _ _ _) as [r w'] eqn:Ew.
  destruct (Hg _ _ _ Ew) as (ds & ls & HD & HL & HT). cbn [add_lines w_log w_lines w_backend] in *.
  assert (Hc : sign_audits (connection_lines from) = []) by by destruct from.
  destruct r; cbn [add_lines w_log w_lines].
  1,2: exists ds, (ls ++ connection_lines from); rewrite HL, sign_audits_app, Hc, app_nil_r; by rewrite app_assoc.
  exists ds, ([panic_line (FullMethodName req)] ++ ls ++ connection_lines from).
  rewrite HL, !sign_audits_app, Hc, app_nil_r. split; [done|]. split; [by rewrite <-!app_assoc|exact HT].
Qed.
End Handlers.

Section Gap.
Context {C : Crypto} {E : GoEthereum} {L : NodeLib} {B : Type} {S : Signer B}.

(** A failed transaction signature leaves no trace: when a transaction
    passed every check and the backend was asked to sign its hash but
    reported an error, the caller gets Internal and the server's log shows
    nothing of the request beyond the connection's debug line - where a
    checkpoint or attestation in the same situation has a failed audit. *)
Theorem failed_tx_leaves_no_trace srv ph from doc rid e (w : world B) :
  ~ disabled srv (SignTxRequest doc rid) -> allowed_doc srv doc ->
  fst (Signer.SignRaw (sha256_Sum256 doc) (w_backend w)) = Err e ->
  let '(r, w') := serve srv ph from (SignTxRequest doc rid) w in
  r = Err (status_of Internal "signing failed: %v" e) /\
  w_log w' = sha256_Sum256 doc :: w_log w /\ w_lines w' = connection_lines from ++ w_lines w.
Proof using.
  intros Hd Ha Hb. rewrite chain_eq. unfold newUnaryInterceptor, newEnabledRPCInterceptor. cbn [FullMethod peer].
  rewrite (gate_passes ph from (SignTxRequest doc rid)).
  2: { intros (? & ? & _ & _ & _ & _ & Hg%gated_methods). done. }
  cbn [handle]. pose proof (SignTx_allowed srv doc rid (add_lines (connection_lines from) w) Ha) as He.
  cbv zeta in He. cbn [add_lines w_backend] in He. rewrite Hb in He. unfold disabled in Hd.
  destruct (enabledRPCs srv !! _) as [[]|]; [|done|]; by rewrite He.
Qed.
End Gap.

#[local] Existing Instance reference_eth.
#[local] Existing Instance reference_crypto.
#[local] Existing Instance reference_node.
#[local] Existing Instance broken_signer.

Lemma failed_tx_leaves_no_trace_witness :
  let doc := bs "doc:/layer.oracle.MsgSubmitValue" in
  let '(r, w') := serve sample_srv None (Some (bs "10.0.0.9:5000")) (SignTxRequest doc (bs "req-9")) broken_world in
  r = Err (status_of Internal "signing failed: %v" (ErrLib "device offline")) /\
  w_log w' = sha256_Sum256 doc :: w_log broken_world /\
  w_lines w' = connection_lines (Some (bs "10.0.0.9:5000")) ++ w_lines broken_world.
Proof.
  apply (failed_tx_leaves_no_trace sample_srv None (Some (bs "10.0.0.9:5000"))
    (bs "doc:/layer.oracle.MsgSubmitValue") (bs "req-9") (ErrLib "device offline") broken_world).
  - unfold disabled. discriminate.
  - split; [discriminate|]. exists (bs "/layer.oracle.MsgSubmitValue"), [bs "/layer.oracle.MsgSubmitValue"].
    split; [reflexivity|]. split; [reflexivity|]. split; [discriminate|].
    constructor; [|constructor]. apply (bool_decide_eq_true_1 _). vm_compute. reflexivity.
  - reflexivity.
Defined.
