(* ===== verification/Health.v ===== *)
(** * The health endpoints ([health/health.go])

    The HTTP handlers for liveness, readiness and the signer's address over
    the [Signer] interface, the routes [New] registers, the query string
    they read and the JSON they write.  Paths are canonical ones: [net/http]
    redirects any other before the routes are consulted.  The exposition of
    the metrics registry is a parameter, sockets and timeouts are not
    modelled: an expired context is an error of the backend call. *)

From S2P Require Import Prelude GoStd Json Fs ReplayGuard Abi Logging Asn1 Signer Arbiter.
From S2P Require Import BridgeServer ServerProps.

(** ** [net/url]: the query string *)

Fixpoint QueryUnescape (s : bytes) : option bytes :=
  match s with
  | [] => Some []
  | c :: r =>
      if Byte.eqb c x25 then
        match r with
        | h :: l :: r' =>
            match fromHexChar h, fromHexChar l with
            | Some a, Some b => cons (byte_of_Z (a * 16 + b)) <$> QueryUnescape r'
            | _, _ => None
            end
        | _ => None
        end
      else cons (if Byte.eqb c x2b then x20 else c) <$> QueryUnescape r
  end.

(** [strings.Cut] at a byte. *)
Definition Cut (s : bytes) (c : byte) : bytes * bytes :=
  match IndexByte s c with
  | Some i => (take i s, drop (S i) s)
  | None => (s, [])
  end.

(** One [key=value] of the query; a malformed one is dropped. *)
Definition query_pair (seg : bytes) : option (bytes * bytes) :=
  if contains seg x3b then None
  else if beq seg [] then None
  else let '(k, v) := Cut seg x3d in
       k' ← QueryUnescape k; v' ← QueryUnescape v; Some (k', v').

Definition max_query_params : nat := 10000.

(** [URL.Query]: the pairs in order; none at all beyond the limit on their
    number. *)
Definition ParseQuery (query : bytes) : list (bytes * bytes) :=
  let segs := Split query x26 in
  if (max_query_params <? length segs)%nat then [] else omap query_pair segs.

(** [Values.Get]. *)
Definition query_Get (query key : bytes) : bytes :=
  match list_find (fun p => fst p = key) (ParseQuery query) with
  | Some (_, (_, v)) => v
  | None => []
  end.

(** ** Responses *)

Inductive body := BText (b : bytes) | BError (e : error).   (** [BError]: its text and a newline *)

Record http_response := Response {
  StatusCode : Z;
  ContentType : option bytes;
  Body : body;
}.

Definition http_Error (e : error) (code : Z) : http_response :=
  Response code (Some (bs "text/plain; charset=utf-8")) (BError e).

Definition NotFound : http_response := http_Error (ErrLib "404 page not found") 404.

(** ** [health.go] *)

Section Checker.
Context {C : Crypto} {B : Type} {S : Signer B}.

(** What [promhttp] answers for the registry. *)
Context (exposition : http_response).

(** A handler: the response and the lines it logs. *)
Definition http_handler : Type := ST B (http_response * list log_record).

Definition address (rawQuery : bytes) : http_handler := (
  let prefix := query_Get rawQuery (bs "prefix") in
  let prefix := if beq prefix [] then bs "tellor" else prefix in
  r <- st_try (Bech32Address prefix) ;;
  match r with
  | Panic => st_lift Panic
  | Err err =>
      st_ret (http_Error (Errorf "derive address: %v" [AErr err]) 500,
              [Error "address endpoint failed" [("error"%string, VErr err)]])
  | Ok addr =>
      st_ret (Response 200 (Some (bs "application/json")) (BText (json_encode_field (bs "address") addr ++ [x0a])),
              [])
  end)%go.

Definition liveness : http_handler := st_ret (Response 200 None (BText (bs "ok")), []).

Definition readiness : http_handler := (
  r <- st_try Signer.GetPublicKey ;;
  match r with
  | Panic => st_lift Panic
  | Err err =>
      st_ret (http_Error (Errorf "signer not ready: %v" [AErr err]) 503,
              [Warn "readiness check failed" [("error"%string, VErr err)]])
  | Ok _ => st_ret (Response 200 None (BText (bs "ok")), [])
  end)%go.

Definition metricsHandler : http_handler := st_ret (exposition, []).

(** The routes of [New]: patterns without a trailing slash match one path,
    for every method. *)
Definition ServeHTTP (path rawQuery : bytes) : http_handler :=
  if beq path (bs "/healthz") then liveness
  else if beq path (bs "/readyz") then readiness
  else if beq path (bs "/metrics") then metricsHandler
  else if beq path (bs "/address") then address rawQuery
  else st_ret (NotFound, []).
End Checker.

(** [Start]: what it returns, given what [ListenAndServe] did; a server that
    was shut down is not an error. *)
Definition ErrServerClosed : error := ErrSentinel "http: Server closed".
Definition is_ErrServerClosed (e : error) : bool :=
  match e with ErrSentinel n => String.eqb n "http: Server closed" | _ => false end.
Definition health_Start (listenAndServe : option error) : option error :=
  match listenAndServe with
  | None => None
  | Some e => if is_ErrServerClosed e then None else Some (errw "health server error: %w" e)
  end.

(** ** The query string *)

(** The bytes of a query value that stand for themselves. *)
Definition query_plain (c : byte) : Prop :=
  c <> x25 /\ c <> x2b /\ c <> x26 /\ c <> x3b.

Lemma Split_none s c : Forall (fun x => x <> c) s -> Split s c = [s].
Proof.
  induction 1 as [|x s Hx _ IH]; cbn [Split]; [done|]. by rewrite decide_False, IH by done.
Qed.

Lemma QueryUnescape_plain s : Forall query_plain s -> QueryUnescape s = Some s.
Proof.
  induction 1 as [|c s (H1 & H2 & _) _ IH]; cbn [QueryUnescape]; [done|].
  rewrite !byte_eqb_ne by done. by rewrite IH.
Qed.

Lemma contains_none s c : Forall (fun x => x <> c) s -> contains s c = false.
Proof.
  intros H. unfold contains. assert (IndexByte s c = None) as ->; [|done].
  induction H as [|x s Hx _ IH]; cbn [IndexByte]; [done|]. rewrite decide_False by done. by rewrite IH.
Qed.

Lemma query_prefix p : Forall query_plain p -> query_Get (bs "prefix=" ++ p) (bs "prefix") = p.
Proof.
  intros Hp. assert (Ha : Forall query_plain (bs "prefix=" ++ p))
    by (apply Forall_app; split; [vm_compute; repeat constructor; discriminate|done]).
  unfold query_Get, ParseQuery. rewrite Split_none by (eapply Forall_impl; [exact Ha|]; by intros ? (_ & _ & ? & _)).
  cbn [omap list_omap]. unfold query_pair.
  rewrite contains_none by (eapply Forall_impl; [exact Ha|]; by intros ? (_ & _ & _ & ?)).
  change (beq (bs "prefix=" ++ p) []) with false. cbn iota.
  change (Cut (bs "prefix=" ++ p) x3d) with (bs "prefix", p). cbn iota.
  rewrite (QueryUnescape_plain p) by done.
  change (QueryUnescape (bs "prefix")) with (Some (bs "prefix")). done.
Qed.

(** ** Properties *)

Section Properties.
Context {C : Crypto} {E : GoEthereum} {L : NodeLib} {B : Type} {S : Signer B}.
Context (exposition : http_response).

(** The prefix an address request asks for. *)
Definition asked_prefix (rawQuery : bytes) : bytes :=
  let p := query_Get rawQuery (bs "prefix") in if beq p [] then bs "tellor" else p.

(** (C31) One source of truth for the address: on every query and in every
    state of the backend, [GET /address] and the gRPC [GetAddress] for the
    same prefix (the query's, "tellor" by default) agree.  When gRPC returns
    an address, HTTP answers 200 with a JSON document that decodes to
    exactly one member, "address", holding it (with U+FFFD for bytes that
    are not UTF-8); when gRPC fails, HTTP answers 500 with the same reason
    and never an address; both leave the backend in the same state. *)
Theorem http_address_agrees_with_grpc srv rawQuery (w : world B) :
  let '(r, w') := GetAddress srv (asked_prefix rawQuery) w in
  let '(h, b') := ServeHTTP exposition (bs "/address") rawQuery (w_backend w) in
  b' = w_backend w' /\
  match r with
  | Ok (GetAddressResponse a) => exists doc,
      h = Ok (Response 200 (Some (bs "application/json")) (BText doc), []) /\
      parse_json doc = Some (JObj [(bs "address", JStr (ToValidUTF8 a))])
  | Ok _ => False
  | Err e => exists err ls, e = status_of InvalidArgument "derive address: %v" err /\
      h = Ok (http_Error (Errorf "derive address: %v" [AErr err]) 500, ls)
  | Panic => h = Panic
  end.
Proof using.
  unfold ServeHTTP, GetAddress, address, asked_prefix.
  change (beq (bs "/address") (bs "/healthz")) with false.
  change (beq (bs "/address") (bs "/readyz")) with false.
  change (beq (bs "/address") (bs "/metrics")) with false.
  change (beq (bs "/address") (bs "/address")) with true. cbn iota zeta.
  set (p := if beq _ [] then _ else _).
  unfold st_bind, st_map_err, st_try, call_signer, st_ret, st_lift.
  destruct (Bech32Address p (w_backend w)) as [[a|e|] b']; cbn [map_err w_backend]; (split; [done|]).
  - eexists. split; [reflexivity|]. by rewrite parse_encoded_field.
  - by eexists _, _.
  - done.
Qed.

(** Readiness is the backend's: 200 exactly when [GetPublicKey] returns a
    key, 503 with the reason when it fails; liveness and the metrics never
    touch the backend, and a path that is not one of the four is 404. *)
Theorem readiness_reflects_backend path rawQuery (b : B) :
  (let '(h, b') := ServeHTTP exposition (bs "/readyz") rawQuery b in
   b' = snd (Signer.GetPublicKey b) /\
   match fst (Signer.GetPublicKey b) with
   | Ok _ => exists resp, h = Ok (resp, []) /\ StatusCode resp = 200
   | Err e => exists resp ls, h = Ok (resp, ls) /\ StatusCode resp = 503 /\
                Body resp = BError (Errorf "signer not ready: %v" [AErr e])
   | Panic => h = Panic
   end) /\
  (path <> bs "/readyz" -> path <> bs "/address" ->
   snd (ServeHTTP exposition path rawQuery b) = b /\
   (path <> bs "/healthz" -> path <> bs "/metrics" ->
    ServeHTTP exposition path rawQuery b = (Ok (NotFound, []), b))).
Proof using.
  split.
  - unfold ServeHTTP. change (beq (bs "/readyz") (bs "/healthz")) with false.
    change (beq (bs "/readyz") (bs "/readyz")) with true. cbn iota.
    unfold readiness, st_bind, st_try, st_ret, st_lift.
    destruct (Signer.GetPublicKey b) as [[k|e|] b']; cbn [fst snd]; (split; [done|]); [|..|done].
    + by eexists.
    + by eexists _, _.
  - intros H1 H2. unfold ServeHTTP, beq. rewrite (bool_decide_false (path = bs "/readyz")) by done.
    rewrite (bool_decide_false (path = bs "/address")) by done.
    repeat case_bool_decide; (split; [done|]); intros; done.
Qed.
End Properties.
