(* ===== verification/Privval.v ===== *)
(** * The consensus signer ([consensus/handler.go], [validate.go],
      [server.go], [locked_pv.go]) and its metrics ([metrics/metrics.go])

    The validation of vote and proposal requests, the handler that guards
    CometBFT's default handler, the gate of the primary arbiter in front of
    it, one connection, and the dial clients that share an arbiter, as a
    transition system.

    CometBFT is a parameter: its block ids and constants ([CometBFT]), and
    the private validator with the default request handler ([PrivVal]),
    whose state [P] is the validator's last-sign state.
    [LockedPrivValidator] makes each call on it one step. *)

From S2P Require Import Prelude GoStd Arbiter.

Class CometBFT := {
  protoBlockID : Type;
  blockID : Type;
  BlockIDFromProto : protoBlockID -> result blockID;
  IsZero : blockID -> bool;
  IsComplete : blockID -> bool;
  IsVoteTypeValid : Z -> bool;
  PrecommitType : Z;
  ProposalType : Z;
  MaxVoteExtensionSize : Z;
}.

Definition maxChainIDLen : Z := 64.

Section Messages.
Context {T : CometBFT}.

Record Vote := MkVote {
  vType : Z;
  vHeight : Z;
  vRound : Z;
  vBlockID : protoBlockID;
  vTimestamp : Z;
  vValidatorAddress : bytes;
  vValidatorIndex : Z;
  vSignature : bytes;
  vExtension : bytes;
  vExtensionSignature : bytes;
}.

Record Proposal := MkProposal {
  pType : Z;
  pHeight : Z;
  pRound : Z;
  pPolRound : Z;
  pBlockID : protoBlockID;
  pTimestamp : Z;
  pSignature : bytes;
}.

(** A privval message; the vote or proposal pointer of a request may be
    nil.  A response's [None] is the zero vote or proposal; [NoMessage] is
    the message without a sum. *)
Inductive message :=
| NoMessage
| PubKeyRequest (chain_id : bytes)
| SignVoteRequest (chain_id : bytes) (vote : option Vote)
| SignProposalRequest (chain_id : bytes) (proposal : option Proposal)
| PingRequest
| PubKeyResponse (pub_key : bytes) (err : option error)
| SignedVoteResponse (vote : option Vote) (err : option error)
| SignedProposalResponse (proposal : option Proposal) (err : option error)
| PingResponse.

(** ** [validate.go] *)

Definition errf (what : string) : error := Errorf what [].
Definition errEmptyChainID : error := ErrSentinel "chain_id is empty".
Definition errOversizedChainID : error := ErrSentinel "chain_id exceeds maximum length".

Definition validateRequestChainID (id : bytes) : result () :=
  if len id =? 0 then Err errEmptyChainID
  else if len id >? maxChainIDLen then Err errOversizedChainID
  else if contains id x00 then Err (errf "chain_id contains NUL")
  else Ok ().

Definition ValidateSignVoteRequest (vote : option Vote) (expectAddr : bytes) : result () :=
  match vote with
  | None => Err (errf "nil vote")
  | Some v =>
      if negb (IsVoteTypeValid (vType v)) then Err (Errorf "invalid vote type %d" [AInt (vType v)])
      else if vHeight v <=? 0 then Err (errf "vote height must be positive")
      else if vRound v <? 0 then Err (errf "negative vote round")
      else if vValidatorIndex v <? 0 then Err (errf "negative validator index")
      else
        _ ← (if len expectAddr >? 0 then
               if negb (len (vValidatorAddress v) =? len expectAddr) then
                 Err (Errorf "validator address length %d, expected %d"
                        [AInt (len (vValidatorAddress v)); AInt (len expectAddr)])
               else if negb (beq (vValidatorAddress v) expectAddr) then
                 Err (errf "validator address does not match signer key")
               else Ok ()
             else Ok ());
        bid ← map_err (fun e => Errorf "block_id: %w" [AWrap e]) (BlockIDFromProto (vBlockID v));
        if negb (IsZero bid) && negb (IsComplete bid) then
          Err (errf "block_id must be nil or complete, got partial id")
        else if len (vExtension v) >? MaxVoteExtensionSize then
          Err (Errorf "vote extension exceeds max size %d" [AInt MaxVoteExtensionSize])
        else if negb (vType v =? PrecommitType) || IsZero bid then
          if len (vExtension v) >? 0 then
            Err (errf "vote extension only allowed on non-nil precommit")
          else if len (vExtensionSignature v) >? 0 then
            Err (errf "extension signature only allowed on non-nil precommit")
          else Ok ()
        else Ok ()
  end.

Definition ValidateSignProposalRequest (prop : option Proposal) : result () :=
  match prop with
  | None => Err (errf "nil proposal")
  | Some p =>
      if negb (pType p =? ProposalType) then Err (Errorf "invalid proposal type %d" [AInt (pType p)])
      else if pHeight p <? 0 then Err (errf "negative proposal height")
      else if pRound p <? 0 then Err (errf "negative proposal round")
      else if pPolRound p <? -1 then Err (errf "invalid POL round")
      else
        bid ← map_err (fun e => Errorf "block_id: %w" [AWrap e]) (BlockIDFromProto (pBlockID p));
        if negb (IsComplete bid) then Err (errf "proposal requires complete block_id")
        else Ok ()
  end.
End Messages.

(** ** [handler.go] *)

(** The private validator and CometBFT's handler for a request; a handler
    returns a response and possibly an error beside it. *)
Class PrivVal `{T : CometBFT} (P : Type) := {
  pv_Address : P -> result bytes;                 (** [GetPubKey().Address()] *)
  DefaultValidationRequestHandler : message -> bytes -> ST P (message * option error);
}.

Section Handler.
Context {T : CometBFT} {P : Type} {V : PrivVal P}.

Definition ValidationRequestHandlerFunc := message -> bytes -> ST P (message * option error).

(** A refusal: the response carrying the error, and the error. *)
Definition refuse (res : option error -> message) (e e' : error) : ST P (message * option error) :=
  st_ret (res (Some e), Some e').

Definition ValidationRequestHandler (valAddr : bytes) : ValidationRequestHandlerFunc := fun req chainID =>
  match req with
  | PubKeyRequest cid =>
      match validateRequestChainID cid with
      | Err e => refuse (PubKeyResponse []) e e
      | _ => DefaultValidationRequestHandler req chainID
      end
  | SignVoteRequest cid vote =>
      match validateRequestChainID cid with
      | Err e => refuse (SignedVoteResponse None) e e
      | _ =>
          match vote with
          | None => refuse (SignedVoteResponse None) (errf "nil vote in request") (errf "nil vote")
          | Some _ =>
              match ValidateSignVoteRequest vote valAddr with
              | Err e => refuse (SignedVoteResponse None) e e
              | Panic => st_lift Panic
              | Ok _ => DefaultValidationRequestHandler req chainID
              end
          end
      end
  | SignProposalRequest cid prop =>
      match validateRequestChainID cid with
      | Err e => refuse (SignedProposalResponse None) e e
      | _ =>
          match prop with
          | None => refuse (SignedProposalResponse None) (errf "nil proposal in request") (errf "nil proposal")
          | Some _ =>
              match ValidateSignProposalRequest prop with
              | Err e => refuse (SignedProposalResponse None) e e
              | Panic => st_lift Panic
              | Ok _ => DefaultValidationRequestHandler req chainID
              end
          end
      end
  | _ => DefaultValidationRequestHandler req chainID
  end.

Definition ValidatorAddressForHandler : ST P bytes := fun p => (pv_Address p, p).
End Handler.

(** *** Reading a response *)

Section Responses.
Context {T : CometBFT}.

(** A nil message, or one without a sum or of another kind, is [None]. *)
Definition MustPubKeyResponse (msg : option message) : option (bytes * option error) :=
  match msg with Some (PubKeyResponse k e) => Some (k, e) | _ => None end.
Definition MustSignedVoteResponse (msg : option message) : option (option Vote * option error) :=
  match msg with Some (SignedVoteResponse v e) => Some (v, e) | _ => None end.
Definition MustSignedProposalResponse (msg : option message) : option (option Proposal * option error) :=
  match msg with Some (SignedProposalResponse p e) => Some (p, e) | _ => None end.

(** [PubKeyFromProto] is CometBFT's; the error's text is not kept. *)
Definition PubKeyFromResponse {K} (PubKeyFromProto : bytes -> result K) (resp : option (bytes * option error))
    : result K :=
  match resp with
  | Some (k, None) => PubKeyFromProto k
  | _ => Err (errf "pubkey error")
  end.
End Responses.

(** ** [metrics.go] *)

(** The gauges by label, and the nodes seen. *)
Record metrics := Metrics {
  activeNode : gmap bytes Z;
  targetConnected : gmap bytes Z;
  seen : gset bytes;
}.

Definition SetTargetConnected (target : bytes) (connected : bool) (m : metrics) : metrics :=
  Metrics (activeNode m) (<[target := if connected then 1 else 0]> (targetConnected m)) (seen m).

Definition hostOnly (remoteAddr : bytes) : bytes :=
  match SplitHostPort remoteAddr with
  | Ok (host, _) => host
  | _ => remoteAddr
  end.

(** The loop sets every seen label, 1 for this node and 0 for the others. *)
Definition RecordSign (remoteAddr : bytes) (m : metrics) : metrics :=
  let ip := hostOnly remoteAddr in
  if beq ip [] then m
  else
    let seen' := {[ip]} ∪ seen m in
    Metrics (set_fold (fun s g => <[s := if beq s ip then 1 else 0]> g) (activeNode m) seen')
            (targetConnected m) seen'.

(** ** [server.go] *)

(** The height a sign request is for. *)
Definition sign_height {T : CometBFT} (req : message) : option Z :=
  match req with
  | SignVoteRequest _ (Some v) => Some (vHeight v)
  | SignProposalRequest _ (Some p) => Some (pHeight p)
  | _ => None
  end.

Section Gate.
Context {T : CometBFT} {P : Type} {V : PrivVal P}.

(** What the dial clients share. *)
Record shared := Shared {
  s_arbiter : option PrimaryArbiter;    (** [nil]: active-active *)
  s_pv : P;
  s_metrics : metrics;
}.

Definition remoteErr (desc : string) : error := ErrSentinel desc.

(** The refusal, the height the request is for, and whether it is a sign
    request; [None] is the nil dereference of the request's vote or
    proposal. *)
Definition notPrimaryResponse (req : message) : option (message * Z * bool) :=
  match req with
  | SignVoteRequest _ (Some v) =>
      Some (SignedVoteResponse None (Some (remoteErr "not the primary signer")), vHeight v, true)
  | SignVoteRequest _ None => None
  | SignProposalRequest _ (Some p) =>
      Some (SignedProposalResponse None (Some (remoteErr "not the primary signer")), pHeight p, true)
  | SignProposalRequest _ None => None
  | _ => Some (NoMessage, 0, false)
  end.

Definition on_pv {A} (m : ST P A) : ST shared A := fun s =>
  let '(r, p) := m (s_pv s) in (r, Shared (s_arbiter s) p (s_metrics s)).

Definition gatedHandler (arbiter : PrimaryArbiter) (id : bytes) (now : Z)
    (next : @ValidationRequestHandlerFunc T P) (req : message) (chainID : bytes)
    : ST shared (message * option error) := fun s =>
  match notPrimaryResponse req with
  | None => (Panic, s)
  | Some (refusal, height, isSign) =>
      if isSign : bool then
        match Acquire id height now arbiter with
        | (false, a') => (Ok (refusal, None), Shared (Some a') (s_pv s) (s_metrics s))
        | (true, a') =>
            on_pv (next req chainID) (Shared (Some a') (s_pv s) (RecordSign id (s_metrics s)))
        end
      else on_pv (next req chainID) s
  end.

(** The handler [RunDialClient] installs for a target. *)
Definition client_handler (id : bytes) (now : Z) (next : @ValidationRequestHandlerFunc T P)
    (req : message) (chainID : bytes) : ST shared (message * option error) := fun s =>
  match s_arbiter s with
  | Some a => gatedHandler a id now next req chainID s
  | None => on_pv (next req chainID) s
  end.

(** One connection: the requests read (with the clock at each and whether
    the response could be written), until the read or a write fails; the
    responses written.  A handler's error is only logged. *)
Fixpoint serveConn (id : bytes) (next : @ValidationRequestHandlerFunc T P) (chainID : bytes)
    (frames : list (message * Z * bool)) : ST shared (list message) := fun s =>
  match frames with
  | [] => (Ok [], s)
  | (req, now, written) :: frames' =>
      match client_handler id now next req chainID s with
      | (Ok (res, _), s') =>
          if written : bool then
            match serveConn id next chainID frames' s' with
            | (Ok out, s'') => (Ok (res :: out), s'')
            | rs => rs
            end
          else (Ok [], s')
      | (Err e, s') => (Err e, s')
      | (Panic, s') => (Panic, s')
      end
  end.

(** [onState] of [RunDialClient]. *)
Definition onState (id : bytes) (connected : bool) (s : shared) : shared :=
  Shared (if connected then s_arbiter s else (fun a => snd (Release id a)) <$> s_arbiter s)
         (s_pv s) (SetTargetConnected id connected (s_metrics s)).

(** *** The dial loop *)

Definition second : Z := 1000000000.
Definition minBackoff : Z := second.
Definition maxBackoff : Z := 5 * second.

(** Where a dial client is: at the top of the loop, in the dial, waiting
    after a failed dial, serving a connection - before a read, between the
    arbiter's consent and the metric, or before the call of the validation
    handler - past [serveConn] but before the disconnect is reported,
    pausing before the next round, or returned. *)
Inductive phase :=
| PTop | PDialing | PBackoff
| PServe | PAdmitted (req : message) | PHandling (req : message)
| PClosing | PPause | PStopped.

(** [c_open]: the connection being served has not been closed by the
    [AfterFunc] of a canceled context. *)
Record dialClient := Client { c_id : bytes; c_phase : phase; c_backoff : Z; c_open : bool }.

Definition next_backoff (b : Z) : Z := if 2 * b >? maxBackoff then maxBackoff else 2 * b.

(** The part of a request up to the arbiter's answer, which the arbiter's
    mutex makes one step: a nil dereference, a refusal, a request that is
    not a sign request (or no arbiter), or consent. *)
Inductive gate_result := GPanic | GRefused (res : message) | GThrough | GConsent.

Definition gate (id : bytes) (now : Z) (req : message) (s : shared) : gate_result * shared :=
  match s_arbiter s with
  | None => (GThrough, s)
  | Some a =>
      match notPrimaryResponse req with
      | None => (GPanic, s)
      | Some (refusal, height, isSign) =>
          if isSign : bool then
            match Acquire id height now a with
            | (false, a') => (GRefused refusal, Shared (Some a') (s_pv s) (s_metrics s))
            | (true, a') => (GConsent, Shared (Some a') (s_pv s) (s_metrics s))
            end
          else (GThrough, s)
      end
  end.

Definition record_sign (id : bytes) (s : shared) : shared :=
  Shared (s_arbiter s) (s_pv s) (RecordSign id (s_metrics s)).

(** The clients, what they share, and whether their context is canceled. *)
Record system := System { clients : list dialClient; sys_shared : shared; canceled : bool }.

(** The phases inside [serveConn]. *)
Definition in_serveConn (p : phase) : bool :=
  match p with PServe | PAdmitted _ | PHandling _ => true | _ => false end.

(** A step reads a request, hands the validation handler's response to one
    back to the connection, or does neither. *)
Inductive label := LRead | LHandled (id : bytes) (req res : message) | LOther.

(** One step of one client; [next] is the validation handler, whose one call
    into the locked validator makes it a step of its own, and [done] says
    that the context is canceled.  Between the arbiter's consent and that
    call the other clients run.  A [select] with both cases ready takes
    either.  A handler that panics ends the process, so such a request is no
    step. *)
Inductive client_step (next : @ValidationRequestHandlerFunc T P) (chainID : bytes) (done : bool)
    : label -> dialClient * shared -> dialClient * shared -> Prop :=
| cs_top id b o s : done = false ->
    client_step next chainID done LOther (Client id PTop b o, s) (Client id PDialing b o, s)
| cs_stop id p b o s : done = true -> p = PTop \/ p = PBackoff \/ p = PPause ->
    client_step next chainID done LOther (Client id p b o, s) (Client id PStopped b o, s)
| cs_dial_failed id b o s :
    client_step next chainID done LOther (Client id PDialing b o, s) (Client id PBackoff b o, onState id false s)
| cs_backoff id b o s :
    client_step next chainID done LOther (Client id PBackoff b o, s) (Client id PTop (next_backoff b) o, s)
| cs_connected id b o s :
    client_step next chainID done LOther (Client id PDialing b o, s)
      (Client id PServe minBackoff true, onState id true s)
| cs_refused id b s req now res s' :
    gate id now req s = (GRefused res, s') ->
    client_step next chainID done LRead (Client id PServe b true, s) (Client id PServe b true, s')
| cs_through id b s req now s' :
    gate id now req s = (GThrough, s') ->
    client_step next chainID done LRead (Client id PServe b true, s) (Client id (PHandling req) b true, s')
| cs_consent id b s req now s' :
    gate id now req s = (GConsent, s') ->
    client_step next chainID done LRead (Client id PServe b true, s) (Client id (PAdmitted req) b true, s')
| cs_record id b o s req :
    client_step next chainID done LOther (Client id (PAdmitted req) b o, s)
      (Client id (PHandling req) b o, record_sign id s)
| cs_handle id b o s req r e s' :
    on_pv (next req chainID) s = (Ok (r, e), s') ->
    client_step next chainID done (LHandled id req r) (Client id (PHandling req) b o, s) (Client id PServe b o, s')
| cs_afterfunc id p b s : done = true -> in_serveConn p = true ->
    client_step next chainID done LOther (Client id p b true, s) (Client id p b false, s)
| cs_lost id b o s :
    client_step next chainID done LOther (Client id PServe b o, s) (Client id PClosing b o, s)
| cs_closed id b o s :
    client_step next chainID done LOther (Client id PClosing b o, s) (Client id PPause b false, onState id false s)
| cs_pause id b o s :
    client_step next chainID done LOther (Client id PPause b o, s) (Client id PTop b o, s).

Inductive sys_step (next : @ValidationRequestHandlerFunc T P) (chainID : bytes)
    : label -> system -> system -> Prop :=
| sys_step_intro l l1 c l2 s c' s' d :
    client_step next chainID d l (c, s) (c', s') ->
    sys_step next chainID l (System (l1 ++ c :: l2) s d) (System (l1 ++ c' :: l2) s' d)
| sys_cancel cs s :
    sys_step next chainID LOther (System cs s false) (System cs s true).

(** A run, with its steps and the requests it reads counted. *)
Inductive sys_run (next : @ValidationRequestHandlerFunc T P) (chainID : bytes)
    : nat -> nat -> system -> system -> Prop :=
| run_refl x : sys_run next chainID 0 0 x x
| run_step n k l x y z : sys_step next chainID l x y -> sys_run next chainID n k y z ->
    sys_run next chainID (S n) (match l with LRead => S k | _ => k end) x z.

(** The clients [runDaemon] starts, one per target. *)
Definition start_clients (targets : list bytes) (s : shared) : system :=
  System (map (fun t => Client t PTop minBackoff false) targets)
         (foldl (fun s t => Shared (s_arbiter s) (s_pv s) (SetTargetConnected t false (s_metrics s))) s targets)
         false.
End Gate.
Arguments shared : clear implicits.
Arguments system {T} P.

(** ** Lemmas *)

(** CometBFT's decoder reports a malformed block id as an error. *)
Class CometBFTLaws (T : CometBFT) := {
  BlockIDFromProto_total b : BlockIDFromProto b <> Panic;
}.

Lemma contains_iff s c : contains s c = true <-> c ∈ s.
Proof.
  unfold contains. induction s as [|x s IH]; simpl; [by rewrite elem_of_nil|].
  rewrite elem_of_cons. destruct (decide (x = c)) as [->|N]; [by split; [left|]|].
  rewrite <-IH. destruct (IndexByte s c); simpl; [tauto|]. split; [done|by intros [?|?]].
Qed.

Section Validation.
Context {T : CometBFT} {LT : CometBFTLaws T}.

Definition chain_id_ok (id : bytes) : Prop := 1 <= len id <= 64 /\ x00 ∉ id.

Definition vote_ok (valAddr : bytes) (v : Vote) : Prop :=
  IsVoteTypeValid (vType v) = true /\ 0 < vHeight v /\ 0 <= vRound v /\ 0 <= vValidatorIndex v /\
  (valAddr = [] \/ vValidatorAddress v = valAddr) /\
  exists bid, BlockIDFromProto (vBlockID v) = Ok bid /\
    (IsZero bid = true \/ IsComplete bid = true) /\
    len (vExtension v) <= MaxVoteExtensionSize /\
    (vType v <> PrecommitType \/ IsZero bid = true ->
     vExtension v = [] /\ vExtensionSignature v = []).

Definition proposal_ok (p : Proposal) : Prop :=
  pType p = ProposalType /\ 0 <= pHeight p /\ 0 <= pRound p /\ -1 <= pPolRound p /\
  exists bid, BlockIDFromProto (pBlockID p) = Ok bid /\ IsComplete bid = true.

Lemma validateRequestChainID_spec id : validateRequestChainID id = Ok () <-> chain_id_ok id.
Proof using.
  unfold validateRequestChainID, chain_id_ok, maxChainIDLen.
  assert (0 <= len id) by (unfold len; lia).
  destruct (Z.eqb_spec (len id) 0); [split; [done|lia]|].
  destruct (Z.gtb_spec (len id) 64); [split; [done|lia]|].
  rewrite <-contains_iff. destruct (contains id x00); split; try done; [by intros [_ ?]|].
  intros _. split; [lia|done].
Qed.

Lemma len_pos {A} (l : list A) : (len l >? 0) = false <-> l = [].
Proof using. unfold len. destruct l; simpl; split; try done; lia. Qed.

Ltac bad := split; [done|]; intros Hok; exfalso.

Lemma ValidateSignVoteRequest_spec v valAddr :
  ValidateSignVoteRequest (Some v) valAddr = Ok () <-> vote_ok valAddr v.
Proof using.
  unfold ValidateSignVoteRequest, vote_ok.
  destruct (IsVoteTypeValid (vType v)) eqn:Et; cbn [negb]; [|bad; by destruct Hok].
  destruct (Z.leb_spec (vHeight v) 0); [bad; destruct Hok as (_ & ? & _); lia|].
  destruct (Z.ltb_spec (vRound v) 0); [bad; destruct Hok as (_ & _ & ? & _); lia|].
  destruct (Z.ltb_spec (vValidatorIndex v) 0); [bad; destruct Hok as (_ & _ & _ & ? & _); lia|].
  set (addr := if len valAddr >? 0 then _ else _).
  assert (Ha : addr = Ok () /\ (valAddr = [] \/ vValidatorAddress v = valAddr) \/
    is_ok addr = false /\ addr <> Panic /\ ~ (valAddr = [] \/ vValidatorAddress v = valAddr)).
  { subst addr. destruct (len valAddr >? 0) eqn:E0; [|left; apply len_pos in E0; auto].
    destruct (Z.eqb_spec (len (vValidatorAddress v)) (len valAddr)); cbn [negb].
    - unfold beq. case_bool_decide; cbn [negb]; [auto|]. right. split; [done|]. split; [done|].
      intros [->|?]; [discriminate E0|done].
    - right. split; [done|]. split; [done|]. intros [->|?]; [discriminate E0|congruence]. }
  destruct Ha as [[-> Ha]|(Hf & _ & Ha)]; cycle 1.
  { destruct addr; [done|..]; bad; tauto. }
  cbn [mbind result_bind].
  destruct (BlockIDFromProto (vBlockID v)) as [bid|e|]; cbn [map_err mbind result_bind];
    [|bad; by destruct Hok as (_ & _ & _ & _ & _ & ? & ? & _)..].
  destruct (negb (IsZero bid) && negb (IsComplete bid)) eqn:Eb.
  { bad. destruct Hok as (_ & _ & _ & _ & _ & ? & [= <-] & Hz & _).
    destruct (IsZero bid), (IsComplete bid); destruct Hz; done. }
  destruct (Z.gtb_spec (len (vExtension v)) MaxVoteExtensionSize).
  { bad. destruct Hok as (_ & _ & _ & _ & _ & ? & [= <-] & _ & ? & _). lia. }
  assert (Hz : IsZero bid = true \/ IsComplete bid = true)
    by (destruct (IsZero bid), (IsComplete bid); auto).
  destruct (negb (vType v =? PrecommitType) || IsZero bid) eqn:Ep.
  - assert (Hp : vType v <> PrecommitType \/ IsZero bid = true).
    { apply orb_true_iff in Ep as [Ep|?]; [left|by right].
      by apply negb_true_iff, Z.eqb_neq in Ep. }
    destruct (len (vExtension v) >? 0) eqn:E1.
    { bad. destruct Hok as (_ & _ & _ & _ & _ & ? & [= <-] & _ & _ & Hx).
      destruct (Hx Hp) as [Hv _]. by rewrite Hv in E1. }
    destruct (len (vExtensionSignature v) >? 0) eqn:E2.
    { bad. destruct Hok as (_ & _ & _ & _ & _ & ? & [= <-] & _ & _ & Hx).
      destruct (Hx Hp) as [_ Hv]. by rewrite Hv in E2. }
    apply len_pos in E1, E2. split; [|done]. intros _. repeat (split; [done|]). exists bid. auto.
  - split; [|done]. intros _. repeat (split; [done|]). exists bid. split; [done|].
    split; [done|]. split; [done|]. intros Hp. exfalso.
    apply orb_false_iff in Ep as [Ep1 Ep2]. apply negb_false_iff, Z.eqb_eq in Ep1.
    destruct Hp; congruence.
Qed.

Lemma ValidateSignProposalRequest_spec p :
  ValidateSignProposalRequest (Some p) = Ok () <-> proposal_ok p.
Proof using.
  unfold ValidateSignProposalRequest, proposal_ok.
  destruct (Z.eqb_spec (pType p) ProposalType) as [Hty|]; cbn [negb]; [|bad; by destruct Hok].
  destruct (Z.ltb_spec (pHeight p) 0); [bad; destruct Hok as (_ & ? & _); lia|].
  destruct (Z.ltb_spec (pRound p) 0); [bad; destruct Hok as (_ & _ & ? & _); lia|].
  destruct (Z.ltb_spec (pPolRound p) (-1)); [bad; destruct Hok as (_ & _ & _ & ? & _); lia|].
  destruct (BlockIDFromProto (pBlockID p)) as [bid|e|]; cbn [map_err mbind result_bind];
    [|bad; by destruct Hok as (_ & _ & _ & _ & ? & ? & _)..].
  destruct (IsComplete bid) eqn:Ec; cbn [negb].
  - split; [|done]. intros _. repeat (split; [done|]). eauto.
  - bad. destruct Hok as (_ & _ & _ & _ & ? & [= <-] & ?). congruence.
Qed.

Ltac split_ifs :=
  repeat match goal with
  | |- context [if ?b then _ else _] => destruct b; cbn [mbind result_bind map_err]; try done
  end; try done.

Lemma ValidateSignVoteRequest_total v valAddr : ValidateSignVoteRequest (Some v) valAddr <> Panic.
Proof using LT.
  unfold ValidateSignVoteRequest. pose proof (BlockIDFromProto_total (vBlockID v)).
  destruct (BlockIDFromProto (vBlockID v)); split_ifs.
Qed.
Lemma ValidateSignProposalRequest_total p : ValidateSignProposalRequest (Some p) <> Panic.
Proof using LT.
  unfold ValidateSignProposalRequest. pose proof (BlockIDFromProto_total (pBlockID p)).
  destruct (BlockIDFromProto (pBlockID p)); split_ifs.
Qed.

(** Requests the handler passes on to CometBFT. *)
Definition acceptable (valAddr : bytes) (req : message) : Prop :=
  match req with
  | PubKeyRequest cid => chain_id_ok cid
  | SignVoteRequest cid v => chain_id_ok cid /\ exists v', v = Some v' /\ vote_ok valAddr v'
  | SignProposalRequest cid p => chain_id_ok cid /\ exists p', p = Some p' /\ proposal_ok p'
  | _ => True
  end.

(** The refusal of a request: the matching response, without a signature. *)
Definition refusal_of (req res : message) (e : error) : Prop :=
  match req with
  | PubKeyRequest _ => res = PubKeyResponse [] (Some e)
  | SignVoteRequest _ _ => res = SignedVoteResponse None (Some e)
  | SignProposalRequest _ _ => res = SignedProposalResponse None (Some e)
  | _ => False
  end.
End Validation.

(** Setting every label of a set: 1 for one of them, 0 for the others. *)
Lemma set_labels (ip : bytes) (X : gset bytes) (g : gmap bytes Z) s :
  let g' := set_fold (fun s g => <[s := if beq s ip then 1 else 0]> g) g X in
  (s ∈ X -> g' !! s = Some (if beq s ip then 1 else 0)) /\ (s ∉ X -> g' !! s = g !! s).
Proof.
  apply (set_fold_ind_L (fun g' X =>
    (s ∈ X -> g' !! s = Some (if beq s ip then 1 else 0)) /\ (s ∉ X -> g' !! s = g !! s))).
  - split; [set_solver|done].
  - intros x X' g' Hx [IH1 IH2]. destruct (decide (s = x)) as [->|N].
    + rewrite lookup_insert_eq. split; [done|set_solver].
    + rewrite lookup_insert_ne by done. split; intros; [apply IH1|apply IH2]; set_solver.
Qed.

Lemma chain_cases cid : validateRequestChainID cid = Ok () \/ exists e, validateRequestChainID cid = Err e.
Proof. unfold validateRequestChainID. repeat case_match; eauto. Qed.

(** The active-node gauge: after [RecordSign] of an address with a
    non-empty host, among all nodes ever seen exactly that host reads 1 and
    every other 0, and no node is forgotten. *)
Theorem record_sign_one_active addr m :
  hostOnly addr <> [] ->
  let m' := RecordSign addr m in
  activeNode m' !! hostOnly addr = Some 1 /\
  (forall s, s ∈ seen m -> s <> hostOnly addr -> activeNode m' !! s = Some 0) /\
  seen m' = {[hostOnly addr]} ∪ seen m /\ targetConnected m' = targetConnected m.
Proof.
  intros Hne. cbn zeta. assert (Hb : beq (hostOnly addr) [] = false) by by apply bool_decide_false.
  unfold RecordSign. rewrite Hb. cbn [activeNode seen targetConnected].
  split; [|split; [|by split]].
  - destruct (set_labels (hostOnly addr) ({[hostOnly addr]} ∪ seen m) (activeNode m) (hostOnly addr)) as [H _].
    rewrite H by set_solver. unfold beq. by rewrite bool_decide_true.
  - intros s Hs N.
    destruct (set_labels (hostOnly addr) ({[hostOnly addr]} ∪ seen m) (activeNode m) s) as [H _].
    rewrite H by set_solver. unfold beq. by rewrite bool_decide_false.
Qed.

Section HandlerLemmas.
Context {T : CometBFT} {LT : CometBFTLaws T} {P : Type} {V : PrivVal P}.

Lemma handler_cases valAddr req chainID (p : P) :
  (acceptable valAddr req ->
     ValidationRequestHandler valAddr req chainID p = DefaultValidationRequestHandler req chainID p) /\
  (~ acceptable valAddr req -> exists res e e',
     ValidationRequestHandler valAddr req chainID p = (Ok (res, Some e'), p) /\ refusal_of req res e).
Proof using LT.
  unfold ValidationRequestHandler, refuse, st_ret.
  destruct req as [|cid|cid vote|cid prop| | | | |]; cbn [acceptable refusal_of]; try tauto.
  - rewrite <-validateRequestChainID_spec.
    destruct (chain_cases cid) as [->|[e ->]]; [tauto|].
    split; [done|]. intros _. by eexists _, _, _.
  - rewrite <-validateRequestChainID_spec. destruct (chain_cases cid) as [->|[e ->]];
      [|split; [by intros [? _]|]; intros _; by eexists _, _, _].
    destruct vote as [v|]; [|split; [by intros [_ (? & ? & _)]|]; intros _; by eexists _, _, _].
    pose proof (ValidateSignVoteRequest_total v valAddr).
    pose proof (ValidateSignVoteRequest_spec v valAddr) as Hs.
    destruct (ValidateSignVoteRequest (Some v) valAddr) as [[]|e|]; [|split|done].
    + split; [done|]. intros Hn. destruct Hn. split; [done|]. exists v. split; [done|]. by apply Hs.
    + intros [_ (v' & [= <-] & Hv)]. by apply Hs in Hv.
    + intros _. by eexists _, _, _.
  - rewrite <-validateRequestChainID_spec. destruct (chain_cases cid) as [->|[e ->]];
      [|split; [by intros [? _]|]; intros _; by eexists _, _, _].
    destruct prop as [q|]; [|split; [by intros [_ (? & ? & _)]|]; intros _; by eexists _, _, _].
    pose proof (ValidateSignProposalRequest_total q).
    pose proof (ValidateSignProposalRequest_spec q) as Hs.
    destruct (ValidateSignProposalRequest (Some q)) as [[]|e|]; [|split|done].
    + split; [done|]. intros Hn. destruct Hn. split; [done|]. exists q. split; [done|]. by apply Hs.
    + intros [_ (v' & [= <-] & Hv)]. by apply Hs in Hv.
    + intros _. by eexists _, _, _.
Qed.
End HandlerLemmas.

(** ** Properties *)

Section Properties.
Context {T : CometBFT} {LT : CometBFTLaws T} {P : Type} {V : PrivVal P}.

(** (C7) The handler guards the signer: a request is passed to CometBFT's
    handler exactly when it is well formed - a chain id of 1 to 64 bytes
    without NUL, a vote of a valid type for a positive height from this
    validator's address with a nil or complete block id and an extension
    only on a non-nil precommit, or a proposal of the right type with a
    complete block id; any other vote, proposal or public-key request is
    answered with the matching error response, without a signature and
    without touching the validator's state. *)
Theorem handler_guards_signer valAddr req chainID (p : P) :
  (acceptable valAddr req ->
     ValidationRequestHandler valAddr req chainID p = DefaultValidationRequestHandler req chainID p) /\
  (~ acceptable valAddr req -> exists res e e',
     ValidationRequestHandler valAddr req chainID p = (Ok (res, Some e'), p) /\ refusal_of req res e).
Proof using LT.
  apply handler_cases.
Qed.

(** What a node that was let through leaves: it holds the role as of now,
    with the height mark raised to what it asked for, and among the nodes
    ever seen the metric reads 1 for it alone. *)
Record admitted_state (a a' : PrimaryArbiter) (m m' : metrics) (id : bytes) (h now : Z) : Prop := {
  ad_primary : primary a' = id;
  ad_clock : lastReq a' = now;
  ad_height : maxHeight a' = Z.max h (maxHeight a);
  ad_config : timeout a' = timeout a /\ rank a' = rank a;
  ad_gauge : hostOnly id <> [] ->
    activeNode m' !! hostOnly id = Some 1 /\
    forall n, n ∈ seen m -> n <> hostOnly id -> activeNode m' !! n = Some 0;
  ad_others : targetConnected m' = targetConnected m;
}.

Lemma admitted_state_holds a m id h now :
  admitted_state a (take_role id now h a) m (RecordSign id m) id h now.
Proof using.
  destruct (take_role_fields id now h a) as (H1 & H2 & H3 & H4 & H5).
  split; try done.
  - intros Hne. destruct (record_sign_one_active id m Hne) as (Hg & Ho & _). done.
  - unfold RecordSign. by case_match.
Qed.

(** (C37) Active-passive gate: with an arbiter, a vote or proposal request
    reaches the signer exactly when the arbiter may give this node the
    role.  It then holds the role - the clock stamped, the height mark
    raised to the height asked for - and the active-node metric reads 1 for
    it and 0 for every other node seen; from there another node is let
    through only after the idle timeout, or if it is preferred and has
    caught up.  Otherwise it is answered with a refusal that changes
    nothing.  Public-key and ping requests never touch the arbiter. *)
Theorem gate_admits_only_primary a id now next req chainID (s : shared P) h :
  s_arbiter s = Some a -> sign_height req = Some h ->
  (may_take a id h now -> exists a' m',
     client_handler id now next req chainID s = on_pv (next req chainID) (Shared (Some a') (s_pv s) m') /\
     admitted_state a a' (s_metrics s) m' id h now /\
     forall id2 h2 now2, id <> [] -> id2 <> id -> may_take a' id2 h2 now2 ->
       timeout a < time_Sub now2 now \/ (outranks a' id2 = true /\ h <= h2 /\ maxHeight a <= h2)) /\
  (~ may_take a id h now -> exists res,
     client_handler id now next req chainID s = (Ok (res, None), s) /\
     refusal_of req res (remoteErr "not the primary signer")) /\
  (forall req', req' = PingRequest \/ (exists c, req' = PubKeyRequest c) ->
     client_handler id now next req' chainID s = on_pv (next req' chainID) s).
Proof using.
  intros Ha Hh. unfold client_handler. rewrite Ha. split; [|split].
  - intros Hm. exists (take_role id now h a), (RecordSign id (s_metrics s)).
    destruct (take_role_fields id now h a) as (H1 & _ & H3 & H4 & H5).
    split; [|split; [apply admitted_state_holds|]].
    + unfold gatedHandler. destruct (Acquire_cases id h now a) as [[_ E]|[Hn _]]; [|done].
      destruct req as [| |cid [v|]|cid [p|]| | | | |]; try done; injection Hh as <-; cbn [notPrimaryResponse];
        by rewrite E.
    + intros id2 h2 now2 Hid Hne [Hp|[Hp|[Ht|[Ho Hm2]]]]; [congruence|congruence|left; congruence|].
      right. rewrite H5 in Hm2. split; [done|lia].
  - intros Hm. unfold gatedHandler.
    destruct (Acquire_cases id h now a) as [[? _]|[_ E]]; [done|].
    destruct s as [sa sp sm]. cbn in Ha. subst sa.
    destruct req as [| |cid [v|]|cid [p|]| | | | |]; try done; injection Hh as <-; cbn [notPrimaryResponse];
      rewrite E; by eexists.
  - intros req' [->|[c ->]]; done.
Qed.

(** (C39) A request without its vote or proposal stops the signer: the plain
    handler answers it with an error, but the gated handler dereferences
    it before any check and panics, so one such frame on one connection
    ends [serveConn] - and with it the process, which has no recover
    there - whenever the election is on. *)
Theorem nil_vote_crashes_gated_signer valAddr id now cid chainID (s : shared P) a written rest :
  s_arbiter s = Some a ->
  serveConn id (ValidationRequestHandler valAddr) chainID
    ((SignVoteRequest cid None, now, written) :: rest) s = (Panic, s) /\
  serveConn id (ValidationRequestHandler valAddr) chainID
    ((SignProposalRequest cid None, now, written) :: rest) s = (Panic, s) /\
  exists res e, fst (client_handler id now (ValidationRequestHandler valAddr) (SignVoteRequest cid None)
    chainID (Shared None (s_pv s) (s_metrics s))) = Ok (res, Some e).
Proof using.
  intros Ha. cbn [serveConn]. unfold client_handler. rewrite Ha. split; [done|]. split; [done|].
  cbn [s_arbiter]. unfold ValidationRequestHandler, on_pv, refuse, st_ret. cbn [s_pv].
  destruct (chain_cases cid) as [->|[e ->]]; by eexists _, _.
Qed.

(** (C38) A request the signer refuses still moves the election: a vote that
    fails validation, sent by a node that may take the role, leaves the
    validator's state untouched but makes that node the primary and raises
    the height mark to the claimed height - so a preferred node that is
    behind that height is refused until the timeout. *)
Theorem refused_vote_moves_election valAddr a id now cid v chainID (s : shared P) :
  s_arbiter s = Some a -> may_take a id (vHeight v) now ->
  ~ acceptable valAddr (SignVoteRequest cid (Some v)) ->
  exists res e, client_handler id now (ValidationRequestHandler valAddr)
      (SignVoteRequest cid (Some v)) chainID s =
    (Ok (res, Some e), Shared (Some (take_role id now (vHeight v) a)) (s_pv s) (RecordSign id (s_metrics s))) /\
  forall id0 h0 now0, id0 <> id -> id <> [] -> h0 < vHeight v ->
    time_Sub now0 now <= timeout a ->
    fst (Acquire id0 h0 now0 (take_role id now (vHeight v) a)) = false.
Proof using LT.
  intros Ha Hm Hbad. pose proof (take_role_fields id now (vHeight v) a) as (Et & _ & Ep & El & Emax).
  destruct (proj2 (handler_cases valAddr (SignVoteRequest cid (Some v)) chainID (s_pv s)) Hbad)
    as (res & _ & e & He & _).
  exists res, e. split.
  - unfold client_handler, gatedHandler. rewrite Ha. cbn [notPrimaryResponse].
    destruct (Acquire_cases id (vHeight v) now a) as [[_ E]|[Hn _]]; [|done]. rewrite E.
    unfold on_pv. cbn [s_pv s_arbiter s_metrics]. by rewrite He.
  - intros id0 h0 now0 Hne Hid Hh Ht.
    destruct (Acquire_cases id0 h0 now0 (take_role id now (vHeight v) a)) as [[Hmay _]|[_ ->]]; [|done].
    exfalso. unfold may_take in Hmay. rewrite Et, Ep, El, Emax in Hmay.
    destruct Hmay as [?|[?|[?|[_ ?]]]]; [congruence|done|lia|lia].
Qed.
End Properties.

(** ** Replies *)

(** The kind of reply a request gets. *)
Definition replies {T : CometBFT} (req res : message) : Prop :=
  match req with
  | PubKeyRequest _ => is_Some (MustPubKeyResponse (Some res))
  | SignVoteRequest _ _ => is_Some (MustSignedVoteResponse (Some res))
  | SignProposalRequest _ _ => is_Some (MustSignedProposalResponse (Some res))
  | PingRequest => res = PingResponse
  | _ => True
  end.

(** CometBFT's handler answers with the response of the request. *)
Class PrivValLaws {T : CometBFT} {P} (V : PrivVal P) := {
  default_replies req chainID (p : P) res e p' :
    DefaultValidationRequestHandler req chainID p = (Ok (res, e), p') -> replies req res;
}.

Section Replies.
Context {T : CometBFT} {LT : CometBFTLaws T} {P : Type} {V : PrivVal P} {VL : PrivValLaws V}.

Lemma handler_replies valAddr req chainID (p : P) res e p' :
  ValidationRequestHandler valAddr req chainID p = (Ok (res, e), p') -> replies req res.
Proof using VL.
  pose proof (default_replies req chainID p res e p') as Hd.
  unfold ValidationRequestHandler, refuse, st_ret, st_lift.
  destruct req as [|cid|cid vote|cid prop| | | | |]; try done.
  - destruct (validateRequestChainID cid); [done| |done]. intros [= <- _ _]. by eexists.
  - destruct (validateRequestChainID cid) as [| |] eqn:Ec, vote as [v|];
      try (by intros [= <- _ _]; eexists);
      destruct (ValidateSignVoteRequest (Some v) valAddr); try done; by intros [= <- _ _]; eexists.
  - destruct (validateRequestChainID cid) as [| |] eqn:Ec, prop as [q|];
      try (by intros [= <- _ _]; eexists);
      destruct (ValidateSignProposalRequest (Some q)); try done; by intros [= <- _ _]; eexists.
Qed.

Lemma client_replies valAddr id now req chainID (s : shared P) res e s' :
  client_handler id now (ValidationRequestHandler valAddr) req chainID s = (Ok (res, e), s') -> replies req res.
Proof using VL.
  unfold client_handler, gatedHandler.
  assert (Hon : forall s1, on_pv (ValidationRequestHandler valAddr req chainID) s1 = (Ok (res, e), s') -> replies req res).
  { intros s1. unfold on_pv. destruct (ValidationRequestHandler _ _ _ _) as [r p1] eqn:E. intros [= -> _].
    by apply handler_replies in E. }
  destruct (s_arbiter s) as [a|]; [|apply Hon].
  destruct (notPrimaryResponse req) as [[[refusal h] [|]]|] eqn:En; [|apply Hon|done].
  destruct (Acquire id h now a) as [[|] a']; [apply Hon|]. intros [= <- _ _].
  destruct req as [| |? [?|]|? [?|]| | | | |]; try done; injection En as <- _; by eexists.
Qed.

(** (C24) Every reply is of the kind its request asks for: on any connection,
    for any sequence of requests, with or without an election, the
    responses written answer the requests read in order, one for one, each
    with the response message of its request - also when the request was
    malformed or refused - so a node never takes a refusal for another
    message. *)
Theorem replies_match_requests valAddr id chainID frames (s : shared P) out s' :
  serveConn id (ValidationRequestHandler valAddr) chainID frames s = (Ok out, s') ->
  exists answered rest, map (fun f => fst (fst f)) frames = answered ++ rest /\ Forall2 replies answered out.
Proof using VL.
  revert s out s'. induction frames as [|[[req now] written] frames IH]; intros s out s'; cbn [serveConn map].
  - intros [= <- _]. by exists [], [].
  - destruct (client_handler id now _ req chainID s) as [[[res e]| |] s1] eqn:Eh; try done.
    apply client_replies in Eh. destruct written.
    + destruct (serveConn id _ chainID frames s1) as [[out'| |] s2] eqn:Es; try done. intros [= <- _].
      destruct (IH _ _ _ Es) as (answered & rest & Hf & Hr). exists (req :: answered), rest.
      cbn [fst]. rewrite Hf. split; [done|]. by constructor.
    + intros [= <- _]. exists [], (req :: map (fun f => fst (fst f)) frames). done.
Qed.
End Replies.

(** ** The dial clients *)

Section Clients.
Context {T : CometBFT} {P : Type} {V : PrivVal P}.
Context (next : @ValidationRequestHandlerFunc T P) (chainID : bytes).

(** A request past the gate that the validator has not answered yet. *)
Definition in_flight (c : dialClient) : option message :=
  match c_phase c with PAdmitted req | PHandling req => Some req | _ => None end.

(** A live or just-lost connection, whose disconnect is still to be
    reported. *)
Definition serving (c : dialClient) : Prop :=
  match c_phase c with PServe | PAdmitted _ | PHandling _ | PClosing => True | _ => False end.

Definition holds_role (s : shared P) (id : bytes) : Prop :=
  exists a, s_arbiter s = Some a /\ primary a = id.

(** The handler of [RunDialClient] is the steps of a request in a row. *)
Lemma client_handler_steps id now req (s : shared P) :
  client_handler id now next req chainID s =
  match gate id now req s with
  | (GPanic, s') => (Panic, s')
  | (GRefused res, s') => (Ok (res, None), s')
  | (GThrough, s') => on_pv (next req chainID) s'
  | (GConsent, s') => on_pv (next req chainID) (record_sign id s')
  end.
Proof using.
  unfold client_handler, gatedHandler, gate. destruct (s_arbiter s) as [a|]; [|done].
  destruct (notPrimaryResponse req) as [[[res h] [|]]|]; [|done..].
  by destruct (Acquire id h now a) as [[|] a'].
Qed.

(** What the gate does to the arbiter. *)
Lemma gate_arbiter id now req (s : shared P) r s' :
  gate id now req s = (r, s') ->
  r <> GConsent /\ s' = s \/ r = GConsent /\ exists a h, s_arbiter s = Some a /\ sign_height req = Some h /\
    s_arbiter s' = Some (take_role id now h a).
Proof using.
  unfold gate. destruct (s_arbiter s) as [a|] eqn:Ea; [|by intros [= <- <-]; left].
  destruct (notPrimaryResponse req) as [[[res h] [|]]|] eqn:En; [|by intros [= <- <-]; left..].
  destruct (Acquire_cases id h now a) as [[_ ->]|[_ ->]]; intros [= <- <-].
  - right. split; [done|]. exists a, h. split; [done|]. split; [|done].
    destruct req as [| |? [?|]|? [?|]| | | | |]; try done; by injection En as _ <-.
  - left. split; [done|]. by destruct s; cbn in *; subst.
Qed.

Lemma gate_consents id now req (s : shared P) a h :
  s_arbiter s = Some a -> sign_height req = Some h -> may_take a id h now ->
  gate id now req s = (GConsent, Shared (Some (take_role id now h a)) (s_pv s) (s_metrics s)).
Proof using.
  intros Ha Hh Hm. unfold gate. rewrite Ha.
  destruct (Acquire_cases id h now a) as [[_ E]|[? _]]; [|done].
  destruct req as [| |? [?|]|? [?|]| | | | |]; try done; injection Hh as <-; cbn [notPrimaryResponse]; by rewrite E.
Qed.

Lemma gate_through id now req (s s' : shared P) :
  gate id now req s = (GThrough, s') -> s_arbiter s' = None \/ sign_height req = None.
Proof using.
  unfold gate. destruct (s_arbiter s) as [a|] eqn:Ea; [|by intros [= <-]; left].
  destruct (notPrimaryResponse req) as [[[res h] [|]]|] eqn:En; [|..|done].
  - by destruct (Acquire id h now a) as [[|] a'].
  - intros _. right. by destruct req as [| |? [?|]|? [?|]| | | | |].
Qed.

Lemma on_pv_arbiter {A} (m : ST P A) (s : shared P) r s' :
  on_pv m s = (r, s') -> s_arbiter s' = s_arbiter s.
Proof using. unfold on_pv. destruct (m (s_pv s)). by intros [= _ <-]. Qed.

Lemma holds_after_disconnect id (s : shared P) i :
  i <> [] -> holds_role (onState id false s) i -> i <> id /\ holds_role s i.
Proof using.
  intros Hi (a & Ha & Hp). cbn [onState s_arbiter] in Ha.
  destruct (s_arbiter s) as [a0|] eqn:E; [|done]. injection Ha as <-.
  revert Hp. unfold Release, beq. case_bool_decide; cbn; [by intros <-|].
  intros <-. split; [done|]. by exists a0.
Qed.

(** A step gives the role to a serving client only, and a client that
    stops serving does not keep it. *)
Lemma client_step_role d l c s c' s' i :
  client_step next chainID d l (c, s) (c', s') -> i <> [] -> holds_role s' i ->
  (i = c_id c /\ serving c') \/ (holds_role s i /\ (i = c_id c -> serving c -> serving c')).
Proof using.
  intros Hs Hi Hh.
  inversion Hs; subst; cbn [c_id] in *; unfold serving in *; cbn [c_phase] in *;
    try match goal with
    | H : gate _ _ _ _ = _ |- _ =>
        apply gate_arbiter in H as [[_ ->]|(_ & a & h & _ & _ & Ea)]; [by right|left];
        destruct Hh as (a' & Ha' & <-); rewrite Ea in Ha'; injection Ha' as <-;
        split; [apply take_role_fields|done]
    | H : on_pv _ _ = _ |- _ =>
        apply on_pv_arbiter in H; right; split; [|done];
        destruct Hh as (a & Ha & ?); exists a; by rewrite <-H
    end; try by right.
  2,3: apply holds_after_disconnect in Hh as [? ?]; [|done]; right; by split.
  right. split; [done|]. intros _. by destruct_or!; subst.
Qed.

(** The height mark covers the sign requests in flight. *)
Definition covered (s : shared P) (c : dialClient) : Prop :=
  forall req h a, in_flight c = Some req -> sign_height req = Some h -> s_arbiter s = Some a ->
    h <= maxHeight a.

(** The mark never falls. *)
Lemma client_step_mark d l c s c' s' a' :
  client_step next chainID d l (c, s) (c', s') -> s_arbiter s' = Some a' ->
  exists a, s_arbiter s = Some a /\ maxHeight a <= maxHeight a'.
Proof using.
  assert (Hr : forall id (s : shared P), s_arbiter (onState id false s) = Some a' ->
    exists a, s_arbiter s = Some a /\ maxHeight a <= maxHeight a').
  { intros id s0 E. cbn in E. destruct (s_arbiter s0) as [a|]; [|done]. injection E as <-.
    exists a. split; [done|]. unfold Release. by case_match. }
  intros Hs Ea. inversion Hs; subst; eauto using Z.le_refl; try by eapply Hr.
  all: match goal with
    | H : gate _ _ _ _ = _ |- _ =>
        apply gate_arbiter in H as [[_ ->]|(_ & a & h & Ha & _ & E)]; [by eauto using Z.le_refl|];
        rewrite E in Ea; injection Ea as <-; exists a; split; [done|];
        destruct (take_role_fields id now h a) as (_ & _ & _ & _ & ->); lia
    | H : on_pv _ _ = _ |- _ => apply on_pv_arbiter in H; rewrite <-H; eauto using Z.le_refl
    end.
Qed.

Lemma covered_step d l c s c' s' c0 :
  client_step next chainID d l (c, s) (c', s') -> covered s c0 -> covered s' c0.
Proof using.
  intros Hs H req h a' Hf Hh Ha. destruct (client_step_mark _ _ _ _ _ _ _ Hs Ha) as (a & Ea & ?).
  specialize (H req h a Hf Hh Ea). lia.
Qed.

Lemma client_step_covered d l c s c' s' :
  client_step next chainID d l (c, s) (c', s') -> covered s c -> covered s' c'.
Proof using.
  intros Hs H. inversion Hs; subst; intros req' h' a' Hf Hh Ha; try done; cbn in Hf;
    try (by apply (H req' h' a')); injection Hf as ->.
  - match goal with Hg : gate _ _ _ _ = _ |- _ => apply gate_through in Hg as [?|?] end; congruence.
  - match goal with Hg : gate _ _ _ _ = _ |- _ => 
      apply gate_arbiter in Hg as [[? _]|(_ & a & h & _ & Eh & E)] end; [done|].
    rewrite E in Ha. injection Ha as <-. rewrite Eh in Hh. injection Hh as ->.
    destruct (take_role_fields id now h' a) as (_ & _ & _ & _ & ->). lia.
Qed.

Lemma client_step_id d l c s c' s' :
  client_step next chainID d l (c, s) (c', s') -> c_id c' = c_id c.
Proof using. by inversion 1. Qed.

Lemma next_backoff_bounds b :
  minBackoff <= b <= maxBackoff -> minBackoff <= next_backoff b <= maxBackoff.
Proof using.
  assert (H0 : 0 < second) by reflexivity. unfold next_backoff, minBackoff, maxBackoff.
  destruct (Z.gtb_spec (2 * b) (5 * second)); lia.
Qed.

Lemma min_backoff_bounds : minBackoff <= minBackoff <= maxBackoff.
Proof using. vm_compute. split; discriminate. Qed.

Lemma client_step_backoff d l x y :
  client_step next chainID d l x y ->
  minBackoff <= c_backoff (fst x) <= maxBackoff -> minBackoff <= c_backoff (fst y) <= maxBackoff.
Proof using.
  destruct 1; cbn [fst c_backoff]; auto using next_backoff_bounds, min_backoff_bounds.
Qed.

Definition sys_ok (x : system P) : Prop :=
  Forall (fun c => minBackoff <= c_backoff c <= maxBackoff) (clients x) /\
  Forall (covered (sys_shared x)) (clients x) /\
  forall i, i <> [] -> holds_role (sys_shared x) i ->
    exists c, c ∈ clients x /\ c_id c = i /\ serving c.

Lemma sys_ok_step l x x' : sys_ok x -> sys_step next chainID l x x' -> sys_ok x'.
Proof using.
  intros Hx Hstep. destruct Hstep as [lb l1 c l2 s c' s' d Hs|cs s]; [|exact Hx]. destruct Hx as (Hb & Hc & Hr).
  cbn [clients sys_shared] in *. split; [|split].
  - rewrite Forall_app, Forall_cons in Hb. cbn [clients]. rewrite Forall_app, Forall_cons.
    destruct Hb as (? & ? & ?). split; [done|]. split; [|done]. by apply (client_step_backoff _ _ _ _ Hs).
  - rewrite Forall_app, Forall_cons in Hc. cbn [clients sys_shared]. rewrite Forall_app, Forall_cons.
    destruct Hc as (H1 & H2 & H3). split; [|split].
    + eapply Forall_impl; [exact H1|]. intros ?. by eapply covered_step.
    + by eapply client_step_covered.
    + eapply Forall_impl; [exact H3|]. intros ?. by eapply covered_step.
  - intros i Hi Hh. cbn [clients sys_shared] in *.
    pose proof (client_step_id _ _ _ _ _ _ Hs) as Eid.
    destruct (client_step_role _ _ _ _ _ _ i Hs Hi Hh) as [[-> Hsv]|[Hh0 Hk]].
    + exists c'. split; [apply elem_of_app; right; left|]. done.
    + destruct (Hr i Hi Hh0) as (c0 & Hin & Ec & Hsv).
      apply elem_of_app in Hin as [Hin|Hin]; [exists c0; by rewrite elem_of_app; auto|].
      apply elem_of_cons in Hin as [->|Hin].
      * exists c'. split; [apply elem_of_app; right; left|]. rewrite Eid. auto.
      * exists c0. split; [apply elem_of_app; right; by right|done].
Qed.

Lemma start_shared targets (s : shared P) :
  s_arbiter (sys_shared (start_clients targets s)) = s_arbiter s.
Proof using.
  unfold start_clients. cbn [sys_shared]. revert s.
  induction targets as [|t l IH]; intros s; cbn [foldl]; [done|]. by rewrite IH.
Qed.

Lemma sys_ok_start targets (s : shared P) :
  (forall a, s_arbiter s = Some a -> primary a = []) -> sys_ok (start_clients targets s).
Proof using.
  intros Ha. split; [|split].
  - apply Forall_forall. intros c Hc. apply list_elem_of_fmap in Hc as (t & -> & _).
    apply min_backoff_bounds.
  - apply Forall_forall. intros c Hc. by apply list_elem_of_fmap in Hc as (t & -> & _).
  - intros i Hi (a & Hx & Hp). rewrite start_shared in Hx. specialize (Ha a Hx). congruence.
Qed.

Lemma sys_ok_run n k x y : sys_run next chainID n k x y -> sys_ok x -> sys_ok y.
Proof using. induction 1 as [|n k l x y z H1 _ IH]; [done|]. intros Hx. apply IH. by eapply sys_ok_step. Qed.

(** (C25) Only a connected node holds the role: in every state the dial
    clients of a fresh start can reach - any interleaving of dials, failed
    dials, arbiter decisions, calls of the validator, lost connections and
    a shutdown - the primary, when there is one, is the target of a client
    with a live connection or one whose disconnect is about to be reported;
    so losing the connection frees the role at once.  A vote or proposal
    that is on its way to the validator is for a height the election's
    height mark covers, even if another node took the role meanwhile.  And
    every client's reconnect delay stays between one and five seconds. *)
Theorem primary_is_connected targets (s : shared P) n k x :
  (forall a, s_arbiter s = Some a -> primary a = []) ->
  sys_run next chainID n k (start_clients targets s) x ->
  Forall (fun c => minBackoff <= c_backoff c <= maxBackoff) (clients x) /\
  forall a, s_arbiter (sys_shared x) = Some a ->
    (primary a <> [] -> exists c, c ∈ clients x /\ c_id c = primary a /\ serving c) /\
    (forall c req h, c ∈ clients x -> in_flight c = Some req -> sign_height req = Some h ->
       h <= maxHeight a).
Proof using.
  intros Ha Hs. destruct (sys_ok_run _ _ _ _ Hs (sys_ok_start _ _ Ha)) as (Hb & Hc & Hr).
  split; [done|]. intros a Ea. split.
  - intros Hp. apply Hr; [done|]. by exists a.
  - intros c req h Hin Hf Hh. rewrite Forall_forall in Hc. by apply (Hc c Hin req h a).
Qed.

(** ** Shutdown *)

(** The steps a client can still take without reading a request, once its
    context is canceled. *)
Definition rank (p : phase) : nat :=
  match p with
  | PStopped => 0 | PTop => 1 | PBackoff | PPause => 2 | PClosing => 3
  | PServe => 4 | PHandling _ => 5 | PAdmitted _ => 6 | PDialing => 7
  end.
Definition todo (c : dialClient) : nat := rank (c_phase c) + (if c_open c then 1 else 0).
Definition sys_todo (x : system P) : nat := sum_list_with todo (clients x).

Lemma client_step_todo l c s c' s' :
  client_step next chainID true l (c, s) (c', s') ->
  match l with LRead => todo c' <= todo c + 2 | _ => todo c' < todo c end%nat.
Proof using.
  unfold todo. inversion 1; subst; cbn [c_phase c_open rank]; repeat case_match; try lia.
  all: destruct_or!; subst; cbn [rank]; lia.
Qed.

Lemma sys_step_todo l x y :
  sys_step next chainID l x y -> canceled x = true ->
  canceled y = true /\ length (clients y) = length (clients x) /\
  match l with LRead => sys_todo y <= sys_todo x + 2 | _ => sys_todo y < sys_todo x end%nat.
Proof using.
  intros [lb l1 c l2 s c' s' d Hs|cs s]; cbn [canceled clients]; [|done]. intros ->. split; [done|].
  rewrite !length_app. split; [done|]. apply client_step_todo in Hs.
  unfold sys_todo. cbn [clients]. rewrite !sum_list_with_app. cbn. destruct lb; lia.
Qed.

Lemma sys_run_todo n k x y :
  sys_run next chainID n k x y -> canceled x = true ->
  canceled y = true /\ (n + sys_todo y <= sys_todo x + 3 * k)%nat.
Proof using.
  induction 1 as [|n k l x y z H1 _ IH]; intros Hc; [split; [done|lia]|].
  destruct (sys_step_todo _ _ _ H1 Hc) as (Hy & _ & Hm). destruct (IH Hy) as [Hz IHm].
  split; [done|]. destruct l; lia.
Qed.

Lemma sys_todo_bound x : (sys_todo x <= 8 * length (clients x))%nat.
Proof using.
  unfold sys_todo. induction (clients x) as [|c cs IH]; cbn; [lia|].
  assert (todo c <= 8)%nat by (unfold todo; destruct (c_phase c), (c_open c); cbn; lia). lia.
Qed.

Lemma sys_run_clients n k x y : sys_run next chainID n k x y -> length (clients y) = length (clients x).
Proof using.
  induction 1 as [|n k l x y z H1 _ IH]; [done|]. rewrite IH.
  destruct H1 as [lb l1 c l2 s c' s' d Hs|]; [|done]. cbn [clients]. by rewrite !length_app.
Qed.

Definition all_stopped (x : system P) : Prop := Forall (fun c => c_phase c = PStopped) (clients x).

Lemma all_stopped_no_primary x a :
  sys_ok x -> all_stopped x -> s_arbiter (sys_shared x) = Some a -> primary a = [].
Proof using.
  intros (_ & _ & Hr) Hs Ha. destruct (decide (primary a = [])) as [|Hp]; [done|].
  destruct (Hr (primary a) Hp) as (c & Hin & _ & Hsv); [by exists a|].
  unfold all_stopped in Hs. rewrite Forall_forall in Hs. unfold serving in Hsv. by rewrite (Hs c Hin) in Hsv.
Qed.

(** A client that has not returned can go on without reading. *)
Lemma client_progress c s :
  (forall req p, is_ok (fst (next req chainID p)) = true) -> c_phase c <> PStopped ->
  exists l c' s', l <> LRead /\ client_step next chainID true l (c, s) (c', s').
Proof using.
  intros Hn Hc. destruct c as [id p b o]. cbn in Hc.
  destruct p; try done; try (by exists LOther; eexists _, _; (split; [done|]); econstructor; auto).
  pose proof (Hn req (s_pv s)) as Ho. destruct (on_pv (next req chainID) s) as [r s'] eqn:E.
  pose proof E as E'. unfold on_pv in E'. destruct (next req chainID (s_pv s)) as [r0 p0]. injection E' as -> _.
  destruct r as [[r e]| |]; try done. eexists _, _, _. split; [|by eapply cs_handle]. done.
Qed.

Lemma sys_progress x :
  (forall req p, is_ok (fst (next req chainID p)) = true) -> canceled x = true -> ~ all_stopped x ->
  exists l y, l <> LRead /\ sys_step next chainID l x y.
Proof using.
  intros Hn Hc Hs. destruct x as [cs s d]. cbn in Hc. subst d. unfold all_stopped in Hs. cbn [clients] in Hs.
  assert (Hdec : forall c : dialClient, Decision (c_phase c = PStopped))
    by (intros c; destruct (c_phase c); first [by left|by right]).
  apply not_Forall_Exists in Hs; [|done]. apply Exists_exists in Hs as (c & Hin & Hc).
  apply list_elem_of_split in Hin as (l1 & l2 & ->).
  destruct (client_progress c s Hn Hc) as (l & c' & s' & Hl & H). eexists l, _. split; [done|]. by apply sys_step_intro.
Qed.

Lemma shutdown_run m x :
  (forall req p, is_ok (fst (next req chainID p)) = true) -> canceled x = true -> (sys_todo x <= m)%nat ->
  exists n y, sys_run next chainID n 0 x y /\ all_stopped y.
Proof using.
  intros Hn. revert x. induction m as [|m IH]; intros x Hc Hm.
  all: assert (Hdec : Decision (all_stopped x))
    by (apply Forall_dec; intros c; destruct (c_phase c); first [by left|by right]).
  all: destruct Hdec as [Hs|Hs]; [by exists 0%nat, x; split; [constructor|]|].
  all: destruct (sys_progress x Hn Hc Hs) as (l & y & Hl & Hy); destruct (sys_step_todo _ _ _ Hy Hc) as (Hcy & _ & Hlt).
  - destruct l; [done|lia..].
  - destruct (IH y Hcy) as (n & z & Hr & Hz); [destruct l; [done|lia..]|]. exists (S n), z. split; [|done].
    pose proof (run_step _ _ n 0 l x y z Hy Hr) as Hr'. by destruct l.
Qed.

(** Shutdown terminates: once the context of the dial clients is
    canceled, in whatever state they are, they take at most 8 steps each
    plus 3 for every request that still arrives; as long as one of them has
    not returned some step other than reading a request is possible, so
    when nothing but requests could happen any more all have returned, and
    they can get there without any peer's cooperation.  The wait for them
    in [runDaemon] therefore ends, and then nobody holds the primary role. *)
Theorem shutdown_terminates targets (s : shared P) n0 k0 x :
  (forall a, s_arbiter s = Some a -> primary a = []) ->
  (forall req p, is_ok (fst (next req chainID p)) = true) ->
  sys_run next chainID n0 k0 (start_clients targets s) x -> canceled x = true ->
  (forall n k y, sys_run next chainID n k x y -> (n <= 8 * length targets + 3 * k)%nat /\
     ((forall l z, l <> LRead -> ~ sys_step next chainID l y z) -> all_stopped y) /\
     (all_stopped y -> forall a, s_arbiter (sys_shared y) = Some a -> primary a = [])) /\
  exists n y, sys_run next chainID n 0 x y /\ all_stopped y.
Proof using.
  intros Ha Hn Hx Hc. pose proof (sys_ok_run _ _ _ _ Hx (sys_ok_start _ _ Ha)) as Hok. split.
  - intros n k y Hy. destruct (sys_run_todo _ _ _ _ Hy Hc) as [Hcy Hb].
    pose proof (sys_todo_bound x) as Hm. rewrite (sys_run_clients _ _ _ _ Hx) in Hm.
    unfold start_clients in Hm. cbn [clients] in Hm. rewrite length_map in Hm. split; [lia|]. split.
    + intros Hstuck. assert (Hdec : Decision (all_stopped y))
        by (apply Forall_dec; intros c; destruct (c_phase c); first [by left|by right]).
      destruct Hdec as [|Hs]; [done|]. destruct (sys_progress y Hn Hcy Hs) as (l & z & Hl & Hz). by destruct (Hstuck l z Hl).
    + intros Hs a. apply all_stopped_no_primary; [|done]. by apply (sys_ok_run _ _ _ _ Hy).
  - by apply (shutdown_run (sys_todo x)).
Qed.
End Clients.

Lemma record_sign_one_active_witness :
  let m := RecordSign (bs "10.0.0.1:5000") (Metrics ∅ ∅ ∅) in
  activeNode (RecordSign (bs "10.0.0.2:6000") m) !! hostOnly (bs "10.0.0.2:6000") = Some 1.
Proof.
  intros m. apply (record_sign_one_active (bs "10.0.0.2:6000") m). discriminate.
Defined.

(** The gauge's label is the whole dial target: for a target
    [scheme://host:port] - the address the gate passes - the port is not
    stripped and the label is not the node's IP, because the scheme's colon
    makes [net.SplitHostPort] fail. *)
Theorem active_node_label_is_target scheme host port m :
  scheme <> [] -> Forall (fun c => c <> x3a /\ c <> x5b) scheme ->
  plain_host host -> plain_port port ->
  let target := scheme ++ bs "://" ++ host ++ bs ":" ++ port in
  hostOnly target = target /\ activeNode (RecordSign target m) !! target = Some 1.
Proof.
  intros Hne Hs Hh Hp target.
  assert (Hx : hostOnly target = target).
  { unfold hostOnly. assert (is_ok (SplitHostPort target) = false) as Hf; cycle 1.
    { destruct (SplitHostPort target) as [[? ?]| |]; done. }
    unfold SplitHostPort. set (pre := scheme ++ bs "://" ++ host).
    assert (Et : target = pre ++ x3a :: port) by (unfold target, pre; by rewrite <-!app_assoc).
    rewrite Et, LastIndexByte_app.
    2: { apply LastIndexByte_None. eapply Forall_impl; [exact Hp|intros x Hx; apply Hx]. }
    rewrite bool_decide_false.
    2: { unfold pre. destruct scheme as [|c scheme]; [done|]. inversion Hs as [|? ? [_ Hc] _]; subst.
         simpl. congruence. }
    rewrite take_app_length. assert (contains pre x3a = true) as ->; [|done].
    apply contains_iff. unfold pre. apply elem_of_app. right. left. }
  split; [done|]. unfold RecordSign. rewrite Hx.
  assert (Hb : beq target [] = false) by (apply bool_decide_false; by destruct scheme).
  rewrite Hb. cbn [activeNode].
  destruct (set_labels target ({[target]} ∪ seen m) (activeNode m) target) as [H _].
  rewrite H by set_solver. unfold beq. by rewrite bool_decide_true.
Qed.

Lemma active_node_label_is_target_witness :
  hostOnly nodeA = nodeA /\ activeNode (RecordSign nodeA (Metrics ∅ ∅ ∅)) !! nodeA = Some 1.
Proof.
  apply (active_node_label_is_target (bs "tcp") (bs "10.0.0.1") (bs "26659") (Metrics ∅ ∅ ∅)).
  1: discriminate.
  all: vm_compute; repeat constructor; discriminate.
Defined.

(** ** A concrete validator *)

(** Block ids are nil, partial or complete. *)
#[local] Instance reference_comet : CometBFT := {
  protoBlockID := nat;
  blockID := nat;
  BlockIDFromProto b := if (b <=? 2)%nat then Ok b else Err (ErrLib "wrong hash size");
  IsZero b := (b =? 0)%nat;
  IsComplete b := (b =? 2)%nat;
  IsVoteTypeValid t := (t =? 1) || (t =? 2);
  PrecommitType := 2;
  ProposalType := 32;
  MaxVoteExtensionSize := 1024 * 1024;
}.

#[local] Instance reference_comet_laws : CometBFTLaws reference_comet.
Proof. split. intros b. simpl. by case_match. Qed.

(** A validator that counts its signatures. *)
#[local] Instance reference_pv : PrivVal nat := {
  pv_Address _ := Ok (replicate 20 x07);
  DefaultValidationRequestHandler req _ := fun n =>
    match req with
    | SignVoteRequest _ v => (Ok (SignedVoteResponse v None, None), S n)
    | SignProposalRequest _ p => (Ok (SignedProposalResponse p None, None), S n)
    | PubKeyRequest _ => (Ok (PubKeyResponse (replicate 32 x09) None, None), n)
    | _ => (Ok (PingResponse, None), n)
    end;
}.

#[local] Instance reference_pv_laws : PrivValLaws reference_pv.
Proof. split. intros req chainID p res e p' H. destruct req; cbn in H; injection H as <- _ _; done || by eexists. Qed.

Definition sample_vote (h : Z) (bid : nat) : Vote :=
  MkVote 2 h 0 bid 0 (replicate 20 x07) 0 [] [] [].

Definition sample_shared : shared nat :=
  Shared (Some (NewPreferringPrimaryArbiter 1000 [nodeA; nodeB])) O (Metrics ∅ ∅ ∅).

Lemma handler_guards_signer_witness :
  ValidationRequestHandler (replicate 20 x07) (SignVoteRequest (bs "tellor-1") (Some (sample_vote 5 2)))
    (bs "tellor-1") O =
  DefaultValidationRequestHandler (SignVoteRequest (bs "tellor-1") (Some (sample_vote 5 2))) (bs "tellor-1") O.
Proof.
  apply (handler_guards_signer (replicate 20 x07)).
  cbn [acceptable]. split; [apply validateRequestChainID_spec; vm_compute; reflexivity|].
  exists (sample_vote 5 2). split; [reflexivity|].
  apply ValidateSignVoteRequest_spec. vm_compute. reflexivity.
Defined.

(** A is elected by its first vote, and B is refused right after. *)
Lemma gate_admits_only_primary_witness :
  exists a' m', client_handler nodeA 10 (ValidationRequestHandler [])
      (SignVoteRequest (bs "tellor-1") (Some (sample_vote 5 2))) (bs "tellor-1") sample_shared =
    on_pv (ValidationRequestHandler [] (SignVoteRequest (bs "tellor-1") (Some (sample_vote 5 2))) (bs "tellor-1"))
      (Shared (Some a') O m') /\
    primary a' = nodeA /\ maxHeight a' = 5 /\ activeNode m' !! nodeA = Some 1 /\ ~ may_take a' nodeB 5 20.
Proof.
  destruct (gate_admits_only_primary (NewPreferringPrimaryArbiter 1000 [nodeA; nodeB]) nodeA 10
    (ValidationRequestHandler []) (SignVoteRequest (bs "tellor-1") (Some (sample_vote 5 2)))
    (bs "tellor-1") sample_shared 5 eq_refl eq_refl) as [H _].
  destruct H as (a' & m' & Hc & [Hp _ Hh [_ Hr] Hg _] & Hx); [right; left; reflexivity|].
  assert (Hn : hostOnly nodeA = nodeA) by (vm_compute; reflexivity).
  exists a', m'. split; [exact Hc|]. split; [exact Hp|]. split; [exact Hh|].
  split; [rewrite <-Hn; apply Hg; vm_compute; discriminate|].
  intros Hm. destruct (Hx nodeB 5 20 ltac:(discriminate) ltac:(discriminate) Hm) as [Ht|[Ho _]].
  - vm_compute in Ht. discriminate Ht.
  - unfold outranks in Ho. rewrite Hp, Hr in Ho. vm_compute in Ho. discriminate Ho.
Defined.

Lemma nil_vote_crashes_gated_signer_witness :
  serveConn nodeA (ValidationRequestHandler []) (bs "tellor-1")
    [(SignVoteRequest (bs "tellor-1") None, 10, true)] sample_shared = (Panic, sample_shared).
Proof.
  apply (nil_vote_crashes_gated_signer [] nodeA 10 (bs "tellor-1") (bs "tellor-1") sample_shared
    (NewPreferringPrimaryArbiter 1000 [nodeA; nodeB]) true []). reflexivity.
Defined.

(** B asks with a partial block id at a far height. *)
Lemma refused_vote_moves_election_witness :
  exists res e, client_handler nodeB 10 (ValidationRequestHandler [])
      (SignVoteRequest (bs "tellor-1") (Some (sample_vote 1000000 1))) (bs "tellor-1") sample_shared =
    (Ok (res, Some e),
     Shared (Some (take_role nodeB 10 1000000 (NewPreferringPrimaryArbiter 1000 [nodeA; nodeB]))) O
       (RecordSign nodeB (Metrics ∅ ∅ ∅))) /\
  fst (Acquire nodeA 101 20 (take_role nodeB 10 1000000 (NewPreferringPrimaryArbiter 1000 [nodeA; nodeB]))) = false.
Proof.
  destruct (refused_vote_moves_election [] (NewPreferringPrimaryArbiter 1000 [nodeA; nodeB]) nodeB 10
    (bs "tellor-1") (sample_vote 1000000 1) (bs "tellor-1") sample_shared) as (res & e & H1 & H2).
  - reflexivity.
  - right. left. reflexivity.
  - intros [_ (v & [= <-] & Hv)]. apply ValidateSignVoteRequest_spec in Hv. vm_compute in Hv. discriminate Hv.
  - exists res, e. split; [exact H1|]. apply H2; vm_compute; congruence.
Defined.

(** A and B connect, B is admitted at height 5, and before the validator is
    called for it A, which is preferred, is admitted at height 6. *)
Definition sample_request (h : Z) : message :=
  SignVoteRequest (bs "tellor-1") (Some (sample_vote h 2)).
Definition sample_arbiter : PrimaryArbiter := NewPreferringPrimaryArbiter 1000 [nodeA; nodeB].
Definition sample_metrics : metrics :=
  s_metrics (onState nodeB true (onState nodeA true (sys_shared (start_clients [nodeA; nodeB] sample_shared)))).
Definition sample_system : system nat :=
  System [Client nodeA (PAdmitted (sample_request 6)) minBackoff true;
          Client nodeB (PHandling (sample_request 5)) minBackoff true]
    (Shared (Some (take_role nodeA 11 6 (take_role nodeB 10 5 sample_arbiter))) O
       (RecordSign nodeB sample_metrics)) false.

Lemma sample_system_reachable :
  exists n k, sys_run (ValidationRequestHandler []) (bs "tellor-1") n k
    (start_clients [nodeA; nodeB] sample_shared) sample_system.
Proof.
  pose (cA p o := Client nodeA p minBackoff o). pose (cB p o := Client nodeB p minBackoff o).
  eexists _, _.
  eapply run_step; [exact (sys_step_intro _ _ _ [] _ [cB PTop false] _ _ _ _ (cs_top _ _ _ nodeA minBackoff false _ eq_refl))|].
  eapply run_step; [exact (sys_step_intro _ _ _ [cA PDialing false] _ [] _ _ _ _ (cs_top _ _ _ nodeB minBackoff false _ eq_refl))|].
  eapply run_step; [exact (sys_step_intro _ _ _ [] _ [cB PDialing false] _ _ _ _ (cs_connected _ _ _ nodeA minBackoff false _))|].
  eapply run_step; [exact (sys_step_intro _ _ _ [cA PServe true] _ [] _ _ _ _ (cs_connected _ _ _ nodeB minBackoff false _))|].
  change (onState nodeB true _) with (Shared (Some sample_arbiter) O sample_metrics).
  eapply run_step; [eapply (sys_step_intro _ _ _ [cA PServe true] _ []);
    eapply (cs_consent _ _ _ nodeB minBackoff _ (sample_request 5) 10), gate_consents;
    [reflexivity|reflexivity|right; left; reflexivity]|].
  cbn [s_pv s_metrics].
  eapply run_step; [exact (sys_step_intro _ _ _ [cA PServe true] _ [] _ _ _ _ (cs_record _ _ _ nodeB minBackoff true _ _))|].
  eapply run_step; [|apply run_refl].
  apply (sys_step_intro _ _ _ [] _ [cB (PHandling (sample_request 5)) true]).
  apply (cs_consent _ _ _ nodeA minBackoff _ (sample_request 6) 11).
  apply (gate_consents nodeA 11 (sample_request 6)); [reflexivity|reflexivity|].
  right. right. right. split; [vm_compute; reflexivity|]. vm_compute. discriminate.
Qed.

Lemma primary_is_connected_witness :
  (exists c, c ∈ clients sample_system /\ c_id c = nodeA /\ serving c) /\
  5 <= maxHeight (take_role nodeA 11 6 (take_role nodeB 10 5 sample_arbiter)).
Proof.
  destruct sample_system_reachable as (n & k & Hr).
  destruct (primary_is_connected (ValidationRequestHandler []) (bs "tellor-1") [nodeA; nodeB] sample_shared n k
    sample_system) as [_ H].
  - intros a0 Ha0. injection Ha0 as <-. reflexivity.
  - exact Hr.
  - destruct (H _ eq_refl) as [H1 H2]. split.
    + destruct H1 as (c & ? & Hc & ?); [vm_compute; discriminate|]. exists c. split; [assumption|].
      split; [|assumption]. rewrite Hc. vm_compute. reflexivity.
    + apply (H2 (Client nodeB (PHandling (sample_request 5)) minBackoff true) (sample_request 5));
        [right; left|reflexivity|reflexivity].
Defined.

(** The reference handler never panics. *)
Lemma reference_handler_ok req p :
  is_ok (fst (ValidationRequestHandler (V := reference_pv) [] req (bs "tellor-1") p)) = true.
Proof.
  unfold ValidationRequestHandler, refuse, st_ret, st_lift.
  destruct req as [|cid|cid vote|cid prop| | | | |]; try done.
  - by destruct (validateRequestChainID cid).
  - destruct (validateRequestChainID cid), vote as [v|]; try done;
      pose proof (ValidateSignVoteRequest_total v []); by destruct (ValidateSignVoteRequest (Some v) []).
  - destruct (validateRequestChainID cid), prop as [q|]; try done;
      pose proof (ValidateSignProposalRequest_total q); by destruct (ValidateSignProposalRequest (Some q)).
Qed.

(** A shutdown in the middle of two admitted requests. *)
Definition sample_canceled : system nat := System (clients sample_system) (sys_shared sample_system) true.

Lemma sample_canceled_reachable :
  exists n k, sys_run (ValidationRequestHandler []) (bs "tellor-1") n k
    (start_clients [nodeA; nodeB] sample_shared) sample_canceled.
Proof.
  destruct sample_system_reachable as (n & k & Hr). revert Hr. unfold sample_canceled.
  generalize (start_clients [nodeA; nodeB] sample_shared) as x0. intros x0 Hr.
  assert (Hc : canceled sample_system = false) by reflexivity. revert Hc.
  induction Hr as [x|n k l x y z H1 _ IH]; intros Hc.
  - exists 1%nat, 0%nat. destruct x as [cs s d]. cbn in Hc. subst d.
    eapply (run_step _ _ 0 0 LOther); [apply sys_cancel|apply run_refl].
  - destruct (IH Hc) as (n' & k' & Hr). eexists _, _. by eapply run_step.
Qed.

Lemma shutdown_terminates_witness :
  exists n y, sys_run (ValidationRequestHandler []) (bs "tellor-1") n 0 sample_canceled y /\
    all_stopped y /\ (n <= 16)%nat.
Proof.
  destruct sample_canceled_reachable as (n0 & k0 & Hr).
  destruct (shutdown_terminates (ValidationRequestHandler []) (bs "tellor-1") [nodeA; nodeB] sample_shared n0 k0
    sample_canceled) as [H1 (n & y & Hy & Hs)].
  - intros a0 Ha0. injection Ha0 as <-. reflexivity.
  - exact reference_handler_ok.
  - exact Hr.
  - reflexivity.
  - exists n, y. split; [exact Hy|]. split; [exact Hs|]. apply (H1 n 0%nat y Hy).
Defined.

(** A vote, an empty vote request without an election, and a ping. *)
Definition sample_frames : list (message * Z * bool) :=
  [(sample_request 5, 10, true); (SignVoteRequest (bs "tellor-1") None, 11, true); (PingRequest, 12, true)].

Lemma replies_match_requests_witness :
  exists out s' answered rest,
    serveConn nodeA (ValidationRequestHandler (V := reference_pv) []) (bs "tellor-1") sample_frames
      (Shared None O (Metrics ∅ ∅ ∅)) = (Ok out, s') /\ length out = 3%nat /\
    map (fun f => fst (fst f)) sample_frames = answered ++ rest /\ Forall2 replies answered out.
Proof.
  eexists _, _. edestruct (replies_match_requests (V := reference_pv) [] nodeA (bs "tellor-1") sample_frames
    (Shared None O (Metrics ∅ ∅ ∅))) as (answered & rest & H1 & H2); [vm_compute; reflexivity|].
  exists answered, rest. split; [vm_compute; reflexivity|]. split; [reflexivity|]. split; [exact H1|exact H2].
Defined.
