(* ===== verification/ConsensusLog.v ===== *)
(** * What an operator sees of the consensus part ([consensus/primary.go],
      [consensus/server.go], [metrics/metrics.go])

    The lines the arbiter and the connections log, and the connection gauge.
    The arbiter's lines are a function of the call and the state it finds;
    those of a connection are collected beside its responses. *)

From S2P Require Import Prelude GoStd Fs Logging Arbiter Privval.

(** ** The arbiter's lines *)

(** [Acquire]: the branch taken decides the line; a duration is kept in
    nanoseconds. *)
Definition Acquire_lines (id : bytes) (height now : Z) (a : PrimaryArbiter) : list log_record :=
  if beq (primary a) id then []
  else if beq (primary a) [] then
    [Info "consensus primary signer elected" [("primary", VStr id)]%string]
  else if time_Sub now (lastReq a) >? timeout a then
    [Info "consensus primary signer failed over"
       [("from", VStr (primary a)); ("to", VStr id); ("after_idle", VInt (timeout a))]%string]
  else if outranks a id && (height <? maxHeight a) then
    [Info "consensus primary fail-back deferred, preferred node still behind"
       [("preferred", VStr id); ("height", VInt height); ("signed_through", VInt (maxHeight a));
        ("primary", VStr (primary a))]%string]
  else if outranks a id then
    [Info "consensus primary signer failed back to preferred node"
       [("from", VStr (primary a)); ("to", VStr id)]%string]
  else [].

Definition Release_lines (id : bytes) (a : PrimaryArbiter) : list log_record :=
  if negb (beq (primary a) id) then []
  else [Info "consensus primary signer disconnected" [("primary", VStr id)]%string].

Definition event_lines (e : event) (a : PrimaryArbiter) : list log_record :=
  match e with
  | EvAcquire id height now => Acquire_lines id height now a
  | EvRelease id => Release_lines id a
  end.

(** A run with its log, newest first. *)
Inductive logged_run (a0 : PrimaryArbiter) : list (event * bool) -> list log_record -> PrimaryArbiter -> Prop :=
| lrun_nil : logged_run a0 [] [] a0
| lrun_step h ls a e b a' :
    logged_run a0 h ls a -> apply_event e a = (b, a') ->
    logged_run a0 ((e, b) :: h) (event_lines e a ++ ls) a'.

(** Reading the log: the node a line leaves in the role, if it says so. *)
Definition attr (k : string) (l : log_record) : bytes :=
  match list_find (fun p => fst p = k) (lr_attrs l) with
  | Some (_, (_, VStr v)) => v
  | _ => []
  end.

Definition line_primary (l : log_record) : option bytes :=
  if bool_decide (lr_msg l = "consensus primary signer elected"%string) then Some (attr "primary" l)
  else if bool_decide (lr_msg l = "consensus primary signer failed over"%string) then Some (attr "to" l)
  else if bool_decide (lr_msg l = "consensus primary signer failed back to preferred node"%string)
  then Some (attr "to" l)
  else if bool_decide (lr_msg l = "consensus primary signer disconnected"%string) then Some []
  else None.

Fixpoint named_primary (ls : list log_record) : bytes :=
  match ls with
  | [] => []
  | l :: ls' => match line_primary l with Some p => p | None => named_primary ls' end
  end.

(** The node a line takes the role from. *)
Definition line_from (l : log_record) : option bytes :=
  if bool_decide (lr_msg l = "consensus primary signer elected"%string) then Some []
  else if bool_decide (lr_msg l = "consensus primary signer disconnected"%string) then Some (attr "primary" l)
  else option_map (fun _ => attr "from" l) (line_primary l).

Lemma event_named e a b a' ls :
  apply_event e a = (b, a') -> named_primary ls = primary a -> named_primary (event_lines e a ++ ls) = primary a'.
Proof.
  intros He Hn. destruct e as [id height now|id]; cbn [apply_event event_lines] in *.
  - revert He. unfold Acquire, Acquire_lines, beq.
    case_bool_decide as H1; [intros [= _ <-]; cbn; rewrite Hn, H1; symmetry; apply take_role_fields|].
    case_bool_decide as H2; [intros [= _ <-]; cbn; symmetry; apply take_role_fields|].
    destruct (time_Sub now (lastReq a) >? timeout a); [intros [= _ <-]; cbn; symmetry; apply take_role_fields|].
    destruct (outranks a id); cbn [andb]; [|by intros [= _ <-]].
    destruct (height <? maxHeight a); intros [= _ <-]; [done|]. cbn. symmetry. apply take_role_fields.
  - revert He. unfold Release, Release_lines, beq. case_bool_decide; cbn [negb]; by intros [= _ <-].
Qed.

(** Consecutive lines agree on who held the role in between. *)
Fixpoint chained (ls : list log_record) : Prop :=
  match ls with
  | [] => True
  | l :: ls' => (forall p, line_from l = Some p -> p = named_primary ls') /\ chained ls'
  end.

Lemma event_chained e a ls :
  named_primary ls = primary a -> chained ls -> chained (event_lines e a ++ ls).
Proof.
  intros Hn Hc. destruct e as [id height now|id]; cbn [event_lines].
  - unfold Acquire_lines, beq. case_bool_decide as H1; [done|]. case_bool_decide as H2.
    { cbn. split; [|done]. intros p [= <-]. by rewrite Hn, H2. }
    destruct (time_Sub now (lastReq a) >? timeout a); [cbn; split; [|done]; intros p [= <-]; by rewrite Hn|].
    destruct (outranks a id); cbn [andb]; [|done].
    destruct (height <? maxHeight a); cbn; (split; [|done]); intros p; [done|]. intros [= <-]. by rewrite Hn.
  - unfold Release_lines, beq. case_bool_decide as H1; [|done]. cbn. split; [|done].
    intros p [= <-]. by rewrite Hn, H1.
Qed.

(** The election can be read off the log: after any history of calls, the
    last line about the role names exactly the node that holds it - the
    empty name when nobody does - and each such line takes the role from
    the node the earlier lines gave it to. *)
Theorem election_log_tells_primary a0 h ls a :
  primary a0 = [] -> logged_run a0 h ls a -> named_primary ls = primary a /\ chained ls.
Proof.
  intros H0. induction 1 as [|h ls a e b a' _ [IH1 IH2] He]; [by split|].
  split; [by eapply event_named|by eapply event_chained].
Qed.

Definition sample_events : list (event * bool) :=
  [(EvRelease nodeA, true); (EvAcquire nodeA 6 11, true); (EvAcquire nodeB 5 10, true)].

Lemma logged_run_eval a0 h ls a e b :
  logged_run a0 h ls a -> fst (apply_event e a) = b ->
  logged_run a0 ((e, b) :: h) (event_lines e a ++ ls) (snd (apply_event e a)).
Proof. intros Hr <-. eapply lrun_step; [exact Hr|]. by destruct (apply_event e a). Qed.

Lemma sample_logged : exists ls a,
  logged_run (NewPreferringPrimaryArbiter 1000 [nodeA; nodeB]) sample_events ls a /\
  length ls = 3%nat /\ primary a = [].
Proof.
  eexists _, _. split; [|split].
  - apply logged_run_eval; [apply logged_run_eval; [apply logged_run_eval; [apply lrun_nil|]|]|];
      vm_compute; reflexivity.
  - vm_compute. reflexivity.
  - vm_compute. reflexivity.
Qed.

Lemma election_log_tells_primary_witness : exists ls a,
  logged_run (NewPreferringPrimaryArbiter 1000 [nodeA; nodeB]) sample_events ls a /\
  length ls = 3%nat /\ named_primary ls = [].
Proof.
  destruct sample_logged as (ls & a & Hr & Hl & Hp). exists ls, a. split; [exact Hr|]. split; [exact Hl|].
  rewrite <-Hp. exact (proj1 (election_log_tells_primary (NewPreferringPrimaryArbiter 1000 [nodeA; nodeB]) sample_events ls a eq_refl Hr)).
Defined.

(** ** A connection's lines *)

Section Connection.
Context {T : CometBFT} {P : Type} {V : PrivVal P}.

(** What a request leaves in the log: the handler's error, and the error of
    a response that could not be written. *)
Definition request_lines (handleErr writeErr : option error) : list log_record :=
  match writeErr with
  | Some e => [Error "privval write" [("err", VErr e)]%string]
  | None => []
  end ++
  match handleErr with
  | Some e => [Error "privval handler" [("err", VErr e)]%string]
  | None => []
  end.

(** [serveConn] with its lines, newest first: the requests read, each with
    the clock and the error of writing its response, and the error that ends
    the reading ([None]: the end of the stream, or the context is
    canceled). *)
Fixpoint serveConn_log (id : bytes) (next : @ValidationRequestHandlerFunc T P) (chainID : bytes)
    (frames : list (message * Z * option error)) (readErr : option error)
    : shared P -> result (list message) * shared P * list log_record := fun s =>
  match frames with
  | [] =>
      (Ok [], s, match readErr with
                 | Some e => [Error "privval read" [("err", VErr e)]%string]
                 | None => []
                 end)
  | (req, now, writeErr) :: frames' =>
      match client_handler id now next req chainID s with
      | (Ok (res, handleErr), s') =>
          match writeErr with
          | Some _ => (Ok [], s', request_lines handleErr writeErr)
          | None =>
              match serveConn_log id next chainID frames' readErr s' with
              | (Ok out, s'', ls) => (Ok (res :: out), s'', ls ++ request_lines handleErr None)
              | (Err e, s'', ls) => (Err e, s'', ls ++ request_lines handleErr None)
              | (Panic, s'', ls) => (Panic, s'', ls ++ request_lines handleErr None)
              end
          end
      | (Err e, s') => (Err e, s', [])
      | (Panic, s') => (Panic, s', [])
      end
  end.

Definition unlogged (f : message * Z * option error) : message * Z * bool :=
  let '(req, now, we) := f in (req, now, match we with None => true | Some _ => false end).

(** Logging changes nothing. *)
Lemma serveConn_log_fst id next chainID frames readErr s :
  fst (serveConn_log id next chainID frames readErr s) = serveConn id next chainID (map unlogged frames) s.
Proof using.
  revert s. induction frames as [|[[req now] we] frames IH]; intros s; cbn [serveConn_log serveConn map unlogged]; [done|].
  destruct (client_handler id now next req chainID s) as [[[res he]| |] s']; [|done..].
  destruct we; [done|]. rewrite <-IH. by destruct (serveConn_log id next chainID frames readErr s') as [[[| |] ?] ?].
Qed.

(** ** The connection gauge *)

(** A client between the reports of [onState true] and [onState false]. *)
Definition connected (p : phase) : bool :=
  match p with PServe | PAdmitted _ | PHandling _ | PClosing => true | _ => false end.

Definition gauge_value (up : bool) : Z := if up then 1 else 0.

Definition gauge_of (s : shared P) (id : bytes) : option Z := targetConnected (s_metrics s) !! id.

Lemma gate_metrics id now req (s : shared P) : s_metrics (snd (gate id now req s)) = s_metrics s.
Proof using.
  unfold gate. destruct (s_arbiter s) as [a|]; [|done]. destruct (notPrimaryResponse req) as [[[? h] [|]]|]; [|done..].
  by destruct (Acquire id h now a) as [[] ?].
Qed.

Lemma on_pv_metrics {A} (m : ST P A) (s : shared P) : s_metrics (snd (on_pv m s)) = s_metrics s.
Proof using. unfold on_pv. by destruct (m (s_pv s)). Qed.

Lemma record_sign_gauge id (s : shared P) : targetConnected (s_metrics (record_sign id s)) = targetConnected (s_metrics s).
Proof using. cbn. unfold RecordSign. by repeat case_match. Qed.

Lemma gate_gauge id now req (s s' : shared P) r :
  gate id now req s = (r, s') -> targetConnected (s_metrics s') = targetConnected (s_metrics s).
Proof using. intros H. by rewrite <-(gate_metrics id now req s), H. Qed.

(** A step reports its own target's new state, or leaves both the gauge and
    the connection as they were. *)
Lemma client_step_gauge next chainID d l c (s : shared P) c' s' :
  client_step next chainID d l (c, s) (c', s') ->
  c_id c' = c_id c /\
  ((targetConnected (s_metrics s') = targetConnected (s_metrics s) /\
    connected (c_phase c') = connected (c_phase c)) \/
   targetConnected (s_metrics s') =
     <[c_id c := gauge_value (connected (c_phase c'))]> (targetConnected (s_metrics s))).
Proof using.
  inversion 1; subst; cbn [c_id c_phase connected]; (split; [done|]); try (by left); try (by right); left;
    eauto using gate_gauge, record_sign_gauge.
  - split; [done|]. naive_solver.
  - split; [|done]. match goal with H : on_pv ?m ?s = _ |- _ => by rewrite <-(on_pv_metrics m s), H end.
Qed.

(** The exported value is 1 for the clients that have a connection they
    have not reported closed, and 0 for the others. *)
Definition gauges_exact (x : system P) : Prop :=
  NoDup (map c_id (clients x)) /\
  Forall (fun c => gauge_of (sys_shared x) (c_id c) = Some (gauge_value (connected (c_phase c)))) (clients x).

Lemma sys_step_gauges next chainID l x y :
  sys_step next chainID l x y -> gauges_exact x -> gauges_exact y.
Proof using.
  intros Hs [Hd Hf]. destruct Hs as [l l1 c l2 s c' s' d Hc|]; [|done].
  apply client_step_gauge in Hc as [Hid Hg]. unfold gauges_exact, gauge_of in *. cbn [clients sys_shared] in *.
  rewrite map_app in *. cbn [map] in *. rewrite Hid. split; [done|].
  apply NoDup_app in Hd as (_ & Hd1 & [Hd2 _]%NoDup_cons).
  assert (Hothers : forall c0, c0 ∈ l1 \/ c0 ∈ l2 -> c_id c0 <> c_id c).
  { intros c0 [Hin|Hin] He.
    - apply (Hd1 (c_id c0)); [by apply list_elem_of_In, in_map, list_elem_of_In|]. rewrite He. apply elem_of_cons. by left.
    - apply Hd2. rewrite <-He. by apply list_elem_of_In, in_map, list_elem_of_In. }
  rewrite Forall_app, Forall_cons in *. destruct Hf as (Hf1 & Hc & Hf2). rewrite Forall_forall in Hf1, Hf2. rewrite !Forall_forall.
  assert (Hkeep : forall c0, c0 ∈ l1 \/ c0 ∈ l2 ->
    targetConnected (s_metrics s') !! c_id c0 = targetConnected (s_metrics s) !! c_id c0).
  { intros c0 Hin. destruct Hg as [[-> _]| ->]; [done|]. rewrite lookup_insert_ne; [done|].
    apply not_eq_sym. auto. }
  split; [|split].
  - intros c0 Hin. rewrite Hkeep by auto. auto.
  - destruct Hg as [[-> ->]| ->]; rewrite Hid; [done|apply lookup_insert_eq].
  - intros c0 Hin. rewrite Hkeep by auto. auto.
Qed.

Lemma start_gauges targets (s : shared P) t :
  t ∈ targets \/ gauge_of s t = Some 0 ->
  gauge_of (sys_shared (start_clients targets s)) t = Some 0.
Proof using.
  unfold start_clients, gauge_of. cbn [sys_shared]. revert s.
  induction targets as [|u targets IH]; intros s; cbn [foldl]; [by rewrite elem_of_nil; intros [|]|].
  rewrite elem_of_cons. intros H. apply IH. destruct (decide (t = u)) as [->|N].
  - right. cbn. apply lookup_insert_eq.
  - destruct H as [[|]|]; [done|by left|]. right. cbn. by rewrite lookup_insert_ne.
Qed.

(** (C40) The gauge reads the connections: whatever the clients of distinct
    targets do - dials that fail, connections lost, a canceled context, in
    any interleaving - the value exported for a target is 1 while its
    client has a connection it has not reported closed, and 0 otherwise. *)
Theorem gauge_follows_connection next chainID targets (s : shared P) n k x :
  NoDup targets -> sys_run next chainID n k (start_clients targets s) x -> gauges_exact x.
Proof using.
  intros Hd Hr. assert (H0 : gauges_exact (start_clients targets s)).
  { split; cbn [clients start_clients]; [by rewrite map_map, map_id|].
    apply Forall_forall. intros c (t & -> & Ht)%list_elem_of_fmap. cbn [c_id c_phase connected].
    apply start_gauges. by left. }
  induction Hr; eauto using sys_step_gauges.
Qed.

(** ** The dial loop's lines *)

(** The lines of a step, by the target whose logger writes them; [err] is
    the error of a failed dial. *)
Definition dial_lines (err : error) (c c' : dialClient) : list (bytes * log_record) :=
  match c_phase c, c_phase c' with
  | PDialing, PBackoff => [(c_id c, Error "privval dial failed" [("err", VErr err)]%string)]
  | PDialing, PServe => [(c_id c, Info "privval connected" [])]
  | PClosing, PPause => [(c_id c, Info "privval connection closed, reconnecting" [])]
  | _, _ => []
  end.

(** A run of the clients with the lines of their loops, newest first. *)
Inductive dial_run (next : @ValidationRequestHandlerFunc T P) (chainID : bytes) (x0 : system P)
    : list (bytes * log_record) -> system P -> Prop :=
| dial_start : dial_run next chainID x0 [] x0
| dial_step ls l l1 c l2 s c' s' d err :
    dial_run next chainID x0 ls (System (l1 ++ c :: l2) s d) ->
    client_step next chainID d l (c, s) (c', s') ->
    dial_run next chainID x0 (dial_lines err c c' ++ ls) (System (l1 ++ c' :: l2) s' d)
| dial_cancel ls cs s :
    dial_run next chainID x0 ls (System cs s false) -> dial_run next chainID x0 ls (System cs s true).

(** What a line says of its target. *)
Definition line_gauge (l : log_record) : Z :=
  gauge_value (bool_decide (lr_msg l = "privval connected"%string)).

Fixpoint replay_lines (ls : list (bytes * log_record)) (g : gmap bytes Z) : gmap bytes Z :=
  match ls with
  | [] => g
  | (id, l) :: ls' => <[id := line_gauge l]> (replay_lines ls' g)
  end.

Lemma client_step_lines next chainID d l c (s : shared P) c' s' err ls g :
  client_step next chainID d l (c, s) (c', s') -> replay_lines ls g = targetConnected (s_metrics s) ->
  replay_lines (dial_lines err c c' ++ ls) g = targetConnected (s_metrics s').
Proof using.
  intros Hs Hg. inversion Hs; subst; cbn; rewrite ?Hg; try done.
  - by destruct_or!; subst.
  - symmetry. eauto using gate_gauge.
  - symmetry. eauto using gate_gauge.
  - symmetry. eauto using gate_gauge.
  - symmetry. apply record_sign_gauge.
  - match goal with H : on_pv ?m ?s = _ |- _ => by rewrite <-(on_pv_metrics m s), H end.
  - match goal with H : in_serveConn ?p = true |- _ => by destruct p end.
Qed.

(** The log and the gauge tell the same: over any run of the clients,
    whatever they do, replaying the lines of the dial loops over the gauge's
    first values gives exactly the gauge. *)
Theorem dial_log_is_gauge next chainID x0 ls x :
  dial_run next chainID x0 ls x ->
  replay_lines ls (targetConnected (s_metrics (sys_shared x0))) = targetConnected (s_metrics (sys_shared x)).
Proof using. induction 1; [done| |done]. by eapply client_step_lines. Qed.
End Connection.

#[local] Existing Instances reference_comet reference_pv.

Lemma gauge_follows_connection_witness : gauges_exact sample_system.
Proof.
  destruct sample_system_reachable as (n & k & Hr).
  apply (gauge_follows_connection (ValidationRequestHandler []) (bs "tellor-1") [nodeA; nodeB] sample_shared n k sample_system); [|exact Hr].
  repeat constructor; rewrite ?elem_of_cons, ?elem_of_nil; intros [?|?] || intros ?; try discriminate; done.
Defined.
