(* ===== verification/ConnKey.v ===== *)
(** * Consensus key material ([consensus/connkey.go], [consensus/loadpv.go])

    The long-term identity of the privval connection - generated on first use,
    read back afterwards, in either of two file formats - with
    [encoding/base64]; and the loading of the consensus key together with the
    last-sign state.

    CometBFT's JSON decoder, its random key generator and the fresh last-sign
    state of [privval.NewFilePV] are parameters. *)

From S2P Require Import Prelude GoStd Fs Json ReplayGuard Asn1 Signer.

(** ** [base64.StdEncoding] *)

Definition b64_alphabet : bytes :=
  bs "ABCDEFGHIJKLMNOPQRSTUVWXYZabcdefghijklmnopqrstuvwxyz0123456789+/".

Definition b64_char (v : Z) : byte := default x3d (b64_alphabet !! Z.to_nat v).

Definition b64_val (c : byte) : option Z := Z.of_nat <$> IndexByte b64_alphabet c.

Fixpoint EncodeToString (b : bytes) : bytes :=
  match b with
  | x :: y :: z :: b' =>
      let v := byte_to_Z x * 65536 + byte_to_Z y * 256 + byte_to_Z z in
      b64_char (v / 262144) :: b64_char (v / 4096 mod 64) ::
      b64_char (v / 64 mod 64) :: b64_char (v mod 64) :: EncodeToString b'
  | [x; y] =>
      let v := byte_to_Z x * 1024 + byte_to_Z y * 4 in
      [b64_char (v / 4096); b64_char (v / 64 mod 64); b64_char (v mod 64); x3d]
  | [x] =>
      let v := byte_to_Z x * 16 in
      [b64_char (v / 64); b64_char (v mod 64); x3d; x3d]
  | [] => []
  end.

Definition errCorrupt : error := ErrLib "illegal base64 data at input byte".

(** The decoder ignores carriage returns and newlines, wants the padding at
    the end and drops the spare bits of the last quantum. *)
Fixpoint decode_quanta (s : bytes) : result bytes :=
  match s with
  | [] => Ok []
  | c0 :: c1 :: c2 :: c3 :: s' =>
      match b64_val c0, b64_val c1 with
      | Some v0, Some v1 =>
          match b64_val c2, b64_val c3 with
          | Some v2, Some v3 =>
              let v := v0 * 262144 + v1 * 4096 + v2 * 64 + v3 in
              rest ← decode_quanta s';
              Ok (byte_of_Z (v / 65536) :: byte_of_Z (v / 256 mod 256) :: byte_of_Z (v mod 256) :: rest)
          | Some v2, None =>
              if Byte.eqb c3 x3d && beq s' [] then
                let v := v0 * 4096 + v1 * 64 + v2 in
                Ok [byte_of_Z (v / 1024); byte_of_Z (v / 4 mod 256)]
              else Err errCorrupt
          | None, _ =>
              if Byte.eqb c2 x3d && Byte.eqb c3 x3d && beq s' [] then
                let v := v0 * 64 + v1 in Ok [byte_of_Z (v / 16)]
              else Err errCorrupt
          end
      | _, _ => Err errCorrupt
      end
  | _ => Err errCorrupt
  end.

Definition DecodeString (s : bytes) : result bytes :=
  decode_quanta (filter (fun c => c <> x0a /\ c <> x0d) s).

(** ** Key files *)

Record cryptoKeyJSON := KeyJSON { kType : bytes; kValue : bytes }.

(** The last-sign state of a [FilePV]. *)
Record LastSignState := SignState {
  lsHeight : Z;
  lsRound : Z;
  lsStep : Z;
  lsSignature : bytes;
  lsSignBytes : bytes;
}.

(** CometBFT. *)
Class CometKeys := {
  cmt_privkey : Type;
  (** [cmtjson.Unmarshal] into a [node_key.json] or [priv_validator_key.json]
      struct: the two source structs have the same field. *)
  cmtjson_node : bytes -> result cryptoKeyJSON;
  (** ... into [privValidatorKeyFile]: [None] is a nil [priv_key]. *)
  cmtjson_key : bytes -> result (option cmt_privkey);
  (** ... into the anonymous state struct of [LoadCometFilePV]. *)
  cmtjson_state : bytes -> result LastSignState;
  (** The last-sign state [privval.NewFilePV] starts with. *)
  fresh_state : LastSignState;
}.

Definition PrivateKeySize : Z := 64.

Section Keys.
Context {K : CometKeys}.

(** The key is its bytes: [ed25519.PrivKey(raw)]. *)
Definition decodeKeyJSON (k : cryptoKeyJSON) : result bytes :=
  if beq (kType k) (bs "tendermint/PrivKeyEd25519") || beq (kType k) (bs "comet/PrivKeyEd25519") then
    DecodeString (kValue k)
  else Err (Errorf "unsupported key type %q" [AStr (kType k)]).

(** The two decoding attempts see the same struct. *)
Definition try_node (b : bytes) : option cryptoKeyJSON :=
  match cmtjson_node b with
  | Ok nk => if beq (kType nk) [] then None else Some nk
  | _ => None
  end.

Definition parse_conn_key (path data : bytes) : result bytes :=
  let b := TrimSpace data in
  if (len b >? 0) && bool_decide (b !! 0%nat = Some x7b) then
    match try_node b with
    | Some nk => decodeKeyJSON nk
    | None =>
        match try_node b with
        | Some pvk => decodeKeyJSON pvk
        | None => Err (Errorf "unrecognized JSON key format in %s" [AStr path])
        end
    end
  else
    match DecodeString b with
    | Ok raw =>
        if negb (len raw =? PrivateKeySize) then
          Err (Errorf "expected JSON key file or base64 %d-byte ed25519 key in %s" [AInt PrivateKeySize; AStr path])
        else Ok raw
    | Err _ =>
        Err (Errorf "expected JSON key file or base64 %d-byte ed25519 key in %s" [AInt PrivateKeySize; AStr path])
    | Panic => Panic
    end.

Definition LoadEd25519PrivKey (path : bytes) : ST fs bytes := (
  b <- os_ReadFile path ;;
  st_lift (parse_conn_key path b))%go.

(** [json.MarshalIndent] of the node key; base64 and the type name have no
    character to escape. *)
Definition marshal_node (nk : cryptoKeyJSON) : bytes :=
  bs "{" ++
  ([x0a] ++ bs "  " ++ quoted (bs "priv_key") ++ bs ": {" ++ [x0a] ++
   bs "    " ++ quoted (bs "type") ++ bs ": " ++ quoted (kType nk) ++ bs "," ++ [x0a] ++
   bs "    " ++ quoted (bs "value") ++ bs ": " ++ quoted (kValue nk) ++ [x0a] ++
   bs "  }" ++ [x0a]) ++ bs "}".

Definition node_key (pk : bytes) : cryptoKeyJSON :=
  KeyJSON (bs "tendermint/PrivKeyEd25519") (EncodeToString pk).

(** [gen]: the key [ed25519.GenPrivKey] draws. *)
Definition GenOrLoadConnKey (gen path : bytes) : ST fs bytes := (
  r <- st_try (os_Stat path) ;;
  match r with
  | Err e =>
      if os_IsNotExist e then
        os_WriteFile path (marshal_node (node_key gen)) 384 ;;;
        st_ret gen
      else LoadEd25519PrivKey path
  | _ => LoadEd25519PrivKey path
  end)%go.

(** ** The consensus key and its last-sign state *)

Record FilePV := MkFilePV {
  pvPrivKey : cmt_privkey;
  pvKeyPath : bytes;
  pvStatePath : bytes;
  LastSign : LastSignState;
}.

Definition LoadCometFilePV (keyFilePath stateFilePath : bytes) : ST fs FilePV := (
  keyJSON <- st_map_err (errw "read key file: %w") (os_ReadFile keyFilePath) ;;
  kf <- st_lift (map_err (errw "parse key file: %w") (cmtjson_key keyJSON)) ;;
  match kf with
  | None => st_lift (Err (Errorf "missing priv_key in %s" [AStr keyFilePath]))
  | Some k =>
      r <- st_try (os_ReadFile stateFilePath) ;;
      match r with
      | Err e =>
          if os_IsNotExist e then st_ret (MkFilePV k keyFilePath stateFilePath fresh_state)
          else st_lift (Err (errw "read state file: %w" e))
      | Panic => st_lift Panic
      | Ok stateJSON =>
          st <- st_lift (map_err (errw "parse state file: %w") (cmtjson_state stateJSON)) ;;
          st_ret (MkFilePV k keyFilePath stateFilePath st)
      end
  end)%go.
End Keys.

(** ** base64 round trip *)

Lemma b64_val_char v : 0 <= v < 64 -> b64_val (b64_char v) = Some v.
Proof.
  intros Hv. assert (H : forallb (fun n => bool_decide (b64_val (b64_char (Z.of_nat n)) = Some (Z.of_nat n))) (seq 0 64) = true)
    by (vm_compute; reflexivity).
  rewrite forallb_forall in H. specialize (H (Z.to_nat v)). rewrite Z2Nat.id in H by lia.
  apply bool_decide_eq_true in H; [done|]. apply in_seq. lia.
Qed.

Lemma b64_char_plain v : b64_char v <> x0a /\ b64_char v <> x0d /\ b64_char v <> x22.
Proof.
  unfold b64_char. destruct (b64_alphabet !! Z.to_nat v) as [c|] eqn:E; [|done]. cbn [default].
  assert (H : Forall (fun c => c <> x0a /\ c <> x0d /\ c <> x22) b64_alphabet) by (by apply (bool_decide_unpack _); vm_compute).
  by eapply Forall_lookup_1 in H.
Qed.

(** Induction three elements at a time. *)
Lemma list_ind3 {A} (P : list A -> Prop) :
  P [] -> (forall x, P [x]) -> (forall x y, P [x; y]) ->
  (forall x y z l, P l -> P (x :: y :: z :: l)) -> forall l, P l.
Proof.
  intros H0 H1 H2 H3. fix IH 1. intros [|x [|y [|z l]]]; [done..|]. apply H3, IH.
Qed.

Lemma EncodeToString_plain b : Forall (fun c => c <> x0a /\ c <> x0d) (EncodeToString b).
Proof.
  induction b as [|x|x y|x y z b IH] using list_ind3; cbn [EncodeToString];
    repeat constructor; try done; apply b64_char_plain.
Qed.

(** Bounds of every byte in sight, then linear arithmetic over the quotients. *)
#[local] Ltac b64_lia :=
  repeat match goal with
  | x : byte |- _ => lazymatch goal with
                     | _ : 0 <= byte_to_Z x < 256 |- _ => fail
                     | |- _ => pose proof (byte_to_Z_range x)
                     end
  end; Z.to_euclidean_division_equations; lia.

#[local] Ltac quantum :=
  repeat match goal with
  | |- context [b64_val (b64_char ?v)] => rewrite (b64_val_char v) by b64_lia
  end; change (b64_val x3d) with (@None Z); cbn [andb Byte.eqb beq].

Lemma byte_of_Z_eq v x : v = byte_to_Z x -> byte_of_Z v = x.
Proof. intros ->. apply byte_of_to_Z. Qed.

Lemma decode_quanta_encode b : decode_quanta (EncodeToString b) = Ok b.
Proof.
  induction b as [|x|x y|x y z b IH] using list_ind3; [done|..]; cbn [EncodeToString decode_quanta]; quantum.
  - change (beq [] []) with true. f_equal. f_equal. apply byte_of_Z_eq. b64_lia.
  - change (beq [] []) with true. do 3 f_equal; [apply byte_of_Z_eq; b64_lia|].
    f_equal. apply byte_of_Z_eq. b64_lia.
  - rewrite IH. cbn [mbind result_bind]. f_equal.
    f_equal; [|f_equal; [|f_equal]]; apply byte_of_Z_eq; b64_lia.
Qed.

Lemma filter_all {A} (P : A -> Prop) `{!forall x, Decision (P x)} l : Forall P l -> filter P l = l.
Proof. induction 1 as [|x l Hx _ IH]; [done|]. by rewrite filter_cons, decide_True, IH. Qed.

Lemma DecodeString_encode b : DecodeString (EncodeToString b) = Ok b.
Proof.
  unfold DecodeString. rewrite filter_all by apply EncodeToString_plain. apply decode_quanta_encode.
Qed.

(** ** Files *)

(** What CometBFT's decoder makes of a key file written here. *)
Class CometKeysLaws (K : CometKeys) := {
  cmtjson_node_marshal : forall pk, cmtjson_node (marshal_node (node_key pk)) = Ok (node_key pk);
}.

Lemma os_ReadFile_ok s p b :
  fs_faults s = [] -> p ∉ dirs (fs_disk s) -> content (fs_disk s) p = Some b ->
  exists s', os_ReadFile p s = (Ok b, s') /\ fs_faults s' = [] /\ fs_disk s' = fs_disk s.
Proof.
  intros Hf Hd Hc. unfold os_ReadFile, syscall. rewrite Hf, decide_False, Hc by done. eauto.
Qed.

Lemma os_Stat_ok s p b :
  fs_faults s = [] -> p ∉ dirs (fs_disk s) -> content (fs_disk s) p = Some b ->
  exists i s', os_Stat p s = (Ok i, s') /\ fs_faults s' = [] /\ fs_disk s' = fs_disk s.
Proof.
  intros Hf Hd Hc. unfold os_Stat, syscall. rewrite Hf, decide_False by done.
  unfold content in Hc. destruct (cur (fs_disk s) p); [eauto|done].
Qed.

(** [os.Stat] never changes the disk; "does not exist" means just that. *)
Lemma os_Stat_outcome p s r s' :
  os_Stat p s = (r, s') -> fs_disk s' = fs_disk s /\
  (forall e, r = Err e -> os_IsNotExist e = true -> p ∉ dirs (fs_disk s) /\ cur (fs_disk s) p = None).
Proof.
  unfold os_Stat, syscall, fail_io, unchanged.
  destruct (fs_faults s) as [|[|k] fl]; [..|by intros [= <- <-]; split; [|intros e [= <-]]];
    (case_decide; [by intros [= <- <-]|]); destruct (cur (fs_disk s) p) eqn:E; intros [= <- <-]; by split; [|intros e [= <-]].
Qed.

Lemma os_WriteFile_new p b mode s s' u :
  cur (fs_disk s) p = None -> p ∉ dirs (fs_disk s) -> os_WriteFile p b mode s = (Ok u, s') ->
  p ∉ dirs (fs_disk s') /\ content (fs_disk s') p = Some b.
Proof.
  intros Hc Hd. unfold os_WriteFile, st_bind, st_try, st_lift.
  assert (Hopen : forall r s1, syscall (open_trunc p mode) unchanged s = (Ok r, s1) ->
    p ∉ dirs (fs_disk s1) /\ cur (fs_disk s1) p = Some r /\ exists n, inodes (fs_disk s1) !! r = Some n /\ idata n = []).
  { intros r s1. unfold syscall, open_trunc, fail_io.
    destruct (fs_faults s) as [|[|k] fl]; [..|done]; rewrite decide_False by done;
      (case_decide; [|done]); rewrite Hc; unfold new_file; intros [= <- <-]; cbn [fs_put fs_disk];
      (split; [done|]); (split; [unfold cur; by rewrite hist_push_eq|]);
      eexists; cbn [push_entry inodes]; by rewrite lookup_insert_eq. }
  destruct (syscall (open_trunc p mode) unchanged s) as [[r|e|] s1] eqn:E; [|done..].
  destruct (Hopen _ _ eq_refl) as (Hd1 & Hc1 & n & Hn & Hn0). clear Hopen E.
  assert (Hw : forall r2 s2, f_Write r b s1 = (Ok r2, s2) -> p ∉ dirs (fs_disk s2) /\ content (fs_disk s2) p = Some b).
  { intros r2 s2. unfold f_Write, syscall, ok_unit, write_op.
    destruct (fs_faults s1) as [|[|k] fl]; [..|done]; rewrite Hn; intros [= _ <-]; cbn [fs_put fs_disk set_inode dirs];
      (split; [done|]); unfold content, cur in *; rewrite hist_set_inode;
      destruct (hist (fs_disk s1) p) as [|[j|] h]; try done; injection Hc1 as ->; cbn [inodes set_inode];
      rewrite lookup_insert_eq; cbn; by rewrite Hn0. }
  destruct (f_Write r b s1) as [[u1|e|] s2] eqn:E2; cbn; [|intros; by destruct (f_Close r s2)..].
  destruct (Hw _ _ eq_refl) as [Hd2 Hc2]. unfold f_Close, syscall, ok_unit, unchanged.
  destruct (fs_faults s2) as [|[|k] fl]; by intros [= _ <-].
Qed.

Section KeyFacts.
Context {K : CometKeys} {KL : CometKeysLaws K}.

Lemma parse_marshal path pk : parse_conn_key path (marshal_node (node_key pk)) = Ok pk.
Proof using KL.
  unfold parse_conn_key, try_node.
  assert (Ht : TrimSpace (marshal_node (node_key pk)) = marshal_node (node_key pk)).
  { apply TrimSpace_braces. }
  rewrite Ht, cmtjson_node_marshal. change (beq (kType (node_key pk)) []) with false.
  unfold decodeKeyJSON. cbn [node_key kType kValue]. rewrite DecodeString_encode.
  change (beq (bs "tendermint/PrivKeyEd25519") (bs "tendermint/PrivKeyEd25519")) with true. cbn [orb].
  unfold marshal_node. set (t := _ ++ bs "}"). unfold len. cbn [app bs length].
  destruct (Z.gtb_spec (Z.of_nat (S (length t))) 0); [done|lia].
Qed.

Lemma LoadEd25519PrivKey_ok path s b :
  fs_faults s = [] -> path ∉ dirs (fs_disk s) -> content (fs_disk s) path = Some b ->
  fst (LoadEd25519PrivKey path s) = parse_conn_key path b.
Proof using.
  intros Hf Hd Hc. unfold LoadEd25519PrivKey, st_bind.
  by destruct (os_ReadFile_ok s path b Hf Hd Hc) as (s' & -> & _).
Qed.

Lemma GenOrLoadConnKey_present gen path d b :
  path ∉ dirs d -> content d path = Some b ->
  fst (GenOrLoadConnKey gen path (fresh_fs d)) = parse_conn_key path b.
Proof using.
  intros Hd Hc. unfold GenOrLoadConnKey, st_bind, st_try.
  destruct (os_Stat_ok (fresh_fs d) path b eq_refl Hd Hc) as (i & s' & -> & Hf & E).
  by apply LoadEd25519PrivKey_ok; rewrite ?E.
Qed.

Lemma LoadEd25519PrivKey_inv path s pk s' :
  LoadEd25519PrivKey path s = (Ok pk, s') ->
  path ∉ dirs (fs_disk s') /\ exists b, content (fs_disk s') path = Some b /\ parse_conn_key path b = Ok pk.
Proof using.
  unfold LoadEd25519PrivKey, st_bind, st_lift. destruct (os_ReadFile path s) as [[b| |] s1] eqn:E; [|done..].
  intros [= Hp <-]. rewrite (os_ReadFile_disk _ _ _ _ E). apply os_ReadFile_inv in E as [Hd Hc]. eauto.
Qed.

(** Whatever the first call did, a key it returned is the key in the file. *)
Lemma GenOrLoadConnKey_inv gen path s pk s' :
  GenOrLoadConnKey gen path s = (Ok pk, s') ->
  path ∉ dirs (fs_disk s') /\ exists b, content (fs_disk s') path = Some b /\ parse_conn_key path b = Ok pk.
Proof using KL.
  unfold GenOrLoadConnKey, st_bind at 1, st_try. destruct (os_Stat path s) as [r s1] eqn:E.
  apply os_Stat_outcome in E as [Ed Hne].
  destruct r as [i|e|]; [apply LoadEd25519PrivKey_inv| |apply LoadEd25519PrivKey_inv].
  destruct (os_IsNotExist e) eqn:En; [|apply LoadEd25519PrivKey_inv].
  destruct (Hne _ eq_refl En) as [Hd Hc]. rewrite <-Ed in Hd, Hc.
  unfold st_bind, st_ret. destruct (os_WriteFile _ _ _ s1) as [[u| |] s2] eqn:Ew; [|done..].
  intros [= <- <-]. apply os_WriteFile_new in Ew as [Hd2 Hc2]; [|done..].
  split; [done|]. eexists. split; [done|]. apply parse_marshal.
Qed.
End KeyFacts.

(** ** Properties *)

(** (C34) The connection identity is stable: a key returned by
    [GenOrLoadConnKey] - freshly generated or loaded, under any fault the call
    survived - is the key a later call on the disk left behind returns, so
    after a clean restart the nodes see the same peer. *)
Theorem conn_key_stable {K : CometKeys} {KL : CometKeysLaws K} gen gen' path s pk s' :
  GenOrLoadConnKey gen path s = (Ok pk, s') ->
  fst (GenOrLoadConnKey gen' path (fresh_fs (fs_disk s'))) = Ok pk.
Proof.
  intros (Hd & b & Hc & Hp)%GenOrLoadConnKey_inv. by rewrite (GenOrLoadConnKey_present gen' path _ b).
Qed.

(** The length of a key is checked in one of the two formats only. *)
Lemma conn_key_lengths {K : CometKeys} {KL : CometKeysLaws K} path data raw :
  (HasPrefix (TrimSpace data) (bs "{") = false -> parse_conn_key path data = Ok raw -> len raw = 64) /\
  parse_conn_key path (marshal_node (node_key raw)) = Ok raw.
Proof.
  split; [|apply parse_marshal]. unfold parse_conn_key. intros Hn.
  destruct (_ && _) eqn:E.
  - exfalso. apply andb_true_iff in E as [_ E]. apply bool_decide_eq_true in E.
    destruct (TrimSpace data) as [|c t]; [done|]. injection E as ->. done.
  - destruct (DecodeString _) as [r| |]; [|done..]. unfold PrivateKeySize.
    destruct (Z.eqb_spec (len r) 64); [|done]. cbn [negb]. by intros <-%(inj Ok).
Qed.

Lemma RequireStateFile_inv p s s' :
  RequireStateFile p s = (Ok (), s') ->
  fs_disk s' = fs_disk s /\ p ∉ dirs (fs_disk s) /\ is_Some (cur (fs_disk s) p).
Proof.
  unfold RequireStateFile, st_bind, st_try, st_lift, st_ret. destruct (os_Stat p s) as [r s1] eqn:E.
  destruct r as [[isDir mode]|e|]; [|by destruct (os_IsNotExist e)|done].
  destruct isDir; [done|]. intros [= <-]. revert E. unfold os_Stat, syscall, fail_io.
  destruct (fs_faults s) as [|[|k] fl]; [..|done];
    (case_decide; [done|]); destruct (cur (fs_disk s) p); try done; intros [= _ <-]; eauto.
Qed.

(** Reading a file that is there can only fail by an injected fault. *)
Lemma os_ReadFile_present p s e s' :
  wf_path (fs_disk s) p -> p ∉ dirs (fs_disk s) -> is_Some (cur (fs_disk s) p) ->
  os_ReadFile p s = (Err e, s') -> os_IsNotExist e = false.
Proof.
  intros [_ Hw] Hd [i Hi]. destruct (Hw i (cur_hist _ _ _ Hi)) as [_ [n Hn]].
  unfold os_ReadFile, syscall, content, unchanged. rewrite Hi, Hn. cbn [fmap option_fmap option_map].
  destruct (fs_faults s) as [|[|k] fl]; rewrite ?decide_False by done; by intros [= <- _].
Qed.

Lemma required_state_facts {K : CometKeys} keyPath statePath s s1 s2 pv :
  wf_path (fs_disk s) statePath ->
  RequireStateFile statePath s = (Ok (), s1) ->
  LoadCometFilePV keyPath statePath s1 = (Ok pv, s2) ->
  fs_disk s2 = fs_disk s /\
  (exists b, content (fs_disk s) statePath = Some b /\ cmtjson_state b = Ok (LastSign pv)) /\
  (exists kb, content (fs_disk s) keyPath = Some kb /\ cmtjson_key kb = Ok (Some (pvPrivKey pv))).
Proof.
  intros Hw (E1 & Hd & Hc)%RequireStateFile_inv H. unfold LoadCometFilePV in H. rewrite <-E1 in Hw, Hd, Hc.
  apply map_err_bind_inv in H as (kb & s3 & Hk & H).
  pose proof (os_ReadFile_disk _ _ _ _ Hk) as E3. apply os_ReadFile_inv in Hk as [_ Hk].
  unfold st_bind at 1, st_lift at 1 in H. destruct (cmtjson_key kb) as [[k|]| |] eqn:Ek; try done.
  cbn [map_err] in H. unfold st_bind at 1, st_try in H. rewrite <-E3 in Hw, Hd, Hc.
  destruct (os_ReadFile statePath s3) as [[b|e|] s4] eqn:Er; [|by rewrite (os_ReadFile_present _ _ _ _ Hw Hd Hc Er) in H|done].
  pose proof (os_ReadFile_disk _ _ _ _ Er) as E4. apply os_ReadFile_inv in Er as [_ Er].
  unfold st_bind, st_lift, st_ret in H. destruct (cmtjson_state b) as [st| |] eqn:Es; try done.
  injection H as <- <-. rewrite E3 in Er. rewrite E1 in Hk, Er. split; [congruence|].
  split; eexists; by split.
Qed.

(** A signer that starts with its state file in place continues from it:
    once [RequireStateFile] has passed, [LoadCometFilePV] on the same disk
    returns the key and exactly the last-sign state the file holds - it never
    falls back to a fresh state, which would forget what was signed. *)
Theorem required_state_is_loaded {K : CometKeys} keyPath statePath s s1 s2 pv :
  wf_path (fs_disk s) statePath ->
  RequireStateFile statePath s = (Ok (), s1) ->
  LoadCometFilePV keyPath statePath s1 = (Ok pv, s2) ->
  fs_disk s2 = fs_disk s /\
  (exists b, content (fs_disk s) statePath = Some b /\ cmtjson_state b = Ok (LastSign pv)) /\
  (exists kb, content (fs_disk s) keyPath = Some kb /\ cmtjson_key kb = Ok (Some (pvPrivKey pv))).
Proof. apply required_state_facts. Qed.

(** ** A concrete decoder

    It reads the one layout [marshal_node] writes: the value stands between
    two fixed texts. *)

#[local] Instance reference_keys : CometKeys := {|
  cmt_privkey := bytes;
  cmtjson_node := fun b =>
    Ok (KeyJSON (bs "tendermint/PrivKeyEd25519")
          (take (length b - length (marshal_node (node_key []))) (drop 73 b)));
  cmtjson_key := fun b => Ok (Some b);
  cmtjson_state := fun b => Ok (SignState (len b) 0 0 [] []);
  fresh_state := SignState 0 0 0 [] [];
|}.

#[local] Instance reference_keys_laws : CometKeysLaws reference_keys.
Proof.
  constructor. intros pk. cbn [cmtjson_node reference_keys]. f_equal.
  change (node_key pk) with (KeyJSON (bs "tendermint/PrivKeyEd25519") (EncodeToString pk)). f_equal.
  change (length (marshal_node (node_key []))) with 80%nat.
  generalize (EncodeToString pk). intros v.
  assert (E : marshal_node (KeyJSON (bs "tendermint/PrivKeyEd25519") v) =
    take 73 (marshal_node (node_key [])) ++ v ++ drop 73 (marshal_node (node_key []))).
  { unfold marshal_node, quoted. cbn. rewrite <-!app_assoc. reflexivity. }
  rewrite E. set (a := take 73 _). set (c := drop 73 (marshal_node (node_key []))).
  assert (La : length a = 73%nat) by done. assert (Lc : length c = 7%nat) by done.
  rewrite !length_app, (drop_app_length' a) by done. rewrite take_app_length'; [done|lia].
Qed.

Definition conn_path : bytes := bs "/data/connection.key".
Definition sample_key : bytes := replicate 64 x2a.

Lemma conn_key_stable_witness :
  exists s', GenOrLoadConnKey sample_key conn_path (fresh_fs empty_disk) = (Ok sample_key, s') /\
    fst (GenOrLoadConnKey (replicate 64 x2b) conn_path (fresh_fs (fs_disk s'))) = Ok sample_key.
Proof.
  assert (Hok : match fst (GenOrLoadConnKey sample_key conn_path (fresh_fs empty_disk)) with
                | Ok k => beq k sample_key | _ => false end = true) by (vm_compute; reflexivity).
  destruct (GenOrLoadConnKey sample_key conn_path (fresh_fs empty_disk)) as [[k|e|] s'] eqn:E; [|discriminate Hok..].
  cbn [fst] in Hok. apply bool_decide_eq_true in Hok as ->.
  exists s'. split; [done|]. exact (conn_key_stable _ _ _ _ _ _ E).
Defined.

Definition pv_disk : disk :=
  let '(i, d) := new_file (bs "/data/key.json") 384 empty_disk in
  let '(j, d) := new_file (bs "/data/state.json") 384 (write_op (bs "key") i d) in
  write_op (bs "state") j d.

Lemma required_state_is_loaded_witness :
  exists s1 s2 pv b, RequireStateFile (bs "/data/state.json") (fresh_fs pv_disk) = (Ok (), s1) /\
    LoadCometFilePV (bs "/data/key.json") (bs "/data/state.json") s1 = (Ok pv, s2) /\
    content pv_disk (bs "/data/state.json") = Some b /\ cmtjson_state b = Ok (LastSign pv).
Proof.
  assert (Hok : match RequireStateFile (bs "/data/state.json") (fresh_fs pv_disk) with
                | (Ok _, s1) => is_ok (fst (LoadCometFilePV (bs "/data/key.json") (bs "/data/state.json") s1))
                | _ => false end = true) by (vm_compute; reflexivity).
  destruct (RequireStateFile (bs "/data/state.json") (fresh_fs pv_disk)) as [[[]|e|] s1] eqn:E1; [|discriminate Hok..].
  destruct (LoadCometFilePV (bs "/data/key.json") (bs "/data/state.json") s1) as [[pv|e|] s2] eqn:E2; [|discriminate Hok..].
  assert (Hw : wf_path (fs_disk (fresh_fs pv_disk)) (bs "/data/state.json")).
  { split; [by vm_compute|]. intros j Hj. change (hist _ _) with [Some 1%nat; None] in Hj.
    apply elem_of_cons in Hj as [[= ->]|Hj]; [|by apply list_elem_of_singleton in Hj].
    split; [vm_compute; lia|by eexists]. }
  destruct (required_state_is_loaded _ _ _ _ _ _ Hw E1 E2) as (_ & (b & Hb & Hs) & _).
  exists s1, s2, pv, b. done.
Defined.
