(* ===== verification/Config.v ===== *)
(** * Configuration ([config/config.go])

    The configuration record, its defaults and its validation against the
    file system, the list of dial targets, the failover timeout (with
    [time.ParseDuration]) and the path of the checkpoint guard's state.

    The YAML decoder is a parameter, as is the rounding of a fractional
    duration ([float64] arithmetic in the Go library). *)

From S2P Require Import Prelude GoStd Fs Json ReplayGuard Asn1 Signer Arbiter.

Record ConsensusConfig := MkConsensus {
  KeyFile : bytes;
  StateFile : bytes;
  ConnKeyFile : bytes;
  Targets : bytes;
  PrimaryFailoverTimeout : bytes;
  PreferTargetOrder : bool;
}.

Record SignerConfig := MkSignerCfg {
  Backend : bytes;
  KeyringDir : bytes;
  cfgKeyName : bytes;
  PasswordFile : bytes;
  DSMAPIEndpoint : bytes;
  DSMAPIKey : bytes;
  DSMKeyID : bytes;
  DSMKeyName : bytes;
}.

Record ServerConfig := MkServerCfg {
  ListenAddr : bytes;
  HealthAddr : bytes;
  RequestTimeout : Z;
  MaxRecvMsgSize : Z;
  cfgAllowedMsgTypes : list bytes;
  CheckpointGuardStateFile : bytes;
  cfgEnabledRPCs : gmap bytes bool;
  EnableReflection : bool;
}.

Record TLSConfig := MkTLS { Insecure : bool; CACert : bytes; ServerCert : bytes; ServerKey : bytes }.
Record LogConfig := MkLog { Level : bytes; Format : bytes }.

Record Config := MkConfig {
  ChainID : bytes;
  Consensus : ConsensusConfig;
  SignerCfg : SignerConfig;
  ServerCfg : ServerConfig;
  TLS : TLSConfig;
  Log : LogConfig;
}.

Definition BackendFile : bytes := bs "file".
Definition BackendFortanixDSM : bytes := bs "fortanixdsm".

(** ** Consensus settings *)

Definition TargetList (c : ConsensusConfig) : list bytes :=
  filter (fun t => t <> []) (map TrimSpace (Split (Targets c) x2c)).

Definition Enabled (c : ConsensusConfig) : bool := negb (beq (KeyFile c) []).

(** *** [time.ParseDuration] *)

Definition errDuration (orig : bytes) : error := Errorf "time: invalid duration %q" [AStr orig].

(** [leadingInt]: the digits, [None] on overflow of 2^63. *)
Fixpoint leadingInt (x : Z) (s : bytes) : option (Z * bytes) :=
  match s with
  | c :: s' =>
      if is_digit c then
        if x >? 2 ^ 63 / 10 then None
        else
          let x := x * 10 + (byte_to_Z c - 48) in
          if x >? 2 ^ 63 then None else leadingInt x s'
      else Some (x, s)
  | [] => Some (x, [])
  end.

(** [leadingFraction]: further digits are dropped on overflow; the scale is
    kept as its power of ten. *)
Fixpoint leadingFraction (x scale : Z) (overflow : bool) (s : bytes) : Z * Z * bytes :=
  match s with
  | c :: s' =>
      if is_digit c then
        if overflow then leadingFraction x scale true s'
        else if x >? (2 ^ 63 - 1) / 10 then leadingFraction x scale true s'
        else
          let y := x * 10 + (byte_to_Z c - 48) in
          if y >? 2 ^ 63 then leadingFraction x scale true s'
          else leadingFraction y (scale * 10) false s'
      else (x, scale, s)
  | [] => (x, scale, [])
  end.

Fixpoint take_unit (s : bytes) : bytes * bytes :=
  match s with
  | c :: s' =>
      if Byte.eqb c x2e || is_digit c then ([], s)
      else let '(u, r) := take_unit s' in (c :: u, r)
  | [] => ([], [])
  end.

Definition unitMap (u : bytes) : option Z :=
  if beq u (bs "ns") then Some 1
  else if beq u (bs "us") || beq u [xc2; xb5; x73] || beq u [xce; xbc; x73] then Some 1000
  else if beq u (bs "ms") then Some 1000000
  else if beq u (bs "s") then Some 1000000000
  else if beq u (bs "m") then Some 60000000000
  else if beq u (bs "h") then Some 3600000000000
  else None.

Section Duration.
(** [uint64(float64(f) * (float64(unit) / scale))]. *)
Context (frac_ns : Z -> Z -> Z -> Z).

Fixpoint parse_terms (fuel : nat) (orig : bytes) (d : Z) (s : bytes) : result Z :=
  match fuel, s with
  | _, [] => Ok d
  | O, _ => Err (errDuration orig)
  | S fuel', c :: _ =>
      if negb (Byte.eqb c x2e || is_digit c) then Err (errDuration orig)
      else
        match leadingInt 0 s with
        | None => Err (errDuration orig)
        | Some (v, s1) =>
            let pre := negb (length s1 =? length s)%nat in
            let '(f, scale, post, s2) :=
              match s1 with
              | x2e :: s1' =>
                  let '(f, scale, s2) := leadingFraction 0 1 false s1' in
                  (f, scale, negb (length s2 =? length s1')%nat, s2)
              | _ => (0, 1, false, s1)
              end in
            if negb pre && negb post then Err (errDuration orig)
            else
              let '(u, s3) := take_unit s2 in
              if beq u [] then Err (Errorf "time: missing unit in duration %q" [AStr orig])
              else
                match unitMap u with
                | None => Err (Errorf "time: unknown unit %q in duration %q" [AStr u; AStr orig])
                | Some unit =>
                    if v >? 2 ^ 63 / unit then Err (errDuration orig)
                    else
                      let v := v * unit + (if f >? 0 then frac_ns f unit scale else 0) in
                      if (f >? 0) && (v >? 2 ^ 63) then Err (errDuration orig)
                      else
                        let d := u64 (d + v) in
                        if d >? 2 ^ 63 then Err (errDuration orig)
                        else parse_terms fuel' orig d s3
                end
        end
  end.

Definition ParseDuration (orig : bytes) : result Z :=
  let '(neg, s) :=
    match orig with
    | c :: s' => if Byte.eqb c x2d then (true, s') else if Byte.eqb c x2b then (false, s') else (false, orig)
    | [] => (false, orig)
    end in
  if beq s (bs "0") then Ok 0
  else if beq s [] then Err (errDuration orig)
  else
    d ← parse_terms (length s) orig 0 s;
    if neg : bool then Ok (- d)
    else if d >? 2 ^ 63 - 1 then Err (errDuration orig)
    else Ok d.

Definition FailoverTimeout (c : ConsensusConfig) : result Z :=
  if beq (PrimaryFailoverTimeout c) [] then Ok 0
  else
    d ← map_err (fun e => Errorf "consensus.primary_failover_timeout %q: %w"
                            [AStr (PrimaryFailoverTimeout c); AWrap e])
          (ParseDuration (PrimaryFailoverTimeout c));
    if d <=? 0 then
      Err (Errorf "consensus.primary_failover_timeout must be positive, got %q" [AStr (PrimaryFailoverTimeout c)])
    else Ok d.
End Duration.

(** ** Signer settings *)

Definition ToMap (c : SignerConfig) : rawConfig :=
  list_to_map
    [(bs "keyring_dir", AnyStr (KeyringDir c));
     (bs "key_name", AnyStr (cfgKeyName c));
     (bs "password_file", AnyStr (PasswordFile c));
     (bs "dsm_api_endpoint", AnyStr (DSMAPIEndpoint c));
     (bs "dsm_api_key", AnyStr (DSMAPIKey c));
     (bs "dsm_key_id", AnyStr (DSMKeyID c));
     (bs "dsm_key_name", AnyStr (DSMKeyName c))].

(** ** Server settings *)

Definition knownRPCShortNames : gset bytes :=
  list_to_set [bs "sign"; bs "sign_raw"; bs "sign_tx"; bs "sign_bridge_checkpoint";
               bs "sign_oracle_attestation"; bs "sign_initial"; bs "get_public_key";
               bs "get_address"; bs "get_chain_id"].

Definition CheckpointGuardStatePath (c : Config) : bytes :=
  if negb (beq (CheckpointGuardStateFile (ServerCfg c)) []) then CheckpointGuardStateFile (ServerCfg c)
  else if negb (beq (StateFile (Consensus c)) []) then
    Join (Dir (StateFile (Consensus c))) (bs "bridge_checkpoint_state.json")
  else [].

(** ** Defaults *)

Definition or_default (v d : bytes) : bytes := if beq v [] then d else v.

Definition applyDefaults (c : Config) : Config :=
  let s := ServerCfg c in
  let l := Log c in
  let k := Consensus c in
  MkConfig (ChainID c)
    (if Enabled k then
       MkConsensus (KeyFile k)
         (or_default (StateFile k) (bs "/data/priv_validator_state.json"))
         (or_default (ConnKeyFile k) (bs "/data/connection.key"))
         (or_default (Targets k) (bs "tcp://layer:26659,tcp://layer-backup:26659"))
         (PrimaryFailoverTimeout k) (PreferTargetOrder k)
     else k)
    (SignerCfg c)
    (MkServerCfg
       (or_default (ListenAddr s) (bs "0.0.0.0:9191"))
       (or_default (HealthAddr s) (bs "0.0.0.0:9192"))
       (if RequestTimeout s =? 0 then 2 * 1000000000 else RequestTimeout s)
       (if MaxRecvMsgSize s =? 0 then 1024 * 1024 else MaxRecvMsgSize s)
       (cfgAllowedMsgTypes s) (CheckpointGuardStateFile s) (cfgEnabledRPCs s) (EnableReflection s))
    (TLS c)
    (MkLog (or_default (Level l) (bs "info")) (or_default (Format l) (bs "json"))).

(** ** Validation *)

Definition errc (what : string) : error := Errorf what [].

(** [if cond { return err }]. *)
Definition require {S} (ok : bool) (e : error) : ST S () :=
  if ok then st_ret () else st_lift (Err e).

Definition nonempty (b : bytes) : bool := negb (beq b []).

Definition validate_signer (c : SignerConfig) : ST fs () := (
  if beq (Backend c) BackendFile then
    require (nonempty (KeyringDir c)) (errc "signer.keyring_dir is required when backend is 'file'") ;;;
    st_map_err (errqw "signer.keyring_dir %q: %w" (KeyringDir c)) (os_Stat (KeyringDir c)) ;;;
    require (nonempty (cfgKeyName c)) (errc "signer.key_name is required when backend is 'file'")
  else if beq (Backend c) BackendFortanixDSM then
    require (nonempty (DSMAPIEndpoint c)) (errc "signer.dsm_api_endpoint is required when backend is 'fortanixdsm'") ;;;
    require (nonempty (DSMAPIKey c)) (errc "signer.dsm_api_key is required when backend is 'fortanixdsm'") ;;;
    require (nonempty (DSMKeyID c) || nonempty (DSMKeyName c))
      (errc "signer.dsm_key_id or signer.dsm_key_name is required when backend is 'fortanixdsm'")
  else if beq (Backend c) [] then
    st_lift (Err (errc "signer.backend is required ('file', 'fortanixdsm')"))
  else
    st_lift (Err (Errorf "signer.backend %q is not valid (must be 'file', 'fortanixdsm')" [AStr (Backend c)])))%go.

Fixpoint stat_all (paths : list bytes) : ST fs () :=
  match paths with
  | [] => st_ret ()
  | p :: ps => (st_map_err (errqw "tls file %q: %w" p) (os_Stat p) ;;; stat_all ps)%go
  end.

Definition validate_tls (t : TLSConfig) : ST fs () := (
  if Insecure t then st_ret ()
  else
    require (nonempty (CACert t)) (errc "tls.ca_cert is required (or set tls.insecure: true)") ;;;
    require (nonempty (ServerCert t)) (errc "tls.server_cert is required (or set tls.insecure: true)") ;;;
    require (nonempty (ServerKey t)) (errc "tls.server_key is required (or set tls.insecure: true)") ;;;
    stat_all [CACert t; ServerCert t; ServerKey t])%go.

(** The names are checked in map order, which is not specified: any unknown
    name gives the error. *)
Definition unknown_rpcs (m : gmap bytes bool) : list bytes :=
  filter (fun n => n ∉ knownRPCShortNames) (map fst (map_to_list m)).

Definition checkpoint_rpc_enabled (m : gmap bytes bool) : bool :=
  match m !! bs "sign_bridge_checkpoint" with Some v => v | None => true end.

Section Validate.
Context (frac_ns : Z -> Z -> Z -> Z).

Definition validate (c : Config) : ST fs () := (
  validate_signer (SignerCfg c) ;;;
  require (nonempty (ListenAddr (ServerCfg c))) (errc "server.listen_addr is required") ;;;
  require (negb (RequestTimeout (ServerCfg c) <=? 0)) (errc "server.request_timeout must be positive") ;;;
  validate_tls (TLS c) ;;;
  match unknown_rpcs (cfgEnabledRPCs (ServerCfg c)) with
  | n :: _ => st_lift (Err (Errorf "server.enabled_rpcs has unknown RPC name %q (valid: sign, sign_raw, sign_tx, sign_bridge_checkpoint, sign_oracle_attestation, get_public_key, get_address, get_chain_id)" [AStr n]))
  | [] => st_ret ()
  end ;;;
  require (negb (checkpoint_rpc_enabled (cfgEnabledRPCs (ServerCfg c)) && beq (CheckpointGuardStatePath c) []))
    (errc "server.checkpoint_guard_state_file is required when SignBridgeCheckpoint is enabled and consensus.state_file is not set (the checkpoint replay guard must survive restarts); set it, or disable the RPC with server.enabled_rpcs: {sign_bridge_checkpoint: false}") ;;;
  require (bool_decide (Level (Log c) ∈ [bs "debug"; bs "info"; bs "warn"; bs "error"]))
    (Errorf "logging.level %q is not valid (debug|info|warn|error)" [AStr (Level (Log c))]) ;;;
  require (bool_decide (Format (Log c) ∈ [bs "json"; bs "text"]))
    (Errorf "logging.format %q is not valid (json|text)" [AStr (Format (Log c))]) ;;;
  if Enabled (Consensus c) then
    require (nonempty (ChainID c)) (errc "chain_id is required when consensus.key_file is set") ;;;
    require (nonempty (StateFile (Consensus c))) (errc "consensus.state_file is required") ;;;
    require (nonempty (Targets (Consensus c))) (errc "consensus.targets is required") ;;;
    st_lift (FailoverTimeout frac_ns (Consensus c)) ;;;
    st_ret ()
  else st_ret ())%go.

(** [yaml_Unmarshal]: the decoder of [gopkg.in/yaml.v3]. *)
Definition Load (yaml_Unmarshal : bytes -> result Config) (path : bytes) : ST fs Config := (
  if beq path [] then st_lift (Err (errc "config path must not be empty"))
  else
    data <- st_map_err (errqw "cannot read config file %q: %w" path) (os_ReadFile path) ;;
    cfg <- st_lift (map_err (errqw "cannot parse config file %q: %w" path) (yaml_Unmarshal data)) ;;
    let cfg := applyDefaults cfg in
    st_map_err (errw "invalid config: %w") (validate cfg) ;;;
    st_ret cfg)%go.
End Validate.

(** ** Lemmas *)

Lemma require_ok {S} ok e (s s' : S) u : require ok e s = (Ok u, s') -> ok = true /\ s' = s.
Proof. unfold require, st_ret, st_lift. by destruct ok; intros [= _ <-]. Qed.

Lemma bind_inv {S A B} (m : ST S A) (k : A -> ST S B) s b s' :
  st_bind m k s = (Ok b, s') -> exists a s1, m s = (Ok a, s1) /\ k a s1 = (Ok b, s').
Proof. unfold st_bind. destruct (m s) as [[a| |] s1]; [eauto|done..]. Qed.

Lemma lift_bind {S A B} (r : result A) (k : A -> ST S B) s b s' :
  (x <- st_lift r ;; k x)%go s = (Ok b, s') -> exists a, r = Ok a /\ k a s = (Ok b, s').
Proof. unfold st_bind, st_lift. destruct r as [a| |]; [by exists a|done..]. Qed.

Lemma require_bind {S A} ok e (k : ST S A) s r s' :
  (require ok e ;;; k)%go s = (Ok r, s') -> ok = true /\ k s = (Ok r, s').
Proof.
  intros H. apply bind_inv in H as (u & s1 & H & Hk). apply require_ok in H as [-> ->]. done.
Qed.

Lemma stat_bind {A} f p (k : ST fs A) s r s' :
  (st_map_err f (os_Stat p) ;;; k)%go s = (Ok r, s') ->
  exists s1, fs_disk s1 = fs_disk s /\ k s1 = (Ok r, s').
Proof.
  intros H. apply map_err_bind_inv in H as (i & s1 & H & Hk).
  apply os_Stat_inv in H as [E _]. eauto.
Qed.

Lemma nonempty_true b : nonempty b = true <-> b <> [].
Proof. unfold nonempty, beq. rewrite negb_true_iff. apply bool_decide_eq_false. Qed.

Definition signer_ok (c : SignerConfig) : Prop :=
  (Backend c = BackendFile /\ KeyringDir c <> [] /\ cfgKeyName c <> []) \/
  (Backend c = BackendFortanixDSM /\ DSMAPIEndpoint c <> [] /\ DSMAPIKey c <> [] /\
   (DSMKeyID c <> [] \/ DSMKeyName c <> [])).

Lemma validate_signer_inv c s s' :
  validate_signer c s = (Ok (), s') -> signer_ok c /\ fs_disk s' = fs_disk s.
Proof.
  unfold validate_signer, signer_ok. unfold beq at 1. case_bool_decide as Hf.
  - intros H. apply require_bind in H as [H1 H]. apply stat_bind in H as (s1 & Ed & H).
    apply require_ok in H as [H2 ->]. rewrite <-!nonempty_true. split; [by left|done].
  - unfold beq at 1. case_bool_decide as Hd.
    + intros H. apply require_bind in H as [H1 H]. apply require_bind in H as [H2 H].
      apply require_ok in H as [H3 ->]. rewrite <-!nonempty_true. split; [right|done].
      apply orb_true_iff in H3. done.
    + destruct (beq _ _); done.
Qed.

Lemma stat_all_inv ps s s' : stat_all ps s = (Ok (), s') -> fs_disk s' = fs_disk s.
Proof.
  revert s. induction ps as [|p ps IH]; intros s; cbn [stat_all]; [by intros [= <-]|].
  intros H. apply stat_bind in H as (s1 & Ed & H). apply IH in H. congruence.
Qed.

Lemma validate_tls_inv t s s' :
  validate_tls t s = (Ok (), s') ->
  (Insecure t = false -> CACert t <> [] /\ ServerCert t <> [] /\ ServerKey t <> []) /\
  fs_disk s' = fs_disk s.
Proof.
  unfold validate_tls. destruct (Insecure t); [by intros [= <-]|]. intros H.
  apply require_bind in H as [H1 H]. apply require_bind in H as [H2 H].
  apply require_bind in H as [H3 H]. apply stat_all_inv in H. rewrite <-!nonempty_true. done.
Qed.

Lemma unknown_rpcs_nil m : unknown_rpcs m = [] <-> dom m ⊆ knownRPCShortNames.
Proof.
  unfold unknown_rpcs. split.
  - intros H n Hn. destruct (decide (n ∈ knownRPCShortNames)) as [|N]; [done|].
    assert (Hin : n ∈ filter (fun n => n ∉ knownRPCShortNames) (map fst (map_to_list m))); [|by rewrite H in Hin; apply elem_of_nil in Hin].
    apply list_elem_of_filter. split; [done|]. apply elem_of_dom in Hn as [v Hv].
    apply list_elem_of_fmap. exists (n, v). split; [done|]. by apply elem_of_map_to_list.
  - intros H. destruct (filter _ _) as [|n l] eqn:E; [done|].
    assert (Hin : n ∈ n :: l) by left. rewrite <-E in Hin. apply list_elem_of_filter in Hin as [Hn Hin].
    destruct Hn. apply H. apply list_elem_of_fmap in Hin as ([n' v] & -> & Hin).
    apply elem_of_map_to_list in Hin. apply elem_of_dom. by exists v.
Qed.

(** ** What [Load] guarantees *)

Section LoadFacts.
Context (frac_ns : Z -> Z -> Z -> Z).

Record config_ok (c : Config) : Prop := {
  co_signer : signer_ok (SignerCfg c);
  co_timeout : 0 < RequestTimeout (ServerCfg c);
  co_listen : ListenAddr (ServerCfg c) <> [];
  co_tls : Insecure (TLS c) = false -> CACert (TLS c) <> [] /\ ServerCert (TLS c) <> [] /\ ServerKey (TLS c) <> [];
  co_rpcs : dom (cfgEnabledRPCs (ServerCfg c)) ⊆ knownRPCShortNames;
  co_guard : cfgEnabledRPCs (ServerCfg c) !! bs "sign_bridge_checkpoint" <> Some false ->
             CheckpointGuardStatePath c <> [];
  co_consensus : KeyFile (Consensus c) <> [] ->
    ChainID c <> [] /\ StateFile (Consensus c) <> [] /\ Targets (Consensus c) <> [] /\
    exists d, FailoverTimeout frac_ns (Consensus c) = Ok d /\
      (PrimaryFailoverTimeout (Consensus c) <> [] -> 0 < d);
}.

Lemma FailoverTimeout_pos c d :
  FailoverTimeout frac_ns c = Ok d -> PrimaryFailoverTimeout c <> [] -> 0 < d.
Proof using.
  unfold FailoverTimeout, beq. intros H Hn. rewrite bool_decide_false in H by done.
  destruct (ParseDuration _ _) as [x| |]; cbn in H; try done.
  destruct (Z.leb_spec x 0); [done|]. injection H as <-. done.
Qed.

Lemma validate_inv c s s' :
  validate frac_ns c s = (Ok (), s') -> config_ok c /\ fs_disk s' = fs_disk s.
Proof using.
  unfold validate. intros H.
  apply bind_inv in H as ([] & s1 & H1 & H). apply validate_signer_inv in H1 as [Hs E1].
  apply require_bind in H as [Hl H]. apply require_bind in H as [Ht H].
  apply bind_inv in H as ([] & s2 & H2 & H). apply validate_tls_inv in H2 as [Htls E2].
  apply bind_inv in H as ([] & s3 & H3 & H).
  assert (E3 : unknown_rpcs (cfgEnabledRPCs (ServerCfg c)) = [] /\ s3 = s2)
    by (destruct (unknown_rpcs _); [by injection H3|done]).
  destruct E3 as [Hu ->].
  apply require_bind in H as [Hg H]. apply require_bind in H as [_ H]. apply require_bind in H as [_ H].
  apply nonempty_true in Hl. apply negb_true_iff, Z.leb_gt in Ht.
  assert (Hguard : cfgEnabledRPCs (ServerCfg c) !! bs "sign_bridge_checkpoint" <> Some false ->
    CheckpointGuardStatePath c <> []).
  { intros Hn Hp. rewrite Hp in Hg. unfold checkpoint_rpc_enabled in Hg.
    destruct (_ !! _) as [[|]|]; done. }
  destruct (Enabled (Consensus c)) eqn:En.
  - apply require_bind in H as [Hc H]. apply require_bind in H as [Hst H]. apply require_bind in H as [Htg H].
    apply bind_inv in H as (d & s4 & Hd & H). unfold st_lift in Hd. injection Hd as Hd <-.
    injection H as <-. apply nonempty_true in Hc, Hst, Htg.
    split; [|congruence]. split; try done; [by apply unknown_rpcs_nil|].
    intros _. repeat (split; [done|]). exists d. split; [done|]. by apply FailoverTimeout_pos.
  - injection H as <-. split; [|congruence]. split; try done; [by apply unknown_rpcs_nil|].
    intros Hk. revert En. unfold Enabled, beq. by rewrite bool_decide_false.
Qed.
End LoadFacts.

(** ** Paths *)

Lemma Split_ne s c : Split s c <> [].
Proof. destruct s as [|x s]; [done|]. cbn [Split]. destruct (decide _); [done|]. by destruct (Split s c). Qed.

Lemma Split_app a name :
  Forall (fun c => c <> sep) name -> Split (a ++ sep :: name) sep = Split a sep ++ [name].
Proof.
  intros Hn. assert (Hs : Split name sep = [name]).
  { induction Hn as [|c l Hc _ IH]; [done|]. cbn [Split]. rewrite decide_False by done. by rewrite IH. }
  induction a as [|x a IH]; cbn [app Split].
  - by rewrite decide_True, Hs.
  - rewrite IH. destruct (decide (x = sep)); [done|].
    pose proof (Split_ne a sep). by destruct (Split a sep).
Qed.

Lemma join_sep_cons w l : l <> [] -> join_sep (w :: l) = w ++ sep :: join_sep l.
Proof. by destruct l. Qed.

Lemma join_sep_snoc l name : exists pre, join_sep (l ++ [name]) = pre ++ name.
Proof.
  induction l as [|w l [pre IH]]; [by exists []|]. cbn [app].
  exists (w ++ sep :: pre). rewrite join_sep_cons, IH, <-app_assoc by (by destruct l). done.
Qed.

(** A plain name joined to a directory is the end of the result. *)
Lemma Join_name a name :
  a <> [] -> name <> [] -> name <> bs "." -> name <> bs ".." -> Forall (fun c => c <> sep) name ->
  exists pre, Join a name = pre ++ name.
Proof.
  intros Ha H1 H2 H3 Hn. unfold Join. destruct a as [|x a]; [done|]. destruct name as [|y name]; [done|].
  set (n := y :: name) in *. unfold Clean, beq at 1. rewrite bool_decide_false by done.
  set (rooted := HasPrefix _ _). rewrite (Split_app (x :: a) n Hn), foldl_app. cbn [foldl].
  set (out := foldl _ _ _).
  assert (Hc : clean_step rooted out n = n :: out).
  { unfold clean_step, beq. by rewrite !bool_decide_false. }
  rewrite Hc. cbn [rev]. destruct (join_sep_snoc (rev out) n) as [pre ->].
  destruct rooted; [by exists (sep :: pre)|]. unfold beq. rewrite bool_decide_false; [by exists pre|].
  intros E. apply app_eq_nil in E as [_ E]. done.
Qed.

Lemma Dir_nonempty p : Dir p <> [].
Proof.
  unfold Dir, Clean. destruct (beq _ []); [done|]. cbn zeta.
  destruct (HasPrefix _ _); [done|]. unfold beq. case_bool_decide; done.
Qed.

(** ** Target lists *)

Fixpoint join_comma (ws : list bytes) : bytes :=
  match ws with
  | [] => []
  | [w] => w
  | w :: ws' => w ++ x2c :: join_comma ws'
  end.

Lemma Split_cons_app c w s : c ∉ w -> Split (w ++ c :: s) c = w :: Split s c.
Proof.
  induction w as [|x w IH]; intros Hc; cbn [app Split]; [by rewrite decide_True|].
  apply not_elem_of_cons in Hc as [Hx Hc]. rewrite decide_False by done. by rewrite IH.
Qed.

Lemma Split_word c w : c ∉ w -> Split w c = [w].
Proof.
  induction w as [|x w IH]; intros Hc; cbn [Split]; [done|].
  apply not_elem_of_cons in Hc as [Hx Hc]. rewrite decide_False by done. by rewrite IH.
Qed.

Lemma Split_join_comma w ws : Forall (fun w => x2c ∉ w) (w :: ws) -> Split (join_comma (w :: ws)) x2c = w :: ws.
Proof.
  revert w. induction ws as [|v ws IH]; intros w [Hw Hws]%Forall_cons; [by apply Split_word|].
  change (join_comma (w :: v :: ws)) with (w ++ x2c :: join_comma (v :: ws)).
  by rewrite Split_cons_app, IH.
Qed.

Lemma Split_no_comma s : Forall (fun w => x2c ∉ w) (Split s x2c).
Proof.
  induction s as [|x s IH]; cbn [Split]; [by repeat constructor; apply not_elem_of_nil|].
  destruct (decide (x = x2c)) as [->|Hx]; [constructor; [apply not_elem_of_nil|done]|].
  destruct (Split s x2c) as [|w ws]; [by repeat constructor; apply not_elem_of_cons; split; [done|apply not_elem_of_nil]|].
  inversion_clear IH. constructor; [|done]. by apply not_elem_of_cons.
Qed.

Lemma Split_commas n : Split (replicate n x2c) x2c = replicate (S n) [].
Proof. induction n as [|n IH]; [done|]. cbn [replicate Split]. rewrite decide_True by done. by rewrite IH. Qed.

(** ** Durations *)

Lemma dec_digit_is_digit d : 0 <= d < 10 -> is_digit (dec_digit d) = true /\ byte_to_Z (dec_digit d) - 48 = d.
Proof.
  intros Hd. split; [unfold is_digit; by rewrite digit_val_digit|].
  unfold dec_digit. rewrite byte_to_of_Z, Z.mod_small by lia. lia.
Qed.

Lemma leadingInt_digits fuel n x s :
  0 <= n < 10 ^ Z.of_nat fuel -> 0 <= x -> x * 10 ^ (Z.of_nat (length (dec_digits fuel n))) + n <= 2 ^ 63 ->
  leadingInt x (dec_digits fuel n ++ s) =
  leadingInt (x * 10 ^ (Z.of_nat (length (dec_digits fuel n))) + n) s.
Proof.
  assert (Hstep : forall d x, 0 <= d < 10 -> 0 <= x -> x * 10 + d <= 2 ^ 63 -> forall s,
    leadingInt x (dec_digit d :: s) = leadingInt (x * 10 + d) s).
  { intros d y Hd Hy Hb t. cbn [leadingInt]. destruct (dec_digit_is_digit d Hd) as [-> ->].
    destruct (Z.gtb_spec y (2 ^ 63 / 10)) as [G|_]; [exfalso; revert G; apply Z.le_ngt; apply Z.div_le_lower_bound; lia|].
    destruct (Z.gtb_spec (y * 10 + d) (2 ^ 63)); [lia|done]. }
  revert n x s. induction fuel as [|f IH]; intros n x s Hn Hx Hb.
  - cbn in *. f_equal. lia.
  - cbn [dec_digits] in *. destruct (Z.ltb_spec n 10) as [Hl|Hl].
    + cbn [app length] in *. apply Hstep; lia.
    + rewrite length_app in *. cbn [length] in *. rewrite Nat2Z.inj_add, Z.pow_add_r in * by lia.
      change (10 ^ Z.of_nat 1) with 10 in *. set (k := 10 ^ Z.of_nat _) in *.
      assert (Hk : 0 < k) by (apply Z.pow_pos_nonneg; lia).
      pose proof (Z.div_mod n 10 ltac:(lia)). pose proof (Z.mod_pos_bound n 10 ltac:(lia)).
      assert (Hq : 0 <= n / 10 < 10 ^ Z.of_nat f).
      { split; [by apply Z.div_pos; lia|]. apply Z.div_lt_upper_bound; [lia|].
        rewrite Nat2Z.inj_succ, Z.pow_succ_r in Hn by lia. lia. }
      rewrite <-app_assoc, IH by (fold k; nia). fold k. cbn [app].
      rewrite Hstep by nia. f_equal. nia.
Qed.

(** A whole number of seconds, as the configuration examples write it. *)
Definition seconds_text (n : Z) : bytes := FormatUint n ++ bs "s".

Lemma FormatUint_head n : 0 <= n -> exists d l, FormatUint n = dec_digit d :: l /\ 0 <= d < 10.
Proof.
  intros Hn. unfold FormatUint. generalize (ltac:(done) : 20%nat <> 0%nat). generalize 20%nat.
  intros fuel. revert n Hn. induction fuel as [|f IH]; intros n Hn Hf; [done|]. cbn [dec_digits].
  destruct (Z.ltb_spec n 10); [by exists n, []; split; [|lia]|].
  destruct f as [|f].
  { exists (n mod 10), []. split; [done|]. apply Z.mod_pos_bound. lia. }
  destruct (IH (n / 10)) as (d & l & -> & Hd); [apply Z.div_pos; lia|done|].
  exists d, (l ++ [dec_digit (n mod 10)]). done.
Qed.

Lemma parse_seconds frac_ns n :
  0 <= n <= 9223372036 -> ParseDuration frac_ns (seconds_text n) = Ok (n * 1000000000).
Proof.
  intros Hn. unfold ParseDuration, seconds_text.
  destruct (FormatUint_head n ltac:(lia)) as (d & l & E & Hd).
  assert (Hc : Byte.eqb (dec_digit d) x2d = false /\ Byte.eqb (dec_digit d) x2b = false).
  { assert (d = 0 \/ d = 1 \/ d = 2 \/ d = 3 \/ d = 4 \/ d = 5 \/ d = 6 \/ d = 7 \/ d = 8 \/ d = 9) as Hd' by lia.
    by decompose [or] Hd'; subst d. }
  rewrite E. cbn [app]. destruct Hc as [-> ->].
  unfold beq at 1. rewrite bool_decide_false by (intros [= _ H]; by destruct l). cbn [beq].
  unfold beq at 1. rewrite bool_decide_false by done. cbn [length parse_terms].
  destruct (dec_digit_is_digit d Hd) as [Hdig _]. rewrite Hdig, orb_true_r. cbn [negb].
  assert (HI : leadingInt 0 (dec_digit d :: l ++ bs "s") = Some (n, bs "s")).
  { change (dec_digit d :: l ++ bs "s") with ((dec_digit d :: l) ++ bs "s"). rewrite <-E. unfold FormatUint.
    rewrite leadingInt_digits by lia. cbn. f_equal. }
  rewrite HI. rewrite length_app. cbn [length bs].
  change (bs "s") with [x73]. cbn [take_unit]. cbn -[Z.mul Z.gtb Z.pow Z.add Z.div u64 unitMap beq Nat.add].
  rewrite Nat.add_1_r. change (unitMap [x73]) with (Some 1000000000). change (beq [x73] []) with false.
  change (0 >? 0) with false. cbn [negb andb].
  destruct (Z.gtb_spec n (2 ^ 63 / 1000000000)) as [G|_]; [exfalso; change (2 ^ 63 / 1000000000) with 9223372036 in G; lia|].
  rewrite Z.add_0_l, Z.add_0_r. unfold u64. rewrite Z.mod_small by (unfold u64_max; lia).
  destruct (Z.gtb_spec (n * 1000000000) (2 ^ 63)); [lia|]. cbn -[Z.mul Z.gtb Z.pow Z.sub].
  destruct (Z.gtb_spec (n * 1000000000) (2 ^ 63 - 1)); [lia|done].
Qed.

(** ** Properties *)

Lemma Load_inv frac_ns yaml path s cfg s' :
  Load frac_ns yaml path s = (Ok cfg, s') ->
  config_ok frac_ns cfg /\ fs_disk s' = fs_disk s /\
  exists data raw, content (fs_disk s) path = Some data /\ yaml data = Ok raw /\ cfg = applyDefaults raw.
Proof.
  unfold Load. destruct (beq path []); [done|]. intros H.
  apply map_err_bind_inv in H as (data & s1 & H1 & H).
  pose proof (os_ReadFile_disk _ _ _ _ H1) as E1. apply os_ReadFile_inv in H1 as [_ Hc].
  apply lift_bind in H as (raw & H2 & H).
  destruct (yaml data) as [raw'| |] eqn:Ey; try done. apply (inj Ok) in H2 as ->.
  cbn zeta in H. apply map_err_bind_inv in H as ([] & s3 & H3 & H). injection H as <- <-.
  apply validate_inv in H3 as [Hok E3]. split; [done|]. split; [congruence|]. eauto.
Qed.

(** What a loaded configuration guarantees: [Load] only reads, and a
    configuration it returns has a backend with its required settings, a
    positive request timeout, TLS material unless insecure is chosen, only
    known names in [enabled_rpcs], a guard path whenever
    SignBridgeCheckpoint is not switched off - so the replay guard survives
    restarts - and, with consensus signing on, a chain id, a state file,
    targets and a failover timeout that is positive when set. *)
Theorem loaded_config_ok frac_ns yaml path s cfg s' :
  Load frac_ns yaml path s = (Ok cfg, s') ->
  config_ok frac_ns cfg /\ fs_disk s' = fs_disk s /\
  exists data raw, content (fs_disk s) path = Some data /\ yaml data = Ok raw /\ cfg = applyDefaults raw.
Proof. apply Load_inv. Qed.

Definition sample_config : Config :=
  MkConfig (bs "tellor-1")
    (MkConsensus (bs "/data/key.json") [] [] [] (bs "30s") true)
    (MkSignerCfg BackendFile (bs "/data") (bs "validator") [] [] [] [] [])
    (MkServerCfg [] [] 0 0 [] [] ∅ false)
    (MkTLS true [] [] []) (MkLog [] []).

Definition config_disk : disk := snd (new_file (bs "/data/config.yaml") 420 empty_disk).

Definition no_fraction (f unit scale : Z) : Z := 0.

Lemma loaded_config_ok_witness :
  exists cfg s', Load no_fraction (fun _ => Ok sample_config) (bs "/data/config.yaml") (fresh_fs config_disk) = (Ok cfg, s') /\
    config_ok no_fraction cfg /\ TargetList (Consensus cfg) = [bs "tcp://layer:26659"; bs "tcp://layer-backup:26659"].
Proof.
  assert (Hok : is_ok (fst (Load no_fraction (fun _ => Ok sample_config) (bs "/data/config.yaml") (fresh_fs config_disk))) = true)
    by (vm_compute; reflexivity).
  destruct (Load no_fraction (fun _ => Ok sample_config) (bs "/data/config.yaml") (fresh_fs config_disk))
    as [[cfg|e|] s'] eqn:E; [|discriminate Hok..].
  exists cfg, s'. split; [done|].
  destruct (loaded_config_ok _ _ _ _ _ _ E) as (H & _ & data & raw & _ & Hr & ->). split; [done|].
  apply (inj Ok) in Hr as <-. by vm_compute.
Defined.

(** The default guard path: without an explicit setting the checkpoint
    guard's state is the file [bridge_checkpoint_state.json] joined to the
    directory of the consensus state file; it is never empty and never looks
    like one of the atomic writer's temporary files, which is what the guard
    needs of its path to survive restarts. *)
Theorem default_guard_path c :
  CheckpointGuardStateFile (ServerCfg c) = [] -> StateFile (Consensus c) <> [] ->
  (exists pre, CheckpointGuardStatePath c = pre ++ bs "bridge_checkpoint_state.json") /\
  CheckpointGuardStatePath c <> [] /\ is_temp (CheckpointGuardStatePath c) = false.
Proof.
  intros Hg Hs. unfold CheckpointGuardStatePath. rewrite Hg. change (beq [] []) with true. cbn [negb].
  unfold beq. rewrite bool_decide_false by done. cbn [negb].
  destruct (Join_name (Dir (StateFile (Consensus c))) (bs "bridge_checkpoint_state.json")) as [pre Hp];
    [apply Dir_nonempty|done..|by apply (bool_decide_unpack _); vm_compute|].
  rewrite Hp. split; [by exists pre|]. split; [intros [_ ?]%app_eq_nil; done|].
  unfold is_temp. rewrite length_app, drop_app.
  rewrite drop_ge by (change (length (bs "bridge_checkpoint_state.json")) with 28%nat; lia).
  cbn [app]. replace (_ + _ - 4 - length pre)%nat with 24%nat; [done|].
  change (length (bs "bridge_checkpoint_state.json")) with 28%nat. lia.
Qed.

Lemma default_guard_path_witness :
  CheckpointGuardStatePath (applyDefaults sample_config) = bs "/data/bridge_checkpoint_state.json" /\
  is_temp (CheckpointGuardStatePath (applyDefaults sample_config)) = false.
Proof. split; [by vm_compute|]. by apply (default_guard_path (applyDefaults sample_config)). Defined.

(** The failover timeout: a whole number of seconds is read exactly, for
    every count a [time.Duration] holds; zero is refused, and an absent
    setting switches the election off. *)
Theorem failover_timeout_seconds frac_ns c n :
  0 <= n <= 9223372036 -> PrimaryFailoverTimeout c = seconds_text n ->
  match FailoverTimeout frac_ns c with
  | Ok d => 0 < n /\ d = n * 1000000000
  | Err _ => n = 0
  | Panic => False
  end.
Proof.
  intros Hn E. unfold FailoverTimeout. rewrite E, parse_seconds by done. unfold beq.
  rewrite bool_decide_false by (unfold seconds_text; intros [_ ?]%app_eq_nil; done).
  cbn -[Z.mul Z.leb]. destruct (Z.leb_spec (n * 1000000000) 0); lia.
Qed.

Lemma failover_timeout_seconds_witness :
  match FailoverTimeout no_fraction (Consensus sample_config) with
  | Ok d => 0 < 30 /\ d = 30 * 1000000000
  | Err _ => 30 = 0
  | Panic => False
  end.
Proof. apply (failover_timeout_seconds no_fraction (Consensus sample_config) 30); [lia|by vm_compute]. Defined.

(** The target list is what was listed: comma-separated targets with no
    surrounding white space come back in the order written, which is the
    order of preference of the election; and whatever the setting, no target
    is empty. *)
Theorem target_list_roundtrip c ts :
  Targets c = join_comma ts -> Forall (fun t => t <> [] /\ x2c ∉ t /\ TrimSpace t = t) ts ->
  TargetList c = ts /\ (forall c', Forall (fun t => t <> []) (TargetList c')).
Proof.
  intros E Hts. split.
  - unfold TargetList. rewrite E. destruct ts as [|w ws]; [done|].
    rewrite Split_join_comma by (apply (Forall_impl _ _ _ Hts); naive_solver).
    clear E. induction Hts as [|t ts (Hne & _ & Ht) _ IH]; [done|]. cbn [map]. rewrite filter_cons, Ht.
    rewrite decide_True by done. by rewrite IH.
  - intros c'. apply Forall_forall. intros t Ht. by apply list_elem_of_filter in Ht as [? _].
Qed.

Lemma target_list_roundtrip_witness :
  TargetList (Consensus (applyDefaults sample_config)) = [bs "tcp://layer:26659"; bs "tcp://layer-backup:26659"].
Proof.
  apply (target_list_roundtrip (Consensus (applyDefaults sample_config))
           [bs "tcp://layer:26659"; bs "tcp://layer-backup:26659"]); [by vm_compute|].
  repeat constructor; try done; by apply (bool_decide_unpack _); vm_compute.
Defined.

Definition with_targets (t : bytes) (c : Config) : Config :=
  let k := Consensus c in
  MkConfig (ChainID c)
    (MkConsensus (KeyFile k) (StateFile k) (ConnKeyFile k) t (PrimaryFailoverTimeout k) (PreferTargetOrder k))
    (SignerCfg c) (ServerCfg c) (TLS c) (Log c).

(** The targets check looks at the text and not at the list: a
    [consensus.targets] made only of commas is accepted wherever a real list
    is, and gives no target to dial - consensus signing is then configured
    but never runs. *)
Theorem comma_targets_accepted frac_ns n c s :
  Targets (Consensus c) <> [] ->
  validate frac_ns (with_targets (replicate (S n) x2c) c) s = validate frac_ns c s /\
  TargetList (Consensus (with_targets (replicate (S n) x2c) c)) = [].
Proof.
  intros Ht. split.
  - unfold validate, with_targets, FailoverTimeout, nonempty, beq, Enabled. cbn [Consensus Targets KeyFile StateFile
      PrimaryFailoverTimeout SignerCfg ServerCfg TLS Log ChainID CheckpointGuardStatePath].
    rewrite (bool_decide_false (replicate (S n) x2c = [])), (bool_decide_false (Targets _ = [])) by done. done.
  - unfold TargetList. cbn [with_targets Consensus Targets]. rewrite Split_commas.
    induction (S (S n)) as [|k IH]; [done|]. cbn [replicate map]. rewrite filter_cons.
    rewrite decide_False by (by vm_compute). done.
Qed.

Lemma comma_targets_accepted_witness :
  fst (validate no_fraction (with_targets [x2c] (applyDefaults sample_config)) (fresh_fs config_disk)) = Ok () /\
  TargetList (Consensus (with_targets [x2c] (applyDefaults sample_config))) = [].
Proof.
  destruct (comma_targets_accepted no_fraction 0 (applyDefaults sample_config) (fresh_fs config_disk)) as [E H];
    [by vm_compute|].
  split; [|exact H]. change [x2c] with (replicate 1 x2c). rewrite E. by vm_compute.
Defined.

(** Defaults fill only what is absent: applying them twice changes nothing,
    and a loaded configuration is a fixed point. *)
Lemma applyDefaults_idempotent c : applyDefaults (applyDefaults c) = applyDefaults c.
Proof.
  assert (Hd : forall v d, d <> [] -> or_default (or_default v d) d = or_default v d).
  { intros v d Hd. unfold or_default, beq. repeat case_bool_decide; done. }
  assert (Hz : forall v d, (if (if v =? 0 then d else v) =? 0 then d else if v =? 0 then d else v) = if v =? 0 then d else v).
  { intros v d. destruct (Z.eqb_spec v 0); [by destruct (d =? 0)|]. by destruct (Z.eqb_spec v 0). }
  unfold applyDefaults. cbn [ServerCfg Log Consensus ChainID SignerCfg TLS ListenAddr HealthAddr RequestTimeout
    MaxRecvMsgSize cfgAllowedMsgTypes CheckpointGuardStateFile cfgEnabledRPCs EnableReflection Level Format].
  rewrite !Hz, !Hd by done. destruct (Enabled (Consensus c)) eqn:E; [|by rewrite E].
  unfold Enabled in *. cbn [KeyFile StateFile ConnKeyFile Targets PrimaryFailoverTimeout PreferTargetOrder].
  rewrite E, !Hd by done. done.
Qed.
