(* ===== verification/Daemon.v ===== *)
(** * The daemon ([cmd/bridge-signer/cmd_start.go], [api/tls/tls.go])

    Startup as [runDaemon] composes it: configuration, logger, signing
    backend, consensus signer, transport credentials, gRPC server.

    [crypto/tls] certificates, the YAML decoder and CometBFT are parameters. *)

From S2P Require Import Prelude GoStd Fs Json ReplayGuard Abi Logging Asn1 Signer Arbiter.
From S2P Require Import BridgeServer ServerProps Privval ConnKey Config.

(** ** [tls.go] *)

Class TlsLib := {
  certificate : Type;
  X509KeyPair : bytes -> bytes -> result certificate;
  AppendCertsFromPEM : bytes -> bool;
}.

Definition VersionTLS13 : Z := 0x0304.

(** The fields of [tls.Config] the code sets; a CA pool is the PEM text it
    was filled from. *)
Record tlsConfig {X : TlsLib} := MkTlsConfig {
  Certificates : list certificate;
  RequireAndVerifyClientCert : bool;
  ClientCAs : option bytes;
  RootCAs : option bytes;
  ServerName : bytes;
  MinVersion : Z;
}.
Arguments MkTlsConfig {_} _ _ _ _ _ _.

Section Tls.
Context {X : TlsLib}.

(** [tls.LoadX509KeyPair]. *)
Definition LoadX509KeyPair (certFile keyFile : bytes) : ST fs certificate := (
  c <- os_ReadFile certFile ;;
  k <- os_ReadFile keyFile ;;
  st_lift (X509KeyPair c k))%go.

Definition loadCACert (path : bytes) : ST fs bytes := (
  caPEM <- st_map_err (errqw "cannot read CA cert file %q: %w" path) (os_ReadFile path) ;;
  if negb (AppendCertsFromPEM caPEM) then
    st_lift (Err (Errorf "no valid certificates found in %q" [AStr path]))
  else st_ret caPEM)%go.

Definition NewServerCredentials (caCertPath serverCertPath serverKeyPath : bytes) : ST fs tlsConfig := (
  serverCert <- st_map_err (errw "failed to load server cert/key pair: %w")
                  (LoadX509KeyPair serverCertPath serverKeyPath) ;;
  caPool <- st_map_err (errw "failed to load CA cert: %w") (loadCACert caCertPath) ;;
  st_ret (MkTlsConfig [serverCert] true (Some caPool) None [] VersionTLS13))%go.

Definition NewClientCredentials (caCertPath clientCertPath clientKeyPath serverName : bytes)
    : ST fs tlsConfig := (
  clientCert <- st_map_err (errw "failed to load client cert/key pair: %w")
                  (LoadX509KeyPair clientCertPath clientKeyPath) ;;
  caPool <- st_map_err (errw "failed to load CA cert: %w") (loadCACert caCertPath) ;;
  if beq serverName [] then
    st_lift (Err (errc "serverName must not be empty and must match CN in sidecar's server cert"))
  else st_ret (MkTlsConfig [clientCert] false None (Some caPool) serverName VersionTLS13))%go.
End Tls.

(** ** Startup *)

Section Daemon.
Context {C : Crypto} {L : NodeLib} {K : KeyringLib} {D : Type} {dsm : Dsm D}.
Context {T : CometBFT} {CK : CometKeys} {V : PrivVal FilePV} {X : TlsLib}.
Context (frac_ns : Z -> Z -> Z -> Z) (yaml_Unmarshal : bytes -> result Config.Config).
(** Whether stdin is a terminal, and the key [ed25519.GenPrivKey] draws. *)
Context (stdin_tty : bool) (gen : bytes).

Definition over_file {A} (rs : result A * FileSigner) : result A * @backend C D :=
  (fst rs, FileBackend (snd rs)).
Definition over_dsm {A} (rs : result A * @FortanixDSMSigner D) : result A * @backend C D :=
  (fst rs, DSMBackend (snd rs)).

(** Method dispatch on the [Signer] interface value. *)
#[export] Instance backend_signer : Signer (@backend C D) := {
  Sign msg := fun b =>
    match b with FileBackend s => over_file (Signer.Sign msg s) | DSMBackend s => over_dsm (Signer.Sign msg s) end;
  SignRaw msg := fun b =>
    match b with FileBackend s => over_file (Signer.SignRaw msg s) | DSMBackend s => over_dsm (Signer.SignRaw msg s) end;
  GetPublicKey := fun b =>
    match b with FileBackend s => over_file (Signer.GetPublicKey s) | DSMBackend s => over_dsm (Signer.GetPublicKey s) end;
}.

(** The consensus signer: its identity, the validator's address in the
    request handler, and the dial clients over their shared state. *)
Record consensus_signer := ConsensusSigner {
  cs_connKey : bytes;
  cs_valAddr : bytes;
  cs_system : system FilePV;
}.

Definition cs_arbiter (c : consensus_signer) : option PrimaryArbiter := s_arbiter (sys_shared (cs_system c)).

Definition new_arbiter (c : ConsensusConfig) (failoverTimeout : Z) : option PrimaryArbiter :=
  if failoverTimeout >? 0 then
    Some (NewPreferringPrimaryArbiter failoverTimeout (if PreferTargetOrder c then TargetList c else []))
  else None.

Definition start_consensus (cfg : Config.Config) : ST fs consensus_signer := (
  let c := Consensus cfg in
  connKey <- st_map_err (errw "load consensus connection key: %w") (GenOrLoadConnKey gen (ConnKeyFile c)) ;;
  st_map_err (errw "consensus: %w") (RequireStateFile (StateFile c)) ;;;
  filePV <- st_map_err (errw "consensus: load validator key: %w") (LoadCometFilePV (KeyFile c) (StateFile c)) ;;
  valAddr <- st_lift (map_err (errw "consensus: get validator address: %w")
                        (fst (ValidatorAddressForHandler filePV))) ;;
  failoverTimeout <- st_lift (map_err (errw "consensus: %w") (FailoverTimeout frac_ns c)) ;;
  st_ret (ConsensusSigner connKey valAddr
            (start_clients (TargetList c)
               (Shared (new_arbiter c failoverTimeout) filePV (Metrics ∅ ∅ ∅)))))%go.

(** The nil arbiter of a daemon without consensus signing. *)
Definition maybe_consensus (cfg : Config.Config) : ST fs (option consensus_signer) :=
  if Enabled (Consensus cfg) then (c <- start_consensus cfg ;; st_ret (Some c))%go else st_ret None.

(** [None]: insecure. *)
Definition build_creds (t : TLSConfig) : ST fs (option tlsConfig) :=
  if Insecure t then st_ret None
  else (c <- st_map_err (errw "build TLS credentials: %w")
               (NewServerCredentials (CACert t) (ServerCert t) (ServerKey t)) ;;
        st_ret (Some c))%go.

Definition server_config (cfg : Config.Config) : BridgeServer.Config :=
  BridgeServer.ServerConfig (ListenAddr (ServerCfg cfg)) (RequestTimeout (ServerCfg cfg))
    (MaxRecvMsgSize (ServerCfg cfg)) (cfgAllowedMsgTypes (ServerCfg cfg)) (ChainID cfg)
    (CheckpointGuardStatePath cfg) (EnabledRPCsFromConfig (cfgEnabledRPCs (ServerCfg cfg)))
    (EnableReflection (ServerCfg cfg)).

Record daemon := MkDaemon {
  dm_cfg : Config.Config;
  dm_backend : @backend C D;
  dm_consensus : option consensus_signer;
  dm_creds : option tlsConfig;
  dm_server : Server;
  dm_guard : guard;
}.

(** The dial clients run as soon as they are started, beside the rest of
    startup: [beside i] is what they have done to the disk - they save the
    last-sign state - when startup gets to its next system calls. *)
Context (beside : nat -> fs -> fs).

Definition clients_run (i : nat) (cons : option consensus_signer) : ST fs () :=
  match cons with Some _ => st_modify (beside i) | None => st_ret () end.

(** [runDaemon] up to the point where it serves; [None] is the clean exit
    of a startup canceled by a signal.  [dm_consensus] holds the clients as
    they were started. *)
Definition startDaemon (configPath : bytes) : ST fs (option daemon) := (
  cfg <- st_map_err (errw "load config: %w") (Load frac_ns yaml_Unmarshal configPath) ;;
  st_lift (map_err (errw "initialize logger: %w") (logging_New (Level (Log cfg)) (Format (Log cfg)))) ;;;
  reg <- st_lift (init_registry stdin_tty) ;;
  r <- st_try (NewSigner reg (Backend (SignerCfg cfg)) (ToMap (SignerCfg cfg))) ;;
  match r with
  | Panic => st_lift Panic
  | Err e =>
      if errors_Is e "context canceled" then st_ret None
      else st_lift (Err (errw "initialize signer: %w" e))
  | Ok b0 =>
      let '(rk, b) := Signer.GetPublicKey b0 in
      pubKey <- st_lift (map_err (errw "get public key: %w") rk) ;;
      st_lift (map_err (errw "decompress public key: %w") (DecompressPubkey pubKey)) ;;;
      cons <- maybe_consensus cfg ;;
      clients_run 0 cons ;;;
      creds <- build_creds (TLS cfg) ;;
      clients_run 1 cons ;;;
      srv <- st_map_err (errw "build gRPC server: %w") (BridgeServer.New (server_config cfg) b) ;;
      let '(server, guard, b') := srv in
      st_ret (Some (MkDaemon cfg b' cons creds server guard))
  end)%go.

(** [primaryHost], as the gRPC server reads it at a call. *)
Definition primary_host (arbiter : option PrimaryArbiter) : option bytes := PrimaryHost <$> arbiter.

(** A gRPC call to the running daemon, while its arbiter is [arbiter]. *)
Definition daemon_serve `{E : GoEthereum} (d : daemon) (arbiter : option PrimaryArbiter)
    (from : option bytes) (req : request) : ST (world (@backend C D)) response :=
  serve (dm_server d) (primary_host arbiter) from req.

(** The lines logged before serving, newest first; a duration is kept in
    nanoseconds. *)
Definition startup_lines (d : daemon) : list log_record :=
  let cfg := dm_cfg d in
  [AuditStartup (Backend (SignerCfg cfg)) (ListenAddr (ServerCfg cfg))] ++
  match dm_consensus d with
  | None => []
  | Some cs =>
      [Info "consensus signer started"
         [("chain_id", VStr (ChainID cfg)); ("targets", VStr (Targets (Consensus cfg)))]%string] ++
      match cs_arbiter cs with
      | None => []
      | Some a =>
          [Info "consensus primary election enabled (active-passive)"
             [("failover_timeout", VInt (timeout a));
              ("prefer_target_order", VBool (PreferTargetOrder (Consensus cfg)))]%string]
      end
  end ++
  [Info "signer initialized"
     [("backend", VStr (Backend (SignerCfg cfg)));
      ("eth_address", VStr (Address_Hex (selfEVMAddr (dm_server d))))]%string].

(** The world of the server when it starts serving. *)
Definition daemon_world (d : daemon) (s : fs) : world (@backend C D) :=
  World (dm_guard d) s (dm_backend d) [] (startup_lines d).
End Daemon.

(** ** Calls that keep a file *)

(** [m] leaves what [p] holds alone, whatever it returns. *)
Definition keeps (p : bytes) {A} (m : ST fs A) : Prop :=
  forall s r s', m s = (r, s') -> wf_path (fs_disk s) p ->
    content (fs_disk s') p = content (fs_disk s) p /\ wf_path (fs_disk s') p.

Create HintDb keeps discriminated.

Section Keeps.
Context (p : bytes).

Lemma keeps_same {A} (m : ST fs A) :
  (forall s r s', m s = (r, s') -> fs_disk s' = fs_disk s) -> keeps p m.
Proof using. intros H s r s' E. by rewrite (H s r s' E). Qed.

Lemma keeps_lift {A} (r : result A) : keeps p (st_lift r).
Proof using. by apply keeps_same; intros s ? ? [= _ <-]. Qed.
Lemma keeps_ret {A} (a : A) : keeps p (st_ret a).
Proof using. apply (keeps_lift (Ok a)). Qed.

Lemma keeps_bind {A B} (m : ST fs A) (k : A -> ST fs B) :
  keeps p m -> (forall a, keeps p (k a)) -> keeps p (st_bind m k).
Proof using.
  intros Hm Hk s r s' E W. unfold st_bind in E. destruct (m s) as [[a|e|] s1] eqn:Em;
    destruct (Hm _ _ _ Em W) as [C1 W1]; [|by injection E as <- <-..].
  destruct (Hk a _ _ _ E W1) as [C2 W2]. split; [congruence|done].
Qed.

(** A call that already succeeded: the rest may depend on its value. *)
Lemma keeps_bind_ok {A B} (a : A) (k : A -> ST fs B) :
  keeps p (k a) -> keeps p (st_bind (st_lift (Ok a)) k).
Proof using. done. Qed.

Lemma keeps_map_err {A} f (m : ST fs A) : keeps p m -> keeps p (st_map_err f m).
Proof using.
  intros Hm s r s' E. unfold st_map_err in E. destruct (m s) as [r1 s1] eqn:Em.
  injection E as <- <-. by apply (Hm _ _ _ Em).
Qed.
Lemma keeps_try {A} (m : ST fs A) : keeps p m -> keeps p (st_try m).
Proof using.
  intros Hm s r s' E. unfold st_try in E. destruct (m s) as [r1 s1] eqn:Em.
  injection E as <- <-. by apply (Hm _ _ _ Em).
Qed.

Lemma keeps_ReadFile q : keeps p (os_ReadFile q).
Proof using. apply keeps_same, os_ReadFile_disk. Qed.
Lemma keeps_Stat q : keeps p (os_Stat q).
Proof using. apply keeps_same. intros s r s' E. by apply os_Stat_outcome in E as [? _]. Qed.

(** A file that was not there gets an inode of its own. *)
Lemma WriteFile_new_keeps q b mode s r s' :
  q <> p -> cur (fs_disk s) q = None -> wf_path (fs_disk s) p ->
  os_WriteFile q b mode s = (r, s') ->
  content (fs_disk s') p = content (fs_disk s) p /\ wf_path (fs_disk s') p.
Proof using.
  intros Hq Hc W E.
  set (I := fun i d => hist d p = hist (fs_disk s) p /\ (next (fs_disk s) <= next d)%nat /\
    (i = next (fs_disk s)) /\
    forall j, (j < next (fs_disk s))%nat -> inodes d !! j = inodes (fs_disk s) !! j).
  assert (HI : forall i d, I i d -> content d p = content (fs_disk s) p /\ wf_path d p).
  { intros i d (Eh & Hn & _ & Ei). destruct W as [Wn Wi]. split.
    - unfold content, cur. rewrite Eh. destruct (hist (fs_disk s) p) as [|[j|] h]; [done| |done].
      rewrite Ei; [done|]. apply (Wi j). left.
    - split; [by rewrite Eh|]. intros j Hj. rewrite Eh in Hj. destruct (Wi j Hj) as [Hlt Hs].
      split; [lia|]. by rewrite Ei. }
  assert (Hw : forall c i d, I i d -> I i (write_op c i d)).
  { intros c i d (Eh & Hn & -> & Ei). unfold write_op. destruct (inodes d !! _); [|done].
    split; [by rewrite hist_set_inode|]. split; [done|]. split; [done|].
    intros j Hj. cbn [set_inode inodes]. rewrite lookup_insert_ne by lia. by apply Ei. }
  unfold os_WriteFile, st_bind at 1 in E.
  destruct (syscall (open_trunc q mode) unchanged s) as [r0 s0] eqn:E0.
  assert (H0 : match r0 with Ok i => I i (fs_disk s0) | _ => fs_disk s0 = fs_disk s end).
  { revert E0. unfold syscall, open_trunc, fail_io, unchanged.
    destruct (fs_faults s) as [|[|n] fl]; [..|by intros [= <- <-]];
      (case_decide; [by intros [= <- <-]|]); (case_decide; [|by intros [= <- <-]]); rewrite Hc;
      unfold new_file; intros [= <- <-]; cbn [fs_put fs_disk];
      (split; [by rewrite hist_push_ne|]); (split; [cbn; lia|]); (split; [done|]);
      intros j Hj; cbn [push_entry inodes]; by rewrite lookup_insert_ne by lia. }
  destruct r0 as [i|e|]; [|by injection E as <- <-; rewrite H0..].
  unfold st_bind, st_try, st_lift in E.
  destruct (f_Write i b s0) as [r1 s1] eqn:E1. destruct (f_Close i s1) as [r2 s2] eqn:E2. injection E as _ <-.
  assert (H1 : I i (fs_disk s1)).
  { revert E1. unfold f_Write, syscall, ok_unit. destruct (fs_faults s0) as [|[|n] fl]; intros [= _ <-]; by apply Hw. }
  assert (H2 : fs_disk s2 = fs_disk s1).
  { revert E2. unfold f_Close, syscall, ok_unit, unchanged. by destruct (fs_faults s1) as [|[|n] fl]; intros [= _ <-]. }
  rewrite H2. by apply (HI i).
Qed.
End Keeps.
#[export] Hint Resolve keeps_lift keeps_ret keeps_bind keeps_map_err keeps_try keeps_ReadFile keeps_Stat : keeps.

(** The keyring's own files are its business: what startup needs is that it
    leaves [p] alone. *)
Class KeyringKeeps (K : KeyringLib) (p : bytes) : Prop := {
  keyring_New_keeps dir rd : keeps p (keyring_New dir rd);
  kr_Key_keeps kr name : keeps p (kr_Key kr name);
}.

(** Follow the structure of a call down to the primitives. *)
Ltac keep :=
  repeat first
    [ solve [auto with keeps nocore]
    | apply keeps_bind; [|intros ?]
    | apply keeps_map_err
    | apply keeps_try
    | match goal with
      | |- keeps _ (match ?x with _ => _ end) => destruct x
      | |- keeps _ (let _ := _ in _) => cbv zeta
      end ].

Section StartupKeeps.
Context {C : Crypto} {L : NodeLib} {K : KeyringLib} {D : Type} {dsm : Dsm D}.
Context {T : CometBFT} {CK : CometKeys} {V : PrivVal FilePV} {X : TlsLib}.
Context (frac_ns : Z -> Z -> Z -> Z) (yaml_Unmarshal : bytes -> result Config.Config).
Context (stdin_tty : bool) (gen : bytes) (p : bytes).

Lemma keeps_require b e : keeps p (require b e).
Proof using. unfold require. keep. Qed.
#[local] Hint Resolve keeps_require : keeps.

Lemma keeps_stat_all l : keeps p (stat_all l).
Proof using. induction l; cbn [stat_all]; keep. Qed.
#[local] Hint Resolve keeps_stat_all : keeps.

Lemma keeps_validate c : keeps p (validate frac_ns c).
Proof using. unfold validate, validate_signer, validate_tls. keep. Qed.
#[local] Hint Resolve keeps_validate : keeps.

Lemma keeps_Load path : keeps p (Load frac_ns yaml_Unmarshal path).
Proof using. unfold Load. keep. Qed.

Lemma keeps_NewSigner {KK : KeyringKeeps K p} reg name raw :
  init_registry stdin_tty = Ok reg -> keeps p (NewSigner reg name raw).
Proof using.
  intros Hr. assert (Hreg : forall n f, reg !! n = Some f -> keeps p (f raw)).
  { revert Hr. unfold init_registry, RegisterBackend. rewrite lookup_empty. cbn [mbind result_bind].
    case_match; [done|]. intros <-%(inj Ok) n f.
    assert (Hf : keeps p (newFileSignerFromConfig (D := D) stdin_tty raw)).
    { unfold newFileSignerFromConfig, NewFileSigner, BuildPasswordReader, buildFilePasswordReader.
      keep; [apply keyring_New_keeps|apply kr_Key_keeps]. }
    assert (Hd : keeps p (newFortanixDSMSignerFromConfig raw)) by (unfold newFortanixDSMSignerFromConfig; keep).
    intros [[_ <-]|[_ [[_ <-]|[_ E]]%lookup_insert_Some]]%lookup_insert_Some; [done..|].
    by rewrite lookup_empty in E. }
  unfold NewSigner, getBackendFactory. destruct (reg !! name) eqn:E; [by eapply Hreg|keep].
Qed.

Lemma keeps_GenOrLoadConnKey q : q <> p -> keeps p (GenOrLoadConnKey gen q).
Proof using.
  intros Hq s r s' E W. unfold GenOrLoadConnKey, st_bind at 1, st_try in E.
  destruct (os_Stat q s) as [r1 s1] eqn:E1. apply os_Stat_outcome in E1 as [Ed Hne].
  assert (HL : keeps p (LoadEd25519PrivKey q)) by (unfold LoadEd25519PrivKey; keep).
  rewrite <-Ed in W |- *.
  destruct r1 as [i|e|]; [by apply (HL _ _ _ E W)| |by apply (HL _ _ _ E W)].
  destruct (os_IsNotExist e) eqn:En; [|by apply (HL _ _ _ E W)].
  destruct (Hne _ eq_refl En) as [_ Hc]. rewrite <-Ed in Hc.
  unfold st_bind, st_ret in E. destruct (os_WriteFile _ _ _ s1) as [r2 s2] eqn:Ew.
  pose proof (WriteFile_new_keeps p q _ _ _ _ _ Hq Hc W Ew). destruct r2; by injection E as _ <-.
Qed.

Lemma keeps_start_consensus cfg :
  ConnKeyFile (Consensus cfg) <> p -> keeps p (start_consensus frac_ns gen cfg).
Proof using.
  intros Hq. pose proof (keeps_GenOrLoadConnKey _ Hq).
  unfold start_consensus, RequireStateFile, LoadCometFilePV. keep.
Qed.

Lemma keeps_server_New cfg (b : @backend C D) : keeps p (BridgeServer.New cfg b).
Proof using. unfold BridgeServer.New, newCheckpointReplayGuard. keep. Qed.

Lemma keeps_build_creds t : keeps p (build_creds t).
Proof using. unfold build_creds, NewServerCredentials, LoadX509KeyPair, loadCACert. keep. Qed.
End StartupKeeps.

Section Started.
Context {C : Crypto} {L : NodeLib} {K : KeyringLib} {D : Type} {dsm : Dsm D}.
Context {T : CometBFT} {CK : CometKeys} {V : PrivVal FilePV} {X : TlsLib}.
Context (frac_ns : Z -> Z -> Z -> Z) (yaml_Unmarshal : bytes -> result Config.Config).
Context (stdin_tty : bool) (gen : bytes) (beside : nat -> fs -> fs).
Abbreviation start := (startDaemon frac_ns yaml_Unmarshal stdin_tty gen beside).
Abbreviation load := (Load frac_ns yaml_Unmarshal).

(** The states a successful startup goes through. *)
Lemma startDaemon_inv configPath s d s' :
  start configPath s = (Ok (Some d), s') ->
  exists s1 reg b0 s2 b pk s3 s4 s5 s6,
    load configPath s = (Ok (dm_cfg d), s1) /\ init_registry stdin_tty = Ok reg /\
    NewSigner reg (Backend (SignerCfg (dm_cfg d))) (ToMap (SignerCfg (dm_cfg d))) s1 = (Ok b0, s2) /\
    Signer.GetPublicKey b0 = (Ok pk, b) /\
    maybe_consensus frac_ns gen (dm_cfg d) s2 = (Ok (dm_consensus d), s3) /\
    clients_run beside 0 (dm_consensus d) s3 = (Ok (), s4) /\
    build_creds (TLS (dm_cfg d)) s4 = (Ok (dm_creds d), s5) /\
    clients_run beside 1 (dm_consensus d) s5 = (Ok (), s6) /\
    BridgeServer.New (server_config (dm_cfg d)) b s6 = (Ok (dm_server d, dm_guard d, dm_backend d), s').
Proof using.
  unfold startDaemon. intros H. apply map_err_bind_inv in H as (cfg & s1 & H1 & H).
  apply lift_bind in H as (lg & _ & H). apply lift_bind in H as (reg & Hr & H).
  unfold st_bind at 1, st_try in H.
  destruct (NewSigner reg _ _ s1) as [[b0|e|] s2] eqn:E2; [|by destruct (errors_Is e _)|done].
  destruct (Signer.GetPublicKey b0) as [rk b] eqn:Ek.
  apply lift_bind in H as (pk & Hk & H). apply lift_bind in H as (pub & _ & H).
  apply bind_inv in H as (cons & s3 & H3 & H). apply bind_inv in H as ([] & s4 & H4 & H).
  apply bind_inv in H as (creds & s5 & H5 & H). apply bind_inv in H as ([] & s6 & H6 & H).
  apply map_err_bind_inv in H as ([[srv g] b'] & s7 & H7 & H). unfold st_ret in H.
  injection H as <- <-. destruct rk as [pk'| |]; try done. apply (inj Ok) in Hk as ->.
  exists s1, reg, b0, s2, b, pk, s3, s4, s5, s6. done.
Qed.

Lemma started_cfg raw configPath s d s' :
  (forall data, yaml_Unmarshal data = Ok raw) ->
  start configPath s = (Ok (Some d), s') -> dm_cfg d = applyDefaults raw.
Proof using.
  intros Hy (s1 & _ & _ & _ & _ & _ & _ & _ & _ & _ & H & _)%startDaemon_inv.
  apply Load_inv in H as (_ & _ & data & raw' & _ & Hr & ->). rewrite Hy in Hr. by apply (inj Ok) in Hr as <-.
Qed.

Lemma start_consensus_inv cfg s cs s' :
  start_consensus frac_ns gen cfg s = (Ok cs, s') ->
  exists s1 s2 pv timeout,
    GenOrLoadConnKey gen (ConnKeyFile (Consensus cfg)) s = (Ok (cs_connKey cs), s1) /\
    RequireStateFile (StateFile (Consensus cfg)) s1 = (Ok (), s2) /\
    LoadCometFilePV (KeyFile (Consensus cfg)) (StateFile (Consensus cfg)) s2 = (Ok pv, s') /\
    pv_Address pv = Ok (cs_valAddr cs) /\
    FailoverTimeout frac_ns (Consensus cfg) = Ok timeout /\
    cs_system cs = start_clients (TargetList (Consensus cfg))
      (Shared (new_arbiter (Consensus cfg) timeout) pv (Metrics ∅ ∅ ∅)).
Proof using.
  unfold start_consensus. cbv zeta. intros H.
  apply map_err_bind_inv in H as (ck & s1 & H1 & H). apply map_err_bind_inv in H as ([] & s2 & H2 & H).
  apply map_err_bind_inv in H as (pv & s3 & H3 & H). apply lift_bind in H as (va & Hv & H).
  apply lift_bind in H as (tm & Ht & H). unfold st_ret in H. injection H as <- <-.
  unfold ValidatorAddressForHandler in Hv. cbn [fst] in Hv.
  destruct (pv_Address pv) as [a| |] eqn:Ea; try done. apply (inj Ok) in Hv as ->.
  destruct (FailoverTimeout frac_ns (Consensus cfg)) as [t| |] eqn:Ef; try done. apply (inj Ok) in Ht as ->.
  exists s1, s2, pv, tm. done.
Qed.

Lemma start_clients_shared {P} targets (s : shared P) :
  s_arbiter (sys_shared (start_clients targets s)) = s_arbiter s /\
  s_pv (sys_shared (start_clients targets s)) = s_pv s.
Proof using.
  unfold start_clients. cbn [sys_shared]. revert s.
  induction targets as [|t ts IH]; intros s; cbn [foldl]; [done|]. by rewrite !(proj1 (IH _)), !(proj2 (IH _)).
Qed.

(** The election a configuration asks for. *)
Definition elects_as_configured (c : ConsensusConfig) (tm : Z) (arbiter : option PrimaryArbiter) : Prop :=
  (tm <= 0 -> arbiter = None) /\
  (0 < tm -> exists a, arbiter = Some a /\ timeout a = tm /\ primary a = [] /\ maxHeight a = 0 /\
     forall id, Arbiter.rank a !! id =
       if PreferTargetOrder c
       then (fun p => Z.of_nat (fst p)) <$> list_find (fun t => t = id) (TargetList c)
       else None).

Lemma new_arbiter_elects c tm : elects_as_configured c tm (new_arbiter c tm).
Proof using.
  unfold elects_as_configured, new_arbiter. split; intros Ht.
  - by destruct (Z.gtb_spec tm 0); [lia|].
  - destruct (Z.gtb_spec tm 0); [|lia]. eexists. split; [done|]. split; [done|]. split; [done|]. split; [done|].
    intros id. cbn [Arbiter.rank NewPreferringPrimaryArbiter]. rewrite build_rank_lookup, lookup_empty.
    by destruct (PreferTargetOrder c).
Qed.

(** (C26) What runs is what was configured: a daemon that starts has a valid
    configuration; unless insecure is chosen it requires and verifies client
    certificates over TLS 1.3 at least; its server has the configured
    allowlist, chain id and RPC switches; and with consensus signing on it
    dials each configured target, and has an arbiter exactly when a failover
    timeout above zero is set: with that timeout, nobody in the role yet, and
    each target ranked by its first place in the list when that order is to
    be preferred - and no target ranked otherwise. *)
Theorem started_daemon_as_configured configPath s d s' :
  start configPath s = (Ok (Some d), s') ->
  let cfg := dm_cfg d in
  config_ok frac_ns cfg /\
  (if Insecure (TLS cfg) then dm_creds d = None
   else exists c, dm_creds d = Some c /\ RequireAndVerifyClientCert c = true /\
          is_Some (ClientCAs c) /\ MinVersion c = VersionTLS13) /\
  (allowedMsgTypes (dm_server d) = list_to_set (cfgAllowedMsgTypes (ServerCfg cfg)) /\
   chainID (dm_server d) = ChainID cfg /\
   enabledRPCs (dm_server d) = EnabledRPCsFromConfig (cfgEnabledRPCs (ServerCfg cfg)) /\
   (forall name full, full_of_short name = Some full ->
      enabledRPCs (dm_server d) !! full = cfgEnabledRPCs (ServerCfg cfg) !! name)) /\
  if Enabled (Consensus cfg) then
    exists cs timeout, dm_consensus d = Some cs /\
      c_id <$> clients (cs_system cs) = TargetList (Consensus cfg) /\
      FailoverTimeout frac_ns (Consensus cfg) = Ok timeout /\
      elects_as_configured (Consensus cfg) timeout (cs_arbiter cs)
  else dm_consensus d = None.
Proof using.
  intros (s1 & reg & b0 & s2 & b & pk & s3 & s4 & s5 & s6 & H1 & _ & _ & _ & H3 & _ & H4 & _ & H5)%startDaemon_inv. cbv zeta.
  apply Load_inv in H1 as [Hok _]. split; [done|]. split; [|split].
  - revert H4. unfold build_creds. destruct (Insecure (TLS (dm_cfg d))); [by intros [= <- _]|].
    intros H. apply map_err_bind_inv in H as (c & s7 & Hc & H). injection H as <- _.
    unfold NewServerCredentials in Hc. apply map_err_bind_inv in Hc as (cert & s8 & _ & Hc).
    apply map_err_bind_inv in Hc as (pool & s9 & _ & Hc). injection Hc as <- _. eauto.
  - apply New_inv in H5 as (pk' & pub & _ & _ & _ & ->). split; [done|]. split; [done|]. split; [done|].
    intros name full Hf. exact (proj1 (enabled_rpcs_config _) name full Hf).
  - revert H3. unfold maybe_consensus. destruct (Enabled (Consensus (dm_cfg d))); [|by intros [= <- _]].
    intros H. apply bind_inv in H as (cs & s7 & Hc & H). injection H as <- _.
    apply start_consensus_inv in Hc as (s8 & s9 & pv & tm & _ & _ & _ & _ & Hf & Hs).
    exists cs, tm. split; [done|]. unfold cs_arbiter. rewrite Hs, (proj1 (start_clients_shared _ _)).
    split; [|split; [done|apply new_arbiter_elects]].
    unfold start_clients. cbn [clients]. rewrite <-list_fmap_compose. apply list_fmap_id.
Qed.

Lemma keeps_after_load p {KK : KeyringKeeps K p} cfg :
  (Enabled (Consensus cfg) = true -> ConnKeyFile (Consensus cfg) <> p) ->
  keeps p (maybe_consensus frac_ns gen cfg).
Proof using.
  intros Hc. unfold maybe_consensus. destruct (Enabled (Consensus cfg)); [|keep].
  pose proof (keeps_start_consensus frac_ns gen p cfg (Hc eq_refl)). keep.
Qed.

(** [m] preserves [Q] of the file's content. *)
Definition preserves (p : bytes) (Q : option bytes -> Prop) {A} (m : ST fs A) : Prop :=
  forall s r s', m s = (r, s') -> wf_path (fs_disk s) p -> Q (content (fs_disk s) p) ->
    Q (content (fs_disk s') p) /\ wf_path (fs_disk s') p.

Lemma keeps_preserves p Q {A} (m : ST fs A) : keeps p m -> preserves p Q m.
Proof using. intros H s r s' E W HQ. by destruct (H _ _ _ E W) as [-> ?]. Qed.

Lemma preserves_bind p Q {A A'} (m : ST fs A) (k : A -> ST fs A') :
  preserves p Q m -> (forall a, preserves p Q (k a)) -> preserves p Q (st_bind m k).
Proof using.
  intros Hm Hk s r s' E W HQ. unfold st_bind in E. destruct (m s) as [[a|e|] s1] eqn:Em;
    destruct (Hm _ _ _ Em W HQ) as [C1 W1]; [|by injection E as <- <-..]. by eapply Hk.
Qed.

Lemma preserves_bind_ok p Q {A A'} (a : A) (k : A -> ST fs A') :
  preserves p Q (k a) -> preserves p Q (st_bind (st_lift (Ok a)) k).
Proof using. done. Qed.

(** (C27) Startup writes no state of its own: whatever [runDaemon]'s startup
    returns - also when it fails half way - any property of what a file
    holds that the dial clients' own writes preserve, while they run beside
    the rest of startup, is preserved, for every file but the connection key
    and the keyring's own.  So a file the clients never write, such as the
    checkpoint guard's, holds what it held before; and the last-sign state
    is never created or reset by startup, and moves only as the clients
    that are already signing save it. *)
Theorem start_leaves_files configPath p {KK : KeyringKeeps K p} (Q : option bytes -> Prop) s r s' :
  wf_path (fs_disk s) p ->
  (forall cfg s1, load configPath s = (Ok cfg, s1) -> Enabled (Consensus cfg) = true ->
     ConnKeyFile (Consensus cfg) <> p) ->
  (forall i s0, wf_path (fs_disk s0) p -> Q (content (fs_disk s0) p) ->
     Q (content (fs_disk (beside i s0)) p) /\ wf_path (fs_disk (beside i s0)) p) ->
  start configPath s = (r, s') ->
  Q (content (fs_disk s) p) -> Q (content (fs_disk s') p).
Proof using.
  intros W Hck Hb H HQ. unfold startDaemon in H.
  unfold st_bind at 1, st_map_err at 1 in H. destruct (load configPath s) as [rc s1] eqn:El.
  destruct (keeps_Load frac_ns yaml_Unmarshal p configPath _ _ _ El W) as [C1 W1].
  rewrite <-C1 in HQ. destruct rc as [cfg|e|]; cbn [map_err] in H; [|by injection H as <- <-..].
  assert (Hrest : forall m : ST fs (option daemon), preserves p Q m -> m s1 = (r, s') -> Q (content (fs_disk s') p))
    by (intros m Hm E; by destruct (Hm _ _ _ E W1 HQ)).
  refine (Hrest _ _ H). apply preserves_bind; [apply keeps_preserves, keeps_lift|intros _].
  destruct (init_registry stdin_tty) as [reg|e|] eqn:Er;
    [|apply keeps_preserves, (keeps_lift p (Err e))|apply keeps_preserves, (keeps_lift p Panic)].
  apply preserves_bind_ok.
  assert (Hcr : forall i cons, preserves p Q (clients_run beside i cons)).
  { intros i [cs|]; [|apply keeps_preserves, keeps_ret]. intros s0 r0 s0' [= _ <-]. apply Hb. }
  apply preserves_bind; [apply keeps_preserves, keeps_try, (keeps_NewSigner stdin_tty p reg _ _ Er)|].
  intros [b0|e|]; [|apply keeps_preserves; by case_match; keep|apply keeps_preserves, (keeps_lift p Panic)].
  destruct (Signer.GetPublicKey b0) as [rk b].
  apply preserves_bind; [apply keeps_preserves, keeps_lift|intros pk].
  apply preserves_bind; [apply keeps_preserves, keeps_lift|intros _].
  apply preserves_bind; [apply keeps_preserves, (keeps_after_load p cfg (Hck cfg s1 eq_refl))|intros cons].
  apply preserves_bind; [apply Hcr|intros _].
  apply preserves_bind; [apply keeps_preserves, keeps_build_creds|intros creds].
  apply preserves_bind; [apply Hcr|intros _].
  pose proof (keeps_server_New p) as Hsrv. apply keeps_preserves. keep.
Qed.

(** What startup relies on for a file it resumes from. *)
Definition undisturbed (cfg : Config.Config) (s : fs) (p : bytes) : Prop :=
  KeyringKeeps K p /\ wf_path (fs_disk s) p /\ ConnKeyFile (Consensus cfg) <> p.

(** (C6) A restart resumes: the daemon that starts holds, in the validator it
    signs votes with, exactly the last-sign state the state file had when
    startup began - a missing file stops it - and, in the checkpoint guard,
    exactly the mark and memo of the guard's file; provided the keyring
    leaves these two files alone and neither is the connection key, and the
    dial clients, which run from the moment they are started, leave the
    guard's file alone. *)
Theorem started_daemon_resumes configPath s d s' :
  start configPath s = (Ok (Some d), s') ->
  let cfg := dm_cfg d in
  (CheckpointGuardStatePath cfg <> [] -> undisturbed cfg s (CheckpointGuardStatePath cfg) ->
   (forall i, keeps (CheckpointGuardStatePath cfg) (clients_run beside i (dm_consensus d))) ->
   content_guard (CheckpointGuardStatePath cfg) (content (fs_disk s) (CheckpointGuardStatePath cfg)) = Ok (dm_guard d)) /\
  (Enabled (Consensus cfg) = true -> undisturbed cfg s (StateFile (Consensus cfg)) ->
   exists cs b, dm_consensus d = Some cs /\ content (fs_disk s) (StateFile (Consensus cfg)) = Some b /\
     cmtjson_state b = Ok (LastSign (s_pv (sys_shared (cs_system cs))))).
Proof using.
  intros (s1 & reg & b0 & s2 & b & pk & s3 & s4 & s5 & s6 & H1 & Hr & H2 & _ & H3 & R4 & H4 & R6 & H5)%startDaemon_inv.
  cbv zeta.
  apply Load_inv in H1 as (_ & E1 & _). rewrite <-E1. unfold undisturbed. rewrite <-E1. split.
  - intros Hne (KK & W & Hck) Hrun. set (p := CheckpointGuardStatePath (dm_cfg d)) in *.
    destruct (keeps_NewSigner stdin_tty p reg _ _ Hr _ _ _ H2 W) as [C2 W2].
    destruct (keeps_after_load p _ (fun _ => Hck) _ _ _ H3 W2) as [C3 W3].
    destruct (Hrun 0%nat _ _ _ R4 W3) as [D4 W4]. destruct (keeps_build_creds p _ _ _ _ H4 W4) as [C4 W5].
    destruct (Hrun 1%nat _ _ _ R6 W5) as [D6 W6].
    apply New_inv in H5 as (pk' & pub & _ & _ & [_ Hg]%load_inv & _); [|done].
    cbn [server_config BridgeServer.CheckpointGuardStatePath] in Hg. fold p in Hg. by rewrite <-C2, <-C3, <-D4, <-C4, <-D6.
  - intros En (KK & W & Hck). set (p := StateFile (Consensus (dm_cfg d))) in *.
    destruct (keeps_NewSigner stdin_tty p reg _ _ Hr _ _ _ H2 W) as [C2 W2].
    unfold maybe_consensus in H3. rewrite En in H3. apply bind_inv in H3 as (cs & s7 & Hc & H3). injection H3 as H3 _.
    apply start_consensus_inv in Hc as (s8 & s9 & pv & tm & Hk & Hq & Hl & _ & _ & Hs).
    destruct (keeps_GenOrLoadConnKey gen p _ Hck _ _ _ Hk W2) as [C6 W6].
    destruct (required_state_facts _ _ _ _ _ _ W6 Hq Hl) as (_ & (bb & Hb & Hst) & _).
    exists cs, bb. rewrite Hs, (proj2 (start_clients_shared _ _)). split; [done|]. split; [|done].
    rewrite <-C2, <-C6. exact Hb.
Qed.

(** The two tables of short RPC names, kept in step by hand in the source. *)
Lemma rpc_tables_agree : knownRPCShortNames = KnownShortRPCNames.
Proof using. apply (bool_decide_unpack _). vm_compute. exact I. Qed.

Lemma known_has_method name : name ∈ knownRPCShortNames -> is_Some (full_of_short name).
Proof using.
  rewrite rpc_tables_agree. unfold KnownShortRPCNames. intros Hn%elem_of_list_to_set.
  assert (H : Forall (fun n => is_Some (full_of_short n)) (map fst shortRPCNameToFullMethod))
    by (repeat constructor; vm_compute; eexists; reflexivity).
  rewrite Forall_forall in H. by apply H.
Qed.

(** A switch in the configuration takes effect: in a daemon that starts,
    every name under [server.enabled_rpcs] stands for a method of the
    service, and one set to false makes that method answer Unimplemented to
    every caller, whoever is primary, with the state untouched but for the
    connection's debug line. *)
Theorem rpc_switches_take_effect {E : GoEthereum} configPath s d s' name v :
  start configPath s = (Ok (Some d), s') ->
  cfgEnabledRPCs (ServerCfg (dm_cfg d)) !! name = Some v ->
  exists full, full_of_short name = Some full /\
    (v = false -> forall req arb from w, FullMethodName req = full ->
       daemon_serve d arb from req w =
       (status Unimplemented "method %s is disabled" [AStr full], add_lines (connection_lines from) w)).
Proof using.
  intros (s1 & reg & b0 & s2 & b & pk & s3 & s4 & s5 & s6 & H1 & _ & _ & _ & _ & _ & _ & _ & H5)%startDaemon_inv Hn.
  apply Load_inv in H1 as [Hok _]. destruct (known_has_method name) as [full Hf].
  { apply (co_rpcs _ _ Hok). apply elem_of_dom. eauto. }
  exists full. split; [done|]. intros -> req arb from w Hr.
  apply New_inv in H5 as (pk' & pub & _ & _ & _ & Hsrv).
  unfold daemon_serve. rewrite chain_eq, Hr. unfold newUnaryInterceptor, newEnabledRPCInterceptor. cbn [FullMethod].
  rewrite Hsrv. cbn [enabledRPCs server_config EnabledRPCs].
  rewrite (proj1 (enabled_rpcs_config _) name full Hf), Hn. done.
Qed.
End Started.


(** ** A concrete daemon

    A key file, a state file and an insecure file-backend configuration with
    consensus signing and an election. *)

#[local] Existing Instance reference_crypto.
#[local] Existing Instance reference_node.
#[local] Existing Instance reference_dsm.
#[local] Existing Instance reference_comet.
#[local] Existing Instance reference_keys.

(** A keyring in memory. *)
#[local] Instance reference_keyring : KeyringLib := {
  Any := bytes;
  KR := unit;
  UnpackAny k := Ok (SecpKey k);
  keyring_New _ _ := st_ret ();
  kr_Key _ name := st_ret (name, Some (replicate 32 x01));
}.

#[local] Instance reference_keyring_keeps p : KeyringKeeps reference_keyring p.
Proof. split; intros; apply keeps_ret. Qed.

#[local] Instance reference_file_pv : PrivVal (FilePV (K := reference_keys)) := {
  pv_Address _ := Ok (replicate 20 x07);
  DefaultValidationRequestHandler _ _ := fun pv => (Ok (PingResponse, None), pv);
}.

#[local] Instance reference_tls : TlsLib := {
  certificate := bytes;
  X509KeyPair c _ := Ok c;
  AppendCertsFromPEM b := negb (beq b []);
}.

Definition put_file (p b : bytes) (d : disk) : disk :=
  let '(i, d') := new_file p 384 d in sync_entries (Dir p) (sync_op i (write_op b i d')).

Definition daemon_config : Config.Config :=
  MkConfig (bs "tellor-1")
    (MkConsensus (bs "/data/key.json") (bs "/data/state.json") (bs "/data/conn.key")
       (bs "tcp://10.0.0.1:26659, tcp://10.0.0.2:26659") (bs "30s") true)
    (MkSignerCfg BackendFile (bs "/data") (bs "validator") (bs "/data/pw") [] [] [] [])
    (MkServerCfg [] [] 0 0 [bs "/layer.oracle.MsgSubmitValue"] [] {[ bs "sign_initial" := false ]} false)
    (MkTLS true [] [] []) (MkLog [] []).

Definition daemon_disk : disk :=
  put_file (bs "/data/pw") (bs "secret")
    (put_file (bs "/data/state.json") (bs "state")
       (put_file (bs "/data/key.json") (bs "key")
          (put_file (bs "/data/bridge_checkpoint_state.json") (bs "100")
             (put_file (bs "/data/config.yaml") (bs "yaml") empty_disk)))).

(** A complete file put in the place of [q], as an atomic save does. *)
Definition save_at (q b : bytes) (s : fs) : fs :=
  let d := fs_disk s in
  Fs (push_entry q (Some (next d))
        (Disk (<[next d := Inode b 384 true]> (inodes d)) (entries d) (dirs d) (S (next d))))
     (fs_faults s) (fs_names s) (fs_trace s).

Lemma save_at_self q b s :
  wf_path (fs_disk s) q ->
  content (fs_disk (save_at q b s)) q = Some b /\ wf_path (fs_disk (save_at q b s)) q.
Proof.
  intros [_ W]. unfold save_at, content, cur, wf_path. cbn [fs_disk]. rewrite hist_push_eq.
  cbn [push_entry inodes next]. split; [by rewrite lookup_insert_eq|]. split; [done|].
  intros j [[= ->]|Hj]%elem_of_cons; [split; [lia|by rewrite lookup_insert_eq]|].
  destruct (W j Hj) as [Hl Hs]. split; [lia|]. by rewrite lookup_insert_ne by lia.
Qed.

Lemma save_at_other p q b s :
  p <> q -> wf_path (fs_disk s) p ->
  content (fs_disk (save_at q b s)) p = content (fs_disk s) p /\ wf_path (fs_disk (save_at q b s)) p.
Proof.
  intros Hpq [Wn W]. unfold save_at, content, cur, wf_path. cbn [fs_disk]. rewrite hist_push_ne by done.
  cbn [push_entry inodes next]. change (hist (Disk _ (entries (fs_disk s)) _ _) p) with (hist (fs_disk s) p).
  split; [|split; [done|]].
  - destruct (hist (fs_disk s) p) as [|[j|] h]; [done| |done]. destruct (W j) as [Hl _]; [left|].
    by rewrite lookup_insert_ne by lia.
  - intros j Hj. destruct (W j Hj) as [Hl Hs]. split; [lia|]. by rewrite lookup_insert_ne by lia.
Qed.

(** The clients save the last-sign state once while startup goes on. *)
Definition sample_beside (i : nat) (s : fs) : fs :=
  match i with O => save_at (bs "/data/state.json") (bs "saved") s | _ => s end.

Abbreviation sample_start :=
  (startDaemon no_fraction (fun _ => Ok daemon_config) false sample_key sample_beside (bs "/data/config.yaml")
     (fresh_fs daemon_disk)).

Lemma sample_start_ok : exists d s', sample_start = (Ok (Some d), s').
Proof.
  assert (H : match fst sample_start with Ok (Some _) => true | _ => false end = true) by (vm_compute; reflexivity).
  destruct sample_start as [[[d|]| |] s']; try discriminate H. eauto.
Qed.

Lemma sample_start_cfg d s' : sample_start = (Ok (Some d), s') -> dm_cfg d = applyDefaults daemon_config.
Proof. apply started_cfg. done. Qed.

Lemma started_daemon_as_configured_witness :
  exists d s', sample_start = (Ok (Some d), s') /\ config_ok no_fraction (dm_cfg d) /\
    exists cs a, dm_consensus d = Some cs /\ c_id <$> clients (cs_system cs) = [nodeA; nodeB] /\
      cs_arbiter cs = Some a /\ timeout a = 30 * second /\ Arbiter.rank a !! nodeB = Some 1.
Proof.
  destruct sample_start_ok as (d & s' & E). exists d, s'. split; [done|].
  pose proof (sample_start_cfg _ _ E) as Ec.
  destruct (started_daemon_as_configured _ _ _ _ _ _ _ _ _ E) as (H & _ & _ & Hc). split; [done|].
  rewrite Ec in Hc. destruct Hc as (cs & tm & Hd & Ht & Hf & _ & He).
  assert (tm = 30 * second) as -> by (injection Hf; vm_compute; congruence).
  destruct He as (a & Ha & Htm & _ & _ & Hr); [by vm_compute|].
  exists cs, a. split; [done|]. split; [rewrite Ht; by vm_compute|]. split; [done|]. split; [done|].
  rewrite Hr. by vm_compute.
Defined.

Lemma single_wf d p i :
  hist d p = [Some i] -> (i < next d)%nat -> is_Some (inodes d !! i) -> wf_path d p.
Proof.
  intros Hh Hi Hn. split; [by rewrite Hh|]. intros j. rewrite Hh. intros [= ->]%list_elem_of_singleton. done.
Qed.

Lemma state_file_wf : wf_path (fs_disk (fresh_fs daemon_disk)) (bs "/data/state.json").
Proof. apply (single_wf _ _ 3); [by vm_compute|vm_compute; lia|by eexists]. Qed.
Lemma guard_file_wf : wf_path (fs_disk (fresh_fs daemon_disk)) (bs "/data/bridge_checkpoint_state.json").
Proof. apply (single_wf _ _ 1); [by vm_compute|vm_compute; lia|by eexists]. Qed.

(** The state file holds what it held, or what the clients saved; the
    guard's is untouched. *)
Lemma start_leaves_files_witness :
  (content (fs_disk (snd sample_start)) (bs "/data/state.json") = Some (bs "state") \/
   content (fs_disk (snd sample_start)) (bs "/data/state.json") = Some (bs "saved")) /\
  content (fs_disk (snd sample_start)) (bs "/data/bridge_checkpoint_state.json") = Some (bs "100").
Proof.
  destruct sample_start as [r s'] eqn:E. cbn [snd].
  assert (Hck : forall q, bs "/data/conn.key" <> q -> forall cfg s1,
    Load no_fraction (fun _ => Ok daemon_config) (bs "/data/config.yaml") (fresh_fs daemon_disk) = (Ok cfg, s1) ->
    Enabled (Consensus cfg) = true -> ConnKeyFile (Consensus cfg) <> q).
  { intros q Hq cfg s1 Hl _. apply Load_inv in Hl as (_ & _ & data & raw & _ & Hr & ->).
    by apply (inj Ok) in Hr as <-. }
  split.
  - refine (start_leaves_files _ _ _ _ _ _ (bs "/data/state.json")
      (fun c => c = Some (bs "state") \/ c = Some (bs "saved")) _ _ _ _ _ _ E (or_introl _)); [| | |by vm_compute].
    + exact state_file_wf.
    + apply Hck. discriminate.
    + intros [|i] s0 W HQ; [|exact (conj HQ W)]. destruct (save_at_self (bs "/data/state.json") (bs "saved") s0 W) as [Hs Ws].
      split; [right; exact Hs|exact Ws].
  - refine (start_leaves_files _ _ _ _ _ _ (bs "/data/bridge_checkpoint_state.json")
      (fun c => c = Some (bs "100")) _ _ _ _ _ _ E _); [| | |by vm_compute].
    + exact guard_file_wf.
    + apply Hck. discriminate.
    + intros [|i] s0 W HQ; [|exact (conj HQ W)].
      destruct (save_at_other (bs "/data/bridge_checkpoint_state.json") (bs "/data/state.json") (bs "saved") s0) as [Hs Ws];
        [discriminate|exact W|]. split; [etrans; [exact Hs|exact HQ]|exact Ws].
Defined.

Lemma started_daemon_resumes_witness :
  exists d s', sample_start = (Ok (Some d), s') /\
    guard_of_data (bs "/data/bridge_checkpoint_state.json") (bs "100") = Ok (dm_guard d) /\
    exists cs b, dm_consensus d = Some cs /\ content daemon_disk (bs "/data/state.json") = Some b /\
      cmtjson_state b = Ok (LastSign (s_pv (sys_shared (cs_system cs)))).
Proof.
  destruct sample_start_ok as (d & s' & E). exists d, s'. split; [done|].
  pose proof (sample_start_cfg _ _ E) as Ec.
  destruct (started_daemon_resumes _ _ _ _ _ _ _ _ _ E) as [Hg Hs]. rewrite Ec in Hg, Hs. split.
  - apply Hg; [by vm_compute| |].
    + split; [apply reference_keyring_keeps|]. split; [|by vm_compute].
      exact guard_file_wf.
    + intros i. unfold clients_run. destruct (dm_consensus d); [|apply keeps_ret].
      intros s0 r0 s1 [= _ <-] W. destruct i as [|i]; [|exact (conj eq_refl W)].
      apply save_at_other; [discriminate|exact W].
  - apply Hs; [by vm_compute|]. split; [apply reference_keyring_keeps|]. split; [|by vm_compute].
    exact state_file_wf.
Defined.

#[local] Existing Instance reference_eth.

Lemma rpc_switches_take_effect_witness :
  exists d s', sample_start = (Ok (Some d), s') /\
    forall op rid arb from w, daemon_serve d arb from (SignInitialRequest op rid) w =
      (status Unimplemented "method %s is disabled" [AStr MethodSignInitial], add_lines (connection_lines from) w).
Proof.
  destruct sample_start_ok as (d & s' & E). exists d, s'. split; [done|].
  pose proof (sample_start_cfg _ _ E) as Ec.
  destruct (rpc_switches_take_effect _ _ _ _ _ _ _ _ _ (bs "sign_initial") false E) as (full & Hf & H).
  - rewrite Ec. by vm_compute.
  - assert (full = MethodSignInitial) as -> by (apply (inj Some); rewrite <-Hf; by vm_compute).
    intros op rid arb from w. by apply H.
Defined.
