(* ===== verification/SignLedger.v ===== *)
(** * Consensus signatures over the life of a validator
      ([consensus/locked_pv.go], [handler.go], [server.go], [loadpv.go],
      [cmd/bridge-signer/cmd_start.go])

    Several nodes share one consensus key and one last-sign state: their dial
    clients call the same locked validator, the process is killed at any
    moment - also inside the validator's call - and a new one starts from the
    state file.  This file keeps the ledger of every vote and proposal that
    was answered with a signature, over all clients and restarts, and shows
    that no two of them conflict.

    CometBFT's [FilePV] is a parameter.  What is used of it is what its
    documentation says of one call ([FilePVLaws]): the last-sign state never
    goes back, and a signature is for exactly the position and bytes the
    state then records.  It saves that state before it returns; between
    processes the file is left alone. *)

From S2P Require Import Prelude GoStd Fs Signer Arbiter Config BridgeServer Privval ConnKey Daemon.
From Stdlib Require Import Sorted.

(** ** Marks *)

(** A height, a round and a step, and the bytes signed there. *)
Definition position : Type := Z * Z * Z.
Definition mark : Type := position * bytes.

Definition pos_lt (a b : position) : Prop :=
  let '(h, r, s) := a in let '(h', r', s') := b in
  h < h' \/ (h = h' /\ (r < r' \/ (r = r' /\ s < s'))).

(** Strictly later, or the very same. *)
Definition mark_le (a b : mark) : Prop := pos_lt (fst a) (fst b) \/ a = b.

Lemma pos_lt_irrefl a : ~ pos_lt a a.
Proof. destruct a as [[h r] s]. unfold pos_lt. lia. Qed.

Lemma pos_lt_trans a b c : pos_lt a b -> pos_lt b c -> pos_lt a c.
Proof. destruct a as [[h r] s], b as [[h' r'] s'], c as [[h'' r''] s'']. unfold pos_lt. lia. Qed.

#[export] Instance mark_le_po : PartialOrder mark_le.
Proof.
  split; [split|].
  - intros a. by right.
  - intros a b c [Hab| ->] [Hbc| <-]; unfold mark_le; eauto using pos_lt_trans.
  - intros a b [Hab|] [Hba|]; try done. destruct (pos_lt_irrefl (fst a)). by eapply pos_lt_trans.
Qed.

(** Comparable marks at one position are one mark. *)
Lemma mark_le_same a b : mark_le a b \/ mark_le b a -> fst a = fst b -> a = b.
Proof. intros [[H| ->]|[H| ->]] He; try done; rewrite He in H; by apply pos_lt_irrefl in H. Qed.

(** Two members of a sorted list are related one way or the other. *)
Lemma sorted_related {A} (R : A -> A -> Prop) l x y :
  StronglySorted R l -> x ∈ l -> y ∈ l -> R x y \/ R y x \/ x = y.
Proof.
  induction 1 as [|z l _ IH Hz]; [by rewrite elem_of_nil|]. rewrite Forall_forall in Hz.
  rewrite !elem_of_cons. intros [->|Hx] [->|Hy]; eauto.
Qed.

(** ** What is signed *)

Section Signed.
Context {T : CometBFT}.

Inductive signable := SVote (v : Vote) | SProposal (p : Proposal).

(** What a response carries a signature for, and what a request asks for. *)
Definition signed_in (res : message) : option signable :=
  match res with
  | SignedVoteResponse (Some v) None => Some (SVote v)
  | SignedProposalResponse (Some p) None => Some (SProposal p)
  | _ => None
  end.

Definition asked_for (req : message) : option signable :=
  match req with
  | SignVoteRequest _ (Some v) => Some (SVote v)
  | SignProposalRequest _ (Some p) => Some (SProposal p)
  | _ => None
  end.

(** CometBFT: the step of a vote type and of a proposal, and the canonical
    bytes a signature is over. *)
Class FilePVLib := {
  voteToStep : Z -> Z;
  stepPropose : Z;
  VoteSignBytes : bytes -> Vote -> bytes;
  ProposalSignBytes : bytes -> Proposal -> bytes;
}.

Context {FL : FilePVLib}.

Definition position_of (x : signable) : position :=
  match x with
  | SVote v => (vHeight v, vRound v, voteToStep (vType v))
  | SProposal p => (pHeight p, pRound p, stepPropose)
  end.

Definition sign_bytes (chainID : bytes) (x : signable) : bytes :=
  match x with
  | SVote v => VoteSignBytes chainID v
  | SProposal p => ProposalSignBytes chainID p
  end.
End Signed.

Definition state_mark (st : LastSignState) : mark := ((lsHeight st, lsRound st, lsStep st), lsSignBytes st).

(** What one call of the validator promises. *)
Class FilePVLaws {T : CometBFT} {FL : FilePVLib} {CK : CometKeys} (V : PrivVal FilePV) := {
  state_advances req chainID (p : FilePV) r p' :
    DefaultValidationRequestHandler req chainID p = (Ok r, p') ->
    mark_le (state_mark (LastSign p)) (state_mark (LastSign p'));
  state_records req chainID (p : FilePV) res e p' x :
    DefaultValidationRequestHandler req chainID p = (Ok (res, e), p') -> signed_in res = Some x ->
    state_mark (LastSign p') = (position_of x, sign_bytes chainID x);
  signs_what_is_asked req chainID (p : FilePV) res e p' x :
    DefaultValidationRequestHandler req chainID p = (Ok (res, e), p') -> signed_in res = Some x ->
    exists y, asked_for req = Some y /\ position_of x = position_of y;
}.

(** ** The life of the validator *)

Section Life.
Context {T : CometBFT} {LT : CometBFTLaws T} {FL : FilePVLib} {CK : CometKeys} {V : PrivVal FilePV}.
Context (statePath : bytes).

(** A signature handed back to a connection. *)
Record signature := Signature {
  sg_client : bytes;
  sg_valAddr : bytes;
  sg_chain : bytes;
  sg_request : message;
  sg_what : signable;
}.

Definition sg_mark (g : signature) : mark := (position_of (sg_what g), sign_bytes (sg_chain g) (sg_what g)).

(** The running process - the address and chain id its handler was built
    with, the dial clients -, what the state file holds, and the ledger,
    newest first. *)
Record life := Life {
  lf_valAddr : bytes;
  lf_chain : bytes;
  lf_sys : system FilePV;
  lf_file : bytes;
  lf_signed : list signature;
}.

Definition pv_of (x : system FilePV) : FilePV := s_pv (sys_shared x).

(** The state file after a call that took the validator from [p] to [p']. *)
Definition saves (p p' : FilePV) (file file' : bytes) : Prop :=
  (LastSign p' = LastSign p /\ file' = file) \/ cmtjson_state file' = Ok (LastSign p').

Definition answered (valAddr chain : bytes) (l : label) : list signature :=
  match l with
  | LHandled id req res =>
      match signed_in res with
      | Some x => [Signature id valAddr chain req x]
      | None => []
      end
  | _ => []
  end.

(** What a killed process leaves: the file as it is, or as the call that
    was in progress had already saved it. *)
Inductive stop_file (lf : life) : bytes -> Prop :=
| stop_idle : stop_file lf (lf_file lf)
| stop_in_call id req b o r p' file' :
    Client id (PHandling req) b o ∈ clients (lf_sys lf) ->
    ValidationRequestHandler (lf_valAddr lf) req (lf_chain lf) (pv_of (lf_sys lf)) = (Ok r, p') ->
    saves (pv_of (lf_sys lf)) p' (lf_file lf) file' ->
    stop_file lf file'.

(** The consensus part of the daemon starts, with any configuration that
    names this state file, on a disk where the file holds [file]. *)
Inductive starts (file : bytes) : bytes -> bytes -> system FilePV -> Prop :=
| starts_intro frac_ns gen cfg s cs s' :
    StateFile (Consensus cfg) = statePath -> ConnKeyFile (Consensus cfg) <> statePath ->
    wf_path (fs_disk s) statePath -> content (fs_disk s) statePath = Some file ->
    start_consensus frac_ns gen cfg s = (Ok cs, s') ->
    starts file (cs_valAddr cs) (ChainID cfg) (cs_system cs).

Inductive life_step : life -> life -> Prop :=
| life_client va chain x file sg l x' file' :
    sys_step (ValidationRequestHandler va) chain l x x' ->
    saves (pv_of x) (pv_of x') file file' ->
    life_step (Life va chain x file sg) (Life va chain x' file' (answered va chain l ++ sg))
| life_restart lf file va chain x :
    stop_file lf file -> starts file va chain x ->
    life_step lf (Life va chain x file (lf_signed lf)).

Inductive life_boot : life -> Prop :=
| life_boot_intro file va chain x : starts file va chain x -> life_boot (Life va chain x file []).

Definition life_reachable (lf : life) : Prop := exists lf0, life_boot lf0 /\ rtc life_step lf0 lf.

(** ** Invariant *)

Context {VL : FilePVLaws V}.

Lemma acceptable_cases valAddr req : acceptable valAddr req \/ ~ acceptable valAddr req.
Proof using LT.
  destruct req as [|cid|cid vote|cid prop| | | | |]; cbn [acceptable]; try (by left);
    rewrite <-validateRequestChainID_spec; destruct (validateRequestChainID cid) as [[]| |];
    try (right; by intros [? _] || intros ?); try (by left).
  - destruct vote as [v|]; [|right; by intros [_ (? & ? & _)]].
    pose proof (ValidateSignVoteRequest_spec v valAddr) as Hv.
    destruct (ValidateSignVoteRequest (Some v) valAddr) as [[]| |]; [left; naive_solver|right; naive_solver..].
  - destruct prop as [q|]; [|right; by intros [_ (? & ? & _)]].
    pose proof (ValidateSignProposalRequest_spec q) as Hv.
    destruct (ValidateSignProposalRequest (Some q)) as [[]| |]; [left; naive_solver|right; naive_solver..].
Qed.

(** The request of a signature was well formed, and is for the position
    signed. *)
Definition signature_ok (g : signature) : Prop :=
  acceptable (sg_valAddr g) (sg_request g) /\
  exists y, asked_for (sg_request g) = Some y /\ position_of (sg_what g) = position_of y.

(** One call of the handler. *)
Lemma ledger_call id va req chain p res e p' :
  ValidationRequestHandler va req chain p = (Ok (res, e), p') ->
  mark_le (state_mark (LastSign p)) (state_mark (LastSign p')) /\
  Forall (fun g => sg_mark g = state_mark (LastSign p') /\ signature_ok g) (answered va chain (LHandled id req res)).
Proof using LT VL.
  intros H. destruct (handler_cases va req chain p) as [Ha Hr].
  destruct (acceptable_cases va req) as [Hok|Hok].
  - rewrite (Ha Hok) in H. split; [by eapply state_advances|].
    cbn [answered]. destruct (signed_in res) as [x|] eqn:Ex; [|done]. apply Forall_singleton.
    split; [by rewrite (state_records _ _ _ _ _ _ _ H Ex)|].
    split; [done|]. exact (signs_what_is_asked _ _ _ _ _ _ _ H Ex).
  - destruct (Hr Hok) as (res' & e1 & e2 & Hd & Hf). rewrite Hd in H. injection H as <- _ <-. split; [done|].
    cbn [answered]. replace (signed_in res') with (@None signable); [done|].
    destruct req; cbn in Hf; try done; by subst res'.
Qed.

Lemma gate_pv id now req (s s' : shared FilePV) r : gate id now req s = (r, s') -> s_pv s' = s_pv s.
Proof using.
  unfold gate. destruct (s_arbiter s) as [a|]; [|by intros [= _ <-]].
  destruct (notPrimaryResponse req) as [[[? h] [|]]|]; try by intros [= _ <-].
  destruct (Acquire id h now a) as [[] ?]; by intros [= _ <-].
Qed.

(** Only the handler's step calls the validator. *)
Lemma sys_step_call next chain l x x' :
  sys_step next chain l x x' ->
  (pv_of x' = pv_of x /\ forall va, answered va chain l = []) \/
  exists id req res e, l = LHandled id req res /\ next req chain (pv_of x) = (Ok (res, e), pv_of x').
Proof using.
  intros [lb l1 c l2 s c' s' d Hs|]; [|by left]. unfold pv_of. cbn [sys_shared].
  inversion Hs; subst; try (by left); try (left; split; [by eapply gate_pv|done]).
  right. match goal with H : on_pv _ _ = _ |- _ => rename H into Hp end.
  unfold on_pv in Hp. destruct (next req chain (s_pv s)) as [r0 p0] eqn:E. injection Hp as -> <-. cbn [s_pv]. eauto 6.
Qed.

Record life_ok (lf : life) : Prop := {
  lo_file : cmtjson_state (lf_file lf) = Ok (LastSign (pv_of (lf_sys lf)));
  lo_below : Forall (fun g => mark_le (sg_mark g) (state_mark (LastSign (pv_of (lf_sys lf))))) (lf_signed lf);
  lo_sorted : StronglySorted (fun g h => mark_le (sg_mark h) (sg_mark g)) (lf_signed lf);
  lo_asked : Forall signature_ok (lf_signed lf);
}.

Lemma starts_state file va chain x : starts file va chain x -> cmtjson_state file = Ok (LastSign (pv_of x)).
Proof using.
  intros [frac_ns gen cfg s cs s' Hp Hc W Hf Hs].
  apply start_consensus_inv in Hs as (s1 & s2 & pv & tm & Hk & Hq & Hl & _ & _ & Hx).
  rewrite <-Hp in Hc, W, Hf. destruct (keeps_GenOrLoadConnKey gen _ _ Hc _ _ _ Hk W) as [C1 W1].
  destruct (required_state_facts _ _ _ _ _ _ W1 Hq Hl) as (_ & (b & Hb & Hst) & _).
  unfold pv_of. rewrite Hx, (proj2 (start_clients_shared _ _)). cbn [s_pv]. rewrite C1, Hf in Hb. by injection Hb as <-.
Qed.

(** The state a new process starts from is at or above the old one's. *)
Lemma stop_file_state lf file :
  life_ok lf -> stop_file lf file ->
  exists st, cmtjson_state file = Ok st /\ mark_le (state_mark (LastSign (pv_of (lf_sys lf)))) (state_mark st).
Proof using LT VL.
  intros Hok [|id req b o [res e] p' file' _ Hh Hs]; [exists (LastSign (pv_of (lf_sys lf))); split; [apply Hok|done]|].
  exists (LastSign p'). apply (ledger_call id) in Hh as [Hle _]. split; [|done].
  destruct Hs as [[-> ->]|]; [apply Hok|done].
Qed.

Lemma below_trans (l : list signature) m m' :
  mark_le m m' -> Forall (fun g => mark_le (sg_mark g) m) l -> Forall (fun g => mark_le (sg_mark g) m') l.
Proof using. intros Hm Hl. eapply Forall_impl; [exact Hl|]. intros g Hg. by transitivity m. Qed.

Lemma life_ok_step lf lf' : life_step lf lf' -> life_ok lf -> life_ok lf'.
Proof using LT VL.
  intros [va chain x file sg l x' file' Hs Hf|lf0 file va chain x Hs Hst] Hok.
  - destruct Hok as [H1 H2 H3 H4]. cbn [lf_file lf_sys lf_signed] in *.
    assert (Hfile : cmtjson_state file' = Ok (LastSign (pv_of x'))) by (destruct Hf as [[-> ->]|]; done).
    destruct (sys_step_call _ _ _ _ _ Hs) as [[Hp Ha]|(id & req & res & e & -> & Hh)].
    + rewrite Ha, app_nil_l. split; cbn [lf_file lf_sys lf_signed]; rewrite ?Hp; try done. by rewrite <-Hp.
    + apply (ledger_call id) in Hh as [Hle Hnew]. pose proof (below_trans _ _ _ Hle H2) as Hb.
      cbn [answered] in Hnew |- *. destruct (signed_in res) as [y|]; [|by split].
      apply Forall_singleton in Hnew as [Hm Hg]. split; cbn [lf_file lf_sys lf_signed app]; [done|..].
      * constructor; [by rewrite Hm|done].
      * constructor; [done|]. by rewrite Hm.
      * by constructor.
  - destruct (stop_file_state _ _ Hok Hs) as (st & Hd & Hle). pose proof (starts_state _ _ _ _ Hst) as Hx.
    rewrite Hd in Hx. injection Hx as ->. destruct Hok as [H1 H2 H3 H4].
    split; cbn [lf_file lf_sys lf_signed]; try done. by eapply below_trans.
Qed.

Lemma life_reachable_ok lf : life_reachable lf -> life_ok lf.
Proof using LT VL.
  intros (lf0 & [file va chain x Hst] & Hr).
  assert (H0 : life_ok (Life va chain x file [])) by (split; cbn; try constructor; by eapply starts_state).
  clear Hst. induction Hr; eauto using life_ok_step.
Qed.

(** (C4) The validator never double-signs: over any number of nodes sharing
    the key, any interleaving of their requests, elections and lost
    connections, kills at any moment - also inside the validator's call - and
    restarts under other configurations of the same state file, two votes or
    proposals answered with a signature for one height, round and step are
    signed over the same bytes; later signatures are never for an earlier
    position; each answers a well-formed request for that very position; and
    the state file holds at all times a state at or above all of them. *)
Theorem consensus_never_double_signs lf :
  life_reachable lf ->
  (forall g h, g ∈ lf_signed lf -> h ∈ lf_signed lf ->
     position_of (sg_what g) = position_of (sg_what h) ->
     sign_bytes (sg_chain g) (sg_what g) = sign_bytes (sg_chain h) (sg_what h)) /\
  StronglySorted (fun newer older => mark_le (sg_mark older) (sg_mark newer)) (lf_signed lf) /\
  Forall signature_ok (lf_signed lf) /\
  exists st, cmtjson_state (lf_file lf) = Ok st /\
    Forall (fun g => mark_le (sg_mark g) (state_mark st)) (lf_signed lf).
Proof using LT VL.
  intros Hr. destruct (life_reachable_ok _ Hr) as [H1 H2 H3 H4].
  split; [|split; [done|split; [done|by eexists]]].
  intros g h Hg Hh Hp. apply (f_equal snd (x := sg_mark g) (y := sg_mark h)), mark_le_same; [|done].
  destruct (sorted_related _ _ _ _ H3 Hg Hh) as [H| [H| ->]]; [by right|by left|by left].
Qed.
End Life.

(** ** A concrete validator

    A state file of bytes: the height, the step and the bytes signed. *)

#[local] Existing Instance reference_comet.
#[local] Existing Instance reference_comet_laws.

#[local] Instance ledger_keys : CometKeys := {|
  cmt_privkey := bytes;
  cmtjson_node := fun _ => Err (ErrLib "json");
  cmtjson_key := fun b => Ok (Some b);
  cmtjson_state := fun b =>
    match b with
    | h :: st :: sb => Ok (SignState (byte_to_Z h) 0 (byte_to_Z st) [] sb)
    | _ => Err (ErrLib "json")
    end;
  fresh_state := SignState 0 0 0 [] [];
|}.

#[local] Instance ledger_lib : FilePVLib := {|
  voteToStep t := t + 1;
  stepPropose := 1;
  VoteSignBytes chain v := byte_of_Z (Z.of_nat (vBlockID v)) :: chain;
  ProposalSignBytes chain p := byte_of_Z (Z.of_nat (pBlockID p)) :: chain;
|}.

Definition pos_ltb (a b : position) : bool :=
  let '(h, r, s) := a in let '(h', r', s') := b in
  (h <? h') || ((h =? h') && ((r <? r') || ((r =? r') && (s <? s')))).

Lemma pos_ltb_lt a b : pos_ltb a b = true <-> pos_lt a b.
Proof. destruct a as [[h r] s], b as [[h' r'] s']. unfold pos_ltb, pos_lt. lia. Qed.

(** A signature is given for a later position, or for the same bytes at the
    last one. *)
Definition ledger_sign (chain : bytes) (x : signable) (p : FilePV) : option FilePV :=
  let st := LastSign p in
  let m := (position_of x, sign_bytes chain x) in
  if pos_ltb (fst (state_mark st)) (fst m) then
    let '(h, r, s) := position_of x in
    Some (MkFilePV (pvPrivKey p) (pvKeyPath p) (pvStatePath p) (SignState h r s [] (sign_bytes chain x)))
  else if bool_decide (state_mark st = m) then Some p
  else None.

#[local] Instance ledger_pv : PrivVal FilePV := {|
  pv_Address _ := Ok (replicate 20 x07);
  DefaultValidationRequestHandler req chain := fun p =>
    match req with
    | SignVoteRequest _ (Some v) =>
        match ledger_sign chain (SVote v) p with
        | Some p' => (Ok (SignedVoteResponse (Some v) None, None), p')
        | None => (Ok (SignedVoteResponse None (Some (ErrLib "conflicting data")), None), p)
        end
    | SignProposalRequest _ (Some q) =>
        match ledger_sign chain (SProposal q) p with
        | Some p' => (Ok (SignedProposalResponse (Some q) None, None), p')
        | None => (Ok (SignedProposalResponse None (Some (ErrLib "conflicting data")), None), p)
        end
    | _ => (Ok (PingResponse, None), p)
    end;
|}.

Lemma ledger_sign_spec chain x p p' :
  ledger_sign chain x p = Some p' ->
  mark_le (state_mark (LastSign p)) (state_mark (LastSign p')) /\
  state_mark (LastSign p') = (position_of x, sign_bytes chain x).
Proof.
  unfold ledger_sign. destruct (pos_ltb _ _) eqn:Hl.
  - apply pos_ltb_lt in Hl. destruct (position_of x) as [[h r] s] eqn:Ep. intros [= <-]. cbn.
    split; [by left|done].
  - case_bool_decide as Hb; [|done]. by intros [= <-].
Qed.

#[local] Instance ledger_pv_laws : FilePVLaws ledger_pv.
Proof.
  assert (Hsplit : forall req chain (p : FilePV) res e p',
    DefaultValidationRequestHandler req chain p = (Ok (res, e), p') ->
    (p' = p /\ signed_in res = None) \/
    exists x, asked_for req = Some x /\ signed_in res = Some x /\ ledger_sign chain x p = Some p').
  { intros req chain p res e p'. destruct req as [| |cid [v|]|cid [q|]| | | | |]; cbn;
      try (by intros [= <- _ <-]; left);
      (destruct (ledger_sign chain _ p) eqn:Es; intros [= <- _ <-]; [right|by left]); eexists; eauto. }
  split.
  - intros req chain p [res e] p' H. apply Hsplit in H as [[-> _]|(x & _ & _ & H)]; [done|].
    by apply ledger_sign_spec in H as [].
  - intros req chain p res e p' x H Hx. apply Hsplit in H as [[_ Hn]|(y & _ & Hy & H)]; [by rewrite Hn in Hx|].
    rewrite Hy in Hx. injection Hx as ->. by apply ledger_sign_spec in H as [].
  - intros req chain p res e p' x H Hx. apply Hsplit in H as [[_ Hn]|(y & Ha & Hy & _)]; [by rewrite Hn in Hx|].
    rewrite Hy in Hx. injection Hx as ->. by exists x.
Qed.

Definition ledger_path : bytes := bs "/data/state.json".
Definition ledger_config : Config.Config :=
  MkConfig (bs "tellor-1")
    (MkConsensus (bs "/data/key.json") ledger_path (bs "/data/conn.key") (bs "tcp://10.0.0.1:26659") [] false)
    (MkSignerCfg BackendFile (bs "/data") (bs "validator") (bs "/data/pw") [] [] [] [])
    (MkServerCfg [] [] 0 0 [] [] ∅ false) (MkTLS true [] [] []) (MkLog [] []).

Definition ledger_disk (file : bytes) : disk :=
  put_file ledger_path file (put_file (bs "/data/key.json") (bs "key") empty_disk).

(** A process over the file [file] with its one client at the top. *)
Definition idle_system (p : FilePV) (m : metrics) : system FilePV :=
  System [Client nodeA PTop minBackoff false] (Shared None p m) false.

Definition at_idle (va : bytes) (x : system FilePV) (st : LastSignState) : Prop :=
  va = replicate 20 x07 /\ exists p m, x = idle_system p m /\ LastSign p = st.

Lemma ledger_starts file st :
  file = [x00; x00] \/ file = [x05; x03; x02] ++ bs "tellor-1" -> cmtjson_state file = Ok st ->
  exists va x, starts ledger_path file va (bs "tellor-1") x /\ at_idle va x st.
Proof.
  intros Hf Hst. set (s := fresh_fs (ledger_disk file)).
  assert (Hok : is_ok (fst (start_consensus no_fraction sample_key ledger_config s)) = true)
    by (destruct Hf as [->| ->]; vm_compute; reflexivity).
  destruct (start_consensus no_fraction sample_key ledger_config s) as [[cs|e|] s'] eqn:E; [|discriminate Hok..].
  assert (Hs : starts ledger_path file (cs_valAddr cs) (ChainID ledger_config) (cs_system cs)).
  { refine (starts_intro _ _ no_fraction sample_key ledger_config s cs s' eq_refl _ _ _ E).
    - by vm_compute.
    - split; [by destruct Hf as [->| ->]; vm_compute|]. intros j Hj.
      replace (hist _ _) with [Some 1%nat] in Hj by (destruct Hf as [->| ->]; vm_compute; reflexivity).
      apply list_elem_of_singleton in Hj as [= ->]. split; [destruct Hf as [->| ->]; vm_compute; lia|by eexists].
    - destruct Hf as [->| ->]; vm_compute; reflexivity. }
  eexists _, _. split; [exact Hs|]. pose proof (starts_state _ _ _ _ _ Hs) as Hp. rewrite Hst in Hp.
  apply start_consensus_inv in E as (s1 & s2 & pv & tm & _ & _ & _ & Ha & Ht & Hx).
  split; [by injection Ha|]. unfold pv_of in Hp. rewrite Hx, (proj2 (start_clients_shared _ _)) in Hp.
  exists pv. eexists. split; [|by injection Hp].
  assert (tm = 0) as -> by (injection Ht; vm_compute; congruence).
  rewrite Hx. reflexivity.
Qed.

Definition ledger_vote (h : Z) : message := SignVoteRequest (bs "tellor-1") (Some (sample_vote h 2)).
Definition ledger_signature (h : Z) : signature :=
  Signature nodeA (replicate 20 x07) (bs "tellor-1") (ledger_vote h) (SVote (sample_vote h 2)).

(** The client connects and has a vote signed. *)
Lemma ledger_signs va x st file file' sg h :
  at_idle va x st -> (st, h) = (SignState 0 0 0 [] [], 5) \/ (st, h) = (SignState 5 0 3 [] (x02 :: bs "tellor-1"), 6) ->
  cmtjson_state file' = Ok (SignState h 0 3 [] (x02 :: bs "tellor-1")) ->
  exists x', rtc (life_step ledger_path) (Life va (bs "tellor-1") x file sg)
    (Life va (bs "tellor-1") x' file' (ledger_signature h :: sg)).
Proof.
  intros (-> & p & m & -> & Hp) Hh Hf.
  assert (Hcall : exists p', LastSign p' = SignState h 0 3 [] (x02 :: bs "tellor-1") /\
    ValidationRequestHandler (replicate 20 x07) (ledger_vote h) (bs "tellor-1") p =
      (Ok (SignedVoteResponse (Some (sample_vote h 2)) None, None), p')).
  { destruct p as [k kp sp ls]. cbn in Hp. subst ls.
    destruct Hh as [[= -> ->]|[= -> ->]]; eexists; (split; [|vm_compute; reflexivity]); reflexivity. }
  destruct Hcall as (p' & Hp' & Hcall). eexists.
  pose (stay := fun (q : FilePV) => or_introl (conj eq_refl eq_refl) : saves q q file file).
  eapply rtc_l. { eapply life_client; [exact (sys_step_intro _ _ _ [] _ [] _ _ _ _ (cs_top _ _ _ nodeA minBackoff false _ eq_refl))|exact (stay p)]. }
  eapply rtc_l. { eapply life_client; [exact (sys_step_intro _ _ _ [] _ [] _ _ _ _ (cs_connected _ _ _ nodeA minBackoff false _))|exact (stay p)]. }
  eapply rtc_l. { eapply life_client; [eapply (sys_step_intro _ _ _ [] _ []), (cs_through _ _ _ nodeA minBackoff _ (ledger_vote h) 0); reflexivity|exact (stay p)]. }
  eapply rtc_l; [|reflexivity].
  eapply (life_client _ _ _ _ _ _ (LHandled nodeA (ledger_vote h) (SignedVoteResponse (Some (sample_vote h 2)) None)));
    [eapply (sys_step_intro _ _ _ [] _ []), cs_handle; unfold on_pv; cbn [s_pv onState]; rewrite Hcall; reflexivity|].
  right. unfold pv_of. cbn [sys_shared s_pv]. by rewrite Hp'.
Qed.

(** A vote is signed, the process killed, and the next one signs another. *)
Lemma consensus_never_double_signs_witness :
  exists lf, life_reachable ledger_path lf /\ lf_signed lf = [ledger_signature 6; ledger_signature 5] /\
    StronglySorted (fun newer older => mark_le (sg_mark older) (sg_mark newer)) (lf_signed lf).
Proof.
  destruct (ledger_starts [x00; x00] (SignState 0 0 0 [] [])) as (va & x & Hs & Hi); [by left|done|].
  destruct (ledger_signs va x _ [x00; x00] ([x05; x03; x02] ++ bs "tellor-1") [] 5 Hi) as (x1 & H1); [by left|done|].
  destruct (ledger_starts ([x05; x03; x02] ++ bs "tellor-1") (SignState 5 0 3 [] (x02 :: bs "tellor-1")))
    as (va' & x' & Hs' & Hi'); [by right|done|].
  destruct (ledger_signs va' x' _ ([x05; x03; x02] ++ bs "tellor-1") ([x06; x03; x02] ++ bs "tellor-1")
    [ledger_signature 5] 6 Hi') as (x2 & H2); [by right|done|].
  eexists. assert (Hr : life_reachable ledger_path (Life va' (bs "tellor-1") x2 ([x06; x03; x02] ++ bs "tellor-1")
    [ledger_signature 6; ledger_signature 5])).
  { eexists. split; [exact (life_boot_intro _ _ _ _ _ Hs)|].
    etransitivity; [exact H1|]. eapply rtc_l; [|exact H2].
    apply (life_restart _ (Life va (bs "tellor-1") x1 ([x05; x03; x02] ++ bs "tellor-1") [ledger_signature 5])); [|done].
    apply stop_idle. }
  split; [exact Hr|]. split; [reflexivity|]. apply (consensus_never_double_signs _ _ Hr).
Defined.
