(* ===== verification/Commands.v ===== *)
(** * One-shot commands ([cmd/bridge-signer/cmd_export.go], [cmd_init.go])

    The key export and the state-file bootstrap, over the file system and the
    two output streams.  Flag parsing is cobra's; the keyring is the
    parameter [KeyringLib] of [Signer]. *)

From S2P Require Import Prelude GoStd Fs Json ReplayGuard Asn1 Signer Arbiter Config.

(** What a command writes to. *)
Record cli := Cli {
  c_fs : fs;
  c_stdout : bytes;
  c_stderr : bytes;
}.

Definition cli_fs {A} (m : ST fs A) : ST cli A := fun c =>
  let '(r, s) := m (c_fs c) in (r, Cli s (c_stdout c) (c_stderr c)).

(** A line on standard error; its outcome is ignored by the callers. *)
Definition warn (line : bytes) : ST cli () := fun c =>
  (Ok (), Cli (c_fs c) (c_stdout c) (c_stderr c ++ line ++ [x0a])).

(** [fmt.Fprintln(os.Stdout, ...)]: [broken] is the error of the stream and
    how many bytes it still took. *)
Definition println (broken : option (nat * error)) (line : bytes) : ST cli () := fun c =>
  match broken with
  | None => (Ok (), Cli (c_fs c) (c_stdout c ++ line ++ [x0a]) (c_stderr c))
  | Some (n, e) => (Err e, Cli (c_fs c) (c_stdout c ++ take n (line ++ [x0a])) (c_stderr c))
  end.

Section KeyExport.
Context {K : KeyringLib}.

Definition writeKeyToFile (path hexEncoded : bytes) : ST cli () := (
  cli_fs (WriteNewFileAtomic path (hexEncoded ++ [x0a]) 384) ;;;
  warn (bs "Private key written to " ++ path ++ bs " (mode 0600)"))%go.

(** [kr]: the keyring of the client context, opened at [keyringDir]. *)
Definition runExport (kr : KR) (keyringDir : bytes) (stdout_tty : bool) (broken : option (nat * error))
    (keyName outputPath : bytes) : ST cli () := (
  record <- st_map_err
              (fun e => Errorf "get key %q from keyring at %q: %w" [AStr keyName; AStr keyringDir; AWrap e])
              (cli_fs (kr_Key kr keyName)) ;;
  keyBytes <- st_lift (ExtractSecpPrivKeyBytes (Some record)) ;;
  let hexEncoded := hex_EncodeToString keyBytes in
  if negb (beq outputPath []) then writeKeyToFile outputPath hexEncoded
  else if stdout_tty then
    st_lift (Err (errNew "refusing to write private key to a terminal; redirect stdout to a file/pipe or use --output to write to a file with mode 0600"))
  else
    warn (bs "WARNING: emitting raw private key hex to stdout. Anything that captures this stream gets the key.") ;;;
    st_map_err (errw "write key: %w") (println broken hexEncoded))%go.
End KeyExport.

Section InitState.
Context (frac_ns : Z -> Z -> Z -> Z) (yaml_Unmarshal : bytes -> result Config).

Definition runInitState (configPath : bytes) (broken : option (nat * error)) : ST cli () := (
  cfg <- cli_fs (st_map_err (errw "load config: %w") (Load frac_ns yaml_Unmarshal configPath)) ;;
  cli_fs (InitStateFile (StateFile (Consensus cfg))) ;;;
  st_try (println broken (bs "created fresh consensus state file: " ++ StateFile (Consensus cfg))) ;;;
  st_ret ())%go.
End InitState.

(** ** Properties *)

Section ExportFacts.
Context {K : KeyringLib}.

Lemma writeKeyToFile_stdout path h c : c_stdout (snd (writeKeyToFile path h c)) = c_stdout c.
Proof using.
  unfold writeKeyToFile, st_bind, cli_fs, warn. destruct (WriteNewFileAtomic _ _ _ _) as [[u| |] s]; done.
Qed.

(** What a key file holds afterwards, and that one that exists is kept. *)
Lemma writeKeyToFile_file path h c :
  wf_path (fs_disk (c_fs c)) path -> is_temp path = false ->
  let '(r, c') := writeKeyToFile path h c in
  (r = Ok () -> Done path (h ++ [x0a]) 384 (fs_disk (c_fs c'))) /\
  (cur (fs_disk (c_fs c)) path <> None ->
     r <> Ok () /\ content (fs_disk (c_fs c')) path = content (fs_disk (c_fs c)) path).
Proof using.
  intros W Ht. unfold writeKeyToFile, st_bind, cli_fs, warn.
  pose proof (WriteNewFileAtomic_triple (fs_disk (c_fs c)) path (h ++ [x0a]) 384 W Ht (c_fs c) eq_refl) as H.
  destruct (WriteNewFileAtomic path (h ++ [x0a]) 384 (c_fs c)) as [r s']. destruct H as [HF _]. cbn [c_fs].
  destruct r as [u|e|]; cbn [NewFinal outcome] in HF |- *; [|split; [done|]|done].
  - destruct HF as [Hc Hd]. split; [done|]. by rewrite Hc.
  - intros Hc. split; [done|]. destruct HF as [(Eh & Ei & _)|[? _]]; [|done].
    cbn [c_fs]. unfold content, cur. rewrite Eh. destruct (hist (fs_disk (c_fs c)) path) as [|[i|] l]; [done| |done].
    rewrite Ei; [done|]. left.
Qed.
End ExportFacts.

(** (C35) The exported key goes only where it was sent: with an output path, or
    on a terminal, nothing is written to standard output; on a terminal
    without a path the export fails; with a path it fails and keeps the file
    if one exists, and otherwise, when it succeeds, leaves the hexadecimal
    key and a newline durably in a file of mode 0600. *)
Theorem export_confines_key {K : KeyringLib} kr dir tty broken name out c :
  let '(r, c') := runExport kr dir tty broken name out c in
  let '(rec, s1) := kr_Key kr name (c_fs c) in
  (out <> [] \/ tty = true -> c_stdout c' = c_stdout c) /\
  (out = [] -> tty = true -> r <> Ok ()) /\
  (out <> [] -> is_temp out = false -> wf_path (fs_disk s1) out ->
   (r = Ok () -> exists record key, rec = Ok record /\ ExtractSecpPrivKeyBytes (Some record) = Ok key /\
      Done out (hex_EncodeToString key ++ [x0a]) 384 (fs_disk (c_fs c'))) /\
   (cur (fs_disk s1) out <> None ->
      r <> Ok () /\ content (fs_disk (c_fs c')) out = content (fs_disk s1) out)).
Proof.
  unfold runExport, cli_fs at 1, st_map_err at 1, st_bind at 1.
  destruct (kr_Key kr name (c_fs c)) as [[record|e|] s1]; cbn [map_err]; [|done..].
  unfold st_bind at 1, st_lift at 1.
  destruct (ExtractSecpPrivKeyBytes (Some record)) as [key|e|] eqn:Ek; [|done..]. cbv zeta.
  set (c1 := Cli s1 (c_stdout c) (c_stderr c)). unfold beq. case_bool_decide as Ho; cbn [negb].
  - destruct tty; [done|]. match goal with |- let '(_, _) := ?x in _ => destruct x as [r c'] end.
    split; [by intros [?|?]|]. done.
  - pose proof (writeKeyToFile_stdout out (hex_EncodeToString key) c1) as Hs.
    pose proof (writeKeyToFile_file out (hex_EncodeToString key) c1) as Hf.
    destruct (writeKeyToFile out (hex_EncodeToString key) c1) as [r c'].
    split; [done|]. split; [done|]. intros _ Ht W. destruct (Hf W Ht) as [H1 H2]. split; [|done].
    intros Hr. exists record, key. auto.
Qed.
