(* ===== verification/CommandTree.v ===== *)
(** * The command tree ([cmd/bridge-signer/cmd_root.go], [main.go])

    The cobra tree [newRootCmd] builds, the check in front of every command
    ([PersistentPreRunE]), the argument and flag handling of the three
    commands of this program, and the exit status of [main].

    Parameters: cobra's resolution of a command line - to a command of the
    tree, or to one cobra itself adds to it when it executes, like "help" and
    "completion" -, its argument validators ([Cobra]), cosmos-sdk's [keys]
    subtree, its reading of the persistent and of the query flags into a
    client context, and the bech32 configuration object.  Flag parsing is cobra's; a flag set is given by its values. *)

From S2P Require Import Prelude GoStd Fs Json ReplayGuard Asn1 Signer Arbiter Config Commands.

(** ** Commands *)

(** What a command runs: one of this program's, one of cosmos-sdk's, or
    nothing (a group). *)
Inductive impl := Group | StartCmd | InitStateCmd | ExportCmd | SdkCmd (name : bytes).

Inductive command := Cmd (name : bytes) (aliases : list bytes) (run : impl) (subs : list command).

Definition c_name (c : command) : bytes := let 'Cmd n _ _ _ := c in n.
Definition c_aliases (c : command) : list bytes := let 'Cmd _ a _ _ := c in a.
Definition c_run (c : command) : impl := let 'Cmd _ _ r _ := c in r.
Definition c_subs (c : command) : list command := let 'Cmd _ _ _ s := c in s.

Definition AddCommand (c : command) (cs : list command) : command :=
  Cmd (c_name c) (c_aliases c) (c_run c) (c_subs c ++ cs).

Definition banned : list bytes := [bs "export"; bs "import"; bs "migrate"].

(** [RemoveCommand] of the subcommands with a banned name. *)
Definition bridgeSignerKeysCmd (keys_Commands : command) : command :=
  Cmd (c_name keys_Commands) (c_aliases keys_Commands) (c_run keys_Commands)
    (filter (fun sub => c_name sub ∉ banned) (c_subs keys_Commands)).

Definition exportCmd : command := Cmd (bs "export") [] ExportCmd [].
Definition startCmd : command := Cmd (bs "start") [] StartCmd [].
Definition initStateCmd : command := Cmd (bs "init-state") [] InitStateCmd [].

Definition newRootCmd (keys_Commands : command) : command :=
  let keysCmd := AddCommand (bridgeSignerKeysCmd keys_Commands) [exportCmd] in
  AddCommand (Cmd (bs "bridge-signer") [] Group []) [keysCmd; startCmd; initStateCmd].

(** The commands of a tree, each with the names from it up to the root. *)
Inductive within (root : command) : command -> list bytes -> Prop :=
| within_root : within root root [c_name root]
| within_sub c up sub : within root c up -> sub ∈ c_subs c -> within root sub (c_name sub :: up).

(** What a list of words names: a command of the tree with the names from it
    up to the root, or a command of cobra's own ("help", "completion" and its
    subcommands, the hidden ones that complete), with its names and whether
    the root's [PersistentPreRunE] runs before it. *)
Inductive resolved :=
| InTree (c : command) (names_up : list bytes)
| CobraOwn (names_up : list bytes) (hooked : bool).

(** What is used of cobra: what a list of words names, the validators of
    positional arguments (given the command's path), and the one of its own
    commands. *)
Class Cobra := {
  resolve : command -> list bytes -> option resolved;
  OwnArgs : bytes -> list bytes -> result ();
  NoArgs : bytes -> list bytes -> result ();
  ExactArgs : Z -> bytes -> list bytes -> result ();
}.

(** A command it finds in the tree is one of the tree, and its validators
    accept what they say. *)
Class CobraLaws (CB : Cobra) := {
  resolve_within root words c up : resolve root words = Some (InTree c up) -> within root c up;
  NoArgs_ok path args : NoArgs path args = Ok () -> args = [];
  ExactArgs_ok n path args : ExactArgs n path args = Ok () -> len args = n;
}.

(** The loop over [Parent]. *)
Definition needsKeyringDir (names_up : list bytes) : bool :=
  negb (existsb (fun n => beq n (bs "start") || beq n (bs "init-state")) names_up).

(** ** Before every command *)

(** The flags this program reads: [--keyring-backend] with whether it was
    given, when the command has it, and the outcome of reading the string
    flags. *)
Record flags := Flags {
  keyringBackend : option (bytes * bool);
  keyringDirFlag : result bytes;
  configFlag : bytes;
  outputFlag : result bytes;
}.

Definition BackendFileName : bytes := bs "file".

Definition set_backend (fl : flags) (v : bytes) : flags :=
  Flags ((fun p => (v, snd p)) <$> keyringBackend fl) (keyringDirFlag fl) (configFlag fl) (outputFlag fl).

(** [cmd.CommandPath]: the names from the root, separated by spaces. *)
Fixpoint join_words (ws : list bytes) : bytes :=
  match ws with
  | [] => []
  | [w] => w
  | w :: ws' => w ++ x20 :: join_words ws'
  end.

Section Dispatch.
Context {CB : Cobra}.

(** [ReadPersistentCommandFlags] and [SetCmdClientContextHandler]: the client
    context - the keyring and its directory - they leave. *)
Context {K : KeyringLib} (client_context : flags -> result (KR * bytes)).

(** [client.GetClientQueryContext]: the command's client context, completed
    with the query flags. *)
Context (GetClientQueryContext : KR * bytes -> flags -> result (KR * bytes)).

Definition PersistentPreRunE (names_up : list bytes) (fl : flags) : result (flags * (KR * bytes)) :=
  fl ← match keyringBackend fl with
       | None => Ok fl
       | Some (v, changed) =>
           if (changed : bool) && negb (beq v BackendFileName) then
             Err (Errorf "only --keyring-backend=file is supported, got %q" [AStr v])
           else Ok (set_backend fl BackendFileName)
       end;
  _ ← (if needsKeyringDir names_up then
         keyringDir ← map_err (errw "get --keyring-dir: %w") (keyringDirFlag fl);
         if beq keyringDir [] then
           Err (Errorf "--keyring-dir is required for %q" [AStr (join_words (rev names_up))])
         else Ok ()
       else Ok ());
  ctx ← client_context fl;
  Ok (fl, ctx).

(** What a command line comes to. *)
Inductive action :=
| ActHelp
| ActStart (configPath : bytes)
| ActInitState (configPath : bytes)
| ActExport (ctx : KR * bytes) (keyName outputPath : bytes)
| ActSdk (name : bytes) (ctx : KR * bytes) (args : list bytes)
| ActCobra (names_up args : list bytes).

(** [Args] of the command. *)
Definition ValidateArgs (c : command) (names_up args : list bytes) : result () :=
  match c_run c with
  | StartCmd | InitStateCmd => NoArgs (join_words (rev names_up)) args
  | ExportCmd => ExactArgs 1 (join_words (rev names_up)) args
  | _ => Ok ()
  end.

(** [RunE] up to the call of the function that does the work. *)
Definition RunE (c : command) (args : list bytes) (fl : flags) (ctx : KR * bytes) : result action :=
  match c_run c with
  | Group => Ok ActHelp
  | StartCmd => Ok (ActStart (configFlag fl))
  | InitStateCmd => Ok (ActInitState (configFlag fl))
  | ExportCmd =>
      clientCtx ← GetClientQueryContext ctx fl;
      match args with
      | [] => Panic
      | keyName :: _ =>
          outputPath ← map_err (errw "get output path: %w") (outputFlag fl);
          Ok (ActExport clientCtx keyName outputPath)
      end
  | SdkCmd name => Ok (ActSdk name ctx args)
  end.

Definition is_group (c : command) : bool := match c_run c with Group => true | _ => false end.

(** [newRootCmd().Execute()]: the command is resolved, its arguments are
    checked, then the root's check runs, then the command.  A group only
    prints its help; so does any command given [--help], which is left out. *)
Definition Execute (root : command) (words args : list bytes) (fl : flags) : result (action * flags) :=
  match resolve root words with
  | None => Err (Errorf "unknown command" [])
  | Some (CobraOwn names_up hooked) =>
      _ ← OwnArgs (join_words (rev names_up)) args;
      fl' ← (if hooked then '(fl', _) ← PersistentPreRunE names_up fl; Ok fl' else Ok fl);
      Ok (ActCobra names_up args, fl')
  | Some (InTree c names_up) =>
      if is_group c then Ok (ActHelp, fl)
      else
        _ ← ValidateArgs c names_up args;
        '(fl', ctx) ← PersistentPreRunE names_up fl;
        act ← RunE c args fl' ctx;
        Ok (act, fl')
  end.
End Dispatch.

(** [main]: the exit status and what it prints to standard error. *)
Definition main_exit (err : option error) : Z * option error :=
  match err with
  | None => (0, None)
  | Some e => (1, Some (Errorf "error: %v" [AErr e]))
  end.

(** ** [configureBech32Once] *)

(** cosmos-sdk's global address configuration. *)
Class SdkConfig := {
  sdk_config : Type;
  SetBech32PrefixForAccount : bytes -> bytes -> sdk_config -> result sdk_config;
  SetBech32PrefixForValidator : bytes -> bytes -> sdk_config -> result sdk_config;
  SetBech32PrefixForConsensusNode : bytes -> bytes -> sdk_config -> result sdk_config;
  Seal : sdk_config -> sdk_config;
}.

(** A sealed configuration cannot be modified: the setters panic. *)
Class SdkConfigLaws (G : SdkConfig) := {
  sealed_panics a p c : SetBech32PrefixForAccount a p (Seal c) = Panic;
}.

Definition tellorBech32Prefix : bytes := bs "tellor".

Definition configureBech32Once {G : SdkConfig} (cfg : sdk_config) : result sdk_config :=
  cfg ← SetBech32PrefixForAccount tellorBech32Prefix (tellorBech32Prefix ++ bs "pub") cfg;
  cfg ← SetBech32PrefixForValidator (tellorBech32Prefix ++ bs "valoper") (tellorBech32Prefix ++ bs "valoperpub") cfg;
  cfg ← SetBech32PrefixForConsensusNode (tellorBech32Prefix ++ bs "valcons") (tellorBech32Prefix ++ bs "valconspub") cfg;
  Ok (Seal cfg).

(** Building the command tree twice in a process panics: the first call seals
    the configuration the second one sets. *)
Theorem configure_twice_panics {G : SdkConfig} {GL : SdkConfigLaws G} cfg cfg' :
  configureBech32Once cfg = Ok cfg' -> configureBech32Once cfg' = Panic.
Proof.
  unfold configureBech32Once. intros H.
  destruct (SetBech32PrefixForAccount _ _ cfg) as [c1| |]; cbn in H; try done.
  destruct (SetBech32PrefixForValidator _ _ c1) as [c2| |]; cbn in H; try done.
  destruct (SetBech32PrefixForConsensusNode _ _ c2) as [c3| |]; cbn in H; try done.
  injection H as <-. by rewrite sealed_panics.
Qed.

(** ** Properties *)

(** cosmos-sdk's [keys]: a group of commands without subcommands and without
    hooks, none of them named like this program's own. *)
Definition sdk_leaf (sub : command) : Prop :=
  c_run sub = SdkCmd (c_name sub) /\ c_subs sub = [] /\ c_name sub <> bs "start" /\ c_name sub <> bs "init-state".
Record sdk_keys (k : command) : Prop := {
  sk_group : c_run k = Group;
  sk_name : c_name k <> bs "start" /\ c_name k <> bs "init-state";
  sk_subs : Forall sdk_leaf (c_subs k);
}.

Lemma needsKeyringDir_true names :
  Forall (fun n => n <> bs "start" /\ n <> bs "init-state") names -> needsKeyringDir names = true.
Proof.
  intros H. unfold needsKeyringDir. apply negb_true_iff, not_true_iff_false. rewrite existsb_exists.
  intros (n & Hn%list_elem_of_In & Hb). rewrite Forall_forall in H. destruct (H n Hn) as [H1 H2].
  unfold beq in Hb. by rewrite !bool_decide_false in Hb by done.
Qed.

(** The commands of the tree that run something. *)
Inductive runs (k : command) : command -> list bytes -> Prop :=
| runs_start : runs k startCmd [bs "start"; bs "bridge-signer"]
| runs_init : runs k initStateCmd [bs "init-state"; bs "bridge-signer"]
| runs_export : runs k exportCmd [bs "export"; c_name k; bs "bridge-signer"]
| runs_sdk sub : sub ∈ c_subs k -> c_name sub ∉ banned ->
    runs k sub [c_name sub; c_name k; bs "bridge-signer"].

Lemma within_runs k c up :
  sdk_keys k -> within (newRootCmd k) c up ->
  is_group c = false -> runs k c up.
Proof.
  intros [Hg _ Hs] Hw.
  assert (H : (c = newRootCmd k /\ up = [bs "bridge-signer"]) \/
    (c = AddCommand (bridgeSignerKeysCmd k) [exportCmd] /\ up = [c_name k; bs "bridge-signer"]) \/
    (c_subs c = [] /\ runs k c up)).
  { induction Hw as [|c up sub _ IH Hin]; [by left|]. right.
    destruct IH as [[-> ->]|[[-> ->]|[Hc _]]].
    - cbn in Hin. rewrite !elem_of_cons, elem_of_nil in Hin. destruct Hin as [->|[->|[->|[]]]].
      + by left.
      + right. split; [done|constructor].
      + right. split; [done|constructor].
    - right. cbn in Hin. rewrite elem_of_app, list_elem_of_singleton in Hin.
      destruct Hin as [Hin| ->]; [|split; [done|constructor]].
      apply list_elem_of_filter in Hin as [Hb Hin]. rewrite Forall_forall in Hs.
      split; [by apply Hs|by constructor].
    - rewrite Hc in Hin. by apply elem_of_nil in Hin. }
  destruct H as [[-> _]|[[-> _]|[_ H]]]; [done| |done]. unfold is_group. cbn. by rewrite Hg.
Qed.

Section Policy.
Context {CB : Cobra} {CL : CobraLaws CB}.
Context {K : KeyringLib} (client_context : flags -> result (KR * bytes)).
Context (GetClientQueryContext : KR * bytes -> flags -> result (KR * bytes)).

Lemma PersistentPreRunE_inv up fl fl' ctx :
  PersistentPreRunE client_context up fl = Ok (fl', ctx) ->
  (forall v ch, keyringBackend fl' = Some (v, ch) -> v = BackendFileName) /\
  (forall v, keyringBackend fl = Some (v, true) -> v = BackendFileName) /\
  configFlag fl' = configFlag fl /\ outputFlag fl' = outputFlag fl /\
  (needsKeyringDir up = true -> exists dir, keyringDirFlag fl = Ok dir /\ dir <> []) /\
  client_context fl' = Ok ctx.
Proof using.
  unfold PersistentPreRunE.
  set (m := match keyringBackend fl with None => _ | Some _ => _ end). intros H.
  assert (Hm : m = Ok fl' /\ (forall v ch, keyringBackend fl' = Some (v, ch) -> v = BackendFileName) /\
    (forall v, keyringBackend fl = Some (v, true) -> v = BackendFileName) /\
    configFlag fl' = configFlag fl /\ outputFlag fl' = outputFlag fl /\ keyringDirFlag fl' = keyringDirFlag fl).
  { destruct m as [fl1| |] eqn:Em; cbn [mbind result_bind] in H; try done.
    assert (fl1 = fl') as ->.
    { destruct (if needsKeyringDir up then _ else _); cbn [mbind result_bind] in H; try done.
      destruct (client_context fl1); cbn [mbind result_bind] in H; try done. by injection H. }
    split; [done|]. clear H. subst m. destruct (keyringBackend fl) as [[v ch]|] eqn:Eb; [|by injection Em as <-; rewrite Eb].
    unfold beq in Em. destruct ch; cbn [andb] in Em.
    - case_bool_decide as Hv; cbn [negb] in Em; [|done]. injection Em as <-. cbn [set_backend keyringBackend].
      rewrite Eb. cbn. split; [by intros ? ? [= <- _]|]. split; [by intros ? [= <-]|done].
    - injection Em as <-. cbn [set_backend keyringBackend]. rewrite Eb. cbn.
      split; [by intros ? ? [= <- _]|]. split; [by intros ? [=]|done]. }
  destruct Hm as (Em & H1 & H2 & H3 & H4 & H5). rewrite Em in H. cbn [mbind result_bind] in H.
  split; [done|]. split; [done|]. split; [done|]. split; [done|]. split.
  - intros Hn. rewrite Hn, H5 in H. destruct (keyringDirFlag fl) as [dir| |]; cbn in H; try done.
    unfold beq in H. case_bool_decide; [done|]. eauto.
  - destruct (if needsKeyringDir up then _ else _); cbn [mbind result_bind] in H; try done.
    destruct (client_context fl') as [c| |]; cbn [mbind result_bind] in H; try done. by injection H as <-.
Qed.

(** (C20) What a command line can reach: with cosmos-sdk's [keys] as a group of
    plain commands, every line that succeeds - whatever words, arguments and
    flags - prints the help of a group, or runs a command cobra itself adds
    ("help", "completion"), or runs [start], [init-state], this program's own
    [export], or one of the sdk's key commands other than its [export],
    [import] and [migrate].  All but the first two run with the keyring
    backend "file" (another one asked for is refused before anything runs),
    and everything that touches the keyring only with a non-empty
    --keyring-dir.  [start] and [init-state] take no arguments, [export]
    exactly the key's name, and uses the client context the root's check
    left, completed by the sdk. *)
Theorem command_policy k words args fl act fl' :
  sdk_keys k ->
  Execute client_context GetClientQueryContext (newRootCmd k) words args fl = Ok (act, fl') ->
  let file_backend := (forall v ch, keyringBackend fl' = Some (v, ch) -> v = BackendFileName) /\
    (forall v, keyringBackend fl = Some (v, true) -> v = BackendFileName) in
  let has_dir := exists dir, keyringDirFlag fl = Ok dir /\ dir <> [] in
  match act with
  | ActHelp => fl' = fl
  | ActCobra up a => a = args /\ exists hooked, resolve (newRootCmd k) words = Some (CobraOwn up hooked)
  | ActStart p | ActInitState p => file_backend /\ args = [] /\ p = configFlag fl
  | ActExport ctx key out =>
      file_backend /\ has_dir /\ args = [key] /\ outputFlag fl = Ok out /\
      exists c0, client_context fl' = Ok c0 /\ GetClientQueryContext c0 fl' = Ok ctx
  | ActSdk n ctx a => file_backend /\ has_dir /\ a = args /\ n ∉ banned /\ client_context fl' = Ok ctx /\
      exists sub, sub ∈ c_subs k /\ c_name sub = n
  end.
Proof using CL.
  intros Hk He file_backend has_dir. unfold Execute in He.
  destruct (resolve (newRootCmd k) words) as [[c up|up hooked]|] eqn:Ef; [| |done].
  2:{ destruct (OwnArgs _ args) as [[]| |]; cbn [mbind result_bind] in He; try done.
      destruct (if hooked then _ else _) as [?| |] in He; cbn [mbind result_bind] in He; try done.
      injection He as <- _. eauto. }
  destruct (is_group c) eqn:Eg; [by injection He as <- <-|].
  apply resolve_within, (within_runs _ _ _ Hk) in Ef; [|done].
  destruct (ValidateArgs c up args) as [[]| |] eqn:Ev; cbn [mbind result_bind] in He; try done.
  destruct (PersistentPreRunE client_context up fl) as [[fl1 ctx]| |] eqn:Ep; cbn [mbind result_bind] in He; try done.
  destruct (RunE GetClientQueryContext c args fl1 ctx) as [act1| |] eqn:Er; cbn [mbind result_bind] in He; try done.
  injection He as -> ->. destruct (PersistentPreRunE_inv _ _ _ _ Ep) as (H1 & H2 & H3 & H4 & H5 & H6).
  assert (Hfb : file_backend) by (by split). destruct Hk as [_ Hkn Hs].
  destruct Ef as [| | |sub Hin Hb].
  - injection Er as <-. apply NoArgs_ok in Ev. by rewrite H3.
  - injection Er as <-. apply NoArgs_ok in Ev. by rewrite H3.
  - apply ExactArgs_ok in Ev. destruct args as [|key [|? ?]]; [done| |unfold len in Ev; cbn in Ev; lia].
    cbn in Er. destruct (GetClientQueryContext ctx fl') as [qctx| |] eqn:Eq; cbn in Er; try done.
    rewrite H4 in Er. destruct (outputFlag fl) as [out| |]; cbn in Er; try done. injection Er as <-.
    split; [done|]. split; [|eauto]. apply H5, needsKeyringDir_true. repeat constructor; try apply Hkn; discriminate.
  - rewrite Forall_forall in Hs. destruct (Hs sub Hin) as (Hr & _ & Hn1 & Hn2).
    unfold RunE in Er. rewrite Hr in Er. injection Er as <-.
    split; [done|]. split; [|eauto 10].
    apply H5, needsKeyringDir_true. repeat constructor; try apply Hkn; done || discriminate.
Qed.
End Policy.

(** ** A concrete tree *)

(** Resolution by name and alias, the first child that answers. *)
Definition answers (next : bytes) (c : command) : Prop := c_name c = next \/ next ∈ c_aliases c.
#[export] Instance answers_dec next c : Decision (answers next c) := ltac:(unfold answers; apply _).

Fixpoint find_cmd (words : list bytes) (c : command) (up : list bytes) : option (command * list bytes) :=
  match words with
  | [] => Some (c, up)
  | w :: words' =>
      match list_find (answers w) (c_subs c) with
      | Some (_, sub) => find_cmd words' sub (c_name sub :: up)
      | None => None
      end
  end.

Lemma find_cmd_within root words c up d up' :
  within root c up -> find_cmd words c up = Some (d, up') -> within root d up'.
Proof.
  revert c up. induction words as [|w words IH]; intros c up Hw; cbn [find_cmd]; [by intros [= <- <-]|].
  destruct (list_find (answers w) (c_subs c)) as [[i sub]|] eqn:Ef; [|done].
  apply list_find_Some in Ef as (Hl & _). apply IH. econstructor; [done|]. by eapply list_elem_of_lookup_2.
Qed.

(** cobra's own commands come after the tree's. *)
Definition own_cmd (words : list bytes) : option resolved :=
  match words with
  | w :: _ =>
      if beq w (bs "help") || beq w (bs "completion") then Some (CobraOwn [w; bs "bridge-signer"] true)
      else if beq w (bs "__complete") then Some (CobraOwn [w; bs "bridge-signer"] false)
      else None
  | [] => None
  end.

#[local] Instance reference_cobra : Cobra := {
  resolve root words :=
    match find_cmd words root [c_name root] with
    | Some (c, up) => Some (InTree c up)
    | None => own_cmd words
    end;
  OwnArgs _ _ := Ok ();
  NoArgs path args :=
    match args with
    | [] => Ok ()
    | a :: _ => Err (Errorf "unknown command %q for %q" [AStr a; AStr path])
    end;
  ExactArgs n _ args :=
    if len args =? n then Ok ()
    else Err (Errorf "accepts %d arg(s), received %d" [AInt n; AInt (len args)]);
}.

#[local] Instance reference_cobra_laws : CobraLaws reference_cobra.
Proof.
  split.
  - intros root words c up. cbn. destruct (find_cmd words root [c_name root]) as [[d up']|] eqn:E.
    + intros [= <- <-]. revert E. apply find_cmd_within. constructor.
    + unfold own_cmd. destruct words as [|w ?]; [done|]. by repeat case_match.
  - by intros path [|a args].
  - intros n path args. cbn. by destruct (Z.eqb_spec (len args) n).
Qed.

(** The subcommands of cosmos-sdk's [keys]. *)
Definition sdk_names : list bytes :=
  [bs "mnemonic"; bs "add"; bs "export"; bs "import"; bs "import-hex"; bs "list"; bs "list-key-types";
   bs "show"; bs "delete"; bs "rename"; bs "parse"; bs "migrate"].
Definition sdk_keys_command : command :=
  Cmd (bs "keys") [] Group (map (fun n => Cmd n [] (SdkCmd n) []) sdk_names).

Lemma sdk_keys_command_ok : sdk_keys sdk_keys_command.
Proof.
  split; [done|split; discriminate|]. apply Forall_forall. intros c Hc.
  apply list_elem_of_fmap in Hc as (n & -> & Hn). unfold sdk_leaf. cbn. split; [done|]. split; [done|].
  split; intros ->; revert Hn; apply (bool_decide_eq_false_1 _); vm_compute; reflexivity.
Qed.

#[local] Instance reference_cli_keyring : KeyringLib := {
  Any := bytes;
  KR := unit;
  UnpackAny k := Ok (SecpKey k);
  keyring_New _ _ := st_ret ();
  kr_Key _ name := st_ret (name, Some (replicate 32 x01));
}.

Definition reference_context (fl : flags) : result (KR * bytes) :=
  match keyringDirFlag fl with Ok d => Ok (tt : KR, d) | Err e => Err e | Panic => Panic end.

Definition reference_query (ctx : KR * bytes) (_ : flags) : result (KR * bytes) := Ok ctx.

Definition sample_flags (backend : bytes) (changed : bool) (dir : bytes) : flags :=
  Flags (Some (backend, changed)) (Ok dir) (bs "config.yaml") (Ok (bs "/tmp/key.hex")).

(** [keys export] is this program's, [keys migrate] is gone, and another
    backend or a missing directory is refused. *)
Example export_is_ours :
  Execute reference_context reference_query (newRootCmd sdk_keys_command) [bs "keys"; bs "export"] [bs "validator"]
    (sample_flags (bs "os") false (bs "/data")) =
  Ok (ActExport (tt : @KR reference_cli_keyring, bs "/data") (bs "validator") (bs "/tmp/key.hex"), sample_flags (bs "file") false (bs "/data")).
Proof. vm_compute. reflexivity. Qed.

Example migrate_is_gone :
  is_ok (Execute reference_context reference_query (newRootCmd sdk_keys_command) [bs "keys"; bs "migrate"] []
           (sample_flags (bs "file") false (bs "/data"))) = false /\
  is_ok (Execute reference_context reference_query (newRootCmd sdk_keys_command) [bs "keys"; bs "list"] []
           (sample_flags (bs "os") true (bs "/data"))) = false /\
  is_ok (Execute reference_context reference_query (newRootCmd sdk_keys_command) [bs "keys"; bs "list"] []
           (sample_flags (bs "file") false [])) = false.
Proof. vm_compute. done. Qed.

(** "help" is cobra's; it too asks for the keyring's directory. *)
Example help_is_cobras :
  Execute reference_context reference_query (newRootCmd sdk_keys_command) [bs "help"] []
    (sample_flags (bs "os") false (bs "/data")) =
  Ok (ActCobra [bs "help"; bs "bridge-signer"] [], sample_flags (bs "file") false (bs "/data")) /\
  is_ok (Execute reference_context reference_query (newRootCmd sdk_keys_command) [bs "help"] []
           (sample_flags (bs "os") false [])) = false.
Proof. vm_compute. done. Qed.

(** "keys show validator" is the sdk's command, on the file backend and in
    the directory the line gave. *)
Lemma command_policy_witness :
  let fl := sample_flags (bs "os") false (bs "/data") in
  let line := Execute reference_context reference_query (newRootCmd sdk_keys_command) [bs "keys"; bs "show"]
    [bs "validator"] fl in
  exists fl', line = Ok (ActSdk (bs "show") (tt : @KR reference_cli_keyring, bs "/data") [bs "validator"], fl') /\
    keyringBackend fl' = Some (BackendFileName, false) /\
    bs "show" ∉ banned /\ reference_context fl' = Ok (tt : @KR reference_cli_keyring, bs "/data").
Proof.
  intros fl line. exists (sample_flags (bs "file") false (bs "/data")).
  assert (Hl : line = Ok (ActSdk (bs "show") (tt : @KR reference_cli_keyring, bs "/data") [bs "validator"],
    sample_flags (bs "file") false (bs "/data"))) by (vm_compute; reflexivity).
  destruct (command_policy reference_context reference_query sdk_keys_command _ _ _ _ _ sdk_keys_command_ok Hl)
    as ((H1 & _) & _ & _ & H2 & H3 & _).
  split; [exact Hl|]. split; [|split; [exact H2|exact H3]].
  rewrite <-(H1 _ _ eq_refl). reflexivity.
Defined.
