(* ===== verification/Shutdown.v ===== *)
(** * Serving and shutdown ([cmd/bridge-signer/cmd_start.go], [server/server.go],
      [health/health.go])

    The last part of [runDaemon]: the two servers and the dial clients run
    until a signal arrives or a server exits; then the context is canceled,
    the clients are waited for, both servers are stopped, and the daemon
    returns when that is done, when the timeout expires or when a second
    signal arrives.  The daemon is a transition system over the clients of
    [Privval]; what [net.Listen], [Serve] and [ListenAndServe] return and
    when a graceful stop finishes are choices of the environment. *)

From S2P Require Import Prelude GoStd Fs Json ReplayGuard Abi Logging Asn1 Signer Arbiter.
From S2P Require Import BridgeServer ServerProps Health Privval CommandTree.

(** ** The gRPC server's life ([server.go]) *)

(** [ServeOn], given what [Serve] returned. *)
Definition ServeOn (served : option error) : option error :=
  errw "gRPC server exited with error: %w" <$> served.

(** [Start], given what [net.Listen] and [Serve] returned, with its line. *)
Definition Start (listenAddr : bytes) (listened served : option error) : option error * list log_record :=
  match listened with
  | Some e => (Some (Errorf "failed to listen on %q: %w" [AStr listenAddr; AWrap e]), [])
  | None => (ServeOn served, [Info "gRPC server listening" [("addr"%string, VStr listenAddr)]])
  end.

(** ** The last part of [runDaemon] *)

(** What can come out of [errCh]. *)
Inductive server_exit (listenAddr : bytes) : bytes -> option error -> Prop :=
| exit_health served : server_exit listenAddr (bs "health") (health_Start served)
| exit_grpc listened served : server_exit listenAddr (bs "grpc") (fst (Start listenAddr listened served)).

(** What ends the first [select]. *)
Inductive stop_event := GotSignal | ServerExit (name : bytes) (err : option error).

Definition shutdownReason (e : stop_event) : option error :=
  match e with
  | ServerExit name (Some err) => Some (Errorf "%s server: %w" [AStr name; AWrap err])
  | _ => None
  end.

Definition forcedExit : error := errNew "forced exit on second signal".

(** Where the goroutine of [runDaemon] is: in the first [select], in
    [consensusWg.Wait], in the second [select] while the servers stop, or
    returned with its value. *)
Inductive stage :=
| Serving
| Waiting (reason : option error)
| Stopping (reason : option error) (grpcDone healthDone : bool)
| Returned (err : option error).

Section Shutdown.
Context {T : CometBFT} {P : Type} {V : PrivVal P}.
Context (next : @ValidationRequestHandlerFunc T P) (chainID listenAddr : bytes).

(** What has happened: the signals that arrived, what ended the first
    [select], and whether the second one was ended by a signal. *)
Record past := Past { h_signals : nat; h_stop : option stop_event; h_forced : bool }.

(** [d_signals]: the signals in [sigCh], whose buffer holds two. *)
Record dstate := DState { d_stage : stage; d_sys : system P; d_signals : nat; d_past : past }.

Definition signaled (h : past) : past := Past (S (h_signals h)) (h_stop h) (h_forced h).
Definition stopped_by (e : stop_event) (h : past) : past := Past (h_signals h) (Some e) (h_forced h).
Definition forced (h : past) : past := Past (h_signals h) (h_stop h) true.

Definition cancel (x : system P) : system P := System (clients x) (sys_shared x) true.

(** A step reads a privval request, is a signal's arrival, or is another. *)
Inductive dlabel := DRead | DSignal | DOther.
Definition of_label (l : label) : dlabel := match l with LRead => DRead | _ => DOther end.

Inductive d_step : dlabel -> dstate -> dstate -> Prop :=
| ds_signal g x n h :
    (** also the signal of [signal.NotifyContext] *)
    (forall e, g <> Returned e) ->
    d_step DSignal (DState g x n h) (DState g (cancel x) (Nat.min 2 (S n)) (signaled h))
| ds_client l g l1 c l2 s c' s' d n h :
    (forall e, g <> Returned e) ->
    client_step next chainID d l (c, s) (c', s') ->
    d_step (of_label l) (DState g (System (l1 ++ c :: l2) s d) n h) (DState g (System (l1 ++ c' :: l2) s' d) n h)
| ds_stop_signal x n h :
    d_step DOther (DState Serving x (S n) h)
      (DState (Waiting (shutdownReason GotSignal)) (cancel x) n (stopped_by GotSignal h))
| ds_stop_exit name err x n h :
    server_exit listenAddr name err ->
    d_step DOther (DState Serving x n h)
      (DState (Waiting (shutdownReason (ServerExit name err))) (cancel x) n (stopped_by (ServerExit name err) h))
| ds_waited r x n h :
    all_stopped x -> d_step DOther (DState (Waiting r) x n h) (DState (Stopping r false false) x n h)
| ds_grpc_stopped r b x n h :
    d_step DOther (DState (Stopping r false b) x n h) (DState (Stopping r true b) x n h)
| ds_health_stopped r b x n h :
    d_step DOther (DState (Stopping r b false) x n h) (DState (Stopping r b true) x n h)
| ds_complete r x n h :
    d_step DOther (DState (Stopping r true true) x n h) (DState (Returned r) x n h)
| ds_timeout r b c x n h :
    d_step DOther (DState (Stopping r b c) x n h) (DState (Returned r) x n h)
| ds_second_signal r b c x n h :
    d_step DOther (DState (Stopping r b c) x (S n) h) (DState (Returned (Some forcedExit)) x n (forced h)).

(** A run, with the daemon's own steps and the requests it reads counted;
    signals are free. *)
Inductive d_run : nat -> nat -> dstate -> dstate -> Prop :=
| dr_refl x : d_run 0 0 x x
| dr_step n k l x y z : d_step l x y -> d_run n k y z ->
    d_run (match l with DSignal => n | _ => S n end) (match l with DRead => S k | _ => k end) x z.

Definition start_state (targets : list bytes) (s : shared P) : dstate :=
  DState Serving (start_clients targets s) 0 (Past 0 None false).

(** ** Invariant *)

Definition shutting_down (g : stage) : Prop := g <> Serving.

Record d_ok (n : nat) (x : dstate) : Prop := {
  do_sys : sys_ok (d_sys x);
  do_clients : length (clients (d_sys x)) = n;
  do_canceled : shutting_down (d_stage x) -> canceled (d_sys x) = true;
  do_stopped : match d_stage x with Stopping _ _ _ | Returned _ => all_stopped (d_sys x) | _ => True end;
}.

Lemma stopped_stuck l c s c' s' d :
  c_phase c = PStopped -> ~ client_step next chainID d l (c, s) (c', s').
Proof using. intros Hc H. inversion H; subst; cbn in Hc; try done; destruct_or?; subst; done. Qed.

Lemma sys_ok_cancel (x : system P) : sys_ok x -> sys_ok (cancel x).
Proof using. done. Qed.

Lemma d_ok_step n l x y : d_step l x y -> d_ok n x -> d_ok n y.
Proof using.
  intros Hs [H1 H2 H3 H4].
  destruct Hs as [g x m h Hg|l g l1 c l2 s c' s' d m h Hg Hc| | |r x m h Hs| | | | |];
    cbn [d_sys d_stage] in *; split; cbn [d_sys d_stage]; try done; try (by auto); try (intros _; by apply H3).
  - by apply (sys_ok_step next chainID l _ _ H1), sys_step_intro.
  - cbn [clients] in *. by rewrite <-H2, !length_app.
  - destruct g; try done; cbn [all_stopped clients] in H4; unfold all_stopped in H4; cbn [clients] in H4;
      rewrite Forall_app, Forall_cons in H4; destruct H4 as (_ & Hst & _); by destruct (stopped_stuck _ _ _ _ _ _ Hst Hc).
Qed.

Lemma d_ok_run m n k x y : d_run n k x y -> d_ok m x -> d_ok m y.
Proof using. induction 1 as [|n k l x y z H1 _ IH]; [done|]. intros Hx. apply IH. by eapply d_ok_step. Qed.

Lemma d_ok_start targets (s : shared P) :
  (forall a, s_arbiter s = Some a -> primary a = []) -> d_ok (length targets) (start_state targets s).
Proof using.
  intros Ha. split; cbn [start_state d_sys d_stage]; [by apply sys_ok_start| |done|done].
  unfold start_clients. cbn [clients]. apply length_map.
Qed.

(** ** What is returned *)

(** The value [runDaemon] returns, from what happened: after a second signal
    the fixed error, otherwise the error of the server that exited, wrapped
    with the server's name, or nil.  The signals taken did arrive. *)
Definition outcome (h : past) (e : option error) : Prop :=
  if h_forced h then
    e = Some (errNew "forced exit on second signal") /\
    ((h_stop h = Some GotSignal /\ 2 <= h_signals h) \/
     (exists name err, h_stop h = Some (ServerExit name err) /\ 1 <= h_signals h))%nat
  else
    (h_stop h = Some GotSignal /\ e = None /\ 1 <= h_signals h)%nat \/
    (exists name, h_stop h = Some (ServerExit name None) /\ server_exit listenAddr name None /\ e = None) \/
    (exists name err, h_stop h = Some (ServerExit name (Some err)) /\ server_exit listenAddr name (Some err) /\
       e = Some (Errorf "%s server: %w" [AStr name; AWrap err])).

(** Every signal in the channel or taken out of it arrived. *)
Definition taken (h : past) : nat :=
  ((match h_stop h with Some GotSignal => 1 | _ => 0 end) + (if h_forced h then 1 else 0))%nat.

Definition told (x : dstate) : Prop :=
  (d_signals x + taken (d_past x) <= h_signals (d_past x))%nat /\
  match d_stage x with
  | Serving => h_stop (d_past x) = None /\ h_forced (d_past x) = false
  | Waiting r | Stopping r _ _ => h_forced (d_past x) = false /\ outcome (d_past x) r
  | Returned e => outcome (d_past x) e
  end.

Lemma outcome_signaled h e : outcome h e -> outcome (signaled h) e.
Proof using. unfold outcome, signaled. cbn. destruct (h_forced h); naive_solver lia. Qed.

Lemma outcome_forced h r n :
  h_forced h = false -> outcome h r -> (S n + taken h <= h_signals h)%nat -> outcome (forced h) (Some forcedExit).
Proof using.
  unfold outcome, forced, taken. intros Hf. rewrite Hf. cbn. intros H Hn. split; [done|].
  destruct H as [(Hs & _)|[(name & Hs & _)|(name & err & Hs & _)]]; rewrite Hs in Hn |- *; [left|right|right]; eauto with lia.
Qed.

Lemma told_start targets (s : shared P) : told (start_state targets s).
Proof using. by split. Qed.

Lemma told_step l x y : d_step l x y -> told x -> told y.
Proof using.
  intros Hs [Hn Hg]. destruct Hs as [g x n h Hr|l g l1 c l2 s c' s' d n h Hr Hc|x n h|name err x n h He| | | | | |r b c x n h];
    unfold told in *; cbn [d_stage d_past d_signals] in *; try done; try (by destruct Hg).
  - split; [unfold taken in *; cbn [signaled h_signals h_stop h_forced]; lia|]. destruct g; cbn; naive_solver eauto using outcome_signaled.
  - destruct Hg as [H1 H2]. unfold taken, outcome, stopped_by in *. cbn. rewrite H1, H2 in *. cbn in *.
    split; [lia|]. split; [done|]. left. split; [done|]. split; [done|lia].
  - destruct Hg as [H1 H2]. unfold taken, outcome, stopped_by in *. cbn. rewrite H1, H2 in *. cbn in *.
    split; [lia|]. split; [done|]. right. destruct err as [err|]; [right|left]; eauto 10.
  - destruct Hg as [H1 H2]. split; [unfold taken in *; cbn; rewrite H1 in Hn; lia|]. by eapply outcome_forced.
Qed.

Lemma told_run n k x y : d_run n k x y -> told x -> told y.
Proof using. induction 1; eauto using told_step. Qed.

(** ** Termination *)

Definition stage_todo (g : stage) : nat :=
  match g with
  | Serving => 0
  | Waiting _ => 4
  | Stopping _ g h => 1 + (if g then 0 else 1) + (if h then 0 else 1)
  | Returned _ => 0
  end.
Definition d_todo (x : dstate) : nat := sys_todo (d_sys x) + stage_todo (d_stage x).

Lemma d_step_todo m l x y :
  d_step l x y -> d_ok m x -> shutting_down (d_stage x) ->
  shutting_down (d_stage y) /\
  match l with
  | DSignal => d_todo y = d_todo x
  | DRead => d_todo y <= d_todo x + 2
  | DOther => d_todo y < d_todo x
  end%nat.
Proof using.
  unfold shutting_down, d_todo. intros Hs [_ _ Hc _] Hd. specialize (Hc Hd).
  destruct Hs as [g x n h Hg|l g l1 c l2 s c' s' d n h Hg Hs| | | | | | | |];
    cbn [d_sys d_stage stage_todo] in *; try done; try (by split; [done|lia]).
  split; [done|]. cbn [canceled] in Hc. subst d.
  destruct (sys_step_todo next chainID l (System (l1 ++ c :: l2) s true) (System (l1 ++ c' :: l2) s' true))
    as (_ & _ & Ht); [by apply sys_step_intro|done|]. destruct l; cbn [of_label]; lia.
Qed.

Lemma d_run_todo m n k x y :
  d_run n k x y -> d_ok m x -> shutting_down (d_stage x) ->
  shutting_down (d_stage y) /\ (n + d_todo y <= d_todo x + 3 * k)%nat.
Proof using.
  induction 1 as [x|n k l x y z H1 _ IH]; intros Hx Hd; [split; [done|lia]|].
  destruct (d_step_todo _ _ _ _ H1 Hx Hd) as (Hd1 & Hm).
  destruct (IH (d_ok_step _ _ _ _ H1 Hx) Hd1) as (Hd2 & Hb).
  split; [done|]. destruct l; lia.
Qed.

Lemma d_progress m x :
  (forall req p, is_ok (fst (next req chainID p)) = true) -> d_ok m x -> shutting_down (d_stage x) ->
  (exists e, d_stage x = Returned e) \/ exists y, d_step DOther x y /\ d_past y = d_past x.
Proof using.
  intros Hn [_ _ Hc _] Hd. specialize (Hc Hd). destruct x as [g x n p]. cbn [d_stage d_sys] in *.
  destruct g as [|r|r g h|e]; [done| | |by left; eexists].
  - right. assert (Hdec : Decision (all_stopped x))
      by (apply Forall_dec; intros c; destruct (c_phase c); first [by left|by right]).
    destruct Hdec as [Hs|Hs]; [eexists; split; [by apply ds_waited|done]|].
    destruct (sys_progress next chainID x Hn Hc Hs) as (l & y & Hl & Hy).
    assert (Hd' : of_label l = DOther) by (by destruct l).
    inversion Hy; subst; [|done]. eexists. split; [rewrite <-Hd'; by apply ds_client|done].
  - right. eexists. split; [apply ds_timeout|done].
Qed.

Lemma d_finish m j x :
  (forall req p, is_ok (fst (next req chainID p)) = true) ->
  d_ok m x -> shutting_down (d_stage x) -> (d_todo x <= j)%nat ->
  exists n y e, d_run n 0 x y /\ d_stage y = Returned e /\ d_past y = d_past x.
Proof using.
  intros Hn. revert x. induction j as [|j IH]; intros x Hx Hd Hm;
    (destruct (d_progress m x Hn Hx Hd) as [[e He]|(y & Hs & Hr)];
      [exists 0%nat, x, e; split; [constructor|done]|]);
    destruct (d_step_todo _ _ _ _ Hs Hx Hd) as (Hdy & Hlt); [lia|].
  destruct (IH y (d_ok_step _ _ _ _ Hs Hx) Hdy) as (n & z & e & Hrun & Hz & Hp); [lia|].
  exists (S n), z, e. split; [exact (dr_step n 0 DOther x y z Hs Hrun)|]. by rewrite Hp.
Qed.

(** (C15) The daemon shuts down, with a privval handler that never panics:
    from the moment a signal was taken or a server exited, it takes at most 8
    steps for each dial client and 4 of its own, plus 3 for every privval
    request still read, whatever else happens; as long as it has not returned
    it can always go on, so it does return, also when nothing further
    happens.  It returns only after every client has, when nobody holds the
    primary role any more - a second signal does not cut that wait short.
    It returns nil if a signal had ended the serving, or a server that exited
    cleanly; the error the server's [Start] returned, wrapped with the
    server's name, if that server had failed; and "forced exit on second
    signal" exactly if a further signal, which did arrive, was taken while
    the servers were stopping. *)
Theorem daemon_shutdown_terminates targets (s : shared P) n0 k0 x :
  (forall a, s_arbiter s = Some a -> primary a = []) ->
  (forall req p, is_ok (fst (next req chainID p)) = true) ->
  d_run n0 k0 (start_state targets s) x -> shutting_down (d_stage x) ->
  (forall n k y, d_run n k x y -> (n <= 8 * length targets + 4 + 3 * k)%nat /\
     ((forall z, ~ d_step DOther y z) -> exists e, d_stage y = Returned e) /\
     (forall e, d_stage y = Returned e ->
        outcome (d_past y) e /\ all_stopped (d_sys y) /\
        forall a, s_arbiter (sys_shared (d_sys y)) = Some a -> primary a = [])) /\
  exists n y e, d_run n 0 x y /\ d_stage y = Returned e /\ d_past y = d_past x.
Proof using.
  intros Ha Hn Hx Hd. pose proof (d_ok_run _ _ _ _ _ Hx (d_ok_start _ _ Ha)) as Hok.
  pose proof (told_run _ _ _ _ Hx (told_start _ _)) as Htx. split.
  - intros n k y Hy. destruct (d_run_todo _ _ _ _ _ Hy Hok Hd) as (Hdy & Hb).
    pose proof (d_ok_run _ _ _ _ _ Hy Hok) as Hoky. split; [|split].
    + pose proof (sys_todo_bound (d_sys x)) as Hm. rewrite (do_clients _ _ Hok) in Hm.
      unfold d_todo in Hb. assert (stage_todo (d_stage x) <= 4)%nat
        by (destruct (d_stage x) as [| |? [] []|]; cbn; lia). lia.
    + intros Hstuck. destruct (d_progress _ y Hn Hoky Hdy) as [|(z & Hz & _)]; [done|]. by destruct (Hstuck z).
    + intros e He. destruct (told_run _ _ _ _ Hy Htx) as [_ Ho]. rewrite He in Ho. split; [done|].
      destruct Hoky as [Hs _ _ Hst]. rewrite He in Hst.
      split; [done|]. intros a Hya. by apply (all_stopped_no_primary (d_sys y)).
  - by apply (d_finish (length targets) (d_todo x)).
Qed.
End Shutdown.

(** ** A concrete shutdown *)

#[local] Existing Instance reference_comet.
#[local] Existing Instance reference_comet_laws.
#[local] Existing Instance reference_pv.

(** The port is taken: the gRPC server exits before anything was served. *)
Definition port_taken : option error :=
  fst (Start (bs "0.0.0.0:9191") (Some (ErrLib "bind: address already in use")) None).

Definition taken_port : dstate :=
  DState (Waiting (shutdownReason (ServerExit (bs "grpc") port_taken)))
    (cancel (start_clients [nodeA; nodeB] sample_shared)) 0 (Past 0 (Some (ServerExit (bs "grpc") port_taken)) false).

Lemma daemon_shutdown_terminates_witness :
  exists n y, d_run (ValidationRequestHandler (V := reference_pv) []) (bs "tellor-1") (bs "0.0.0.0:9191") n 0
      taken_port y /\ (n <= 20)%nat /\
    d_stage y = Returned (Some (Errorf "%s server: %w" [AStr (bs "grpc");
      AWrap (Errorf "failed to listen on %q: %w" [AStr (bs "0.0.0.0:9191");
        AWrap (ErrLib "bind: address already in use")])])).
Proof.
  destruct (daemon_shutdown_terminates (ValidationRequestHandler (V := reference_pv) []) (bs "tellor-1")
    (bs "0.0.0.0:9191") [nodeA; nodeB] sample_shared 1 0 taken_port) as [H1 (n & y & e & Hy & Hr & Hp)].
  - intros a0 Ha0. injection Ha0 as <-. reflexivity.
  - exact reference_handler_ok.
  - eapply (dr_step _ _ _ 0 0 DOther); [|apply dr_refl].
    exact (ds_stop_exit _ _ _ _ _ _ _ _ (exit_grpc _ (Some (ErrLib "bind: address already in use")) None)).
  - discriminate.
  - exists n, y. split; [exact Hy|]. destruct (H1 n 0%nat y Hy) as (Hn & _ & Ho). split; [exact Hn|].
    destruct (Ho e Hr) as [Hout _]. unfold outcome in Hout. rewrite Hp in Hout. cbn in Hout. rewrite Hr.
    destruct Hout as [(Hs & _)|[(m & Hs & _)|(m & err & Hs & _ & ->)]]; [discriminate Hs|discriminate Hs|].
    injection Hs as <- <-. reflexivity.
Defined.
