(* ===== verification/Calls.v ===== *)
(** * gRPC calls as processes ([server/server.go])

    The handlers of [BridgeServer] run a call to its end; in the daemon many
    calls run at once, and what one of them sees between two of its accesses
    to shared state is up to the others.  Here every call is a process: the
    handler of [server.go] with its accesses - the guard's operations (each
    holds the mutex), the calls of the backend, a read of the election, a
    line logged - as events, and nothing but pure code between them.

    [exec] runs a process without interruption and gives back the handlers
    of [BridgeServer].  A [Protocol] says which events a process may perform
    in which order; [wp] that a process keeps to it. *)

From S2P Require Import Prelude GoStd Sha256 Abi Checkpoint Attestation Fs Json ReplayGuard.
From S2P Require Import Logging Asn1 Signer Arbiter BridgeServer.

(** ** Processes *)

Inductive event : Type -> Type :=
| EvLog (line : log_record) : event ()
| EvPrimaryHost : event (option bytes)              (** [None]: a nil function *)
| EvGetPublicKey : event (result bytes)
| EvBech32Address (prefix : bytes) : event (result bytes)
| EvSignRaw (digest : bytes) : event (result bytes)
| EvCheckAndAdvance (ts : Z) : event (result ())
| EvCachedSignature (ts : Z) (ckpt : bytes) : event (option bytes)
| EvRecordSignature (ts : Z) (ckpt sig : bytes) : event (result ()).

Inductive proc (A : Type) : Type :=
| Done (r : result A)
| Do {X} (e : event X) (k : X -> proc A).
Arguments Done {_} _.
Arguments Do {_ _} _ _.

(** Go on with the outcome of [p], whatever it is. *)
Fixpoint p_then {A B} (p : proc A) (f : result A -> proc B) : proc B :=
  match p with
  | Done r => f r
  | Do e k => Do e (fun x => p_then (k x) f)
  end.

Definition p_bind {A B} (p : proc A) (f : A -> proc B) : proc B :=
  p_then p (fun r => match r with Ok a => f a | Err e => Done (Err e) | Panic => Done Panic end).
Definition p_ret {A} (a : A) : proc A := Done (Ok a).
Definition p_call {A} (e : event (result A)) : proc A := Do e Done.
Definition p_try {A} (e : event (result A)) : proc (result A) := Do e p_ret.
Definition p_log (line : log_record) : proc () := Do (EvLog line) p_ret.
Definition p_map_err {A} (f : error -> error) (p : proc A) : proc A :=
  p_then p (fun r => Done (map_err f r)).

Declare Scope proc_scope.
Delimit Scope proc_scope with proc.
Notation "x <- m ;; k" := (p_bind m (fun x => k))
  (at level 100, m at next level, right associativity) : proc_scope.
Notation "m ;;; k" := (p_bind m (fun _ => k))
  (at level 100, right associativity) : proc_scope.

(** A check that logs: its lines, oldest first, then its outcome. *)
Definition p_logged {A} (m : LR A) : proc A :=
  foldr (fun line p => Do (EvLog line) (fun _ => p)) (Done (fst m)) (rev (snd m)).

Definition p_log_outcome {A} (line : option error -> log_record) (p : proc A) : proc A :=
  p_then p (fun r =>
    match r with
    | Panic => Done Panic
    | _ => Do (EvLog (line (err_of r))) (fun _ => Done r)
    end).

(** ** The handlers *)

Section Handlers.
Context {C : Crypto} {E : GoEthereum} {L : NodeLib}.

Definition p_GetPublicKey (srv : Server) : proc response := (
  pubKey <- p_map_err (status_of Internal "failed to get public key: %v")
              (p_log_outcome AuditGetPublicKey (p_call EvGetPublicKey)) ;;
  if negb (len pubKey =? 33) then
    Done (status Internal "invalid public key length %d, expected 33" [AInt (len pubKey)])
  else p_ret (GetPublicKeyResponse pubKey))%proc.

Definition p_GetAddress (srv : Server) (prefix : bytes) : proc response := (
  addr <- p_map_err (status_of InvalidArgument "derive address: %v") (p_call (EvBech32Address prefix)) ;;
  p_ret (GetAddressResponse addr))%proc.

Definition p_check64 (sig : bytes) (badlen : string) : proc bytes :=
  if negb (len sig =? 64) then Done (status Internal badlen [AInt (len sig)]) else p_ret sig.

Definition p_sign64 (digest : bytes) (failed badlen : string) : proc bytes := (
  sig <- p_map_err (status_of Internal failed) (p_call (EvSignRaw digest)) ;;
  p_check64 sig badlen)%proc.

Definition p_audited_sign64 (requestID digest : bytes) : proc bytes := (
  sig <- p_map_err (status_of Internal "signing failed: %v")
           (p_log_outcome (AuditSign requestID digest) (p_call (EvSignRaw digest))) ;;
  p_check64 sig "invalid signature length %d, expected 64")%proc.

Definition p_SignInitial (srv : Server) (operatorAddress requestId : bytes) : proc response := (
  if beq operatorAddress [] then
    Done (status InvalidArgument "operator_address must not be empty" [])
  else
    hrp_addr <- Done (map_err (status_of InvalidArgument "invalid operator_address: %v")
                        (DecodeAndConvert operatorAddress)) ;;
    if negb (beq (snd hrp_addr) (selfCosmosAddr srv)) then
      p_log (Error "SignInitial rejected: operator_address does not match signer key"
               [("request_id", VStr requestId); ("operator_address", VStr operatorAddress)]%string) ;;;
      Done (status PermissionDenied "operator_address does not derive from the signer key" [])
    else
      let '(msgA, msgB) := initialRegistrationMessages operatorAddress in
      sigA <- p_sign64 (initialSigningDigest msgA) "signing A failed: %v"
                "invalid signature A length %d, expected 64" ;;
      sigB <- p_sign64 (initialSigningDigest msgB) "signing B failed: %v"
                "invalid signature B length %d, expected 64" ;;
      p_log (Info "SignInitial completed"
               [("event", VStr (bs "sign_initial")); ("request_id", VStr requestId);
                ("operator_address", VStr operatorAddress); ("success", VBool true)]%string) ;;;
      p_ret (SignInitialResponse sigA sigB))%proc.

Definition p_SignTx (srv : Server) (signDoc requestId : bytes) : proc response := (
  if len signDoc =? 0 then Done (status InvalidArgument "sign_doc must not be empty" [])
  else
    bodyBytes <- Done (map_err (status_of InvalidArgument "failed to decode sign_doc: %v")
                         (SignDoc_Unmarshal signDoc)) ;;
    messages <- Done (map_err (status_of InvalidArgument "failed to decode tx body: %v")
                        (TxBody_Unmarshal bodyBytes)) ;;
    if len messages =? 0 then Done (status PermissionDenied "sign_doc carries no messages" [])
    else
      p_logged (check_types requestId (allowedMsgTypes srv) messages) ;;;
      let hash := sha256_Sum256 signDoc in
      sig <- p_map_err (status_of Internal "signing failed: %v") (p_call (EvSignRaw hash)) ;;
      p_log (AuditSign requestId hash None) ;;;
      p_ret (SignTxResponse sig))%proc.

(** After the guard's rejection: the memoized signature is looked up under
    its own hold of the mutex, and only when the rejection is a replay. *)
Definition p_rejected (req : SignBridgeCheckpointRequest) (checkpoint : bytes) (err : error) : proc response := (
  cached <- (if errors_Is err ErrReplayGuardRejected
             then Do (EvCachedSignature (ValidatorTimestamp req) checkpoint) p_ret else p_ret None) ;;
  match cached with
  | Some sig =>
      p_log (Debug "SignBridgeCheckpoint replay guard: repeat checkpoint, returning memoized signature"
               (ck_attrs req)) ;;;
      p_ret (CheckpointResponse sig checkpoint)
  | None =>
      p_log (if errors_Is err ErrReplayGuardRejected
             then Debug "SignBridgeCheckpoint replay guard: repeat checkpoint, not re-signing (expected until the valset changes)"
                    (ck_attrs req)
             else Error "SignBridgeCheckpoint replay guard failure"
                    (ck_attrs req ++ [("error"%string, VErr err)])) ;;;
      Done (status FailedPrecondition "replay guard: %v" [AErr err])
  end)%proc.

(** After the guard's grant. *)
Definition p_granted (ctx : context) (req : SignBridgeCheckpointRequest) (checkpoint : bytes) : proc response := (
  sig <- p_audited_sign64 (ckRequestId req) (sha256_Sum256 checkpoint) ;;
  recorded <- p_try (EvRecordSignature (ValidatorTimestamp req) checkpoint sig) ;;
  match recorded with
  | Panic => Done Panic
  | Err err =>
      p_log (Error "SignBridgeCheckpoint: failed to memoize signature; a repeat of this checkpoint will be rejected"
               (ck_attrs req ++ [("error"%string, VErr err)]))
  | Ok _ => p_ret ()
  end ;;;
  p_log (checkpoint_completed ctx req checkpoint) ;;;
  p_ret (CheckpointResponse sig checkpoint))%proc.

Definition p_SignBridgeCheckpoint (srv : Server) (ctx : context) (req : SignBridgeCheckpointRequest)
    : proc response := (
  checkpoint <- p_logged (recompute_checkpoint srv req) ;;
  adv <- p_try (EvCheckAndAdvance (ValidatorTimestamp req)) ;;
  match adv with
  | Err err => p_rejected req checkpoint err
  | Panic => Done Panic
  | Ok _ => p_granted ctx req checkpoint
  end)%proc.

Definition p_SignOracleAttestation (srv : Server) (ctx : context) (req : SignOracleAttestationRequest)
    : proc response := (
  snapshot <- p_logged (recompute_snapshot req) ;;
  sig <- p_audited_sign64 (atRequestId req) (sha256_Sum256 snapshot) ;;
  p_log (Info "SignOracleAttestation completed"
           [("event", VStr (bs "sign_oracle_attestation")); ("request_id", VStr (atRequestId req));
            ("remote_addr", VStr (peerAddr ctx)); ("timestamp", VInt (Timestamp req));
            ("aggregate_power", VInt (AggregatePower req));
            ("snapshot", VStr (hex_EncodeToString snapshot)); ("success", VBool true)]%string) ;;;
  p_ret (OracleResponse sig snapshot))%proc.

Definition p_handle (srv : Server) (ctx : context) (req : request) : proc response :=
  match req with
  | SignRequest _ | SignRawRequest _ => Done (status Unimplemented blindSigningDisabledMsg [])
  | GetPublicKeyRequest => p_GetPublicKey srv
  | GetAddressRequest p => p_GetAddress srv p
  | SignTxRequest d rid => p_SignTx srv d rid
  | GetChainIDRequest =>
      if beq (chainID srv) [] then
        Done (status FailedPrecondition "chain ID is not configured on the signer" [])
      else p_ret (GetChainIDResponse (chainID srv))
  | CheckpointRequest r => p_SignBridgeCheckpoint srv ctx r
  | OracleRequest r => p_SignOracleAttestation srv ctx r
  | SignInitialRequest a rid => p_SignInitial srv a rid
  end.

(** ** The interceptors *)

Definition p_primary_gate (method : bytes) (from : option bytes) (h : proc response) : proc response :=
  if negb (bool_decide (method ∈ primaryGatedRPCs)) then h
  else Do EvPrimaryHost (fun ph =>
    match ph with
    | None => h
    | Some want =>
        if beq want [] then h
        else match from with
             | None => h
             | Some addr =>
                 if beq (HostOf addr) want then h
                 else (p_log (refused_line method (HostOf addr) want) ;;;
                       Done (status FailedPrecondition "not the primary signer" []))%proc
             end
    end).

Definition p_enabled (enabled : gmap bytes bool) (method : bytes) (h : proc response) : proc response :=
  match enabled !! method with
  | Some false => Done (status Unimplemented "method %s is disabled" [AStr method])
  | _ => h
  end.

Definition p_unary (method : bytes) (from : option bytes) (h : proc response) : proc response :=
  foldr (fun line p => Do (EvLog line) (fun _ => p))
    (p_then h (fun r =>
       match r with
       | Panic => Do (EvLog (panic_line method)) (fun _ => Done (status Internal "internal server error" []))
       | _ => Done r
       end))
    (connection_lines from).

(** The process of a call. *)
Definition p_serve (srv : Server) (from : option bytes) (req : request) : proc response :=
  let m := FullMethodName req in
  p_unary m from (p_enabled (enabledRPCs srv) m (p_primary_gate m from (p_handle srv from req))).
End Handlers.

(** ** Running a process *)

Section Exec.
Context {C : Crypto} {L : NodeLib} {B : Type} {S : Signer B}.

(** An access to the shared state, while the election answers [ph]. *)
Definition perform (ph : option bytes) {X} (e : event X) (w : world B) : X * world B :=
  match e in event X return X * world B with
  | EvLog line => ((), add_lines [line] w)
  | EvPrimaryHost => (ph, w)
  | EvGetPublicKey => call_signer Signer.GetPublicKey w
  | EvBech32Address prefix => call_signer (Bech32Address prefix) w
  | EvSignRaw digest => call_SignRaw digest w
  | EvCheckAndAdvance ts => call_guard (CheckAndAdvance ts) w
  | EvCachedSignature ts ckpt => (CachedSignature (w_guard w) ts ckpt, w)
  | EvRecordSignature ts ckpt sig => call_guard (RecordSignature ts ckpt sig) w
  end.

Fixpoint exec {A} (ph : option bytes) (p : proc A) : ST (world B) A := fun w =>
  match p with
  | Done r => (r, w)
  | Do e k => let '(x, w') := perform ph e w in exec ph (k x) w'
  end.
End Exec.

Section ExecFacts.
Context {C : Crypto} {E : GoEthereum} {L : NodeLib} {B : Type} {S : Signer B}.
Abbreviation W := (world B).

(** [exec] of a process is [m]. *)
Definition runs {A} (ph : option bytes) (p : proc A) (m : ST W A) : Prop := forall w, exec ph p w = m w.

Lemma exec_then {A A'} ph (p : proc A) (f : result A -> proc A') (w : W) :
  exec ph (p_then p f) w = let '(r, w') := exec ph p w in exec ph (f r) w'.
Proof using. revert w. induction p as [r|X e k IH]; intros w; cbn; [done|]. destruct (perform ph e w). apply IH. Qed.

Lemma runs_done {A} ph (r : result A) : runs ph (Done r) (st_lift r).
Proof using. done. Qed.
Lemma runs_ret {A} ph (a : A) : runs ph (p_ret a) (st_ret a).
Proof using. done. Qed.
Lemma runs_log ph line : runs ph (p_log line) (log line).
Proof using. done. Qed.

Lemma runs_bind {A A'} ph (p : proc A) (f : A -> proc A') m k :
  runs ph p m -> (forall a, runs ph (f a) (k a)) -> runs ph (p_bind p f) (st_bind m k).
Proof using.
  intros Hp Hf w. unfold p_bind. rewrite exec_then, Hp. unfold st_bind.
  destruct (m w) as [[a| |] w']; [apply Hf|done..].
Qed.
Lemma runs_map_err {A} ph f (p : proc A) m : runs ph p m -> runs ph (p_map_err f p) (st_map_err f m).
Proof using. intros Hp w. unfold p_map_err, st_map_err. rewrite exec_then, Hp. by destruct (m w). Qed.
Lemma runs_log_outcome {A} ph line (p : proc A) m :
  runs ph p m -> runs ph (p_log_outcome line p) (log_outcome line m).
Proof using.
  intros Hp w. unfold p_log_outcome, log_outcome. rewrite exec_then, Hp. by destruct (m w) as [[| |] w'].
Qed.

(** An event whose answer is an outcome runs as the call it stands for. *)
Lemma runs_call {A} ph (e : event (result A)) m :
  (forall w, perform ph e w = m w) -> runs ph (p_call e) m.
Proof using. intros He w. cbn. rewrite He. by destruct (m w). Qed.
Lemma runs_try {A} ph (e : event (result A)) m :
  (forall w, perform ph e w = m w) -> runs ph (p_try e) (st_try m).
Proof using. intros He w. cbn. rewrite He. unfold st_try. by destruct (m w). Qed.

Lemma exec_lines {A} ph ls (p : proc A) (w : W) :
  exec ph (foldr (fun line p => Do (EvLog line) (fun _ => p)) p ls) w = exec ph p (add_lines (rev ls) w).
Proof using.
  revert w. induction ls as [|l ls IH]; intros w; cbn [foldr rev exec perform]; [by rewrite add_lines_nil|].
  by rewrite IH, add_lines_app.
Qed.
Lemma runs_logged {A} ph (m : LR A) : runs ph (p_logged m) (logged m).
Proof using. intros w. unfold p_logged. rewrite exec_lines, rev_involutive. done. Qed.

Lemma runs_check64 ph sig f : runs ph (p_check64 sig f) (check64 sig f).
Proof using. unfold p_check64, check64. by destruct (negb _). Qed.
Lemma runs_sign64 ph d f1 f2 : runs ph (p_sign64 d f1 f2) (sign64 d f1 f2).
Proof using. apply runs_bind; [by apply runs_map_err, runs_call|]. intros. apply runs_check64. Qed.
Lemma runs_audited ph rid d : runs ph (p_audited_sign64 rid d) (audited_sign64 rid d).
Proof using.
  apply runs_bind; [by apply runs_map_err, runs_log_outcome, runs_call|]. intros. apply runs_check64.
Qed.
End ExecFacts.

#[export] Hint Resolve runs_done runs_ret runs_log runs_logged : signer.
#[export] Hint Resolve runs_check64 runs_sign64 runs_audited : signer.

Ltac runs_step :=
  match goal with
  | |- runs _ (p_bind _ _) (st_bind _ _) => apply runs_bind; [|intros ?]
  | |- runs _ (if ?b then _ else _) (if ?b then _ else _) => destruct b
  | |- runs _ (match ?x with _ => _ end) (match ?x with _ => _ end) => destruct x
  | |- runs _ (p_map_err _ _) _ => apply runs_map_err
  | |- runs _ (p_log_outcome _ _) _ => apply runs_log_outcome
  | |- runs _ (p_call _) _ => by apply runs_call
  | |- runs _ (p_try _) _ => by apply runs_try
  | |- runs _ _ _ => solve [eauto with signer]
  end.

Section ServeExec.
Context {C : Crypto} {E : GoEthereum} {L : NodeLib} {B : Type} {S : Signer B}.

Lemma runs_rejected ph req ckpt err (w : world B) :
  exec ph (p_rejected req ckpt err) w =
  (w <- st_get ;;
   match (if errors_Is err ErrReplayGuardRejected
          then CachedSignature (w_guard w) (ValidatorTimestamp req) ckpt else None) with
   | Some sig =>
       log (Debug "SignBridgeCheckpoint replay guard: repeat checkpoint, returning memoized signature"
              (ck_attrs req)) ;;;
       st_ret (CheckpointResponse sig ckpt)
   | None =>
       log (if errors_Is err ErrReplayGuardRejected
            then Debug "SignBridgeCheckpoint replay guard: repeat checkpoint, not re-signing (expected until the valset changes)"
                   (ck_attrs req)
            else Error "SignBridgeCheckpoint replay guard failure"
                   (ck_attrs req ++ [("error"%string, VErr err)])) ;;;
       st_lift (status FailedPrecondition "replay guard: %v" [AErr err])
   end)%go w.
Proof using.
  unfold p_rejected, st_bind at 1, st_get. destruct (errors_Is err ErrReplayGuardRejected).
  - unfold p_bind at 1. cbn [p_then exec perform p_ret]. destruct (CachedSignature _ _ ckpt); reflexivity.
  - reflexivity.
Qed.

Lemma runs_checkpoint ph srv ctx req :
  runs ph (p_SignBridgeCheckpoint srv ctx req) (SignBridgeCheckpoint srv ctx req : ST (world B) response).
Proof using.
  apply runs_bind; [auto with signer|]. intros ckpt. apply runs_bind; [by apply runs_try|].
  intros [[]|err|]; [|intros w; apply runs_rejected|done].
  unfold p_granted. repeat runs_step.
Qed.

Lemma runs_handle ph srv ctx req : runs ph (p_handle srv ctx req) (handle srv ctx req : ST (world B) response).
Proof using.
  destruct req; cbn [p_handle handle]; try done; try apply runs_checkpoint;
    unfold p_GetPublicKey, GetPublicKey, p_GetAddress, GetAddress, GetChainID, p_SignTx, SignTx,
      p_SignInitial, SignInitial, p_SignOracleAttestation, SignOracleAttestation, initialRegistrationMessages;
    cbv zeta; repeat runs_step.
Qed.

Lemma runs_primary_gate ph m from p (h : ST (world B) response) :
  runs ph p h -> runs ph (p_primary_gate m from p) (newPrimaryGateInterceptor ph (CallInfo m from) h).
Proof using.
  intros Hp. unfold p_primary_gate, newPrimaryGateInterceptor. cbn [FullMethod peer].
  destruct (negb _); [by destruct ph|]. intros w. cbn [exec perform].
  destruct ph as [want|]; [|apply Hp]. destruct (beq want []); [apply Hp|].
  destruct from as [addr|]; [|apply Hp]. destruct (beq (HostOf addr) want); [apply Hp|done].
Qed.

Lemma runs_unary ph m from p (h : ST (world B) response) :
  runs ph p h -> runs ph (p_unary m from p) (newUnaryInterceptor (CallInfo m from) h).
Proof using.
  intros Hp w. unfold p_unary, newUnaryInterceptor. cbn [FullMethod peer].
  assert (Hl : rev (connection_lines from) = connection_lines from) by by destruct from.
  rewrite exec_lines, exec_then, Hp, Hl. by destruct (h _) as [[| |] w'].
Qed.

(** The interleaved server is the specified one: the process of a call,
    run without interruption while the election does not change, does
    exactly what the handler and its interceptors do as one function - the
    same answer, the same guard, file system, backend and log - for every
    configuration, peer, request and state. *)
Theorem call_runs_as_specified srv ph from req (w : world B) :
  exec ph (p_serve srv from req) w = serve srv ph from req w.
Proof using.
  rewrite chain_eq. unfold p_serve. apply runs_unary. unfold p_enabled, newEnabledRPCInterceptor.
  cbn [FullMethod]. assert (Hg := runs_primary_gate ph (FullMethodName req) from _ _ (runs_handle ph srv from req)).
  by destruct (enabledRPCs srv !! FullMethodName req) as [[|]|].
Qed.
End ServeExec.

(** ** Protocols *)

(** Which events are allowed in a state, and the state an answer leads to. *)
Class Protocol (St : Type) := {
  allowed {X} : St -> event X -> Prop;
  next_state {X} : St -> event X -> X -> St;
}.

(** From [st], [p] performs allowed events only, whatever they answer, and
    ends in a state and with an outcome that satisfy [Q]. *)
Fixpoint wp {St} {P : Protocol St} {A} (st : St) (p : proc A) (Q : St -> result A -> Prop) : Prop :=
  match p with
  | Done r => Q st r
  | Do e k => allowed st e /\ forall x, wp (next_state st e x) (k x) Q
  end.

Section Wp.
Context {St : Type} {P : Protocol St}.

Lemma wp_mono {A} st (p : proc A) (Q Q' : St -> result A -> Prop) :
  (forall s r, Q s r -> Q' s r) -> wp st p Q -> wp st p Q'.
Proof using.
  intros HQ. revert st. induction p as [r|X e k IH]; intros st; cbn; [apply HQ|].
  intros [Ha Hk]. split; [done|]. intros x. by apply IH.
Qed.

Lemma wp_then {A B} st (p : proc A) (f : result A -> proc B) Q :
  wp st p (fun s r => wp s (f r) Q) -> wp st (p_then p f) Q.
Proof using.
  revert st. induction p as [r|X e k IH]; intros st; cbn; [done|].
  intros [Ha Hk]. split; [done|]. intros x. by apply IH.
Qed.

(** Errors and panics end the process. *)
Definition or_fails {A B} (Q : St -> A -> Prop) (F : St -> result B -> Prop) (s : St) (r : result A) : Prop :=
  match r with Ok a => Q s a | Err e => F s (Err e) | Panic => F s Panic end.

Lemma wp_bind {A B} st (p : proc A) (f : A -> proc B) Q :
  wp st p (or_fails (fun s a => wp s (f a) Q) Q) -> wp st (p_bind p f) Q.
Proof using. intros H. apply wp_then. eapply wp_mono; [|exact H]. by intros s [a|e|]. Qed.

Lemma wp_lines {A} st ls (p : proc A) Q :
  (forall line, allowed st (EvLog line) /\ next_state st (EvLog line) () = st) ->
  wp st p Q -> wp st (foldr (fun line p => Do (EvLog line) (fun _ => p)) p ls) Q.
Proof using.
  intros Hl Hp. induction ls as [|l ls IH]; cbn; [done|]. destruct (Hl l) as [Ha Hn].
  split; [done|]. intros []. by rewrite Hn.
Qed.
End Wp.

(** How far a checkpoint request is: the guard has not granted it, it may
    sign, it holds its signature, it may answer with a signature, or it has
    failed after the grant. *)
Inductive progress :=
| NotYet | MaySign | Holding (sig : bytes) | Answered (sig : bytes) | Over.
#[export] Instance progress_eq_dec : EqDecision progress.
Proof. solve_decision. Defined.

Record cstate := CState { admitted : bool; cs_progress : progress }.

(** What the gate in front of the vote-extension methods lets through. *)
Definition gate_open (ph from : option bytes) (req : request) : bool :=
  match ph, from with
  | Some want, Some addr =>
      negb (bool_decide (FullMethodName req ∈ primaryGatedRPCs)) || beq want [] || beq (HostOf addr) want
  | _, _ => true
  end.

Definition ungated (req : request) : bool := negb (bool_decide (FullMethodName req ∈ primaryGatedRPCs)).

Section CallProtocol.
Context {C : Crypto} {E : GoEthereum} {L : NodeLib}.
Context (srv : Server) (from : option bytes) (req : request).

(** The guard is asked, and asked to memoize, only for a checkpoint request
    past the gates, with its own timestamp and checkpoint; the backend signs
    only what the request authorises, once the gate in front of the method
    is passed, and for a checkpoint only after the guard's grant. *)
Definition call_allowed {X} (st : cstate) (e : event X) : Prop :=
  match e with
  | EvLog _ | EvPrimaryHost | EvGetPublicKey | EvBech32Address _ => True
  | EvSignRaw d =>
      admitted st = true /\ authorised srv req d /\
      match req with
      | CheckpointRequest r => cs_progress st = MaySign /\ d = sha256_Sum256 (ExpectedCheckpoint r)
      | _ => True
      end
  | EvCheckAndAdvance ts =>
      admitted st = true /\ cs_progress st = NotYet /\
      exists r, req = CheckpointRequest r /\ ts = ValidatorTimestamp r /\
        checkpoint_facts srv r (ExpectedCheckpoint r)
  | EvCachedSignature ts c =>
      cs_progress st = NotYet /\
      exists r, req = CheckpointRequest r /\ ts = ValidatorTimestamp r /\ c = ExpectedCheckpoint r
  | EvRecordSignature ts c sig =>
      cs_progress st = Holding sig /\
      exists r, req = CheckpointRequest r /\ ts = ValidatorTimestamp r /\ c = ExpectedCheckpoint r
  end.

Definition after_sign (pr : progress) (r : result bytes) : progress :=
  match pr with
  | MaySign => match r with Ok sig => if len sig =? 64 then Holding sig else Over | _ => Over end
  | _ => pr
  end.

Definition call_next {X} (st : cstate) (e : event X) : X -> cstate :=
  match e in event X return X -> cstate with
  | EvLog _ | EvGetPublicKey | EvBech32Address _ => fun _ => st
  | EvPrimaryHost => fun ph => CState (gate_open ph from req) (cs_progress st)
  | EvSignRaw _ => fun r => CState (admitted st) (after_sign (cs_progress st) r)
  | EvCheckAndAdvance _ => fun r => CState (admitted st) (if is_ok r then MaySign else cs_progress st)
  | EvCachedSignature _ _ => fun o =>
      CState (admitted st) (match o with Some sig => Answered sig | None => cs_progress st end)
  | EvRecordSignature _ _ sig => fun _ => CState (admitted st) (Answered sig)
  end.

Definition call_protocol : Protocol cstate := {|
  allowed X := @call_allowed X;
  next_state X := @call_next X;
|}.

(** A checkpoint request succeeds only with an answer it may give. *)
Definition call_post (st : cstate) (r : result response) : Prop :=
  match req, r with
  | CheckpointRequest q, Ok resp =>
      exists sig, resp = CheckpointResponse sig (ExpectedCheckpoint q) /\ cs_progress st = Answered sig
  | _, _ => True
  end.

#[local] Existing Instance call_protocol.

Lemma wp_logged {A} st (m : LR A) Q :
  Q st (fst m) -> wp st (p_logged m) Q.
Proof using. intros H. unfold p_logged. by apply wp_lines. Qed.

Lemma call_post_err st e : call_post st (Err e).
Proof using. unfold call_post. by destruct req. Qed.
Lemma call_post_panic st : call_post st Panic.
Proof using. unfold call_post. by destruct req. Qed.
#[local] Hint Resolve call_post_err call_post_panic : core.

(** Symbolic execution of a handler: every event is allowed and the outcome
    of every answer is followed. *)
#[local] Ltac wp_red :=
  try unfold p_check64; try unfold status;
  cbn [wp p_bind p_then p_ret p_call p_try p_log p_map_err p_log_outcome p_check64 p_sign64 p_audited_sign64
       map_err err_of is_ok allowed next_state call_protocol call_allowed call_next admitted cs_progress after_sign].
#[local] Ltac wp_go :=
  wp_red;
  repeat (match goal with
    | |- True => exact I
    | H : negb false = false |- _ => discriminate H
    | |- _ /\ _ => split
    | |- forall _, _ => intros ?
    | r : result _ |- _ => destruct r
    | |- context [if ?b then _ else _] => destruct b eqn:?
    | |- call_post _ (Err _) => apply call_post_err
    | |- call_post _ Panic => apply call_post_panic
    end; wp_red).

Lemma wp_GetPublicKey st : req = GetPublicKeyRequest -> wp st (p_GetPublicKey srv) call_post.
Proof using. intros Hr. unfold p_GetPublicKey. wp_go. unfold call_post. by rewrite Hr. Qed.

Lemma wp_GetAddress st prefix : req = GetAddressRequest prefix -> wp st (p_GetAddress srv prefix) call_post.
Proof using. intros Hr. unfold p_GetAddress. wp_go. unfold call_post. by rewrite Hr. Qed.

Lemma wp_SignTx st doc rid :
  req = SignTxRequest doc rid -> admitted st = true -> wp st (p_SignTx srv doc rid) call_post.
Proof using.
  intros Hr Ha. unfold p_SignTx. destruct (len doc =? 0); [apply call_post_err|].
  destruct (SignDoc_Unmarshal doc) as [body| |] eqn:Hb; [|apply call_post_err|apply call_post_panic].
  cbn [p_bind p_then map_err].
  destruct (TxBody_Unmarshal body) as [urls| |] eqn:Hu; [|apply call_post_err|apply call_post_panic].
  cbn [p_bind p_then map_err]. destruct (len urls =? 0) eqn:E0; [apply call_post_err|]. apply len_zero in E0.
  apply wp_bind, wp_logged. destruct (fst (check_types _ _ urls)) as [[]| |] eqn:Hc; [|apply call_post_err|apply call_post_panic].
  apply check_types_spec in Hc. cbn [or_fails]. wp_go; try done.
  - rewrite Hr. by econstructor.
  - by rewrite Hr.
  - unfold call_post. by rewrite Hr.
Qed.

Lemma wp_SignInitial st op rid :
  req = SignInitialRequest op rid -> admitted st = true -> wp st (p_SignInitial srv op rid) call_post.
Proof using.
  intros Hr Ha. unfold p_SignInitial. destruct (beq op []); [apply call_post_err|].
  destruct (DecodeAndConvert op) as [[hrp addr]| |] eqn:Hd; [|apply call_post_err|apply call_post_panic].
  cbn [p_bind p_then map_err snd]. destruct (negb (beq addr _)) eqn:Ea; [wp_go; done|].
  apply negb_false_iff, bool_decide_eq_true in Ea. subst addr. cbn [initialRegistrationMessages].
  wp_go; try done; try (rewrite Hr; by first [eapply auth_initial; eauto|done]).
  unfold call_post. by rewrite Hr.
Qed.

Lemma wp_SignOracle st ctx r :
  req = OracleRequest r -> admitted st = true -> wp st (p_SignOracleAttestation srv ctx r) call_post.
Proof using.
  intros Hr Ha. apply wp_bind, wp_logged.
  destruct (fst (recompute_snapshot r)) as [snap| |] eqn:Hs; [|apply call_post_err|apply call_post_panic].
  apply recompute_snapshot_spec in Hs. cbn [or_fails]. wp_go; try done; try (rewrite Hr; by first [constructor|done]).
  unfold call_post. by rewrite Hr.
Qed.
Lemma wp_SignCheckpoint ctx r :
  req = CheckpointRequest r -> wp (CState true NotYet) (p_SignBridgeCheckpoint srv ctx r) call_post.
Proof using.
  intros Hr. apply wp_bind, wp_logged.
  destruct (fst (recompute_checkpoint srv r)) as [ckpt| |] eqn:Hc; [|apply call_post_err|apply call_post_panic].
  apply recompute_checkpoint_spec in Hc. pose proof (cf_expected _ _ _ Hc) as ->. cbn [or_fails].
  cbn [p_bind p_then p_try wp]. split; [by do 2 (split; [done|]); exists r|]. intros [[]|err|]; [|..|apply call_post_panic].
  - unfold p_granted. wp_go; eauto; try (rewrite Hr; by first [constructor|done]).
    all: unfold call_post; rewrite Hr; cbn; by eauto.
  - wp_red. unfold p_rejected. destruct (errors_Is err ErrReplayGuardRejected); [|by wp_go].
    wp_go; eauto. destruct x as [sig|]; wp_go. unfold call_post. rewrite Hr. cbn. by eauto.
Qed.

Lemma wp_handle ctx : wp (CState true NotYet) (p_handle srv ctx req) call_post.
Proof using.
  destruct req eqn:Hr; cbn [p_handle]; try (unfold call_post; by rewrite Hr).
  - by apply wp_GetPublicKey.
  - by apply wp_GetAddress.
  - by apply wp_SignTx.
  - destruct (beq _ _); unfold call_post; cbn; by rewrite Hr.
  - by apply wp_SignCheckpoint.
  - by apply wp_SignOracle.
  - by apply wp_SignInitial.
Qed.

Lemma wp_primary_gate h st :
  cs_progress st = NotYet -> admitted st = ungated req -> wp (CState true NotYet) h call_post ->
  wp st (p_primary_gate (FullMethodName req) from h) call_post.
Proof using.
  destruct st as [a pr]. cbn. intros -> -> Hh. unfold p_primary_gate, ungated.
  destruct (negb _) eqn:Eg; [done|]. split; [done|]. intros ph. cbn [next_state call_protocol call_next cs_progress].
  unfold gate_open. rewrite Eg. cbn [orb]. destruct ph as [want|]; [|done].
  destruct (beq want []); [by destruct from|]. destruct from as [addr|]; [|done].
  destruct (beq (HostOf addr) want); [done|]. wp_go.
Qed.

(** Every call keeps to the protocol. *)
Lemma wp_serve : wp (CState (ungated req) NotYet) (p_serve srv from req) call_post.
Proof using.
  unfold p_serve, p_unary. apply wp_lines; [by split|]. apply wp_then.
  apply (wp_mono _ _ call_post).
  { intros s [resp|e|] Hq; [exact Hq|apply call_post_err|]. cbn. split; [done|]. intros _. apply call_post_err. }
  unfold p_enabled. destruct (enabledRPCs srv !! FullMethodName req) as [[|]|];
    [|apply call_post_err|]; (apply wp_primary_gate; [done|done|apply wp_handle]).
Qed.
End CallProtocol.
