(* ===== verification/Runtime.v ===== *)
(** * The running daemon ([server/server.go], [cmd/bridge-signer/cmd_start.go])

    The gRPC server while it serves: any number of calls in progress, each a
    process of [Calls], interleaved event by event over the shared world;
    beside them the dial clients of [Privval] move the election the calls
    ask for.  System calls fail anywhere, the process is killed or the
    machine stops at any moment - also inside a guard operation - and a new
    process starts from what the disk kept, with whatever configuration and
    key, as long as the guard file is the same.

    A call waiting for a mutex or for a backend is a call whose next event is
    not taken, for as long as the environment likes.  The deadline of the
    request's context is not a step of its own: the code hands the context to
    the backend only, whose call may return any error.

    The system is shown to refine [GuardSystem]; the theorems are about the
    whole life of the service, across all restarts. *)

From S2P Require Import Prelude GoStd Sha256 Abi Checkpoint Attestation Fs Json ReplayGuard GuardSystem.
From S2P Require Import Logging Asn1 Signer Arbiter Config BridgeServer ServerProps Privval ConnKey Daemon Calls.

(** ** The state *)

Section Runtime.
Context {C : Crypto} {E : GoEthereum} {L : NodeLib} {B : Type} {S : Signer B}.
Context {T : CometBFT} {P : Type} {V : PrivVal P}.
(** The validation handler and chain id of the dial clients, the guard file. *)
Context (next : @ValidationRequestHandlerFunc T P) (chainID path : bytes).

(** [None]: consensus signing is off. *)
Abbreviation consensus := (option (system P)).

(** [cfg.PrimaryHost()] as the daemon wires it. *)
Definition elected (cs : consensus) : option bytes := primary_host (cs ≫= fun x => s_arbiter (sys_shared x)).

(** A call in progress; [lc_asked] remembers the clients at the time the
    call asked for the primary. *)
Record live_call := LiveCall {
  lc_from : option bytes;
  lc_request : request;
  lc_asked : option consensus;
  lc_proc : proc response;
}.

(** A signature the backend returned, and for which call. *)
Record released := Released {
  rl_server : Server;
  rl_from : option bytes;
  rl_request : request;
  rl_asked : option consensus;
  rl_digest : bytes;
  rl_signature : bytes;
}.

(** [rt_released] and [rt_replies] are histories, over all restarts. *)
Record runtime := Runtime {
  rt_server : Server;
  rt_world : world B;
  rt_consensus : consensus;
  rt_calls : list live_call;
  rt_stopping : bool;
  rt_released : list released;
  rt_replies : list (request * result response);
}.

(** A field of type [uint64]. *)
Definition request_ok (req : request) : Prop :=
  match req with CheckpointRequest r => is_u64 (ValidatorTimestamp r) | _ => True end.

(** ** The steps *)

(** The system calls of the next event fail as the environment decides. *)
Definition set_env (faults : list fault) (names : list bytes) (w : world B) : world B :=
  World (w_guard w) (Fs (fs_disk (w_fs w)) faults names []) (w_backend w) (w_log w) (w_lines w).

Definition asked_after {X} (cs : consensus) (e : event X) (asked : option consensus) : option consensus :=
  match e with EvPrimaryHost => Some cs | _ => asked end.

Definition released_by {X} (srv : Server) (c : live_call) (e : event X) : X -> list released :=
  match e in event X return X -> list released with
  | EvSignRaw d => fun r =>
      match r with
      | Ok sig => [Released srv (lc_from c) (lc_request c) (lc_asked c) d sig]
      | _ => []
      end
  | _ => fun _ => []
  end.

(** The guard operation behind an event. *)
Definition op_of {X} (e : event X) : option guard_op :=
  match e with
  | EvCheckAndAdvance ts => Some (OpAdvance ts)
  | EvRecordSignature ts c s => Some (OpRecord ts c s)
  | _ => None
  end.

(** The disks a process may stop with: as it is, or as it was after one of
    the system calls of a guard operation some call is about to perform. *)
Inductive stop_disk (rt : runtime) : disk -> Prop :=
| stop_between : stop_disk rt (fs_disk (w_fs (rt_world rt)))
| stop_inside from req asked X (e : event X) k o faults names r g1 s1 dm :
    LiveCall from req asked (Do e k) ∈ rt_calls rt -> op_of e = Some o ->
    run_op o (w_guard (rt_world rt), Fs (fs_disk (w_fs (rt_world rt))) faults names []) = (r, (g1, s1)) ->
    dm ∈ fs_trace s1 -> stop_disk rt dm.

(** The consensus part of a process that has just started. *)
Inductive fresh_consensus : consensus -> Prop :=
| fresh_off : fresh_consensus None
| fresh_clients targets s :
    (forall a, s_arbiter s = Some a -> primary a = []) -> fresh_consensus (Some (start_clients targets s)).

(** [Stop]: from here [GracefulStop] lets no call begin and waits for those
    in progress. *)
Definition Stop (rt : runtime) : runtime :=
  let '(Runtime srv w cs calls _ rl rp) := rt in
  Runtime srv (add_lines [AuditShutdown] w) cs calls true rl rp.

(** Arrivals, a call's own steps, the dial clients' steps, [Stop], changes to
    other files, restarts. *)
Inductive rlabel := RArrive | RCall | RClient | RStop | RElsewhere | RBoot.

Inductive rt_step : rlabel -> runtime -> runtime -> Prop :=
| rs_arrive srv w cs calls rl rp from req :
    request_ok req ->
    rt_step RArrive (Runtime srv w cs calls false rl rp)
      (Runtime srv w cs (LiveCall from req None (p_serve srv from req) :: calls) false rl rp)
| rs_event srv w cs l1 l2 st rl rp from req asked X (e : event X) k faults names x w' :
    perform (elected cs) e (set_env faults names w) = (x, w') ->
    rt_step RCall
      (Runtime srv w cs (l1 ++ LiveCall from req asked (Do e k) :: l2) st rl rp)
      (Runtime srv w' cs (l1 ++ LiveCall from req (asked_after cs e asked) (k x) :: l2) st
         (released_by srv (LiveCall from req asked (Do e k)) e x ++ rl) rp)
| rs_return srv w cs l1 l2 st rl rp from req asked r :
    rt_step RCall
      (Runtime srv w cs (l1 ++ LiveCall from req asked (Done r) :: l2) st rl rp)
      (Runtime srv w cs (l1 ++ l2) st rl ((req, r) :: rp))
| rs_client srv w x calls st rl rp l x' :
    sys_step next chainID l x x' ->
    rt_step RClient (Runtime srv w (Some x) calls st rl rp) (Runtime srv w (Some x') calls st rl rp)
| rs_stop rt : rt_stopping rt = false -> rt_step RStop rt (Stop rt)
| rs_elsewhere srv w cs calls st rl rp d' :
    elsewhere path (fs_disk (w_fs w)) d' ->
    rt_step RElsewhere (Runtime srv w cs calls st rl rp)
      (Runtime srv (World (w_guard w) (fresh_fs d') (w_backend w) (w_log w) (w_lines w)) cs calls st rl rp)
| rs_restart rt dm d' cfg b s0 srv' g' b' s' cs' :
    stop_disk rt dm -> survives dm d' -> elsewhere path d' (fs_disk s0) ->
    CheckpointGuardStatePath cfg = path ->
    New cfg b s0 = (Ok (srv', g', b'), s') ->
    fresh_consensus cs' ->
    rt_step RBoot rt
      (Runtime srv' (World g' s' b' (w_log (rt_world rt)) (w_lines (rt_world rt))) cs' [] false
         (rt_released rt) (rt_replies rt)).

(** First start: the guard file is absent or holds a bare mark. *)
Inductive rt_boot : runtime -> Prop :=
| rt_boot_intro s0 cfg b srv g b' s cs lines :
    wf_path (fs_disk s0) path ->
    (forall c, crash_content (fs_disk s0) path c ->
       exists hw, is_u64 hw /\ content_guard path c = Ok (Guard path hw true None None)) ->
    CheckpointGuardStatePath cfg = path ->
    New cfg b s0 = (Ok (srv, g, b'), s) ->
    fresh_consensus cs ->
    rt_boot (Runtime srv (World g s b' [] lines) cs [] false [] []).

Definition rt_next (x y : runtime) : Prop := exists l, rt_step l x y.
Definition rt_reachable (rt : runtime) : Prop := exists rt0, rt_boot rt0 /\ rtc rt_next rt0 rt.

(** ** Refinement of the guard's system *)

(** The handler of [GuardSystem] a call is, when it is past the guard. *)
Definition thread_of (req : request) (pr : progress) : option thread :=
  match req, pr with
  | CheckpointRequest r, MaySign => Some (Granted (ValidatorTimestamp r) (ExpectedCheckpoint r))
  | CheckpointRequest r, Holding sig => Some (Signed (ValidatorTimestamp r) (ExpectedCheckpoint r) sig)
  | _, _ => None
  end.

(** The checkpoint signatures among those released. *)
Definition entry_of (x : released) : option entry :=
  match rl_request x with
  | CheckpointRequest r => Some (ValidatorTimestamp r, ExpectedCheckpoint r, rl_signature x)
  | _ => None
  end.

(** The answer to the call's question let it through. *)
Definition was_admitted (from : option bytes) (req : request) (asked : option consensus) : Prop :=
  ungated req = true \/ exists cs, asked = Some cs /\ gate_open (elected cs) from req = true.

Definition consensus_ok (cs : consensus) : Prop := forall x, cs = Some x -> sys_ok x.

Record call_ok (srv : Server) (rp : list entry) (c : live_call) (st : cstate) : Prop := {
  co_request : request_ok (lc_request c);
  co_proc : wp (P := call_protocol srv (lc_from c) (lc_request c)) st (lc_proc c) (call_post (lc_request c));
  co_admitted : admitted st = true -> was_admitted (lc_from c) (lc_request c) (lc_asked c);
  co_asked : forall cs, lc_asked c = Some cs -> consensus_ok cs;
  co_answered : forall r sig, lc_request c = CheckpointRequest r -> cs_progress st = Answered sig ->
    (ValidatorTimestamp r, ExpectedCheckpoint r, sig) ∈ rp;
}.

Record released_ok (x : released) : Prop := {
  ro_authorised : authorised (rl_server x) (rl_request x) (rl_digest x);
  ro_checkpoint : forall r, rl_request x = CheckpointRequest r -> rl_digest x = sha256_Sum256 (ExpectedCheckpoint r);
  ro_admitted : was_admitted (rl_from x) (rl_request x) (rl_asked x);
  ro_asked : forall cs, rl_asked x = Some cs -> consensus_ok cs;
}.

(** A successful reply to a checkpoint request is in [rp]. *)
Definition reply_ok (rp : list entry) (x : request * result response) : Prop :=
  forall r resp, x = (CheckpointRequest r, Ok resp) ->
    exists sig, resp = CheckpointResponse sig (ExpectedCheckpoint r) /\
      (ValidatorTimestamp r, ExpectedCheckpoint r, sig) ∈ rp.

Abbreviation tagged := (live_call * cstate)%type.
Definition tag_thread (x : tagged) : option thread := thread_of (lc_request (fst x)) (cs_progress (snd x)).
Definition tag_ok (srv : Server) (rp : list entry) (x : tagged) : Prop := call_ok srv rp (fst x) (snd x).

(** A state of the daemon and the state of [GuardSystem] it implements. *)
Record sim (rt : runtime) (gs : sys) : Prop := {
  sm_guard : sys_guard gs = w_guard (rt_world rt);
  sm_disk : sys_disk gs = fs_disk (w_fs (rt_world rt));
  sm_calls : exists l : list tagged, map fst l = rt_calls rt /\ Forall (tag_ok (rt_server rt) (GuardSystem.replies gs)) l /\
    threads gs ≡ₚ omap tag_thread l;
  sm_log : slog gs = omap entry_of (rt_released rt);
  sm_released : Forall released_ok (rt_released rt);
  sm_replies : Forall (reply_ok (GuardSystem.replies gs)) (rt_replies rt);
  sm_consensus : consensus_ok (rt_consensus rt);
}.

Lemma call_ok_mono srv rp rp' c st : rp ⊆ rp' -> call_ok srv rp c st -> call_ok srv rp' c st.
Proof using. intros Hs [H1 H2 H3 H4 H5]. split; eauto. Qed.

Lemma tag_ok_mono srv rp rp' l : rp ⊆ rp' -> Forall (tag_ok srv rp) l -> Forall (tag_ok srv rp') l.
Proof using. intros Hs H. eapply Forall_impl; [exact H|]. intros x. by apply call_ok_mono. Qed.

Lemma reply_ok_mono rp rp' l : rp ⊆ rp' -> Forall (reply_ok rp) l -> Forall (reply_ok rp') l.
Proof using.
  intros Hs H. eapply Forall_impl; [exact H|]. intros x Hx r resp ->. destruct (Hx r resp eq_refl) as (sig & ? & ?). eauto.
Qed.

(** The tagged list around one call. *)
Lemma tagged_split (l : list tagged) l1 c l2 :
  map fst l = l1 ++ c :: l2 ->
  exists t1 st t2, l = t1 ++ (c, st) :: t2 /\ map fst t1 = l1 /\ map fst t2 = l2.
Proof using.
  revert l1. induction l as [|[c0 st] l IH]; intros [|c1 l1] Hl; simpl in Hl; try done; injection Hl as -> Hl.
  - by exists [], st, l.
  - destruct (IH l1 Hl) as (t1 & st' & t2 & -> & <- & <-). by exists ((c1, st) :: t1), st', t2.
Qed.

Lemma omap_mid {A A'} (f : A -> option A') l1 x l2 y :
  f x = Some y -> omap f (l1 ++ x :: l2) ≡ₚ y :: omap f (l1 ++ l2).
Proof using. intros Hf. rewrite !omap_app. cbn. rewrite Hf. by rewrite Permutation_middle. Qed.

Lemma omap_mid_None {A A'} (f : A -> option A') l1 x l2 :
  f x = None -> omap f (l1 ++ x :: l2) = omap f (l1 ++ l2).
Proof using. intros Hf. rewrite !omap_app. cbn. by rewrite Hf. Qed.

Lemma omap_swap {A A'} (f : A -> option A') l1 x y l2 :
  f x = f y -> omap f (l1 ++ x :: l2) = omap f (l1 ++ y :: l2).
Proof using. intros Hf. rewrite !omap_app. cbn. by rewrite Hf. Qed.

(** A thread of a call is one of the guard system's. *)
Lemma thread_split (ths : list thread) t rest :
  ths ≡ₚ t :: rest -> exists l1 l2, ths = l1 ++ t :: l2 /\ l1 ++ l2 ≡ₚ rest.
Proof using.
  intros Hp. assert (Hin : t ∈ ths) by (rewrite Hp; left).
  apply list_elem_of_split in Hin as (l1 & l2 & ->). exists l1, l2. split; [done|].
  apply (Permutation_cons_inv (a := t)). by rewrite Permutation_middle.
Qed.

(** What has to be checked of one event of one call. *)
Lemma sim_update srv w cs (t1 t2 : list tagged) stp rl rp from req asked {X} (e : event X) k st0 x w0 w' gs gs' :
  let c := LiveCall from req asked (Do e k) in
  let st1 := call_next from req st0 e x in
  sim (Runtime srv w cs (map fst t1 ++ c :: map fst t2) stp rl rp) gs ->
  perform (elected cs) e w0 = (x, w') ->
  Forall (tag_ok srv (GuardSystem.replies gs)) (t1 ++ (c, st0) :: t2) ->
  GuardSystem.replies gs ⊆ GuardSystem.replies gs' ->
  sys_guard gs' = w_guard w' -> sys_disk gs' = fs_disk (w_fs w') ->
  (forall c', lc_request c' = req -> threads gs' ≡ₚ omap tag_thread (t1 ++ (c', st1) :: t2)) ->
  slog gs' = omap entry_of (released_by srv c e x ++ rl) ->
  (forall r sig, req = CheckpointRequest r -> cs_progress st1 = Answered sig -> cs_progress st0 <> Answered sig ->
     (ValidatorTimestamp r, ExpectedCheckpoint r, sig) ∈ GuardSystem.replies gs') ->
  sim (Runtime srv w' cs (map fst t1 ++ LiveCall from req (asked_after cs e asked) (k x) :: map fst t2) stp
         (released_by srv c e x ++ rl) rp) gs'.
Proof using.
  intros c st1 Hs Hpf Hl Hrp Hg Hd Hth Hlog Hans.
  rewrite Forall_app, Forall_cons in Hl. destruct Hl as (Hl1 & Hc & Hl2).
  destruct Hc as [Hq [Ha Hk] Hadm Hask Hanw]. cbn [lc_request lc_from lc_asked lc_proc fst snd] in *.
  destruct Hs as [_ _ _ _ Hrel Hrep Hcs]. cbn [rt_world rt_server rt_calls rt_released rt_replies rt_consensus] in *.
  split; cbn [rt_world rt_server rt_calls rt_released rt_replies rt_consensus]; try done.
  - exists (t1 ++ (LiveCall from req (asked_after cs e asked) (k x), st1) :: t2).
    split; [by rewrite map_app|]. split; [|by apply Hth].
    rewrite Forall_app, Forall_cons. split; [by eapply tag_ok_mono|]. split; [|by eapply tag_ok_mono].
    split; cbn [lc_request lc_from lc_asked lc_proc fst snd]; [done|apply Hk|..].
    + intros Had. destruct e; cbn in Had |- *; try by apply Hadm.
      cbn in Hpf. injection Hpf as <- _. right. by exists cs.
    + intros cs0. destruct e; cbn; try by apply Hask. by intros [= <-].
    + intros r sig Hr Hp. destruct (decide (cs_progress st0 = Answered sig)) as [Hp0|]; [|by eapply Hans].
      apply Hrp. by apply (Hanw r sig).
  - apply Forall_app. split; [|done]. destruct e; cbn in *; try constructor.
    destruct x as [sig| |]; constructor; [|constructor]. destruct Ha as (Had & Hau & Hck).
    split; cbn; [done| |by apply Hadm|done]. intros r ->. by destruct Hck.
  - by eapply reply_ok_mono.
Qed.

(** A step of [GuardSystem] from any state, by its fields. *)
Lemma sys_eta gs :
  gs = Sys (sys_guard gs) (sys_disk gs) (threads gs) (slog gs) (GuardSystem.replies gs).
Proof using. by destruct gs. Qed.

(** The guard operations read and write the disk the system is in. *)
Lemma call_guard_env {A} (m : ST gfs A) faults names (w : world B) r w' :
  call_guard m (set_env faults names w) = (r, w') ->
  exists s', m (w_guard w, Fs (fs_disk (w_fs w)) faults names []) = (r, (w_guard w', s')) /\ w_fs w' = s'.
Proof using.
  unfold call_guard, set_env. cbn. destruct (m _) as [r1 [g s]]. intros [= <- <-]. by exists s.
Qed.

Lemma checkpoint_32 srv r : checkpoint_facts srv r (ExpectedCheckpoint r) -> length (ExpectedCheckpoint r) = 32%nat.
Proof using. intros H. pose proof (cf_ckpt_len _ _ _ H) as Hl. unfold len in Hl. lia. Qed.

Definition is_checkpoint (req : request) : option SignBridgeCheckpointRequest :=
  match req with CheckpointRequest r => Some r | _ => None end.

(** A granted handler asks the backend. *)
Lemma sign_step gs r l1 l2 (x : result bytes) :
  threads gs = l1 ++ Granted (ValidatorTimestamp r) (ExpectedCheckpoint r) :: l2 ->
  exists gs', step path gs gs' /\ sys_guard gs' = sys_guard gs /\ sys_disk gs' = sys_disk gs /\
    GuardSystem.replies gs' = GuardSystem.replies gs /\
    threads gs' = match thread_of (CheckpointRequest r) (after_sign MaySign x) with
                  | Some t => l1 ++ t :: l2
                  | None => l1 ++ l2
                  end /\
    slog gs' = match x with
               | Ok sig => (ValidatorTimestamp r, ExpectedCheckpoint r, sig) :: slog gs
               | _ => slog gs
               end.
Proof using.
  intros El. destruct gs as [g d ths lg rp]. cbn in El. subst ths.
  destruct x as [sig|e|]; cbn [after_sign]; eexists.
  - split; [apply (step_sign _ _ _ _ _ _ _ _ _ sig)|]. by destruct (len sig =? 64).
  - split; [apply step_drop|done].
  - split; [apply step_drop|done].
Qed.

(** One call, in a state that implements one of the guard system's. *)
Section OneCall.
Context (srv : Server) (w : world B) (cs : consensus) (t1 t2 : list tagged) (stp : bool).
Context (rl : list released) (rp : list (request * result response)).
Context (from : option bytes) (req : request) (asked : option consensus) (st0 : cstate).
Context (faults : list fault) (names : list bytes) (w' : world B) (gs : sys).

Definition before {X} (e : event X) (k : X -> proc response) : runtime :=
  Runtime srv w cs (map fst t1 ++ LiveCall from req asked (Do e k) :: map fst t2) stp rl rp.
Definition after {X} (e : event X) (k : X -> proc response) (x : X) : runtime :=
  Runtime srv w' cs (map fst t1 ++ LiveCall from req (asked_after cs e asked) (k x) :: map fst t2) stp
    (released_by srv (LiveCall from req asked (Do e k)) e x ++ rl) rp.

(** The call performs [e] and is answered [x]. *)
Record performs {X} (e : event X) (k : X -> proc response) (x : X) : Prop := {
  pf_sim : sim (before e k) gs;
  pf_perform : perform (elected cs) e (set_env faults names w) = (x, w');
  pf_tags : Forall (tag_ok srv (GuardSystem.replies gs)) (t1 ++ (LiveCall from req asked (Do e k), st0) :: t2);
  pf_threads : threads gs ≡ₚ omap tag_thread (t1 ++ (LiveCall from req asked (Do e k), st0) :: t2);
}.

Lemma pf_call {X} (e : event X) k x : performs e k x -> request_ok req /\ call_allowed srv req st0 e.
Proof using.
  intros [_ _ Hok _]. rewrite Forall_app, Forall_cons in Hok. destruct Hok as (_ & Hc & _).
  by destruct Hc as [Hq [Ha _] _ _ _].
Qed.

(** An event the guard system does not see. *)
Lemma sim_quiet {X} (e : event X) k x :
  performs e k x ->
  w_guard w' = w_guard w -> fs_disk (w_fs w') = fs_disk (w_fs w) ->
  thread_of req (cs_progress (call_next from req st0 e x)) = thread_of req (cs_progress st0) ->
  (forall r sig, req = CheckpointRequest r -> cs_progress (call_next from req st0 e x) = Answered sig ->
     cs_progress st0 = Answered sig) ->
  omap entry_of (released_by srv (LiveCall from req asked (Do e k)) e x) = [] ->
  exists gs', rtc (step path) gs gs' /\ sim (after e k x) gs'.
Proof using.
  intros [Hs Hpf Hok Hth] Eg Ed Et Ea Er. pose proof Hs as [Hg Hd _ Hlog _ _ _].
  cbn [before rt_world rt_released] in *. exists gs. split; [done|].
  eapply (sim_update srv w cs t1 t2); [exact Hs|exact Hpf|exact Hok|done|congruence|congruence|..].
  - intros c' Ec. rewrite Hth. erewrite omap_swap; [done|]. unfold tag_thread. cbn. by rewrite Ec, Et.
  - by rewrite omap_app, Er.
  - intros r sig Hr H1 H2. destruct H2. by eapply Ea.
Qed.

Lemma sim_advance ts k x : performs (EvCheckAndAdvance ts) k x ->
  exists gs', rtc (step path) gs gs' /\ sim (after (EvCheckAndAdvance ts) k x) gs'.
Proof using.
  intros Hp. destruct (pf_call _ _ _ Hp) as [Hq (Had & Hny & r & Hr & -> & Hcf)].
  destruct Hp as [Hs Hpf Hok Hth]. pose proof Hs as [Hg Hd _ Hlog _ _ _]. cbn [before rt_world rt_released] in *.
  pose proof Hpf as Hcg. cbn [perform] in Hcg. apply call_guard_env in Hcg as (s' & Hca & Hfs).
  assert (Hadv : step path gs (Sys (w_guard w') (fs_disk s')
    (if is_ok x then Granted (ValidatorTimestamp r) (ExpectedCheckpoint r) :: threads gs else threads gs)
    (slog gs) (GuardSystem.replies gs))).
  { rewrite (sys_eta gs) at 1. rewrite Hg, Hd. eapply step_advance; [|by eapply checkpoint_32|exact Hca].
    by rewrite Hr in Hq. }
  eexists. split; [by apply rtc_once|].
  eapply (sim_update srv w cs t1 t2);
    [exact Hs|exact Hpf|exact Hok|done|done|by rewrite Hfs| |exact Hlog|].
  - intros c' Ec. cbn [threads]. destruct (is_ok x) eqn:Ex; rewrite Hth.
    + rewrite (omap_mid tag_thread t1 (c', _) t2 (Granted (ValidatorTimestamp r) (ExpectedCheckpoint r))).
      2: { unfold tag_thread. cbn. by rewrite Ec, Hr, Ex. }
      rewrite omap_mid_None; [done|]. unfold tag_thread. cbn. by rewrite Hr, Hny.
    + erewrite omap_swap; [done|]. unfold tag_thread. cbn. by rewrite Ec, Ex.
  - intros r0 sig _. cbn. rewrite Hny. by destruct (is_ok x).
Qed.

Lemma sim_cached ts ck k x : performs (EvCachedSignature ts ck) k x ->
  exists gs', rtc (step path) gs gs' /\ sim (after (EvCachedSignature ts ck) k x) gs'.
Proof using.
  intros Hp. destruct (pf_call _ _ _ Hp) as [_ (Hny & r & Hr & -> & ->)].
  pose proof Hp as [Hs Hpf Hok Hth]. pose proof Hs as [Hg Hd _ Hlog _ _ _]. cbn [before rt_world rt_released] in *.
  cbn [perform] in Hpf. injection Hpf as Hx Hw. destruct x as [sig|].
  - assert (Hc : step path gs (Sys (sys_guard gs) (sys_disk gs) (threads gs) (slog gs)
      ((ValidatorTimestamp r, ExpectedCheckpoint r, sig) :: GuardSystem.replies gs))).
    { rewrite (sys_eta gs) at 1. apply step_cached. by rewrite Hg, <-Hx. }
    eexists. split; [by apply rtc_once|].
    eapply (sim_update srv w cs t1 t2);
      [exact Hs|apply Hp|exact Hok|by intros e He; right|by rewrite <-Hw|by rewrite <-Hw| |exact Hlog|].
    + intros c' Ec. cbn [threads]. rewrite Hth. erewrite omap_swap; [done|].
      unfold tag_thread. cbn. by rewrite Ec, Hr, Hny.
    + intros r0 sig0 Hr0 [= <-] _. rewrite Hr in Hr0. injection Hr0 as <-. left.
  - apply sim_quiet; try done; by rewrite <-Hw.
Qed.

Lemma sim_record ts ck sig k x : performs (EvRecordSignature ts ck sig) k x ->
  exists gs', rtc (step path) gs gs' /\ sim (after (EvRecordSignature ts ck sig) k x) gs'.
Proof using.
  intros Hp. destruct (pf_call _ _ _ Hp) as [_ (Hho & r & Hr & -> & ->)].
  destruct Hp as [Hs Hpf Hok Hth]. pose proof Hs as [Hg Hd _ Hlog _ _ _]. cbn [before rt_world rt_released] in *.
  pose proof Hpf as Hcg. cbn [perform] in Hcg. apply call_guard_env in Hcg as (s' & Hca & Hfs).
  destruct (thread_split (threads gs) (Signed (ValidatorTimestamp r) (ExpectedCheckpoint r) sig)
              (omap tag_thread (t1 ++ t2))) as (l1 & l2 & El & Hrest).
  { rewrite Hth. apply omap_mid. unfold tag_thread. cbn. by rewrite Hr, Hho. }
  assert (Hrec : step path gs (Sys (w_guard w') (fs_disk s') (l1 ++ l2) (slog gs)
    ((ValidatorTimestamp r, ExpectedCheckpoint r, sig) :: GuardSystem.replies gs))).
  { rewrite (sys_eta gs) at 1. rewrite El, Hg, Hd. by eapply step_record. }
  eexists. split; [by apply rtc_once|].
  eapply (sim_update srv w cs t1 t2);
    [exact Hs|exact Hpf|exact Hok|by intros e He; right|done|by rewrite Hfs| |exact Hlog|].
  - intros c' Ec. cbn [threads]. rewrite Hrest, omap_mid_None; [done|]. unfold tag_thread. cbn. by rewrite Ec, Hr.
  - intros r0 sig0 Hr0 [= <-] _. rewrite Hr in Hr0. injection Hr0 as <-. left.
Qed.
Lemma sim_sign d k x : performs (EvSignRaw d) k x ->
  exists gs', rtc (step path) gs gs' /\ sim (after (EvSignRaw d) k x) gs'.
Proof using.
  intros Hp. destruct (pf_call _ _ _ Hp) as [_ (_ & _ & Hck)].
  pose proof Hp as [Hs Hpf Hok Hth]. pose proof Hs as [Hg Hd _ Hlog _ _ _]. cbn [before rt_world rt_released] in *.
  assert (Hw : w_guard w' = w_guard w /\ fs_disk (w_fs w') = fs_disk (w_fs w)).
  { cbn [perform] in Hpf. unfold call_SignRaw, set_env in Hpf. cbn in Hpf.
    destruct (Signer.SignRaw d (w_backend w)). by injection Hpf as <- <-. }
  destruct Hw as [Eg Ed]. destruct (is_checkpoint req) as [r|] eqn:Hi.
  2: { assert (Hn : forall r, req <> CheckpointRequest r) by (intros r Hr; by rewrite Hr in Hi).
       apply sim_quiet; try done.
       - unfold thread_of. by destruct req as [| | | | | |r| |]; [..|destruct (Hn r)| |].
       - intros r sig Hr. by destruct (Hn r).
       - unfold released_by, entry_of. destruct x; [|done..]. cbn.
         by destruct req as [| | | | | |r| |]; [..|destruct (Hn r)| |]. }
  assert (Hr : req = CheckpointRequest r) by (destruct req; cbn in Hi; congruence).
  assert (Hck' : cs_progress st0 = MaySign) by (rewrite Hr in Hck; apply Hck).
  destruct (thread_split (threads gs) (Granted (ValidatorTimestamp r) (ExpectedCheckpoint r))
              (omap tag_thread (t1 ++ t2))) as (l1 & l2 & El & Hrest).
  { rewrite Hth. apply omap_mid. unfold tag_thread. cbn. by rewrite Hr, Hck'. }
  destruct (sign_step gs r l1 l2 x El) as (gs' & Hst & G1 & G2 & G3 & G4 & G5).
  exists gs'. split; [by apply rtc_once|].
  eapply (sim_update srv w cs t1 t2);
    [exact Hs|exact Hpf|exact Hok|by rewrite G3|by rewrite G1, Hg|by rewrite G2, Hd|..].
  - intros c' Ec. rewrite G4. cbn [call_next cs_progress].
    destruct (thread_of (CheckpointRequest r) (after_sign MaySign x)) as [t|] eqn:Et.
    + rewrite (omap_mid tag_thread t1 (c', _) t2 t), <-Hrest, Permutation_middle; [done|].
      unfold tag_thread. cbn. by rewrite Ec, Hr, Hck'.
    + rewrite omap_mid_None, <-Hrest; [done|]. unfold tag_thread. cbn. by rewrite Ec, Hr, Hck'.
  - rewrite G5, omap_app, Hlog. unfold released_by, entry_of. destruct x; cbn; by rewrite ?Hr.
  - intros r0 sig _. cbn. rewrite Hck'. cbn. by repeat case_match.
Qed.
End OneCall.

Lemma sim_event srv w cs l1 l2 stp rl rp from req asked {X} (e : event X) k faults names x w' gs :
  sim (Runtime srv w cs (l1 ++ LiveCall from req asked (Do e k) :: l2) stp rl rp) gs ->
  perform (elected cs) e (set_env faults names w) = (x, w') ->
  exists gs', rtc (step path) gs gs' /\
    sim (Runtime srv w' cs (l1 ++ LiveCall from req (asked_after cs e asked) (k x) :: l2) stp
           (released_by srv (LiveCall from req asked (Do e k)) e x ++ rl) rp) gs'.
Proof using.
  intros Hs Hpf. pose proof Hs as [_ _ (l & Hl & Hok & Hth) _ _ _ _].
  cbn [rt_server rt_calls] in *. apply tagged_split in Hl as (t1 & st0 & t2 & -> & <- & <-).
  assert (Hp : performs srv w cs t1 t2 stp rl rp from req asked st0 faults names w' gs e k x) by done.
  assert (Hw : op_of e = None -> w_guard w' = w_guard w /\ fs_disk (w_fs w') = fs_disk (w_fs w)).
  { intros Ho. destruct e; try discriminate Ho; cbn [perform] in Hpf;
      unfold call_signer, call_SignRaw, set_env in Hpf; cbn in Hpf; repeat case_match; by injection Hpf as <- <-. }
  destruct e; try (destruct (Hw eq_refl); by eapply sim_quiet).
  - by eapply sim_sign.
  - by eapply sim_advance.
  - by eapply sim_cached.
  - by eapply sim_record.
Qed.

(** A call that is over leaves the guard system's handlers. *)
Lemma sim_return srv w cs l1 l2 stp rl rp from req asked r gs :
  sim (Runtime srv w cs (l1 ++ LiveCall from req asked (Done r) :: l2) stp rl rp) gs ->
  exists gs', rtc (step path) gs gs' /\
    sim (Runtime srv w cs (l1 ++ l2) stp rl ((req, r) :: rp)) gs'.
Proof using.
  intros [Hg Hd (l & Hl & Hok & Hth) Hlog Hrel Hrep Hcs]. cbn in *.
  apply tagged_split in Hl as (t1 & st0 & t2 & -> & <- & <-).
  rewrite Forall_app, Forall_cons in Hok. destruct Hok as (Hok1 & Hc & Hok2).
  assert (Hr : reply_ok (GuardSystem.replies gs) (req, r)).
  { intros q resp [= -> ->]. destruct Hc as [_ (sig & -> & Hp) _ _ Ha]. exists sig. split; [done|]. by apply Ha. }
  assert (Hend : forall gs', sys_guard gs' = sys_guard gs -> sys_disk gs' = sys_disk gs ->
    slog gs' = slog gs -> GuardSystem.replies gs' = GuardSystem.replies gs ->
    threads gs' ≡ₚ omap tag_thread (t1 ++ t2) ->
    sim (Runtime srv w cs (map fst t1 ++ map fst t2) stp rl ((req, r) :: rp)) gs').
  { intros gs' E1 E2 E3 E4 E5. split; cbn; rewrite ?E1, ?E2, ?E3, ?E4; try done; [|by constructor].
    exists (t1 ++ t2). rewrite map_app, Forall_app. done. }
  destruct (tag_thread (LiveCall from req asked (Done r), st0)) as [t|] eqn:Et.
  - destruct (thread_split (threads gs) t (omap tag_thread (t1 ++ t2))) as (k1 & k2 & El & Hrest).
    { rewrite Hth. by apply omap_mid. }
    assert (Hdrop : step path gs (Sys (sys_guard gs) (sys_disk gs) (k1 ++ k2) (slog gs) (GuardSystem.replies gs))).
    { rewrite (sys_eta gs) at 1. rewrite El. apply step_drop. }
    eexists. split; [by apply rtc_once|]. by apply Hend.
  - exists gs. split; [done|]. apply Hend; try done. rewrite Hth. by rewrite omap_mid_None.
Qed.

Lemma fresh_ok cs : fresh_consensus cs -> consensus_ok cs.
Proof using. intros [|targets s Ha] x Hx; [done|]. injection Hx as <-. by apply sys_ok_start. Qed.

(** The disks a process may stop with are those of the guard system. *)
Lemma sim_stop rt dm gs d' faults names g' s' :
  sim rt gs -> stop_disk rt dm -> survives dm d' ->
  newCheckpointReplayGuard path (Fs d' faults names []) = (Ok g', s') ->
  step path gs (Sys g' (fs_disk s') [] (slog gs) (GuardSystem.replies gs)).
Proof using.
  intros [Hg Hd (l & Hl & Hok & Hth) _ _ _ _] Hsd Hsv Hn. rewrite (sys_eta gs) at 1. rewrite Hg, Hd.
  destruct Hsd as [|from req asked X e k o fa na r g1 s1 dm Hin Ho Hrun Hm]; [by eapply step_restart|].
  eapply step_restart_mid; [|exact Hrun|exact Hm|exact Hsv|exact Hn].
  rewrite <-Hl in Hin. apply list_elem_of_fmap in Hin as ([c st] & Ec & Hin). cbn in Ec. subst c.
  rewrite Forall_forall in Hok. destruct (Hok _ Hin) as [Hq [Ha _] _ _ _]. cbn [lc_request fst snd lc_from lc_proc] in *.
  destruct e; try discriminate Ho; injection Ho as <-.
  - destruct Ha as (_ & _ & q & -> & -> & _). exact Hq.
  - destruct Ha as (Hho & q & -> & -> & ->). cbn [op_enabled]. rewrite Hth.
    apply list_elem_of_omap. exists (LiveCall from (CheckpointRequest q) asked
      (Do (EvRecordSignature (ValidatorTimestamp q) (ExpectedCheckpoint q) sig) k), st).
    split; [done|]. unfold tag_thread. cbn. by rewrite Hho.
Qed.

Lemma sim_step l rt rt' gs :
  rt_step l rt rt' -> sim rt gs -> exists gs', rtc (step path) gs gs' /\ sim rt' gs'.
Proof using.
  intros Hst Hs. destruct Hst as [srv w cs calls rl rp from req Hq| | |srv w x calls st rl rp l x' Hc|rt Hst0
    |srv w cs calls st rl rp d' He|rt dm d' cfg b s0 srv' g' b' s' cs' Hsd Hsv He Hp Hn Hf].
  - exists gs. split; [done|]. destruct Hs as [H1 H2 (t & Ht & Hok & Hth) H4 H5 H6 H7]. split; try done.
    exists ((LiveCall from req None (p_serve srv from req), CState (ungated req) NotYet) :: t). cbn in *.
    split; [by rewrite Ht|]. split; [|by destruct req].
    constructor; [|done]. split; cbn; try done; [apply wp_serve|by left].
  - by eapply sim_event.
  - by eapply sim_return.
  - exists gs. split; [done|]. destruct Hs as [H1 H2 H3 H4 H5 H6 H7]. split; try done.
    cbn in *. intros y [= <-]. eapply sys_ok_step; [by apply H7|exact Hc].
  - exists gs. split; [done|]. destruct rt as [srv w cs calls st rl rp]. by destruct Hs as [H1 H2 H3 H4 H5 H6 H7].
  - exists (Sys (sys_guard gs) d' (threads gs) (slog gs) (GuardSystem.replies gs)).
    destruct Hs as [H1 H2 H3 H4 H5 H6 H7]. split; [|done]. apply rtc_once. rewrite (sys_eta gs) at 1.
    apply step_elsewhere. by rewrite H2.
  - apply New_inv in Hn as (pk & pub & _ & _ & Hn & _). rewrite Hp in Hn.
    pose proof He as (_ & Hco & Hdi & _).
    destruct (load_elsewhere _ _ _ _ d' Hn) as [Es (s2 & Hn2 & E2)]; [done|tauto|].
    eexists. split; [eapply rtc_l; [by eapply sim_stop|apply rtc_once; apply step_elsewhere; by rewrite E2]|].
    destruct Hs as [H1 H2 H3 H4 H5 H6 H7]. split; try done; [by exists []|by apply fresh_ok].
Qed.

Lemma sim_boot rt : rt_boot rt -> exists gs, boot path gs /\ sim rt gs.
Proof using.
  intros [s0 cfg b srv g b' s cs lines Hw Hc Hp Hn Hf].
  apply New_inv in Hn as (pk & pub & _ & _ & Hn & _). rewrite Hp in Hn.
  destruct (load_elsewhere _ _ _ _ (fs_disk s0) Hn) as [Es (s2 & Hn2 & E2)]; [done|done|].
  exists (Sys g (fs_disk s2) [] [] []). split; [by eapply boot_intro|].
  split; try done; [by cbn; rewrite E2, Es|by exists []|by apply fresh_ok].
Qed.

Lemma sim_reachable rt :
  rt_reachable rt -> exists gs, reachable path gs /\ sim rt gs.
Proof using.
  intros (rt0 & Hb & Hr). apply sim_boot in Hb as (gs0 & Hb & Hs).
  assert (Hx : exists gs, rtc (step path) gs0 gs /\ sim rt gs).
  { clear Hb. revert gs0 Hs. induction Hr as [|x y z [l Hxy] _ IH]; intros gs0 Hs; [by exists gs0|].
    destruct (sim_step _ _ _ _ Hxy Hs) as (gs1 & H1 & Hs1). destruct (IH gs1 Hs1) as (gs & H2 & Hz).
    exists gs. split; [by etrans|done]. }
  destruct Hx as (gs & H1 & H2). exists gs. split; [by exists gs0|done].
Qed.

(** ** Properties *)

(** (C14) The daemon implements the guard's system: whatever it has been
    through - concurrent calls of every method interleaved event by event,
    failing system calls, elections, kills, crashes and restarts under other
    configurations - its guard and its disk are those of a state the
    checkpoint system of the guard can reach, in which the signatures made
    are exactly the checkpoint signatures this daemon's backends released
    and every checkpoint reply given was given. *)
Theorem daemon_refines_guard rt :
  rt_reachable rt ->
  exists gs, reachable path gs /\
    sys_guard gs = w_guard (rt_world rt) /\ sys_disk gs = fs_disk (w_fs (rt_world rt)) /\
    slog gs = omap entry_of (rt_released rt) /\
    forall r resp, (CheckpointRequest r, Ok resp) ∈ rt_replies rt ->
      exists sig, resp = CheckpointResponse sig (ExpectedCheckpoint r) /\
        (ValidatorTimestamp r, ExpectedCheckpoint r, sig) ∈ GuardSystem.replies gs.
Proof using.
  intros Hr. destruct (sim_reachable rt Hr) as (gs & Hg & [H1 H2 _ H4 _ H6 _]). exists gs.
  split; [done|]. split; [done|]. split; [done|]. split; [done|].
  intros r resp Hin. rewrite Forall_forall in H6. by apply (H6 _ Hin).
Qed.

Lemma entry_elem ts ck sig (rl : list released) :
  (ts, ck, sig) ∈ omap entry_of rl ->
  exists x r, x ∈ rl /\ rl_request x = CheckpointRequest r /\ ts = ValidatorTimestamp r /\
    ck = ExpectedCheckpoint r /\ sig = rl_signature x.
Proof using.
  intros Hin. apply list_elem_of_omap in Hin as (x & Hx & He). unfold entry_of in He.
  destruct (rl_request x) as [| | | | | |r| |] eqn:Hr; try done. injection He as <- <- <-. by exists x, r.
Qed.

Lemma elem_entry x r (rl : list released) :
  x ∈ rl -> rl_request x = CheckpointRequest r ->
  (ValidatorTimestamp r, ExpectedCheckpoint r, rl_signature x) ∈ omap entry_of rl.
Proof using. intros Hx Hr. apply list_elem_of_omap. exists x. split; [done|]. unfold entry_of. by rewrite Hr. Qed.

(** (C2) No equivocation, over the whole life of the service: with any number
    of calls of every kind in progress at once, any interleaving, failing
    system calls, kills and crashes at any point and restarts - also with
    another configuration or key - the backend has released at most one
    signature for each validator timestamp; every digest it signed is one
    its request authorises; and every checkpoint signature ever given to a
    caller is the one released for that timestamp and checkpoint. *)
Theorem daemon_never_equivocates rt :
  path <> [] -> is_temp path = false -> rt_reachable rt ->
  NoDup (map entry_ts (omap entry_of (rt_released rt))) /\
  (forall x y r r', x ∈ rt_released rt -> y ∈ rt_released rt ->
     rl_request x = CheckpointRequest r -> rl_request y = CheckpointRequest r' ->
     ValidatorTimestamp r = ValidatorTimestamp r' ->
     rl_digest x = rl_digest y /\ rl_signature x = rl_signature y) /\
  Forall (fun x => authorised (rl_server x) (rl_request x) (rl_digest x)) (rt_released rt) /\
  (forall r resp, (CheckpointRequest r, Ok resp) ∈ rt_replies rt ->
     exists x r', x ∈ rt_released rt /\ rl_request x = CheckpointRequest r' /\
       ValidatorTimestamp r' = ValidatorTimestamp r /\ ExpectedCheckpoint r' = ExpectedCheckpoint r /\
       resp = CheckpointResponse (rl_signature x) (ExpectedCheckpoint r)).
Proof using.
  intros Hp Ht Hr. destruct (sim_reachable rt Hr) as (gs & Hg & [_ _ _ Hlog Hrel Hrep _]).
  destruct (inv_reachable path Hp Ht gs Hg) as [_ _ Hn _ Hrs].
  apply NoDup_app in Hn as (_ & _ & Hn). rewrite Hlog in Hn. rewrite Hlog in Hrs.
  rewrite Forall_forall in Hrel. rewrite Forall_forall in Hrep. rewrite Forall_forall in Hrs. split; [done|]. split; [|split].
  - intros x y r r' Hx Hy Hxr Hyr Ets.
    assert (Ee := NoDup_map_key entry_ts _ _ _ Hn (elem_entry x r _ Hx Hxr) (elem_entry y r' _ Hy Hyr) Ets).
    injection Ee as _ Eck Esig. split; [|done].
    by rewrite (ro_checkpoint _ (Hrel x Hx) r Hxr), (ro_checkpoint _ (Hrel y Hy) r' Hyr), Eck.
  - apply Forall_forall. intros x Hx. apply (Hrel x Hx).
  - intros r resp Hin. destruct (Hrep _ Hin r resp eq_refl) as (sig & -> & He).
    destruct (entry_elem _ _ _ _ (Hrs _ He)) as (x & r' & Hx & Hxr & E1 & E2 & ->). by exists x, r'.
Qed.

(** (C23) Vote extensions are signed for the connected primary: a checkpoint
    or attestation signature was released to a caller with a known address
    only after the call asked for the election, and if a primary was elected
    then, the caller's host is the primary's and the primary was a node one
    of the dial clients was connected to - whatever calls, clients and
    elections ran beside it. *)
Theorem vote_extensions_for_connected_primary rt x addr :
  rt_reachable rt -> x ∈ rt_released rt ->
  FullMethodName (rl_request x) ∈ primaryGatedRPCs -> rl_from x = Some addr ->
  exists cs, rl_asked x = Some cs /\
    forall y a, cs = Some y -> s_arbiter (sys_shared y) = Some a -> PrimaryHost a <> [] ->
      HostOf addr = PrimaryHost a /\
      exists c, c ∈ clients y /\ c_id c = primary a /\ serving c.
Proof using.
  intros Hr Hx Hm Hf. destruct (sim_reachable rt Hr) as (gs & _ & [_ _ _ _ Hrel _ _]).
  rewrite Forall_forall in Hrel. destruct (Hrel x Hx) as [_ _ Hadm Hask].
  destruct Hadm as [Hu|(cs & Ecs & Hgo)].
  { unfold ungated in Hu. by rewrite bool_decide_true in Hu. }
  exists cs. split; [done|]. intros y a -> Ha Hne. split.
  - revert Hgo. unfold gate_open, elected, primary_host. cbn. rewrite Ha, Hf. cbn.
    rewrite bool_decide_true by done. unfold beq. rewrite bool_decide_false by done. cbn.
    by intros ?%bool_decide_eq_true.
  - destruct (Hask _ Ecs y eq_refl) as (_ & _ & Hs). apply Hs; [|by exists a].
    intros E0. apply Hne. unfold PrimaryHost. by rewrite E0.
Qed.

End Runtime.

(** ** From startup *)

Section Started.
Context {C : Crypto} {E : GoEthereum} {L : NodeLib} {K : KeyringLib} {D : Type} {dsm : Dsm D}.
Context {T : CometBFT} {CK : CometKeys} {V : PrivVal FilePV} {X : TlsLib}.
Context (frac_ns : Z -> Z -> Z -> Z) (yaml_Unmarshal : bytes -> result Config.Config).
Context (stdin_tty : bool) (gen : bytes) (beside : nat -> fs -> fs) (next : @ValidationRequestHandlerFunc T FilePV).

(** What [runDaemon] has set up when it begins to serve. *)
Definition serving_daemon (d : daemon) (s : fs) : @runtime (@backend C D) T FilePV :=
  Runtime (dm_server d) (daemon_world d s) (cs_system <$> dm_consensus d) [] false [] [].

(** A daemon that starts on a disk whose guard file is absent or holds a bare
    mark begins in an initial state of the system: everything shown of
    reachable states holds of its life. *)
Theorem started_daemon_boots configPath s d s' :
  let path := Config.CheckpointGuardStatePath (dm_cfg d) in
  startDaemon frac_ns yaml_Unmarshal stdin_tty gen beside configPath s = (Ok (Some d), s') ->
  wf_path (fs_disk s') path ->
  (forall c, crash_content (fs_disk s') path c ->
     exists hw, is_u64 hw /\ content_guard path c = Ok (Guard path hw true None None)) ->
  rt_reachable next (Config.ChainID (dm_cfg d)) path (serving_daemon d s').
Proof using.
  intros path Hs Hw Hc. apply startDaemon_inv in Hs
    as (s1 & reg & b0 & s2 & b & pk & s3 & s4 & s5 & s6 & _ & _ & _ & _ & Hm & _ & _ & _ & Hn).
  pose proof Hn as Hl. apply New_inv in Hl as (_ & _ & _ & _ & Hl & _).
  destruct (load_elsewhere _ _ _ _ (fs_disk s6) Hl) as [Es _]; [done|done|].
  exists (serving_daemon d s'). split; [|done].
  eapply (rt_boot_intro _ s6 (server_config (dm_cfg d)) b); [rewrite <-Es; exact Hw|rewrite <-Es; exact Hc|done|exact Hn|].
  unfold maybe_consensus in Hm. destruct (Enabled _).
  - apply bind_inv in Hm as (c & s7 & Hm & Hr). injection Hr as <- _. cbn.
    apply start_consensus_inv in Hm as (? & ? & pv & tm & _ & _ & _ & _ & _ & ->).
    apply fresh_clients. cbn. intros a. unfold new_arbiter. destruct (tm >? 0); [|done]. by intros [= <-].
  - injection Hm as <- _. apply fresh_off.
Qed.
End Started.

(** ** A concrete run *)

#[local] Existing Instance reference_eth.
#[local] Existing Instance reference_crypto.
#[local] Existing Instance reference_node.
#[local] Existing Instance reference_comet.
#[local] Existing Instance reference_pv.

Section Drive.
Context {C : Crypto} {E : GoEthereum} {L : NodeLib} {B : Type} {S : Signer B}.
Context {T : CometBFT} {P : Type} {V : PrivVal P}.
Context (next : @ValidationRequestHandlerFunc T P) (chainID path : bytes).

(** The [i]th call takes a step, with no fault. *)
Definition run_nth (rt : @runtime B T P) (i : nat) : @runtime B T P :=
  let '(Runtime srv w cs calls st rl rp) := rt in
  match calls !! i with
  | Some (LiveCall from req asked p) =>
      match p with
      | Done r => Runtime srv w cs (take i calls ++ drop (Datatypes.S i) calls) st rl ((req, r) :: rp)
      | Do e k =>
          let '(x, w') := perform (elected cs) e (set_env [] [] w) in
          Runtime srv w' cs (take i calls ++ LiveCall from req (asked_after cs e asked) (k x) :: drop (Datatypes.S i) calls)
            st (released_by srv (LiveCall from req asked p) e x ++ rl) rp
      end
  | None => rt
  end.

Lemma run_nth_next (rt : @runtime B T P) i : rtc (rt_next next chainID path) rt (run_nth rt i).
Proof using.
  destruct rt as [srv w cs calls st rl rp]. cbn. destruct (calls !! i) as [[from req asked p]|] eqn:Ec; [|done].
  apply take_drop_middle in Ec. set (l1 := take i calls) in *. set (l2 := drop (Datatypes.S i) calls) in *.
  clearbody l1 l2. subst calls. destruct p as [r|X e k]; [apply rtc_once; eexists; apply rs_return|].
  destruct (perform (elected cs) e (set_env [] [] w)) as [x w'] eqn:Hp.
  apply rtc_once. eexists. by eapply rs_event.
Qed.

Definition drive (rt : @runtime B T P) (sched : list nat) : @runtime B T P := foldl run_nth rt sched.

Lemma drive_next sched (rt : @runtime B T P) : rtc (rt_next next chainID path) rt (drive rt sched).
Proof using.
  unfold drive. revert rt. induction sched as [|i sched IH]; intros rt; cbn; [done|].
  etrans; [apply run_nth_next|apply IH].
Qed.

(** The dial clients run. *)
Lemma clients_next n k (x y : system P) srv (w : world B) calls st rl rp :
  sys_run next chainID n k x y ->
  rtc (rt_next next chainID path) (Runtime srv w (Some x) calls st rl rp) (Runtime srv w (Some y) calls st rl rp).
Proof using.
  induction 1 as [|n k l x y z H1 _ IH]; [done|]. eapply rtc_l; [|exact IH]. eexists. by eapply rs_client.
Qed.
End Drive.

(** The daemon's own address is in the set. *)
Definition run_set : list BridgeValidator :=
  [PBValidator (take 20 gen_pk) 10; PBValidator (replicate 20 x02) 25].
Definition run_set_hash : bytes :=
  match encodeAndHashValidatorSet (sortBridgeValidators (map copied run_set)) with
  | Ok (_, h) => h | _ => [] end.
Definition run_checkpoint : bytes :=
  or_nil (encodeValsetCheckpoint sample_domain 23 1700000000001 run_set_hash).
Definition run_req (set : list BridgeValidator) : request :=
  CheckpointRequest (CheckpointReq sample_domain 23 1700000000001 run_set_hash set 100 7
    (bs "layertest-5") run_checkpoint (bs "req-1")).

Definition run_config : BridgeServer.Config :=
  BridgeServer.ServerConfig (bs "0.0.0.0:9191") 2000000000 4194304 [] (bs "layertest-5") sample_path ∅ false.
Definition run_start : result (Server * guard * FileSigner) * fs :=
  New run_config sample_file_signer (Fs sample_disk [] [] []).
Definition run_server : Server :=
  match fst run_start with Ok (srv, _, _) => srv | _ => sample_srv end.
Definition run_guard : guard := match fst run_start with Ok (_, g, _) => g | _ => sample_boot_guard end.
Definition run_signer : FileSigner := match fst run_start with Ok (_, _, b) => b | _ => sample_file_signer end.

Lemma run_started :
  New run_config sample_file_signer (Fs sample_disk [] [] []) = (Ok (run_server, run_guard, run_signer), snd run_start).
Proof.
  assert (H : is_ok (fst run_start) = true) by (vm_compute; reflexivity).
  unfold run_server, run_guard, run_signer, run_start in *.
  destruct (New _ _ _) as [[[[srv g] b]| |] s]; [reflexivity|discriminate H..].
Qed.

Definition peerA : option bytes := Some (bs "10.0.0.1:40000").

Definition run_boot : @runtime FileSigner reference_comet nat :=
  Runtime run_server (World run_guard (snd run_start) run_signer [] [])
    (Some (start_clients [nodeA; nodeB] sample_shared)) [] false [] [].

(** A is elected, and two calls for the same timestamp run at once: both are
    past the gate before the first is granted. *)
Definition run_arrived : @runtime FileSigner reference_comet nat :=
  Runtime run_server (World run_guard (snd run_start) run_signer [] [])
    (Some sample_system)
    [LiveCall peerA (run_req (rev run_set)) None (p_serve run_server peerA (run_req (rev run_set)));
     LiveCall peerA (run_req run_set) None (p_serve run_server peerA (run_req run_set))] false [] [].
Definition run_signed : @runtime FileSigner reference_comet nat :=
  drive run_arrived [0; 1; 1; 0; 1; 0; 0; 0; 0; 0; 0; 0; 0; 0]%nat.

Abbreviation run_reachable :=
  (rt_reachable (ValidationRequestHandler (V := reference_pv) []) (bs "tellor-1") sample_path).

Lemma run_boot_ok : rt_boot sample_path run_boot.
Proof.
  apply (rt_boot_intro sample_path (Fs sample_disk [] [] []) run_config sample_file_signer run_server run_guard
    run_signer (snd run_start)).
  - apply sample_wf.
  - intros c Hc. exists 100. split; [vm_compute; split; congruence|]. by rewrite (sample_content c Hc).
  - reflexivity.
  - apply run_started.
  - apply fresh_clients. intros a0 Ha0. injection Ha0 as <-. reflexivity.
Qed.

Lemma run_arrived_reachable : run_reachable run_arrived.
Proof.
  exists run_boot. split; [apply run_boot_ok|].
  destruct sample_system_reachable as (n & k & Hr).
  etrans; [exact (clients_next _ _ _ n k _ _ _ _ _ _ _ _ Hr)|].
  assert (Hu : request_ok (run_req run_set)) by (vm_compute; split; congruence).
  eapply rtc_l; [exists RArrive; apply (rs_arrive _ _ _ _ _ _ _ _ _ peerA (run_req run_set) Hu)|].
  apply rtc_once. exists RArrive. exact (rs_arrive _ _ _ _ _ _ _ _ _ peerA (run_req (rev run_set)) Hu).
Qed.

Lemma run_signed_reachable : run_reachable run_signed.
Proof.
  destruct run_arrived_reachable as (rt0 & Hb & Hr). exists rt0. split; [exact Hb|].
  etrans; [exact Hr|]. apply drive_next.
Qed.

(** What the run leaves: one signature, two answers. *)
Definition run_summary (rt : @runtime FileSigner reference_comet nat) :=
  (map (fun x => (rl_from x, rl_request x, rl_asked x)) (rt_released rt), length (rt_replies rt)).

Lemma summary_inv rt l n : run_summary rt = (l, n) ->
  map (fun x => (rl_from x, rl_request x, rl_asked x)) (rt_released rt) = l /\ length (rt_replies rt) = n.
Proof. by intros [= <- <-]. Qed.

Lemma run_computed : run_summary run_signed = ([(peerA, run_req run_set, Some (Some sample_system))], 2%nat).
Proof. vm_compute. reflexivity. Qed.

Lemma run_released : exists x, rt_released run_signed = [x] /\ rl_from x = peerA /\
  rl_request x = run_req run_set /\ rl_asked x = Some (Some sample_system).
Proof.
  destruct (summary_inv _ _ _ run_computed) as [H _].
  destruct (rt_released run_signed) as [|x [|y l]]; [discriminate H| |discriminate H].
  exists x. injection H as H1 H2 H3. done.
Qed.

Lemma daemon_refines_guard_witness :
  exists gs sig, reachable sample_path gs /\ slog gs = [(1700000000001, run_checkpoint, sig)].
Proof.
  destruct (daemon_refines_guard (ValidationRequestHandler (V := reference_pv) []) (bs "tellor-1") sample_path
    run_signed run_signed_reachable) as (gs & Hg & _ & _ & Hl & _).
  destruct run_released as (x & Hx & _ & Hr & _). exists gs, (rl_signature x). split; [exact Hg|].
  rewrite Hl, Hx. unfold entry_of. cbn. rewrite Hr. reflexivity.
Defined.

Lemma daemon_never_equivocates_witness :
  length (rt_replies run_signed) = 2%nat /\ length (rt_released run_signed) = 1%nat /\
  Forall (fun x => authorised (rl_server x) (rl_request x) (rl_digest x)) (rt_released run_signed).
Proof.
  split; [apply (summary_inv _ _ _ run_computed)|]. split; [destruct run_released as (x & Hx & _); rewrite Hx; reflexivity|].
  apply (daemon_never_equivocates (ValidationRequestHandler (V := reference_pv) []) (bs "tellor-1") sample_path
    run_signed); [discriminate|reflexivity|apply run_signed_reachable].
Defined.

Lemma vote_extensions_for_connected_primary_witness :
  exists x c, x ∈ rt_released run_signed /\ rl_from x = peerA /\ HostOf (bs "10.0.0.1:40000") = bs "10.0.0.1" /\
    c ∈ clients sample_system /\ c_id c = nodeA /\ serving c.
Proof.
  destruct run_released as (x & Hx & Hf & Hm & Ha).
  assert (Hin : x ∈ rt_released run_signed) by (rewrite Hx; left).
  destruct (vote_extensions_for_connected_primary (ValidationRequestHandler (V := reference_pv) []) (bs "tellor-1")
    sample_path run_signed x (bs "10.0.0.1:40000")) as (cs & Hcs & H).
  - apply run_signed_reachable.
  - exact Hin.
  - rewrite Hm. left.
  - exact Hf.
  - rewrite Ha in Hcs. injection Hcs as <-.
    destruct (H sample_system _ eq_refl eq_refl) as [_ (c & Hc & Hid & Hs)]; [vm_compute; discriminate|].
    exists x, c. split; [exact Hin|]. split; [exact Hf|]. split; [vm_compute; reflexivity|].
    split; [exact Hc|]. split; [rewrite Hid; vm_compute; reflexivity|exact Hs].
Defined.
